(** * QLD course scaling and aggregate-to-ATAR lookup: a shallow embedding

    Sources embedded here:
    - [atar scaling/build_lookup_final.py]: simulation of the aggregate
      curve, monotone repair of the blended curve, band population
      split, final results table and its inverse lookup;
    - [course scaling/qld_course_scales_app.py]: the subject record, the
      curve builder and the boundary optimizer;
    - [atar scaling/build_course_scales_2025.py]: the batch curve builder.

    Number model.  Python floats are modelled by exact rationals in
    canonical form ([Qc]), so that equality of values is Leibniz equality
    and every operation is exact; rounding error of binary floating point
    is outside the model.  Python integers (student counts) are [Z].
    Calls into numpy whose code is not part of the repository (least
    squares fits) are parameters of the definitions that use them. *)

From Stdlib Require Import QArith Qcanon Qround Qabs Qcabs Lqa Lia ZArith.
From stdpp Require Import gmap list sorting numbers strings pretty.

Local Open Scope Qc_scope.

(* ================================================================= *)
(** ** Python numbers and builtins *)

(** A float literal [n/d], e.g. [0.01] is [float_lit 1 100]. *)
Definition float_lit (n : Z) (d : positive) : Qc := Q2Qc (n # d).

(** [float(n)] / implicit int-to-float promotion. *)
Definition of_int (n : Z) : Qc := Q2Qc (inject_Z n).

(** Round to the nearest integer, ties to even: what [round] does on an
    exact tie. *)
Definition round_half_even (q : Q) : Z :=
  let n := Qfloor q in
  match (q - inject_Z n ?= 1 # 2)%Q with
  | Lt => n
  | Gt => (n + 1)%Z
  | Eq => if Z.even n then n else (n + 1)%Z
  end.

(** [round(x, 2)] *)
Definition round2 (x : Qc) : Qc :=
  Q2Qc (inject_Z (round_half_even (this x * 100)) / 100).

(** [min(a, b)] and [max(a, b)]: the first argument wins a tie. *)
Definition pymin (a b : Qc) : Qc := if decide (b < a) then b else a.
Definition pymax (a b : Qc) : Qc := if decide (a < b) then b else a.

(** [sum(l)] on floats and on ints: a left fold from [0]. *)
Definition sum_float (l : list Qc) : Qc := foldl Qcplus 0 l.
Definition sum_int (l : list Z) : Z := foldl Z.add 0%Z l.

(** [sorted(l, key=key, reverse=reverse)] / [l.sort(...)]: a stable sort,
    written as an insertion sort.  An element is placed in front of the
    first element that does not have to precede it, so elements with
    equal keys keep their original order, also with [reverse=True]. *)
Section py_sorted.
Context {A : Type} (key : A → Qc).

Fixpoint insert_asc (x : A) (l : list A) : list A :=
  match l with
  | [] => [x]
  | y :: t =>
      if decide (key x ≤ key y) then x :: y :: t else y :: insert_asc x t
  end.

Fixpoint insert_desc (x : A) (l : list A) : list A :=
  match l with
  | [] => [x]
  | y :: t =>
      if decide (key y ≤ key x) then x :: y :: t else y :: insert_desc x t
  end.

Definition py_sorted (reverse : bool) (l : list A) : list A :=
  foldr (if reverse then insert_desc else insert_asc) [] l.
End py_sorted.

(** [np.searchsorted(a, v)] (side ['left']) on an ascending array: the
    first index [i] with [v <= a[i]], that is the number of leading
    entries below [v]. *)
Fixpoint searchsorted (a : list Qc) (v : Qc) : nat :=
  match a with
  | [] => 0
  | x :: t => if decide (x < v) then S (searchsorted t v) else 0
  end.

(** [np.minimum(a, c)], [np.maximum(a, c)] on one entry. *)
Definition np_minimum (a c : Qc) : Qc := if decide (a < c) then a else c.
Definition np_maximum (a c : Qc) : Qc := if decide (c < a) then a else c.

(** [np.diff(a)]: [a[i+1] - a[i]]. *)
Definition np_diff (a : list Qc) : list Qc :=
  zip_with (λ x y, y - x) a (tail a).

(* ================================================================= *)
(** ** build_lookup_final.py: simulation of the aggregate curve *)

(** One entry of [sim_subjects]: the dict with keys ['name'], ['X4'] ..
    ['X0'], ['min_x'], ['max_x'], ['max_y']. *)
Record sim_subject := {
  sim_name : string;
  sim_X4 : Qc; sim_X3 : Qc; sim_X2 : Qc; sim_X1 : Qc; sim_X0 : Qc;
  sim_min_x : Qc; sim_max_x : Qc; sim_max_y : Qc
}.

Definition eval_scaling_poly (subj : sim_subject) (raw_pct : Qc) : Qc :=
  if decide (raw_pct < sim_min_x subj) then 0
  else
    let r := raw_pct in
    let scaled :=
      sim_X4 subj * r ^ 4 + sim_X3 subj * r ^ 3 + sim_X2 subj * r ^ 2
      + sim_X1 subj * r + sim_X0 subj in
    pymax 0 (pymin scaled (sim_max_y subj)).

(** The body of the loop over [i] in [simulate_aggregate_curve]. *)
Definition simulate_point (subjects : list sim_subject) (i : nat)
    : Qc * Qc :=
  let raw_pct := of_int (Z.of_nat i) * float_lit 5 10 in
  let scaled_scores :=
    (λ subj, eval_scaling_poly subj raw_pct)
      <$> filter (λ subj, sim_min_x subj ≤ raw_pct) subjects in
  let scaled_scores := py_sorted id true scaled_scores in
  let aggregate := sum_float (take 5 scaled_scores) in
  (raw_pct, aggregate).

Definition simulate_aggregate_curve (subjects : list sim_subject)
    : list (Qc * Qc) :=
  simulate_point subjects <$> seq 0 201.

(* ================================================================= *)
(** ** build_lookup_final.py: monotone repair and clamp of [blended] *)

(** Body of [for i in range(1, len(blended))]: the array is updated in
    place, so a bumped entry is the predecessor of the next step. *)
Definition enforce_monotone_step (blended : list Qc) (i : nat) : list Qc :=
  match blended !! i, blended !! (i - 1)%nat with
  | Some bi, Some bp =>
      if decide (bi ≤ bp) then <[i := bp + float_lit 1 100]> blended
      else blended
  | _, _ => blended
  end.

Definition enforce_monotone (blended : list Qc) : list Qc :=
  foldl enforce_monotone_step blended (seq 1 (length blended - 1)).

(** [np.minimum(blended, 500.0)] then [np.maximum(blended, 0.0)]. *)
Definition clamp_blended (blended : list Qc) : list Qc :=
  (λ v, np_maximum v 0) <$> ((λ v, np_minimum v (of_int 500)) <$> blended).

(** [n_violations = np.sum(np.diff(blended) <= 0)] *)
Definition n_violations (blended : list Qc) : nat :=
  length (filter (λ d, d ≤ 0) (np_diff blended)).

(** Lines 466-478: the value of [blended] and of [n_violations] after
    the forward pass and the clamp. *)
Definition monotone_blended (blended : list Qc) : list Qc :=
  clamp_blended (enforce_monotone blended).

(* ================================================================= *)
(** ** build_lookup_final.py: population per 0.05 band *)

(** [table13] is a list of [(atar, count)], [table14] a list of
    [((low, high), total_count)]: the range string ["low-high"] is kept
    as the two floats it is parsed into. *)
Definition band_table := list (Qc * Z).
Definition range_table := list (Qc * Qc * Z).

(** [for atar, count in table13: band_students[round(atar, 2)] = count] *)
Definition assign_table13 (table13 : band_table) : gmap Qc Z :=
  foldl (λ band_students '(atar, count), <[round2 atar := count]> band_students)
        ∅ table13.

(** [b = high; while b >= low - 0.001: bands.append(round(b, 2)); b -= 0.05]
    The loop is unrolled [fuel] times; [bands_fuel] is more than the
    number of iterations the guard allows (see [bands_loop_fuel]). *)
Fixpoint bands_loop (fuel : nat) (b low : Qc) : list Qc :=
  match fuel with
  | O => []
  | S fuel =>
      if decide (low - float_lit 1 1000 ≤ b)
      then round2 b :: bands_loop fuel (b - float_lit 5 100) low
      else []
  end.

Definition bands_fuel (low high : Qc) : nat :=
  Z.to_nat (Qfloor (this ((high - low + float_lit 1 1000) / float_lit 5 100)) + 2).

Definition bands_in_range (low high : Qc) : list Qc :=
  bands_loop (bands_fuel low high) high low.

(** Body of [for range_str, total_count in table14]. *)
Definition process_range (band_students : gmap Qc Z) (r : Qc * Qc * Z)
    : gmap Qc Z :=
  let '(low, high, total_count) := r in
  let bands := bands_in_range low high in
  let already_assigned :=
    sum_int ((λ br, default 0%Z (band_students !! br))
               <$> filter (λ br, is_Some (band_students !! br)) bands) in
  let unassigned := filter (λ br, band_students !! br = None) bands in
  let remaining := (total_count - already_assigned)%Z in
  if decide ((remaining ≤ 0)%Z ∨ length unassigned = 0%nat) then band_students
  else
    let n := Z.of_nat (length unassigned) in
    let base := (remaining `div` n)%Z in
    let extra := (remaining - base * n)%Z in
    foldl (λ bs '(i, br),
             <[br := (base + (if decide (Z.of_nat i < extra)%Z then 1 else 0))%Z]> bs)
          band_students
          (imap (λ i br, (i, br)) (py_sorted id true unassigned)).

Definition build_band_students (table13 : band_table) (table14 : range_table)
    : gmap Qc Z :=
  foldl process_range (assign_table13 table13) table14.

(** [sorted(band_students.keys(), reverse=True)] *)
Definition sorted_bands (band_students : gmap Qc Z) : list Qc :=
  py_sorted id true (elements (dom band_students)).

(** [d[k]] for a key that is present: the loops below only read the
    keys they iterate over, so the [KeyError] branch is dead and is
    given the value [0]. *)
Definition getitem (d : gmap Qc Z) (k : Qc) : Z := default 0%Z (d !! k).

(** The loop that fills [cumulative]; the state is [(running, cumulative)]. *)
Definition build_cumulative (band_students : gmap Qc Z) : Z * gmap Qc Z :=
  foldl (λ '(running, cumulative) band,
           let running := (running + getitem band_students band)%Z in
           (running, <[band := running]> cumulative))
        (0%Z, ∅) (sorted_bands band_students).

(* ================================================================= *)
(** ** build_lookup_final.py: the final results table *)

(** A row [(atar, agg, students, cumulative, cumulative_pct)]. *)
Record result_row := {
  atar : Qc; agg : Qc; students : Z; cum : Z; cum_pct : Qc
}.

Global Instance result_row_eq_dec : EqDecision result_row.
Proof. solve_decision. Defined.

(** Lines 644-651. [agg_lookup] is [dict(zip(atar_grid, blended))]. *)
Definition build_results (agg_lookup : gmap Qc Qc) (band_students : gmap Qc Z)
    (TOTAL_STUDENTS : Z) : list result_row :=
  let cumulative := (build_cumulative band_students).2 in
  (λ band,
     {| atar := band;
        agg := round2 (default 0 (agg_lookup !! band));
        students := getitem band_students band;
        cum := getitem cumulative band;
        cum_pct := round2 (of_int (getitem cumulative band)
                           / of_int TOTAL_STUDENTS * of_int 100) |})
    <$> sorted_bands band_students.

(** Lines 655-658: body of the rounding-tie repair loop. *)
Definition fix_ties_step (results : list result_row) (i : nat)
    : list result_row :=
  match results !! i, results !! (i - 1)%nat with
  | Some ri, Some rp =>
      if decide (agg rp ≤ agg ri) then
        let fixed_agg := round2 (agg rp - float_lit 1 100) in
        <[i := {| atar := atar ri; agg := fixed_agg; students := students ri;
                  cum := cum ri; cum_pct := cum_pct ri |}]> results
      else results
  | _, _ => results
  end.

Definition fix_rounding_ties (results : list result_row) : list result_row :=
  foldl fix_ties_step results (seq 1 (length results - 1)).

(** Lines 661-664: the final monotonicity check. *)
Definition final_violations (results : list result_row) : nat :=
  foldl (λ final_violations i,
           match results !! i, results !! (i - 1)%nat with
           | Some ri, Some rp =>
               if decide (agg rp ≤ agg ri) then S final_violations
               else final_violations
           | _, _ => final_violations
           end)
        0%nat (seq 1 (length results - 1)).

(** The table [results] as the script leaves it. *)
Definition final_results (agg_lookup : gmap Qc Qc) (band_students : gmap Qc Z)
    (TOTAL_STUDENTS : Z) : list result_row :=
  fix_rounding_ties (build_results agg_lookup band_students TOTAL_STUDENTS).

(* ================================================================= *)
(** ** build_lookup_final.py: inverse lookup *)

(** [results_by_agg], [rev_aggs] and [rev_atars]: module-level arrays
    computed once from [results]. *)
Definition results_by_agg (results : list result_row) : list result_row :=
  py_sorted agg false results.
Definition rev_aggs (results : list result_row) : list Qc :=
  agg <$> results_by_agg results.
Definition rev_atars (results : list result_row) : list Qc :=
  atar <$> results_by_agg results.

(** [agg_to_atar_2025], with the two global arrays it reads as
    arguments; [None] is the [IndexError] of an empty table and
    [a[-1]] is [last a].  [lo] is never [-1] where it is used: the first
    test has failed, so [idx] is at least 1 on an ascending array. *)
Definition agg_to_atar_2025 (rev_aggs rev_atars : list Qc) (aggregate : Qc)
    : option Qc :=
  a0 ← rev_aggs !! 0%nat;
  if decide (aggregate ≤ a0) then rev_atars !! 0%nat
  else
    alast ← last rev_aggs;
    if decide (alast ≤ aggregate) then last rev_atars
    else
      let idx := searchsorted rev_aggs aggregate in
      let lo := (idx - 1)%nat in
      let hi := idx in
      alo ← rev_aggs !! lo;
      ahi ← rev_aggs !! hi;
      tlo ← rev_atars !! lo;
      thi ← rev_atars !! hi;
      let frac := (aggregate - alo) / (ahi - alo) in
      Some (tlo + frac * (thi - tlo)).

(** The inverse lookup on the table a run produces. *)
Definition agg_to_atar_of (results : list result_row) (aggregate : Qc)
    : option Qc :=
  agg_to_atar_2025 (rev_aggs results) (rev_atars results) aggregate.

(* ================================================================= *)
(** ** qld_course_scales_app.py: the subject record *)

(** [subject_type]: ['general'], ['nodata'], ['applied'], ['vet']. *)
Inductive stype := general | nodata | applied | vet.

Global Instance stype_eq_dec : EqDecision stype.
Proof. solve_decision. Defined.

(** [class SubjectData].  The cubic's coefficients [Z3 .. Z0] are named
    [Zc3 .. Zc0] here ([Z0] is a constructor of the integers).  The
    anchors are Min, PZ (the lower boundary), P25 .. P99 and Max. *)
Record SubjectData := {
  name : string; code : string; subject_type : stype; subject_id : Z;
  min_x : Qc; pzx : Qc; p25x : Qc; p50x : Qc; p75x : Qc; p90x : Qc;
  p99x : Qc; max_x : Qc;
  min_y : Qc; pzy : Qc; p25y : Qc; p50y : Qc; p75y : Qc; p90y : Qc;
  p99y : Qc; max_y : Qc;
  X4 : Qc; X3 : Qc; X2 : Qc; X1 : Qc; X0 : Qc;
  Zc3 : Qc; Zc2 : Qc; Zc1 : Qc; Zc0 : Qc;
  max_fit_error : Qc; committed : bool
}.

(** The quartic [X4*x**4 + X3*x**3 + X2*x**2 + X1*x + X0] and its
    derivative [4*X4*x**3 + 3*X3*x**2 + 2*X2*x + X1], as the source
    writes them out. *)
Definition quartic (c : Qc * Qc * Qc * Qc * Qc) (x : Qc) : Qc :=
  let '(c4, c3, c2, c1, c0) := c in
  c4 * x ^ 4 + c3 * x ^ 3 + c2 * x ^ 2 + c1 * x + c0.

Definition quartic_deriv (c : Qc * Qc * Qc * Qc * Qc) (x : Qc) : Qc :=
  let '(c4, c3, c2, c1, _) := c in
  of_int 4 * c4 * x ^ 3 + of_int 3 * c3 * x ^ 2 + of_int 2 * c2 * x + c1.

(** [err = 0; for x, y in zip(x_all, y_all): err = max(err, abs(yc - y))] *)
Definition max_abs_residual (c : Qc * Qc * Qc * Qc * Qc)
    (x_all y_all : list Qc) : Qc :=
  foldl (λ err '(x, y), pymax err (Qcabs (quartic c x - y)))
        0 (zip x_all y_all).

(** [max(1, min(pdf_xs[i+1] - pdf_xs[i] for i in range(len(pdf_xs)-1)))] *)
Definition min_gap_of (x25 x50 x75 x90 x99 : Qc) : Qc :=
  pymax 1 (pymin (pymin (pymin (x50 - x25) (x75 - x50)) (x90 - x75))
                 (x99 - x90)).

(** [np.polyval(c, x)] for three coefficients (Horner's rule). *)
Definition np_polyval2 (c : Qc * Qc * Qc) (x : Qc) : Qc :=
  let '(a, b, c0) := c in (a * x + b) * x + c0.

(** The exact interpolating parabola through three points with distinct
    abscissae, highest coefficient first: the least-squares solution of
    [np.polyfit(xs, ys, 2)] on such points, whose residual is zero. *)
Definition interp_parabola (xs ys : list Qc) : Qc * Qc * Qc :=
  match xs, ys with
  | [x0; x1; x2], [y0; y1; y2] =>
      let d01 := (y1 - y0) / (x1 - x0) in
      let d12 := (y2 - y1) / (x2 - x1) in
      let a := (d12 - d01) / (x2 - x0) in
      let b := d01 - a * (x0 + x1) in
      (a, b, y0 - a * x0 * x0 - b * x0)
  | _, _ => (0, 0, 0)
  end.

Section course_scales.
(** The numpy least-squares fits: [fit_poly_4] and [fit_poly_3] return
    the coefficients highest degree first, [np_polyfit2] is
    [np.polyfit(_, _, 2)].  [SUBJECT_IDS] is the id table of the source
    and [lookup_id name code] is
    [prev_year_ids.get(name, int(code) if code.isdigit() else 0)]. *)
Variable fit_poly_4 : list Qc → list Qc → Qc * Qc * Qc * Qc * Qc.
Variable fit_poly_3 : list Qc → list Qc → Qc * Qc * Qc * Qc.
Variable np_polyfit2 : list Qc → list Qc → Qc * Qc * Qc.
Variable SUBJECT_IDS : gmap string Z.
Variable lookup_id : string → string → Z.

(** [SubjectData.__init__] *)
Definition SubjectData_init (nm cd : string) (ty : stype) : SubjectData :=
  {| name := nm; code := cd; subject_type := ty;
     subject_id := default 0%Z (SUBJECT_IDS !! nm);
     min_x := of_int 10;
     pzx := 0; p25x := 0; p50x := 0; p75x := 0; p90x := 0; p99x := 0;
     max_x := 0;
     min_y := 0; pzy := 0; p25y := 0; p50y := 0; p75y := 0; p90y := 0;
     p99y := 0; max_y := 0;
     X4 := 0; X3 := 0; X2 := 0; X1 := 0; X0 := 0;
     Zc3 := 0; Zc2 := 0; Zc1 := 0; Zc0 := 0;
     max_fit_error := 0; committed := false |}.

Definition x_all_of (s : SubjectData) : list Qc :=
  [min_x s; pzx s; p25x s; p50x s; p75x s; p90x s; p99x s; max_x s].
Definition y_all_of (s : SubjectData) : list Qc :=
  [min_y s; pzy s; p25y s; p50y s; p75y s; p90y s; p99y s; max_y s].

(** [SubjectData.compute_polynomials] *)
Definition compute_polynomials (s : SubjectData) : SubjectData :=
  if decide (subject_type s ≠ general ∨ p25x s = 0) then s
  else
    let x_all := x_all_of s in
    let y_all := y_all_of s in
    let '(c4, c3, c2, c1, c0) := fit_poly_4 x_all y_all in
    let x_lower := [min_x s; pzx s; p25x s; p50x s] in
    let y_lower := [min_y s; pzy s; p25y s; p50y s] in
    let '(z3, z2, z1, z0) := fit_poly_3 x_lower y_lower in
    {| name := name s; code := code s; subject_type := subject_type s;
       subject_id := subject_id s;
       min_x := min_x s; pzx := pzx s; p25x := p25x s; p50x := p50x s;
       p75x := p75x s; p90x := p90x s; p99x := p99x s; max_x := max_x s;
       min_y := min_y s; pzy := pzy s; p25y := p25y s; p50y := p50y s;
       p75y := p75y s; p90y := p90y s; p99y := p99y s; max_y := max_y s;
       X4 := c4; X3 := c3; X2 := c2; X1 := c1; X0 := c0;
       Zc3 := z3; Zc2 := z2; Zc1 := z1; Zc0 := z0;
       max_fit_error := max_abs_residual (c4, c3, c2, c1, c0) x_all y_all;
       committed := committed s |}.

(** [build_general] *)
Definition build_general (cd nm : string)
    (x25 x50 x75 x90 x99 y25 y50 y75 y90 y99 : Qc) : SubjectData :=
  let s := SubjectData_init nm cd general in
  let min_gap := min_gap_of x25 x50 x75 x90 x99 in
  let mx := pymin (of_int 10) (x25 - of_int 2 * min_gap) in
  let mx := pymax 0 mx in
  let px := (mx + x25) / of_int 2 in
  let max_x' := of_int 100 in
  let my :=
    if decide (x90 < x99) then
      let slope := (y99 - y90) / (x99 - x90) in
      y99 + slope * (max_x' - x99)
    else y99 + float_lit 5 10 in
  let my := round2 (pymin (of_int 100) (pymax my (y99 + float_lit 5 10))) in
  let quad_c := np_polyfit2 [mx; x25; x50] [0; y25; y50] in
  let py := np_polyval2 quad_c px in
  let py := pymax 0 (pymin (y25 * float_lit 95 100) py) in
  compute_polynomials
    {| name := nm; code := cd; subject_type := general;
       subject_id := subject_id s;
       min_x := mx; pzx := px; p25x := x25; p50x := x50; p75x := x75;
       p90x := x90; p99x := x99; max_x := max_x';
       min_y := 0; pzy := py; p25y := y25; p50y := y50; p75y := y75;
       p90y := y90; p99y := y99; max_y := my;
       X4 := X4 s; X3 := X3 s; X2 := X2 s; X1 := X1 s; X0 := X0 s;
       Zc3 := Zc3 s; Zc2 := Zc2 s; Zc1 := Zc1 s; Zc0 := Zc0 s;
       max_fit_error := max_fit_error s; committed := committed s |}.

(** *** The boundary optimizer [auto_optimize_subject] *)

(** [min_x_hi = s.p25x - 2 * min_gap] and [pzy_hi = s.p25y * 0.95];
    [min_x_lo] is [0] and [pzy_lo] is [0.1]. *)
Definition min_x_lo : Qc := 0.
Definition min_x_hi (s : SubjectData) : Qc :=
  p25x s - of_int 2 * min_gap_of (p25x s) (p50x s) (p75x s) (p90x s) (p99x s).
Definition pzy_lo : Qc := float_lit 1 10.
Definition pzy_hi (s : SubjectData) : Qc := p25y s * float_lit 95 100.

(** The candidate of grid cell [(mi, pyi)]: [mx], [pzx], [pzy], the
    anchors [x_all], [y_all] and the fitted coefficients. *)
Definition cell_mx (s : SubjectData) (mi : nat) : Qc :=
  min_x_lo + (min_x_hi s - min_x_lo) * of_int (Z.of_nat mi) / of_int 40.
Definition cell_pzx (s : SubjectData) (mi : nat) : Qc :=
  (cell_mx s mi + p25x s) / of_int 2.
Definition cell_pzy (s : SubjectData) (pyi : nat) : Qc :=
  pzy_lo + (pzy_hi s - pzy_lo) * of_int (Z.of_nat pyi) / of_int 30.
Definition cell_x_all (s : SubjectData) (mi : nat) : list Qc :=
  [cell_mx s mi; cell_pzx s mi; p25x s; p50x s; p75x s; p90x s; p99x s;
   max_x s].
Definition cell_y_all (s : SubjectData) (pyi : nat) : list Qc :=
  [0; cell_pzy s pyi; p25y s; p50y s; p75y s; p90y s; p99y s; max_y s].
Definition cell_coeffs (s : SubjectData) (mi pyi : nat) :=
  fit_poly_4 (cell_x_all s mi) (cell_y_all s pyi).

(** [for t in range(51): ... if deriv < -0.001: monotonic = False] *)
Definition cell_monotonic (s : SubjectData) (mi pyi : nat) : bool :=
  forallb
    (λ t : nat,
       let mx := cell_mx s mi in
       let x := mx + (max_x s - mx) * of_int (Z.of_nat t) / of_int 50 in
       negb (bool_decide
               (quartic_deriv (cell_coeffs s mi pyi) x < float_lit (-1) 1000)))
    (seq 0 51).

Definition cell_err (s : SubjectData) (mi pyi : nat) : Qc :=
  max_abs_residual (cell_coeffs s mi pyi) (cell_x_all s mi) (cell_y_all s pyi).

(** The search state [(best_err, best)]; [best_err = None] is
    [float('inf')] and [best = None] is Python's [None]. *)
Definition search_state : Type := option Qc * option (Qc * Qc * Qc).

(** [err < best_err] *)
Definition err_lt (err : Qc) (best_err : option Qc) : bool :=
  match best_err with
  | None => true
  | Some b => bool_decide (err < b)
  end.

(** Body of the inner loop over [pyi]. *)
Definition scan_cell (s : SubjectData) (mi : nat) (st : search_state)
    (pyi : nat) : search_state :=
  if negb (cell_monotonic s mi pyi) then st
  else
    let err := cell_err s mi pyi in
    if err_lt err st.1
    then (Some err, Some (cell_mx s mi, cell_pzx s mi, cell_pzy s pyi))
    else st.

(** The two nested loops, [n_mx, n_pzy = 40, 30]. *)
Definition grid_search (s : SubjectData) : search_state :=
  foldl (λ st mi, foldl (scan_cell s mi) st (seq 0 31))
        (None, None) (seq 0 41).

(** [s.min_x, s.pzx, s.pzy = best; s.min_y = 0] *)
Definition install_best (s : SubjectData) (best : Qc * Qc * Qc)
    : SubjectData :=
  let '(mx, px, py) := best in
  {| name := name s; code := code s; subject_type := subject_type s;
     subject_id := subject_id s;
     min_x := mx; pzx := px; p25x := p25x s; p50x := p50x s;
     p75x := p75x s; p90x := p90x s; p99x := p99x s; max_x := max_x s;
     min_y := 0; pzy := py; p25y := p25y s; p50y := p50y s;
     p75y := p75y s; p90y := p90y s; p99y := p99y s; max_y := max_y s;
     X4 := X4 s; X3 := X3 s; X2 := X2 s; X1 := X1 s; X0 := X0 s;
     Zc3 := Zc3 s; Zc2 := Zc2 s; Zc1 := Zc1 s; Zc0 := Zc0 s;
     max_fit_error := max_fit_error s; committed := committed s |}.

(** [auto_optimize_subject(s)]: the returned flag and the record [s]
    as the call leaves it. *)
Definition auto_optimize_subject (s : SubjectData) : bool * SubjectData :=
  if decide (subject_type s ≠ general ∨ p25x s = 0) then (false, s)
  else if decide (min_x_hi s < min_x_lo) then (false, s)
  else if decide (pzy_hi s ≤ pzy_lo) then (false, s)
  else
    match (grid_search s).2 with
    | None => (false, s)
    | Some best => (true, compute_polynomials (install_best s best))
    end.

(* =============================================================== *)
(** ** build_course_scales_2025.py: the batch builder *)

(** The output dict of [process_general_subject], one field per key. *)
Record scale_row := {
  Subject_Name : string; Subject_ID : Z;
  Min_X : Qc; PZX : Qc; P25_X : Qc; P50_X : Qc; P75_X : Qc; P90_X : Qc;
  P99_X : Qc; Max_X : Qc;
  Min_Y : Qc; PZY : Qc; P25_Y : Qc; P50_Y : Qc; P75_Y : Qc; P90_Y : Qc;
  P99_Y : Qc; Max_Y : Qc;
  row_X : Qc * Qc * Qc * Qc * Qc; row_Z : Qc * Qc * Qc * Qc
}.

Definition estimate_max (x90 x99 y90 y99 : Qc) : Qc * Qc :=
  let dx := x99 - x90 in
  let max_x' := pymin (of_int 100) (x99 + pymax 1 dx) in
  let my :=
    if decide (x90 < x99) then
      let slope := (y99 - y90) / (x99 - x90) in
      y99 + slope * (max_x' - x99)
    else y99 in
  let my := pymin (of_int 100) (pymax my (y99 + float_lit 5 10)) in
  (max_x', my).

(** The locals [pzx] and [pzy] of [process_general_subject]: the
    boundary anchor that enters the fit ([MIN_X = 10], [MIN_Y = 0]). *)
Definition batch_pzx (x25 : Qc) : Qc := float_lit 75 100 * x25.
Definition batch_pzy (x25 x50 y25 y50 : Qc) : Qc :=
  let quad_coeffs := np_polyfit2 [of_int 10; x25; x50] [0; y25; y50] in
  let py := np_polyval2 quad_coeffs (batch_pzx x25) in
  pymax 0 (pymin (y25 * float_lit 95 100) py).

Definition process_general_subject (nm cd : string)
    (x25 x50 x75 x90 x99 y25 y50 y75 y90 y99 : Qc) : scale_row :=
  let MIN_X := of_int 10 in
  let MIN_Y := 0 in
  let px := batch_pzx x25 in
  let '(max_x', my) := estimate_max x90 x99 y90 y99 in
  let py := batch_pzy x25 x50 y25 y50 in
  let x_all := [MIN_X; px; x25; x50; x75; x90; x99; max_x'] in
  let y_all := [MIN_Y; py; y25; y50; y75; y90; y99; my] in
  let x_lower := [MIN_X; px; x25; x50] in
  let y_lower := [MIN_Y; py; y25; y50] in
  {| Subject_Name := nm; Subject_ID := lookup_id nm cd;
     Min_X := MIN_X; PZX := round2 px; P25_X := x25; P50_X := x50;
     P75_X := x75; P90_X := x90; P99_X := x99; Max_X := round2 max_x';
     Min_Y := MIN_Y; PZY := round2 py; P25_Y := y25; P50_Y := y50;
     P75_Y := y75; P90_Y := y90; P99_Y := y99; Max_Y := round2 my;
     row_X := fit_poly_4 x_all y_all; row_Z := fit_poly_3 x_lower y_lower |}.
End course_scales.

(* ================================================================= *)
(** ** Specification-side notions *)

(** The value [v] clamped into the interval [[lo, hi]]. *)
Definition clamp (lo hi v : Qc) : Qc :=
  if decide (v < lo) then lo else if decide (hi < v) then hi else v.

(** A subject's contribution at a raw score: [0] below its [Min.x],
    otherwise its quartic clamped into [[0, Max.y]]. *)
Definition spec_contribution (raw_pct : Qc) (subj : sim_subject) : Qc :=
  if decide (raw_pct < sim_min_x subj) then 0
  else clamp 0 (sim_max_y subj)
         (quartic (sim_X4 subj, sim_X3 subj, sim_X2 subj, sim_X1 subj,
                   sim_X0 subj) raw_pct).

(** The sum of the [k] largest entries of a list, without sorting it:
    take the maximum, remove one occurrence of it, and go on. *)
Fixpoint list_max (x : Qc) (l : list Qc) : Qc :=
  match l with
  | [] => x
  | y :: t => list_max (if decide (x < y) then y else x) t
  end.

Fixpoint remove_one (x : Qc) (l : list Qc) : list Qc :=
  match l with
  | [] => []
  | y :: t => if decide (x = y) then t else y :: remove_one x t
  end.

Fixpoint sum_largest (k : nat) (l : list Qc) : Qc :=
  match k, l with
  | S k, y :: t =>
      let m := list_max y t in m + sum_largest k (remove_one m l)
  | _, _ => 0
  end.

Definition spec_aggregate (subjects : list sim_subject) (raw_pct : Qc) : Qc :=
  sum_largest 5 (spec_contribution raw_pct <$> subjects).

(** Scan order of the optimizer's grid: [mi] is the outer loop, [pyi]
    the inner one. *)
Definition scanned_before (c c' : nat * nat) : Prop :=
  (c.1 < c'.1)%nat ∨ (c.1 = c'.1 ∧ (c.2 < c'.2)%nat).

(** The grid cells in scan order. *)
Definition grid_cells : list (nat * nat) :=
  mi ← seq 0 41; (λ pyi, (mi, pyi)) <$> seq 0 31.

(* ================================================================= *)
(** ** Loops over adjacent entries of an array *)

(** [for i in range(1, len(a)): a[i] = upd(a[i-1], a[i])], in place, and
    the same pass as a recursion that carries the (already updated)
    predecessor along. *)
Section adjacent_pass.
Context {A : Type} (upd : A → A → A).

Definition idx_step (l : list A) (i : nat) : list A :=
  match l !! i, l !! (i - 1)%nat with
  | Some c, Some p => <[i := upd p c]> l
  | _, _ => l
  end.

Fixpoint chain (p : A) (l : list A) : list A :=
  match l with
  | [] => []
  | c :: t => upd p c :: chain (upd p c) t
  end.
End adjacent_pass.

(** The two repairs of the source as updates of one entry. *)
Definition bump_up (p c : Qc) : Qc :=
  if decide (c ≤ p) then p + float_lit 1 100 else c.

Definition fix_row (rp ri : result_row) : result_row :=
  if decide (agg rp ≤ agg ri) then
    {| atar := atar ri; agg := round2 (agg rp - float_lit 1 100);
       students := students ri; cum := cum ri; cum_pct := cum_pct ri |}
  else ri.

(** A row with its aggregate replaced. *)
Definition with_agg (r : result_row) (a : Qc) : result_row :=
  {| atar := atar r; agg := a; students := students r; cum := cum r;
     cum_pct := cum_pct r |}.

(** The linear interpolation of [agg_to_atar_2025] between two
    adjacent bands. *)
Definition interp (alo ahi tlo thi v : Qc) : Qc :=
  tlo + (v - alo) / (ahi - alo) * (thi - tlo).

(* ================================================================= *)
(** ** Notions for the population split *)

Definition range_bands (r : Qc * Qc * Z) : list Qc :=
  bands_in_range r.1.1 r.1.2.
Definition range_total (r : Qc * Qc * Z) : Z := r.2.

(** The students counted in the bands of a list; a band without an
    entry counts [0], as in [band_students.get(b, 0)]. *)
Definition range_sum (band_students : gmap Qc Z) (bands : list Qc) : Z :=
  sum_int ((λ br, default 0%Z (band_students !! br)) <$> bands).

(** [remaining] as the loop body computes it for a range. *)
Definition range_remaining (band_students : gmap Qc Z) (r : Qc * Qc * Z) : Z :=
  (range_total r - range_sum band_students (range_bands r))%Z.

(** A range can be split: nothing is over-assigned, and students that
    remain to be placed find a band of the range that is still free. *)
Definition range_splittable (band_students : gmap Qc Z) (r : Qc * Qc * Z)
    : Prop :=
  (0 ≤ range_remaining band_students r)%Z ∧
  ((0 < range_remaining band_students r)%Z →
   Exists (λ br, band_students !! br = None) (range_bands r)).

(** A population distribution whose parts fit together: no band lies in
    two ranges, every individually listed band lies in a range, and
    every range can be split given the individually listed counts. *)
Definition consistent_distribution (table13 : band_table)
    (table14 : range_table) : Prop :=
  NoDup (r ← table14; range_bands r) ∧
  Forall (λ e, round2 e.1 ∈ (r ← table14; range_bands r)) table13 ∧
  Forall (range_splittable (assign_table13 table13)) table14.

(** The value given to the [i]-th free band of a range. *)
Definition share (base extra : Z) (i : nat) : Z :=
  (base + (if decide (Z.of_nat i < extra)%Z then 1 else 0))%Z.

(** One individually listed band with 10 students inside a one-band
    range of 15. *)
Definition full_table13 : band_table := [(float_lit 9995 100, 10%Z)]%list.
Definition full_table14 : range_table :=
  [(float_lit 9995 100, float_lit 9995 100, 15%Z)]%list.

(* ================================================================= *)
(** ** A small run, used to exercise the statements below *)

(** Two individually listed bands and one range ["99.80-99.95"] of 150
    students; the blended thresholds of the two top bands round to the
    same value. *)
Definition example_table13 : band_table :=
  [(float_lit 9995 100, 37%Z); (float_lit 9990 100, 37%Z)].
Definition example_table14 : range_table :=
  [(float_lit 9980 100, float_lit 9995 100, 150%Z)]%list.
Definition example_band_students : gmap Qc Z :=
  build_band_students example_table13 example_table14.
Definition example_agg_lookup : gmap Qc Qc :=
  list_to_map [(float_lit 9995 100, float_lit 488621 1000);
               (float_lit 9990 100, float_lit 488619 1000);
               (float_lit 9985 100, float_lit 48790 100);
               (float_lit 9980 100, float_lit 48750 100)].
Definition example_results : list result_row :=
  final_results example_agg_lookup example_band_students 150.

(** Six subjects with straight-line scaling "polynomials". *)
Definition linear_subject (nm : string) (slope mn my : Qc) : sim_subject :=
  {| sim_name := nm; sim_X4 := 0; sim_X3 := 0; sim_X2 := 0; sim_X1 := slope;
     sim_X0 := 0; sim_min_x := mn; sim_max_x := of_int 100; sim_max_y := my |}.

Definition example_subjects : list sim_subject :=
  [linear_subject "A" (float_lit 9 10) (of_int 10) (of_int 85);
   linear_subject "B" (float_lit 8 10) (of_int 20) (of_int 80);
   linear_subject "C" 1 (of_int 30) (of_int 95);
   linear_subject "D" (float_lit 7 10) (of_int 10) (of_int 60);
   linear_subject "E" (float_lit 6 10) (of_int 40) (of_int 70);
   linear_subject "F" (float_lit 95 100) (of_int 50) (of_int 90)]%list.

(* ================================================================= *)
(** ** Notions for the boundary optimizer *)

(** A grid cell is valid when the derivative of its fitted quartic is
    at least [-0.001] at the 51 equally spaced points of
    [[Min.x, Max.x]]. *)
Definition cell_valid (fit_poly_4 : list Qc → list Qc → Qc * Qc * Qc * Qc * Qc)
    (s : SubjectData) (mi pyi : nat) : Prop :=
  ∀ t : nat, (t ≤ 50)%nat →
    float_lit (-1) 1000
    ≤ quartic_deriv (cell_coeffs fit_poly_4 s mi pyi)
        (cell_mx s mi
         + (max_x s - cell_mx s mi) * of_int (Z.of_nat t) / of_int 50).

(** A polynomial as the list of its coefficients, the constant term
    first: its value at [x], and the coefficients of its derivative,
    [d/dx (a0 + a1 x + a2 x^2 + ...) = a1 + 2 a2 x + 3 a3 x^2 + ...]. *)
Fixpoint poly_eval (p : list Qc) (x : Qc) : Qc :=
  match p with
  | [] => 0
  | a :: q => a + x * poly_eval q x
  end.

Definition poly_diff (p : list Qc) : list Qc :=
  imap (λ i a, of_int (Z.of_nat (S i)) * a) (tail p).

(** [e] is the maximum absolute residual of the polynomial [p] over
    the anchors: the largest of the distances [|p(x) - y|]. *)
Definition max_abs_residual_is (p : list Qc) (anchors : list (Qc * Qc))
    (e : Qc) : Prop :=
  (∃ x y, (x, y) ∈ anchors ∧ e = Qcabs (poly_eval p x - y)) ∧
  ∀ x y, (x, y) ∈ anchors → Qcabs (poly_eval p x - y) ≤ e.

Section grid_cell_notions.
Variable fit_poly_4 : list Qc → list Qc → Qc * Qc * Qc * Qc * Qc.
Variable s : SubjectData.

(** The 8 anchors of the candidate of grid cell [(mi, pyi)]: Min,
    LowerBoundary, the five percentile anchors and Max. *)
Definition cell_anchors (mi pyi : nat) : list (Qc * Qc) :=
  [(cell_mx s mi, 0); (cell_pzx s mi, cell_pzy s pyi);
   (p25x s, p25y s); (p50x s, p50y s); (p75x s, p75y s);
   (p90x s, p90y s); (p99x s, p99y s); (max_x s, max_y s)].

(** The quartic fitted to the anchors of the cell, as a polynomial. *)
Definition cell_poly (mi pyi : nat) : list Qc :=
  let '(c4, c3, c2, c1, c0) := cell_coeffs fit_poly_4 s mi pyi in
  [c0; c1; c2; c3; c4].

(** The 51 equally spaced sample points over [[Min.x, Max.x]]. *)
Definition sample_point (mi t : nat) : Qc :=
  cell_mx s mi + (max_x s - cell_mx s mi) * of_int (Z.of_nat t) / of_int 50.

(** The derivative of the fitted quartic is at least [-0.001] at all
    51 sample points. *)
Definition derivative_ok (mi pyi : nat) : Prop :=
  ∀ t : nat, (t ≤ 50)%nat →
    float_lit (-1) 1000
    ≤ poly_eval (poly_diff (cell_poly mi pyi)) (sample_point mi t).
End grid_cell_notions.

(** A stand-in for the least-squares fit in the examples: the chord
    through the first and the last anchor, as a "quartic". *)
Definition chord_fit (xs ys : list Qc) : Qc * Qc * Qc * Qc * Qc :=
  match xs, ys, last xs, last ys with
  | x0 :: _, y0 :: _, Some x1, Some y1 =>
      let k := (y1 - y0) / (x1 - x0) in (0, 0, 0, k, y0 - k * x0)
  | _, _, _, _ => (0, 0, 0, 0, 0)
  end.
Definition chord_fit3 (xs ys : list Qc) : Qc * Qc * Qc * Qc :=
  let '(_, _, _, k, c) := chord_fit xs ys in (0, 0, k, c).

(** The record of English as [build_general] leaves it when the
    fits are the stand-ins above (the anchors do not depend on them). *)
Definition english : SubjectData :=
  build_general chord_fit chord_fit3 interp_parabola ∅ "0001" "English"
    (of_int 61) (of_int 72) (of_int 83) (of_int 91) (of_int 99)
    (float_lit 5267 100) (float_lit 7012 100) (float_lit 8318 100)
    (float_lit 8948 100) (float_lit 9360 100).

(** A general record whose [P25.x] is 1: no room for two segments. *)
Definition cramped : SubjectData :=
  build_general chord_fit chord_fit3 interp_parabola ∅ "0000" "Cramped"
    1 (of_int 20) (of_int 40) (of_int 60) (of_int 80)
    (of_int 10) (of_int 30) (of_int 50) (of_int 70) (of_int 90).

(** The optimizer's scan over an arbitrary list of candidates [c], each
    with a validity flag, an error and a payload: the state after the
    candidates of [pre] records nothing if none was valid, otherwise
    the first valid candidate of least error. *)
Section argmin_scan.
Context {C B : Type} (valid : C → bool) (err : C → Qc) (cand : C → B).

Definition scan_step (st : option Qc * option B) (c : C)
    : option Qc * option B :=
  if negb (valid c) then st
  else if err_lt (err c) st.1 then (Some (err c), Some (cand c)) else st.

Definition scanned (pre : list C) (st : option Qc * option B) : Prop :=
  match st with
  | (None, None) => ∀ c, c ∈ pre → valid c = false
  | (Some e, Some b) =>
      ∃ pre1 c pre2,
        pre = pre1 ++ c :: pre2 ∧ valid c = true ∧ e = err c ∧ b = cand c ∧
        (∀ c', c' ∈ pre1 → valid c' = true → err c < err c') ∧
        (∀ c', c' ∈ pre2 → valid c' = true → err c ≤ err c')
  | _ => False
  end.
End argmin_scan.

(** A general subject whose marks rise steeply between P25 and P50:
    the parabola through Min, P25 and P50 is negative at the midpoint. *)
Definition steep : SubjectData :=
  build_general chord_fit chord_fit3 interp_parabola ∅ "0043" "Steep"
    (of_int 73) (of_int 80) (of_int 87) (of_int 92) (of_int 96)
    (of_int 45) (float_lit 6537 100) (float_lit 7874 100)
    (float_lit 8571 100) (float_lit 8981 100).

(** The row of English as the batch builder writes it. *)
Definition english_row : scale_row :=
  process_general_subject chord_fit chord_fit3 interp_parabola (λ _ _, 31%Z)
    "English" "0001"
    (of_int 61) (of_int 72) (of_int 83) (of_int 91) (of_int 99)
    (float_lit 5267 100) (float_lit 7012 100) (float_lit 8318 100)
    (float_lit 8948 100) (float_lit 9360 100).

(** A row whose aggregate has two decimals. *)
Definition on_grid (r : result_row) : Prop := ∃ k, agg r = float_lit k 100.

(** The three ways the lookup answers on a non-empty ascending table:
    clamped to the first band, clamped to the last band, or
    interpolated between two adjacent bands that enclose the query. *)
Inductive lookup_case (aggs atars : list Qc) (v : Qc) (t : Qc) : Prop :=
  | case_low a0 :
      aggs !! 0%nat = Some a0 → v ≤ a0 → atars !! 0%nat = Some t →
      lookup_case aggs atars v t
  | case_high al :
      last aggs = Some al → al ≤ v → last atars = Some t →
      lookup_case aggs atars v t
  | case_mid i alo ahi tlo thi :
      aggs !! i = Some alo → aggs !! S i = Some ahi →
      atars !! i = Some tlo → atars !! S i = Some thi →
      alo < v → v ≤ ahi → t = interp alo ahi tlo thi v →
      lookup_case aggs atars v t.

(** The loop [for i, br in enumerate(...): band_students[br] = g(i)]. *)
Definition assign_shares (g : nat → Z) (h : nat → nat) (m : gmap Qc Z)
    (U : list Qc) : gmap Qc Z :=
  foldl (λ bs '(i, br), <[br := g i]> bs) m (imap (λ i br, (h i, br)) U).

Global Instance scanned_before_dec c c' : Decision (scanned_before c c').
Proof. unfold scanned_before. apply _. Defined.
(* ================================================================= *)
(** ** build_lookup_final.py: cleaning the reference data *)

(** [np.mean(a)]: the sum over the number of entries.  The slices it is
    applied to are never empty. *)
Definition np_mean (a : list Qc) : Qc :=
  sum_float a / of_int (Z.of_nat (length a)).

(** The inner loop of [clean_and_average],
    [j = i; while j < len(atar_s) and atar_s[j] == atar_s[i]: j += 1],
    on the part of the sorted data that starts at index [i]: it answers
    the aggregates [agg_s[i:j]] and the part that starts at [j].  A
    data point is a pair [(aggregate, atar)]. *)
Fixpoint take_run (a : Qc) (l : list (Qc * Qc)) : list Qc * list (Qc * Qc) :=
  match l with
  | (g, a') :: t =>
      if decide (a' = a) then
        let '(run, rest) := take_run a t in (g :: run, rest)
      else ([], l)
  | [] => ([], [])
  end.

(** The outer loop [while i < len(atar_s)], which appends
    [atar_s[i]] to [u_atars] and [np.mean(agg_s[i:j])] to [u_aggs] and
    goes on at [j].  It is unrolled [fuel] times; the length of the
    data is enough, since every run holds its first point (see
    [average_runs_fuel]). *)
Fixpoint average_runs (fuel : nat) (l : list (Qc * Qc)) : list (Qc * Qc) :=
  match fuel, l with
  | S fuel, (_, a) :: _ =>
      let '(run, rest) := take_run a l in
      (a, np_mean run) :: average_runs fuel rest
  | _, _ => []
  end.

(** [clean_and_average(data)]: the pair [(u_atars, u_aggs)].  The
    sort by [np.argsort(atar)] is written as the stable sort; the
    order inside a run of equal ATARs does not change the mean of the
    run.  The last loop is the forward pass of [enforce_monotone]:
    [if u_aggs[k] <= u_aggs[k-1]: u_aggs[k] = u_aggs[k-1] + 0.01]. *)
Definition clean_and_average (data : list (Qc * Qc)) : list Qc * list Qc :=
  let sorted := py_sorted snd false data in
  let u := average_runs (length sorted) sorted in
  (u.*1, enforce_monotone u.*2).

(* ================================================================= *)
(** ** build_lookup_final.py: the blend of the two reference curves *)

(** [atar_grid = np.round(np.arange(30.05, 100.00, 0.05), 2)]: 1399
    points. *)
Definition atar_grid : list Qc :=
  (λ i : nat, round2 (float_lit 3005 100 + of_int (Z.of_nat i) * float_lit 5 100))
    <$> seq 0 1399.

Definition W_PREV : Qc := float_lit 60 100.
Definition W_2023 : Qc := float_lit 40 100.
Definition FADE_ZONE_PREV : Qc := of_int 8.
Definition FADE_ZONE_2023 : Qc := of_int 2.

Section blend.
(** The two [PchipInterpolator] objects (scipy) as functions, and
    [interp_2023.derivative()(y23_atars[0])] as a number. *)
Variable interp_prev interp_2023 : Qc → Qc.
Variable slope_2023 : Qc.
Variable prev_atars y23_atars y23_aggs : list Qc.

(** Body of [for i, a in enumerate(atar_grid)]: the value stored in
    [blended[i]].  [None] is the [IndexError] of an empty array. *)
Definition blend_point (a : Qc) : option Qc :=
  p0 ← prev_atars !! 0%nat; pl ← last prev_atars;
  y0 ← y23_atars !! 0%nat; yl ← last y23_atars;
  let in_prev := bool_decide (p0 ≤ a ∧ a ≤ pl) in
  let in_2023 := bool_decide (y0 ≤ a ∧ a ≤ yl) in
  let w_p := if in_prev then W_PREV else 0 in
  let w_2 := if in_2023 then W_2023 else 0 in
  let w_p :=
    if in_prev && bool_decide (a - p0 < FADE_ZONE_PREV) then
      let t := (a - p0) / FADE_ZONE_PREV in w_p * (t * t * t)
    else w_p in
  let w_2 :=
    if in_2023 && bool_decide (a - y0 < FADE_ZONE_2023) then
      let fade := (a - y0) / FADE_ZONE_2023 in w_2 * fade
    else w_2 in
  let total_w := w_p + w_2 in
  if decide (0 < total_w) then
    let v_p := if in_prev then interp_prev a else 0 in
    let v_2 := if in_2023 then interp_2023 a else 0 in
    Some ((w_p * v_p + w_2 * v_2) / total_w)
  else
    g0 ← y23_aggs !! 0%nat;
    Some (g0 + slope_2023 * (a - y0)).

(** The array [blended] after the loop. *)
Definition blend_curve (grid : list Qc) : option (list Qc) :=
  mapM blend_point grid.
End blend.

(* ================================================================= *)
(** ** build_lookup_final.py: smooth extension below ATAR 48 *)

Definition SMOOTH_BELOW : Qc := of_int 48.

(** Body of [for j in range(smooth_idx - 1, -1, -1)]. *)
Definition smooth_step (smooth_idx : nat) (avg_grad_per_step : Qc)
    (blended : list Qc) (j : nat) : list Qc :=
  let steps_below := (smooth_idx - j)%nat in
  let decel_factor :=
    1 - float_lit 3 10000 * of_int (Z.of_nat steps_below) in
  let grad := avg_grad_per_step * pymax decel_factor (float_lit 85 100) in
  match blended !! (j + 1)%nat with
  | Some b => <[j := b - grad]> blended
  | None => blended
  end.

(** Lines 453-464.  [None] is the [IndexError] of [blended[upper_idx]]
    or [blended[smooth_idx]] on a grid that ends below 52 or 48.  Where
    [upper_idx = smooth_idx] numpy divides by zero and stores [nan] or
    an infinity, which the number model does not have: the statements
    about this function assume [smooth_idx < upper_idx]. *)
Definition smooth_extend (grid blended : list Qc) : option (list Qc) :=
  let smooth_idx := searchsorted grid SMOOTH_BELOW in
  let upper_idx := searchsorted grid (of_int 52) in
  bu ← blended !! upper_idx;
  bs ← blended !! smooth_idx;
  let avg_grad_per_step :=
    (bu - bs) / of_int (Z.of_nat upper_idx - Z.of_nat smooth_idx) in
  Some (foldl (smooth_step smooth_idx avg_grad_per_step) blended
              (reverse (seq 0 smooth_idx))).

(* ================================================================= *)
(** ** build_lookup_final.py: percentile of a band, saved rows *)

(** Lines 600-602: the population percentile of a band (midpoint),
    clamped into [[0, 100]]. *)
Definition band_percentile (band_students cumulative : gmap Qc Z)
    (TOTAL_STUDENTS : Z) (band : Qc) : Qc :=
  let students_above := getitem cumulative band in
  let pct :=
    (of_int TOTAL_STUDENTS - of_int students_above
     + of_int (getitem band_students band) / of_int 2)
    / of_int TOTAL_STUDENTS * of_int 100 in
  pymax 0 (pymin (of_int 100) pct).

(** [save_current_scale]: the rows handed to [writer.writerow], in the
    order written, [for row in sorted(results, key=lambda x: x[0])]. *)
Definition saved_rows (results : list result_row) : list (Qc * Qc) :=
  (λ row, (atar row, agg row)) <$> py_sorted atar false results.

(** The second CSV file: [[row[1], row[0]] for row in
    sorted(results, key=lambda x: x[1], reverse=True)]. *)
Definition lookup_rows (results : list result_row) : list (Qc * Qc) :=
  (λ row, (agg row, atar row)) <$> py_sorted agg true results.

(** [load_historical_scales]: what is done to the pairs read from one
    file, [pairs.sort(key=lambda x: x[0])]; reading the text of the
    file is outside the model. *)
Definition loaded_pairs (pairs : list (Qc * Qc)) : list (Qc * Qc) :=
  py_sorted fst false pairs.

(* ================================================================= *)
(** ** build_lookup_final.py: the reference data and the blended curve *)

(** [prev_year_data] (lines 151-254) and [year_2023_data] (lines
    256-345): pairs [(aggregate, atar)], as the script lists them. *)
Definition prev_year_data : list (Qc * Qc) :=
  [(float_lit 48862 100, float_lit 9995 100); (float_lit 48796 100, float_lit 9993 100);
   (float_lit 48758 100, float_lit 9987 100); (float_lit 48750 100, float_lit 9985 100);
   (float_lit 48654 100, float_lit 9970 100); (float_lit 48650 100, float_lit 9969 100);
   (float_lit 48555 100, float_lit 9954 100); (float_lit 48484 100, float_lit 9943 100);
   (float_lit 48451 100, float_lit 9937 100); (float_lit 48438 100, float_lit 9935 100);
   (float_lit 48390 100, float_lit 9928 100); (float_lit 48353 100, float_lit 9922 100);
   (float_lit 48324 100, float_lit 9917 100); (float_lit 48286 100, float_lit 9911 100);
   (float_lit 48277 100, float_lit 9910 100); (float_lit 48262 100, float_lit 9907 100);
   (float_lit 48234 100, float_lit 9903 100); (float_lit 48225 100, float_lit 9901 100);
   (float_lit 48143 100, float_lit 9888 100); (float_lit 48126 100, float_lit 9885 100);
   (float_lit 48106 100, float_lit 9882 100); (float_lit 48090 100, float_lit 9879 100);
   (float_lit 48082 100, float_lit 9878 100); (float_lit 48074 100, float_lit 9877 100);
   (float_lit 47958 100, float_lit 9858 100); (float_lit 47936 100, float_lit 9855 100);
   (float_lit 47930 100, float_lit 9854 100); (float_lit 47906 100, float_lit 9850 100);
   (float_lit 47869 100, float_lit 9844 100); (float_lit 47830 100, float_lit 9837 100);
   (float_lit 47765 100, float_lit 9827 100); (float_lit 47759 100, float_lit 9826 100);
   (float_lit 47708 100, float_lit 9818 100); (float_lit 47696 100, float_lit 9816 100);
   (float_lit 47680 100, float_lit 9813 100); (float_lit 47665 100, float_lit 9811 100);
   (float_lit 47636 100, float_lit 9806 100); (float_lit 47619 100, float_lit 9803 100);
   (float_lit 47518 100, float_lit 9787 100); (float_lit 47512 100, float_lit 9786 100);
   (float_lit 47500 100, float_lit 9784 100); (float_lit 47489 100, float_lit 9782 100);
   (float_lit 47472 100, float_lit 9779 100); (float_lit 47466 100, float_lit 9778 100);
   (float_lit 47455 100, float_lit 9776 100); (float_lit 47450 100, float_lit 9775 100);
   (float_lit 47424 100, float_lit 9771 100); (float_lit 47414 100, float_lit 9769 100);
   (float_lit 47406 100, float_lit 9768 100); (float_lit 47394 100, float_lit 9766 100);
   (float_lit 47388 100, float_lit 9765 100); (float_lit 47373 100, float_lit 9763 100);
   (float_lit 47371 100, float_lit 9762 100); (float_lit 47360 100, float_lit 9761 100);
   (float_lit 47358 100, float_lit 9760 100); (float_lit 47330 100, float_lit 9756 100);
   (float_lit 47275 100, float_lit 9747 100); (float_lit 47251 100, float_lit 9743 100);
   (float_lit 47245 100, float_lit 9742 100); (float_lit 47244 100, float_lit 9741 100);
   (float_lit 47209 100, float_lit 9736 100); (float_lit 47191 100, float_lit 9733 100);
   (float_lit 47170 100, float_lit 9729 100); (float_lit 47149 100, float_lit 9726 100);
   (float_lit 47064 100, float_lit 9712 100); (float_lit 47032 100, float_lit 9706 100);
   (float_lit 47014 100, float_lit 9703 100); (float_lit 47007 100, float_lit 9702 100);
   (float_lit 47001 100, float_lit 9701 100); (float_lit 46930 100, float_lit 9689 100);
   (float_lit 46901 100, float_lit 9684 100); (float_lit 46883 100, float_lit 9681 100);
   (float_lit 46867 100, float_lit 9679 100); (float_lit 46786 100, float_lit 9665 100);
   (float_lit 46766 100, float_lit 9662 100); (float_lit 46750 100, float_lit 9659 100);
   (float_lit 46735 100, float_lit 9656 100); (float_lit 46712 100, float_lit 9653 100);
   (float_lit 46694 100, float_lit 9649 100); (float_lit 46685 100, float_lit 9648 100);
   (float_lit 46641 100, float_lit 9641 100); (float_lit 46634 100, float_lit 9639 100);
   (float_lit 46627 100, float_lit 9638 100); (float_lit 46622 100, float_lit 9637 100);
   (float_lit 46555 100, float_lit 9626 100); (float_lit 46547 100, float_lit 9625 100);
   (float_lit 46544 100, float_lit 9624 100); (float_lit 46498 100, float_lit 9616 100);
   (float_lit 46471 100, float_lit 9612 100); (float_lit 46466 100, float_lit 9611 100);
   (float_lit 46464 100, float_lit 9610 100); (float_lit 46441 100, float_lit 9606 100);
   (float_lit 46411 100, float_lit 9601 100); (float_lit 46396 100, float_lit 9599 100);
   (float_lit 46303 100, float_lit 9583 100); (float_lit 46245 100, float_lit 9573 100);
   (float_lit 46238 100, float_lit 9572 100); (float_lit 46204 100, float_lit 9566 100);
   (float_lit 46195 100, float_lit 9564 100); (float_lit 46185 100, float_lit 9563 100);
   (float_lit 46182 100, float_lit 9562 100); (float_lit 46172 100, float_lit 9560 100);
   (float_lit 46151 100, float_lit 9557 100); (float_lit 46132 100, float_lit 9553 100);
   (float_lit 46126 100, float_lit 9552 100); (float_lit 46117 100, float_lit 9551 100);
   (float_lit 46070 100, float_lit 9543 100); (float_lit 46062 100, float_lit 9541 100);
   (float_lit 46021 100, float_lit 9534 100); (float_lit 46003 100, float_lit 9531 100);
   (float_lit 45982 100, float_lit 9527 100); (float_lit 45939 100, float_lit 9520 100);
   (float_lit 45885 100, float_lit 9511 100); (float_lit 45871 100, float_lit 9508 100);
   (float_lit 45859 100, float_lit 9506 100); (float_lit 45762 100, float_lit 9489 100);
   (float_lit 45753 100, float_lit 9487 100); (float_lit 45727 100, float_lit 9483 100);
   (float_lit 45714 100, float_lit 9481 100); (float_lit 45664 100, float_lit 9472 100);
   (float_lit 45646 100, float_lit 9469 100); (float_lit 45581 100, float_lit 9457 100);
   (float_lit 45562 100, float_lit 9454 100); (float_lit 45554 100, float_lit 9453 100);
   (float_lit 45509 100, float_lit 9445 100); (float_lit 45475 100, float_lit 9439 100);
   (float_lit 45458 100, float_lit 9436 100); (float_lit 45435 100, float_lit 9432 100);
   (float_lit 45418 100, float_lit 9429 100); (float_lit 45416 100, float_lit 9428 100);
   (float_lit 45408 100, float_lit 9427 100); (float_lit 45384 100, float_lit 9423 100);
   (float_lit 45363 100, float_lit 9419 100); (float_lit 45310 100, float_lit 9409 100);
   (float_lit 45304 100, float_lit 9408 100); (float_lit 45271 100, float_lit 9403 100);
   (float_lit 45237 100, float_lit 9397 100); (float_lit 45205 100, float_lit 9391 100);
   (float_lit 45153 100, float_lit 9382 100); (float_lit 45112 100, float_lit 9374 100);
   (float_lit 45095 100, float_lit 9371 100); (float_lit 45010 100, float_lit 9356 100);
   (float_lit 44965 100, float_lit 9348 100); (float_lit 44929 100, float_lit 9342 100);
   (float_lit 44919 100, float_lit 9340 100); (float_lit 44894 100, float_lit 9336 100);
   (float_lit 44878 100, float_lit 9333 100); (float_lit 44828 100, float_lit 9324 100);
   (float_lit 44822 100, float_lit 9323 100); (float_lit 44800 100, float_lit 9319 100);
   (float_lit 44773 100, float_lit 9314 100); (float_lit 44743 100, float_lit 9309 100);
   (float_lit 44729 100, float_lit 9306 100); (float_lit 44688 100, float_lit 9299 100);
   (float_lit 44665 100, float_lit 9295 100); (float_lit 44614 100, float_lit 9286 100);
   (float_lit 44603 100, float_lit 9284 100); (float_lit 44599 100, float_lit 9283 100);
   (float_lit 44553 100, float_lit 9275 100); (float_lit 44548 100, float_lit 9274 100);
   (float_lit 44523 100, float_lit 9269 100); (float_lit 44496 100, float_lit 9265 100);
   (float_lit 44471 100, float_lit 9260 100); (float_lit 44431 100, float_lit 9253 100);
   (float_lit 44381 100, float_lit 9244 100); (float_lit 44361 100, float_lit 9241 100);
   (float_lit 44291 100, float_lit 9228 100); (float_lit 44274 100, float_lit 9225 100);
   (float_lit 44210 100, float_lit 9214 100); (float_lit 44128 100, float_lit 9199 100);
   (float_lit 44112 100, float_lit 9196 100); (float_lit 44019 100, float_lit 9179 100);
   (float_lit 44003 100, float_lit 9177 100); (float_lit 43997 100, float_lit 9175 100);
   (float_lit 43818 100, float_lit 9144 100); (float_lit 43806 100, float_lit 9141 100);
   (float_lit 43762 100, float_lit 9134 100); (float_lit 43700 100, float_lit 9122 100);
   (float_lit 43688 100, float_lit 9120 100); (float_lit 43610 100, float_lit 9106 100);
   (float_lit 43592 100, float_lit 9103 100); (float_lit 43553 100, float_lit 9096 100);
   (float_lit 43543 100, float_lit 9095 100); (float_lit 43508 100, float_lit 9088 100);
   (float_lit 43476 100, float_lit 9083 100); (float_lit 43341 100, float_lit 9059 100);
   (float_lit 43280 100, float_lit 9048 100); (float_lit 43228 100, float_lit 9038 100);
   (float_lit 43199 100, float_lit 9033 100); (float_lit 43162 100, float_lit 9027 100);
   (float_lit 43053 100, float_lit 9007 100); (float_lit 43011 100, float_lit 9000 100);
   (float_lit 42988 100, float_lit 8996 100); (float_lit 42968 100, float_lit 8992 100);
   (float_lit 42950 100, float_lit 8989 100); (float_lit 42907 100, float_lit 8981 100);
   (float_lit 42895 100, float_lit 8979 100); (float_lit 42814 100, float_lit 8965 100);
   (float_lit 42736 100, float_lit 8951 100); (float_lit 42599 100, float_lit 8927 100);
   (float_lit 42581 100, float_lit 8924 100); (float_lit 42512 100, float_lit 8911 100);
   (float_lit 42495 100, float_lit 8908 100); (float_lit 42419 100, float_lit 8895 100);
   (float_lit 42406 100, float_lit 8893 100); (float_lit 42402 100, float_lit 8892 100);
   (float_lit 42366 100, float_lit 8885 100); (float_lit 42319 100, float_lit 8877 100);
   (float_lit 42310 100, float_lit 8876 100); (float_lit 42293 100, float_lit 8873 100);
   (float_lit 42285 100, float_lit 8871 100); (float_lit 42233 100, float_lit 8862 100);
   (float_lit 42196 100, float_lit 8855 100); (float_lit 42169 100, float_lit 8851 100);
   (float_lit 42151 100, float_lit 8847 100); (float_lit 42136 100, float_lit 8845 100);
   (float_lit 42123 100, float_lit 8842 100); (float_lit 42067 100, float_lit 8833 100);
   (float_lit 42004 100, float_lit 8821 100); (float_lit 41923 100, float_lit 8807 100);
   (float_lit 41823 100, float_lit 8789 100); (float_lit 41797 100, float_lit 8785 100);
   (float_lit 41788 100, float_lit 8783 100); (float_lit 41677 100, float_lit 8764 100);
   (float_lit 41676 100, float_lit 8763 100); (float_lit 41547 100, float_lit 8741 100);
   (float_lit 41523 100, float_lit 8736 100); (float_lit 41478 100, float_lit 8728 100);
   (float_lit 41454 100, float_lit 8724 100); (float_lit 41389 100, float_lit 8713 100);
   (float_lit 41250 100, float_lit 8688 100); (float_lit 41223 100, float_lit 8683 100);
   (float_lit 41198 100, float_lit 8679 100); (float_lit 41137 100, float_lit 8668 100);
   (float_lit 41100 100, float_lit 8661 100); (float_lit 41083 100, float_lit 8658 100);
   (float_lit 41050 100, float_lit 8653 100); (float_lit 41042 100, float_lit 8651 100);
   (float_lit 40864 100, float_lit 8620 100); (float_lit 40828 100, float_lit 8613 100);
   (float_lit 40784 100, float_lit 8605 100); (float_lit 40478 100, float_lit 8551 100);
   (float_lit 40463 100, float_lit 8548 100); (float_lit 40264 100, float_lit 8513 100);
   (float_lit 40226 100, float_lit 8506 100); (float_lit 40188 100, float_lit 8499 100);
   (float_lit 40162 100, float_lit 8495 100); (float_lit 40151 100, float_lit 8493 100);
   (float_lit 40122 100, float_lit 8488 100); (float_lit 40112 100, float_lit 8486 100);
   (float_lit 40065 100, float_lit 8478 100); (float_lit 40012 100, float_lit 8468 100);
   (float_lit 39988 100, float_lit 8464 100); (float_lit 39827 100, float_lit 8435 100);
   (float_lit 39776 100, float_lit 8426 100); (float_lit 39746 100, float_lit 8421 100);
   (float_lit 39681 100, float_lit 8409 100); (float_lit 39636 100, float_lit 8401 100);
   (float_lit 39587 100, float_lit 8392 100); (float_lit 39507 100, float_lit 8378 100);
   (float_lit 39471 100, float_lit 8372 100); (float_lit 39455 100, float_lit 8369 100);
   (float_lit 39445 100, float_lit 8367 100); (float_lit 39422 100, float_lit 8363 100);
   (float_lit 39309 100, float_lit 8343 100); (float_lit 39225 100, float_lit 8328 100);
   (float_lit 39200 100, float_lit 8323 100); (float_lit 39169 100, float_lit 8318 100);
   (float_lit 38929 100, float_lit 8275 100); (float_lit 38842 100, float_lit 8259 100);
   (float_lit 38763 100, float_lit 8245 100); (float_lit 38747 100, float_lit 8242 100);
   (float_lit 38727 100, float_lit 8239 100); (float_lit 38489 100, float_lit 8196 100);
   (float_lit 38465 100, float_lit 8192 100); (float_lit 38267 100, float_lit 8156 100);
   (float_lit 38169 100, float_lit 8139 100); (float_lit 38081 100, float_lit 8123 100);
   (float_lit 38068 100, float_lit 8121 100); (float_lit 37996 100, float_lit 8108 100);
   (float_lit 37981 100, float_lit 8105 100); (float_lit 37853 100, float_lit 8083 100);
   (float_lit 37544 100, float_lit 8028 100); (float_lit 37351 100, float_lit 7993 100);
   (float_lit 37323 100, float_lit 7988 100); (float_lit 37081 100, float_lit 7945 100);
   (float_lit 37069 100, float_lit 7943 100); (float_lit 37028 100, float_lit 7936 100);
   (float_lit 36969 100, float_lit 7925 100); (float_lit 36917 100, float_lit 7916 100);
   (float_lit 36875 100, float_lit 7908 100); (float_lit 36712 100, float_lit 7879 100);
   (float_lit 36695 100, float_lit 7876 100); (float_lit 36648 100, float_lit 7868 100);
   (float_lit 36530 100, float_lit 7847 100); (float_lit 36249 100, float_lit 7796 100);
   (float_lit 36229 100, float_lit 7793 100); (float_lit 36185 100, float_lit 7785 100);
   (float_lit 35997 100, float_lit 7751 100); (float_lit 35811 100, float_lit 7718 100);
   (float_lit 35758 100, float_lit 7708 100); (float_lit 35647 100, float_lit 7688 100);
   (float_lit 35537 100, float_lit 7668 100); (float_lit 35477 100, float_lit 7657 100);
   (float_lit 35346 100, float_lit 7634 100); (float_lit 35194 100, float_lit 7606 100);
   (float_lit 35080 100, float_lit 7585 100); (float_lit 34922 100, float_lit 7556 100);
   (float_lit 34908 100, float_lit 7553 100); (float_lit 34826 100, float_lit 7538 100);
   (float_lit 34821 100, float_lit 7537 100); (float_lit 34772 100, float_lit 7528 100);
   (float_lit 34648 100, float_lit 7505 100); (float_lit 34642 100, float_lit 7504 100);
   (float_lit 34604 100, float_lit 7497 100); (float_lit 34516 100, float_lit 7481 100);
   (float_lit 34440 100, float_lit 7467 100); (float_lit 34363 100, float_lit 7452 100);
   (float_lit 34322 100, float_lit 7444 100); (float_lit 34317 100, float_lit 7443 100);
   (float_lit 33829 100, float_lit 7351 100); (float_lit 33808 100, float_lit 7347 100);
   (float_lit 33699 100, float_lit 7326 100); (float_lit 33663 100, float_lit 7319 100);
   (float_lit 33629 100, float_lit 7312 100); (float_lit 33610 100, float_lit 7308 100);
   (float_lit 33581 100, float_lit 7303 100); (float_lit 33400 100, float_lit 7267 100);
   (float_lit 33184 100, float_lit 7225 100); (float_lit 33069 100, float_lit 7202 100);
   (float_lit 32975 100, float_lit 7184 100); (float_lit 32923 100, float_lit 7173 100);
   (float_lit 32831 100, float_lit 7155 100); (float_lit 32814 100, float_lit 7151 100);
   (float_lit 32751 100, float_lit 7139 100); (float_lit 32720 100, float_lit 7133 100);
   (float_lit 32635 100, float_lit 7115 100); (float_lit 32608 100, float_lit 7110 100);
   (float_lit 32582 100, float_lit 7105 100); (float_lit 32538 100, float_lit 7096 100);
   (float_lit 32138 100, float_lit 7014 100); (float_lit 31944 100, float_lit 6974 100);
   (float_lit 31884 100, float_lit 6961 100); (float_lit 31870 100, float_lit 6958 100);
   (float_lit 31851 100, float_lit 6954 100); (float_lit 31143 100, float_lit 6805 100);
   (float_lit 31122 100, float_lit 6801 100); (float_lit 30877 100, float_lit 6748 100);
   (float_lit 30804 100, float_lit 6733 100); (float_lit 30655 100, float_lit 6700 100);
   (float_lit 30619 100, float_lit 6693 100); (float_lit 30578 100, float_lit 6684 100);
   (float_lit 30557 100, float_lit 6679 100); (float_lit 30207 100, float_lit 6603 100);
   (float_lit 30124 100, float_lit 6584 100); (float_lit 30057 100, float_lit 6570 100);
   (float_lit 29867 100, float_lit 6528 100); (float_lit 29847 100, float_lit 6523 100);
   (float_lit 29589 100, float_lit 6466 100); (float_lit 29363 100, float_lit 6415 100);
   (float_lit 29274 100, float_lit 6395 100); (float_lit 29071 100, float_lit 6349 100);
   (float_lit 29002 100, float_lit 6333 100); (float_lit 28974 100, float_lit 6327 100);
   (float_lit 28940 100, float_lit 6319 100); (float_lit 28790 100, float_lit 6285 100);
   (float_lit 28682 100, float_lit 6260 100); (float_lit 28659 100, float_lit 6254 100);
   (float_lit 28650 100, float_lit 6252 100); (float_lit 28586 100, float_lit 6238 100);
   (float_lit 28556 100, float_lit 6231 100); (float_lit 28528 100, float_lit 6224 100);
   (float_lit 28501 100, float_lit 6218 100); (float_lit 28392 100, float_lit 6192 100);
   (float_lit 28232 100, float_lit 6155 100); (float_lit 28205 100, float_lit 6148 100);
   (float_lit 28017 100, float_lit 6104 100); (float_lit 27940 100, float_lit 6085 100);
   (float_lit 27911 100, float_lit 6078 100); (float_lit 27749 100, float_lit 6040 100);
   (float_lit 27355 100, float_lit 5943 100); (float_lit 27351 100, float_lit 5942 100);
   (float_lit 27346 100, float_lit 5941 100); (float_lit 27085 100, float_lit 5876 100);
   (float_lit 27030 100, float_lit 5862 100); (float_lit 27017 100, float_lit 5859 100);
   (float_lit 26450 100, float_lit 5713 100); (float_lit 26408 100, float_lit 5702 100);
   (float_lit 25978 100, float_lit 5588 100); (float_lit 25813 100, float_lit 5543 100);
   (float_lit 25776 100, float_lit 5533 100); (float_lit 25009 100, float_lit 5318 100);
   (float_lit 24522 100, float_lit 5177 100); (float_lit 24243 100, float_lit 5095 100);
   (float_lit 23717 100, float_lit 4937 100); (float_lit 23547 100, float_lit 4885 100);
   (float_lit 23236 100, float_lit 4789 100); (float_lit 23193 100, float_lit 4776 100);
   (float_lit 22827 100, float_lit 4662 100); (float_lit 22324 100, float_lit 4504 100);
   (float_lit 22270 100, float_lit 4487 100); (float_lit 22012 100, float_lit 4405 100);
   (float_lit 21220 100, float_lit 4153 100); (float_lit 20934 100, float_lit 4062 100);
   (float_lit 20398 100, float_lit 3891 100); (float_lit 19944 100, float_lit 3746 100)].

Definition year_2023_data : list (Qc * Qc) :=
  [(float_lit 48812 100, float_lit 9995 100); (float_lit 48792 100, float_lit 9995 100);
   (float_lit 48817 100, float_lit 9995 100); (float_lit 48859 100, float_lit 9995 100);
   (float_lit 48675 100, float_lit 9995 100); (float_lit 48657 100, float_lit 9995 100);
   (float_lit 48668 100, float_lit 9985 100); (float_lit 48659 100, float_lit 9984 100);
   (float_lit 48655 100, float_lit 9983 100); (float_lit 48645 100, float_lit 9981 100);
   (float_lit 48477 100, float_lit 9975 100); (float_lit 48606 100, float_lit 9974 100);
   (float_lit 48578 100, float_lit 9970 100); (float_lit 48496 100, float_lit 9956 100);
   (float_lit 48476 100, float_lit 9952 100); (float_lit 48472 100, float_lit 9951 100);
   (float_lit 48393 100, float_lit 9938 100); (float_lit 48387 100, float_lit 9937 100);
   (float_lit 48380 100, float_lit 9936 100); (float_lit 48299 100, float_lit 9922 100);
   (float_lit 48274 100, float_lit 9917 100); (float_lit 48122 100, float_lit 9913 100);
   (float_lit 48231 100, float_lit 9910 100); (float_lit 48231 100, float_lit 9910 100);
   (float_lit 48213 100, float_lit 9907 100); (float_lit 48195 100, float_lit 9904 100);
   (float_lit 48183 100, float_lit 9902 100); (float_lit 48176 100, float_lit 9900 100);
   (float_lit 48176 100, float_lit 9900 100); (float_lit 48172 100, float_lit 9900 100);
   (float_lit 48100 100, float_lit 9887 100); (float_lit 48093 100, float_lit 9886 100);
   (float_lit 48068 100, float_lit 9882 100); (float_lit 48059 100, float_lit 9880 100);
   (float_lit 48043 100, float_lit 9877 100); (float_lit 48043 100, float_lit 9877 100);
   (float_lit 48023 100, float_lit 9874 100); (float_lit 48013 100, float_lit 9872 100);
   (float_lit 47992 100, float_lit 9869 100); (float_lit 47805 100, float_lit 9859 100);
   (float_lit 47744 100, float_lit 9848 100); (float_lit 47864 100, float_lit 9847 100);
   (float_lit 47830 100, float_lit 9841 100); (float_lit 47831 100, float_lit 9841 100);
   (float_lit 47817 100, float_lit 9839 100); (float_lit 47771 100, float_lit 9831 100);
   (float_lit 47630 100, float_lit 9829 100); (float_lit 47723 100, float_lit 9822 100);
   (float_lit 47589 100, float_lit 9821 100); (float_lit 47641 100, float_lit 9808 100);
   (float_lit 47619 100, float_lit 9804 100); (float_lit 47607 100, float_lit 9802 100);
   (float_lit 47596 100, float_lit 9800 100); (float_lit 47590 100, float_lit 9799 100);
   (float_lit 47557 100, float_lit 9794 100); (float_lit 47401 100, float_lit 9789 100);
   (float_lit 47496 100, float_lit 9783 100); (float_lit 47497 100, float_lit 9783 100);
   (float_lit 47484 100, float_lit 9781 100); (float_lit 47420 100, float_lit 9770 100);
   (float_lit 47276 100, float_lit 9767 100); (float_lit 47371 100, float_lit 9762 100);
   (float_lit 47205 100, float_lit 9755 100); (float_lit 47197 100, float_lit 9754 100);
   (float_lit 47303 100, float_lit 9750 100); (float_lit 47301 100, float_lit 9749 100);
   (float_lit 47285 100, float_lit 9747 100); (float_lit 47273 100, float_lit 9745 100);
   (float_lit 47250 100, float_lit 9741 100); (float_lit 47239 100, float_lit 9739 100);
   (float_lit 47214 100, float_lit 9734 100); (float_lit 47185 100, float_lit 9729 100);
   (float_lit 47000 100, float_lit 9720 100); (float_lit 47097 100, float_lit 9714 100);
   (float_lit 46960 100, float_lit 9713 100); (float_lit 47035 100, float_lit 9703 100);
   (float_lit 46831 100, float_lit 9690 100); (float_lit 46831 100, float_lit 9690 100);
   (float_lit 46761 100, float_lit 9678 100); (float_lit 46878 100, float_lit 9676 100);
   (float_lit 46739 100, float_lit 9674 100); (float_lit 46859 100, float_lit 9673 100);
   (float_lit 46755 100, float_lit 9655 100); (float_lit 46752 100, float_lit 9654 100);
   (float_lit 46743 100, float_lit 9653 100); (float_lit 46704 100, float_lit 9646 100);
   (float_lit 46562 100, float_lit 9644 100); (float_lit 46664 100, float_lit 9639 100);
   (float_lit 46655 100, float_lit 9638 100); (float_lit 46625 100, float_lit 9632 100);
   (float_lit 46433 100, float_lit 9621 100); (float_lit 46474 100, float_lit 9606 100);
   (float_lit 46450 100, float_lit 9602 100); (float_lit 46434 100, float_lit 9599 100);
   (float_lit 46398 100, float_lit 9593 100); (float_lit 46400 100, float_lit 9593 100);
   (float_lit 46371 100, float_lit 9588 100); (float_lit 46214 100, float_lit 9583 100);
   (float_lit 46166 100, float_lit 9575 100); (float_lit 46291 100, float_lit 9574 100);
   (float_lit 46158 100, float_lit 9551 100); (float_lit 46151 100, float_lit 9550 100);
   (float_lit 46007 100, float_lit 9547 100); (float_lit 46103 100, float_lit 9541 100);
   (float_lit 46096 100, float_lit 9540 100); (float_lit 46070 100, float_lit 9536 100);
   (float_lit 46053 100, float_lit 9533 100); (float_lit 46050 100, float_lit 9532 100);
   (float_lit 45992 100, float_lit 9522 100); (float_lit 45951 100, float_lit 9515 100);
   (float_lit 45940 100, float_lit 9513 100); (float_lit 45901 100, float_lit 9506 100);
   (float_lit 45775 100, float_lit 9484 100); (float_lit 45624 100, float_lit 9480 100);
   (float_lit 45744 100, float_lit 9478 100); (float_lit 45721 100, float_lit 9474 100);
   (float_lit 45694 100, float_lit 9470 100); (float_lit 45528 100, float_lit 9463 100);
   (float_lit 45637 100, float_lit 9460 100); (float_lit 45449 100, float_lit 9449 100);
   (float_lit 45568 100, float_lit 9447 100); (float_lit 45528 100, float_lit 9440 100);
   (float_lit 45491 100, float_lit 9434 100); (float_lit 45469 100, float_lit 9430 100);
   (float_lit 45359 100, float_lit 9411 100); (float_lit 45342 100, float_lit 9408 100);
   (float_lit 45319 100, float_lit 9404 100); (float_lit 45304 100, float_lit 9401 100);
   (float_lit 45296 100, float_lit 9400 100); (float_lit 45145 100, float_lit 9395 100);
   (float_lit 45260 100, float_lit 9393 100); (float_lit 45218 100, float_lit 9386 100);
   (float_lit 45197 100, float_lit 9382 100); (float_lit 45029 100, float_lit 9352 100);
   (float_lit 44898 100, float_lit 9351 100); (float_lit 44978 100, float_lit 9343 100);
   (float_lit 44938 100, float_lit 9336 100); (float_lit 44875 100, float_lit 9325 100);
   (float_lit 44841 100, float_lit 9319 100); (float_lit 44819 100, float_lit 9315 100);
   (float_lit 44781 100, float_lit 9308 100); (float_lit 44766 100, float_lit 9306 100);
   (float_lit 44704 100, float_lit 9295 100); (float_lit 44694 100, float_lit 9293 100);
   (float_lit 44677 100, float_lit 9290 100); (float_lit 44679 100, float_lit 9290 100);
   (float_lit 44614 100, float_lit 9279 100); (float_lit 44617 100, float_lit 9279 100);
   (float_lit 44492 100, float_lit 9279 100); (float_lit 44561 100, float_lit 9269 100);
   (float_lit 44492 100, float_lit 9257 100); (float_lit 44456 100, float_lit 9251 100);
   (float_lit 44298 100, float_lit 9245 100); (float_lit 44409 100, float_lit 9242 100);
   (float_lit 44157 100, float_lit 9220 100); (float_lit 44153 100, float_lit 9219 100);
   (float_lit 44002 100, float_lit 9192 100); (float_lit 43928 100, float_lit 9156 100);
   (float_lit 43807 100, float_lit 9135 100); (float_lit 43775 100, float_lit 9129 100);
   (float_lit 43753 100, float_lit 9125 100); (float_lit 43619 100, float_lit 9124 100);
   (float_lit 43577 100, float_lit 9116 100); (float_lit 43686 100, float_lit 9113 100);
   (float_lit 43562 100, float_lit 9113 100); (float_lit 43535 100, float_lit 9109 100);
   (float_lit 43466 100, float_lit 9074 100); (float_lit 43398 100, float_lit 9062 100);
   (float_lit 43390 100, float_lit 9060 100); (float_lit 43268 100, float_lit 9039 100);
   (float_lit 43166 100, float_lit 9020 100); (float_lit 43147 100, float_lit 9017 100);
   (float_lit 42895 100, float_lit 8994 100); (float_lit 42859 100, float_lit 8988 100);
   (float_lit 42935 100, float_lit 8979 100); (float_lit 42699 100, float_lit 8960 100);
   (float_lit 42600 100, float_lit 8942 100); (float_lit 42490 100, float_lit 8922 100);
   (float_lit 42495 100, float_lit 8901 100); (float_lit 42446 100, float_lit 8892 100);
   (float_lit 42436 100, float_lit 8891 100); (float_lit 42388 100, float_lit 8882 100);
   (float_lit 42374 100, float_lit 8880 100); (float_lit 42199 100, float_lit 8871 100);
   (float_lit 42313 100, float_lit 8869 100); (float_lit 42077 100, float_lit 8849 100);
   (float_lit 42119 100, float_lit 8834 100); (float_lit 42084 100, float_lit 8828 100);
   (float_lit 42028 100, float_lit 8818 100); (float_lit 42003 100, float_lit 8814 100);
   (float_lit 41871 100, float_lit 8813 100); (float_lit 41867 100, float_lit 8812 100);
   (float_lit 41957 100, float_lit 8806 100); (float_lit 41954 100, float_lit 8805 100);
   (float_lit 41892 100, float_lit 8794 100); (float_lit 41754 100, float_lit 8770 100);
   (float_lit 41643 100, float_lit 8751 100); (float_lit 41647 100, float_lit 8751 100);
   (float_lit 41553 100, float_lit 8735 100); (float_lit 41535 100, float_lit 8732 100);
   (float_lit 41344 100, float_lit 8721 100); (float_lit 41432 100, float_lit 8714 100);
   (float_lit 41420 100, float_lit 8712 100); (float_lit 41416 100, float_lit 8711 100);
   (float_lit 41183 100, float_lit 8693 100); (float_lit 41252 100, float_lit 8682 100);
   (float_lit 41248 100, float_lit 8682 100); (float_lit 41196 100, float_lit 8673 100);
   (float_lit 41167 100, float_lit 8668 100); (float_lit 41028 100, float_lit 8666 100);
   (float_lit 40993 100, float_lit 8637 100); (float_lit 40900 100, float_lit 8621 100);
   (float_lit 40870 100, float_lit 8616 100); (float_lit 40851 100, float_lit 8613 100);
   (float_lit 40535 100, float_lit 8558 100); (float_lit 40406 100, float_lit 8558 100);
   (float_lit 40438 100, float_lit 8541 100); (float_lit 40240 100, float_lit 8530 100);
   (float_lit 40173 100, float_lit 8518 100); (float_lit 40205 100, float_lit 8501 100);
   (float_lit 40062 100, float_lit 8499 100); (float_lit 40043 100, float_lit 8496 100);
   (float_lit 39984 100, float_lit 8486 100); (float_lit 39788 100, float_lit 8453 100);
   (float_lit 39873 100, float_lit 8445 100); (float_lit 39847 100, float_lit 8440 100);
   (float_lit 39809 100, float_lit 8434 100); (float_lit 39689 100, float_lit 8413 100);
   (float_lit 39584 100, float_lit 8396 100); (float_lit 39326 100, float_lit 8374 100);
   (float_lit 39361 100, float_lit 8358 100); (float_lit 38996 100, float_lit 8318 100);
   (float_lit 38893 100, float_lit 8301 100); (float_lit 38963 100, float_lit 8290 100);
   (float_lit 38804 100, float_lit 8263 100); (float_lit 38770 100, float_lit 8258 100);
   (float_lit 38373 100, float_lit 8213 100); (float_lit 38362 100, float_lit 8211 100);
   (float_lit 38445 100, float_lit 8203 100); (float_lit 38199 100, float_lit 8183 100);
   (float_lit 38151 100, float_lit 8175 100); (float_lit 38081 100, float_lit 8163 100);
   (float_lit 38129 100, float_lit 8149 100); (float_lit 37829 100, float_lit 8121 100);
   (float_lit 37766 100, float_lit 8110 100); (float_lit 37819 100, float_lit 8097 100);
   (float_lit 37738 100, float_lit 8083 100); (float_lit 37603 100, float_lit 8082 100);
   (float_lit 37513 100, float_lit 8067 100); (float_lit 37628 100, float_lit 8064 100);
   (float_lit 37498 100, float_lit 8064 100); (float_lit 37624 100, float_lit 8063 100);
   (float_lit 37416 100, float_lit 8028 100); (float_lit 37244 100, float_lit 7999 100);
   (float_lit 36991 100, float_lit 7978 100); (float_lit 36895 100, float_lit 7961 100);
   (float_lit 36869 100, float_lit 7957 100); (float_lit 36747 100, float_lit 7936 100);
   (float_lit 36716 100, float_lit 7931 100); (float_lit 36749 100, float_lit 7914 100);
   (float_lit 36594 100, float_lit 7910 100); (float_lit 36523 100, float_lit 7897 100);
   (float_lit 36491 100, float_lit 7892 100); (float_lit 36575 100, float_lit 7884 100);
   (float_lit 36444 100, float_lit 7884 100); (float_lit 36244 100, float_lit 7849 100);
   (float_lit 36154 100, float_lit 7833 100); (float_lit 35960 100, float_lit 7799 100);
   (float_lit 36061 100, float_lit 7795 100); (float_lit 35804 100, float_lit 7772 100);
   (float_lit 35731 100, float_lit 7759 100); (float_lit 35835 100, float_lit 7755 100);
   (float_lit 35816 100, float_lit 7752 100); (float_lit 35636 100, float_lit 7742 100);
   (float_lit 35531 100, float_lit 7724 100); (float_lit 35416 100, float_lit 7681 100);
   (float_lit 35185 100, float_lit 7662 100); (float_lit 35299 100, float_lit 7660 100);
   (float_lit 35228 100, float_lit 7648 100); (float_lit 35091 100, float_lit 7646 100);
   (float_lit 35096 100, float_lit 7646 100); (float_lit 34938 100, float_lit 7596 100);
   (float_lit 34775 100, float_lit 7589 100); (float_lit 34460 100, float_lit 7531 100);
   (float_lit 34567 100, float_lit 7529 100); (float_lit 34561 100, float_lit 7528 100);
   (float_lit 34371 100, float_lit 7515 100); (float_lit 34189 100, float_lit 7482 100);
   (float_lit 34164 100, float_lit 7477 100); (float_lit 34129 100, float_lit 7471 100);
   (float_lit 33840 100, float_lit 7417 100); (float_lit 33771 100, float_lit 7404 100);
   (float_lit 33489 100, float_lit 7351 100); (float_lit 33213 100, float_lit 7299 100);
   (float_lit 33048 100, float_lit 7267 100); (float_lit 33157 100, float_lit 7266 100);
   (float_lit 33020 100, float_lit 7262 100); (float_lit 32939 100, float_lit 7246 100);
   (float_lit 33026 100, float_lit 7241 100); (float_lit 32808 100, float_lit 7221 100);
   (float_lit 32334 100, float_lit 7128 100); (float_lit 32285 100, float_lit 7119 100);
   (float_lit 32239 100, float_lit 7110 100); (float_lit 32155 100, float_lit 7093 100);
   (float_lit 32100 100, float_lit 7060 100); (float_lit 31902 100, float_lit 7043 100);
   (float_lit 31656 100, float_lit 6993 100); (float_lit 31550 100, float_lit 6972 100);
   (float_lit 31437 100, float_lit 6949 100); (float_lit 31465 100, float_lit 6932 100);
   (float_lit 31238 100, float_lit 6908 100); (float_lit 31320 100, float_lit 6903 100);
   (float_lit 31212 100, float_lit 6903 100); (float_lit 30860 100, float_lit 6808 100);
   (float_lit 30810 100, float_lit 6797 100); (float_lit 30786 100, float_lit 6792 100);
   (float_lit 30750 100, float_lit 6785 100); (float_lit 30641 100, float_lit 6784 100);
   (float_lit 30067 100, float_lit 6663 100); (float_lit 29414 100, float_lit 6500 100);
   (float_lit 29160 100, float_lit 6467 100); (float_lit 28687 100, float_lit 6362 100);
   (float_lit 28404 100, float_lit 6299 100); (float_lit 28264 100, float_lit 6246 100);
   (float_lit 27940 100, float_lit 6195 100); (float_lit 27418 100, float_lit 6077 100);
   (float_lit 27088 100, float_lit 6001 100); (float_lit 26994 100, float_lit 5958 100);
   (float_lit 26384 100, float_lit 5839 100); (float_lit 26323 100, float_lit 5825 100);
   (float_lit 26308 100, float_lit 5822 100); (float_lit 26249 100, float_lit 5808 100);
   (float_lit 25514 100, float_lit 5615 100); (float_lit 24969 100, float_lit 5487 100);
   (float_lit 24124 100, float_lit 5312 100); (float_lit 23975 100, float_lit 5254 100);
   (float_lit 23665 100, float_lit 5204 100); (float_lit 23583 100, float_lit 5162 100);
   (float_lit 23409 100, float_lit 5121 100); (float_lit 23173 100, float_lit 5088 100);
   (float_lit 22181 100, float_lit 4856 100); (float_lit 21738 100, float_lit 4752 100);
   (float_lit 21439 100, float_lit 4682 100); (float_lit 20306 100, float_lit 4417 100);
   (float_lit 20315 100, float_lit 4397 100); (float_lit 20011 100, float_lit 4348 100);
   (float_lit 18426 100, float_lit 3980 100); (float_lit 18347 100, float_lit 3961 100);
   (float_lit 17913 100, float_lit 3861 100); (float_lit 15856 100, float_lit 3385 100);
   (float_lit 14802 100, float_lit 3142 100)].

(** [prev_atars, prev_aggs = clean_and_average(prev_year_data)] and
    [y23_atars, y23_aggs = clean_and_average(year_2023_data)]. *)
Definition prev_atars : list Qc := (clean_and_average prev_year_data).1.
Definition prev_aggs : list Qc := (clean_and_average prev_year_data).2.
Definition y23_atars : list Qc := (clean_and_average year_2023_data).1.
Definition y23_aggs : list Qc := (clean_and_average year_2023_data).2.

(** Lines 419-473: the array [blended] after the blend loop over
    [atar_grid], the smooth extension below ATAR 48, the forward
    monotonicity pass and the clamp into [[0, 500]].  The two
    [PchipInterpolator] objects built from the cleaned reference data
    are the functions [interp_prev] and [interp_2023], and
    [slope_2023] is [interp_2023.derivative()(y23_atars[0])]. *)
Definition blended_final (interp_prev interp_2023 : Qc → Qc)
    (slope_2023 : Qc) : option (list Qc) :=
  blended ← blend_curve interp_prev interp_2023 slope_2023
               prev_atars y23_atars y23_aggs atar_grid;
  blended ← smooth_extend atar_grid blended;
  Some (monotone_blended blended).
(* ================================================================= *)
(** ** qld_course_scales_app.py: evaluation, the other builders, export *)

(** [eval_poly(coeffs, x)]:
    [for i, c in enumerate(coeffs): result += c * x ** (len(coeffs) - 1 - i)] *)
Definition eval_poly (coeffs : list Qc) (x : Qc) : Qc :=
  foldl (λ result '(i, c), result + c * x ^ (length coeffs - 1 - i))
        0 (imap (λ i c, (i, c)) coeffs).

(** [SubjectData.to_dict]: the exported row, in the columns of
    [scale_row]. *)
Definition to_dict (s : SubjectData) : scale_row :=
  {| Subject_Name := name s; Subject_ID := subject_id s;
     Min_X := round2 (min_x s); PZX := round2 (pzx s);
     P25_X := p25x s; P50_X := p50x s; P75_X := p75x s; P90_X := p90x s;
     P99_X := p99x s; Max_X := round2 (max_x s);
     Min_Y := round2 (min_y s); PZY := round2 (pzy s);
     P25_Y := p25y s; P50_Y := p50y s; P75_Y := p75y s; P90_Y := p90y s;
     P99_Y := p99y s; Max_Y := round2 (max_y s);
     row_X := (X4 s, X3 s, X2 s, X1 s, X0 s);
     row_Z := (Zc3 s, Zc2 s, Zc1 s, Zc0 s) |}.

(** The parsed entry of a general or external subject: the dict with
    ['code'], ['name'], ['has_data'] and, when it has data, the ten
    percentile values ['P25X'] .. ['P99Y']. *)
Record percentile_data := {
  P25X : Qc; P50X : Qc; P75X : Qc; P90X : Qc; P99X : Qc;
  P25Y : Qc; P50Y : Qc; P75Y : Qc; P90Y : Qc; P99Y : Qc
}.
Record general_item := {
  item_code : string; item_name : string; item_data : option percentile_data
}.
Definition has_data (s : general_item) : bool :=
  match item_data s with Some _ => true | None => false end.

(** The parsed entry of an applied subject: ['code'], ['name'], ['C'],
    ['B'], ['A']. *)
Record applied_item := {
  app_code : string; app_name : string; app_C : Qc; app_B : Qc; app_A : Qc
}.

(** [s.startswith(p)] *)
Definition startswith (p s : string) : Prop := String.prefix p s = true.

Global Instance startswith_dec p s : Decision (startswith p s).
Proof. unfold startswith. apply _. Defined.

(** [PDFExtractor._deduplicate_general], on the list
    [self.general_subjects]; the result is the new value of that
    attribute. *)
Definition deduplicate_general (general_subjects : list general_item)
    : list general_item :=
  let table6_names : gset string :=
    list_to_set (item_name <$> filter (λ s, startswith "0" (item_code s))
                                      general_subjects) in
  foldl (λ deduped s,
           if decide (startswith "4" (item_code s)
                      ∧ item_name s ∈ table6_names) then
             if negb (has_data s) then deduped
             else deduped ++
                  [{| item_code := item_code s;
                      item_name := item_name s +:+ " (External Exam)";
                      item_data := item_data s |}]
           else deduped ++ [s])
        [] general_subjects.

(** [max(l)] on a non-empty list: the first of the largest entries. *)
Definition py_max_list (l : list Qc) : option Qc :=
  match l with
  | [] => None
  | x :: t => Some (foldl pymax x t)
  end.

(** [PDFExtractor._parse_applied_subjects], lines 272-286: the scaled
    values of the grades C, B and A chosen from the five values of the
    "Scaled" line; [None] when there are not five values and no entry
    is appended. *)
Definition applied_grades (scaled_vals : list Qc) : option (Qc * Qc * Qc) :=
  if decide (length scaled_vals = 5%nat) then
    let unique_vals := py_sorted id false (remove_dups scaled_vals) in
    if decide (3 ≤ length unique_vals)%nat then
      c_val ← unique_vals !! 0%nat;
      b_val ← unique_vals !! 1%nat;
      a_val ← last unique_vals;
      Some (c_val, b_val, a_val)
    else if decide (length unique_vals = 2%nat) then
      c_val ← scaled_vals !! 0%nat;
      b_val ← scaled_vals !! 1%nat;
      a_val ← py_max_list scaled_vals;
      Some (c_val, b_val, a_val)
    else
      u ← unique_vals !! 0%nat; Some (u, u, u)
  else None.

(** [VET_SUBJECTS]: name, id, qualification level. *)
Definition VET_SUBJECTS : list (string * Z * string) :=
  [("Diploma in Business", 91%Z, "DIPLOMA");
   ("Cert III Agriculture", 92%Z, "CERTIII");
   ("Cert III Automotive Electrical Technology", 114%Z, "CERTIII");
   ("Cert III Aviation", 111%Z, "CERTIII");
   ("Cert III Business", 81%Z, "CERTIII");
   ("Cert III Cabinet Making", 83%Z, "CERTIII");
   ("Cert III Carpentry", 84%Z, "CERTIII");
   ("Cert III Child Care", 96%Z, "CERTIII");
   ("Cert III Early Childhood Education", 123%Z, "CERTIII");
   ("Cert III Fitness", 82%Z, "CERTIII");
   ("Cert III Health Services Assistance", 108%Z, "CERTIII");
   ("Cert III Health Support Services", 131%Z, "CERTIII");
   ("Cert III Hospitality", 139%Z, "CERTIII");
   ("Cert III Lab Skills", 135%Z, "CERTIII");
   ("Cert III Laboratory Skills", 129%Z, "CERTIII");
   ("Cert III Light Vehicle Mechanical Tech", 85%Z, "CERTIII");
   ("Cert III Retail", 133%Z, "CERTIII")].

(** [{"CERTIII": 38.00, "CERTIV": 51.84, "DIPLOMA": 58.72}] *)
Definition default_vet_scaled : gmap string Qc :=
  <["CERTIII" := of_int 38]>
    (<["CERTIV" := float_lit 5184 100]>
       (<["DIPLOMA" := float_lit 5872 100]> ∅)).

(** The point that is dragged: [self.drag_type] is ['min'] or ['pz']. *)
Inductive drag := drag_min | drag_pz.

Section course_scales_app.
Variable fit_poly_4 : list Qc → list Qc → Qc * Qc * Qc * Qc * Qc.
Variable fit_poly_3 : list Qc → list Qc → Qc * Qc * Qc * Qc.
Variable np_polyfit2 : list Qc → list Qc → Qc * Qc * Qc.
Variable SUBJECT_IDS : gmap string Z.
Variable lookup_id : string → string → Z.

(** [build_nodata] *)
Definition build_nodata (cd nm : string) : SubjectData :=
  let s := SubjectData_init SUBJECT_IDS nm cd nodata in
  {| name := name s; code := code s; subject_type := subject_type s;
     subject_id := subject_id s;
     min_x := of_int 10; pzx := pzx s; p25x := p25x s; p50x := p50x s;
     p75x := p75x s; p90x := p90x s; p99x := p99x s; max_x := max_x s;
     min_y := min_y s; pzy := pzy s; p25y := p25y s; p50y := p50y s;
     p75y := p75y s; p90y := p90y s; p99y := p99y s; max_y := max_y s;
     X4 := X4 s; X3 := X3 s; X2 := X2 s; X1 := X1 s; X0 := X0 s;
     Zc3 := Zc3 s; Zc2 := Zc2 s; Zc1 := Zc1 s; Zc0 := Zc0 s;
     max_fit_error := max_fit_error s; committed := committed s |}.

(** [build_applied] *)
Definition build_applied (cd nm : string) (c_val b_val a_val : Qc)
    : SubjectData :=
  let s := SubjectData_init SUBJECT_IDS nm cd applied in
  {| name := name s; code := code s; subject_type := subject_type s;
     subject_id := subject_id s;
     min_x := of_int 10; pzx := pzx s; p25x := p25x s; p50x := p50x s;
     p75x := p75x s; p90x := p90x s; p99x := p99x s; max_x := max_x s;
     min_y := min_y s; pzy := pzy s; p25y := p25y s; p50y := c_val;
     p75y := b_val; p90y := a_val; p99y := p99y s; max_y := max_y s;
     X4 := X4 s; X3 := X3 s; X2 := X2 s; X1 := X1 s; X0 := X0 s;
     Zc3 := Zc3 s; Zc2 := Zc2 s; Zc1 := Zc1 s; Zc0 := Zc0 s;
     max_fit_error := max_fit_error s; committed := committed s |}.

(** [build_vet]; [str(sub_id)] is the decimal numeral of the id. *)
Definition build_vet (nm : string) (sub_id : Z) (scaled_val : Qc)
    : SubjectData :=
  let s := SubjectData_init SUBJECT_IDS nm (pretty sub_id) vet in
  {| name := name s; code := code s; subject_type := subject_type s;
     subject_id := sub_id;
     min_x := 0; pzx := scaled_val; p25x := scaled_val; p50x := scaled_val;
     p75x := scaled_val; p90x := scaled_val; p99x := scaled_val;
     max_x := scaled_val;
     min_y := min_y s; pzy := scaled_val; p25y := scaled_val;
     p50y := scaled_val; p75y := scaled_val; p90y := scaled_val;
     p99y := scaled_val; max_y := scaled_val;
     X4 := X4 s; X3 := X3 s; X2 := X2 s; X1 := X1 s; X0 := X0 s;
     Zc3 := Zc3 s; Zc2 := Zc2 s; Zc1 := Zc1 s; Zc0 := Zc0 s;
     max_fit_error := max_fit_error s; committed := committed s |}.

(** [QldCourseScalesApp._upload_pdf], lines 689-715: the list
    [self.subjects] built from the extracted data. *)
Definition upload_subjects (general : list general_item)
    (applied_items : list applied_item) (vet_data : gmap string Qc)
    : list SubjectData :=
  let general_part :=
    (λ item,
       match item_data item with
       | Some d =>
           build_general fit_poly_4 fit_poly_3 np_polyfit2 SUBJECT_IDS
             (item_code item) (item_name item)
             (P25X d) (P50X d) (P75X d) (P90X d) (P99X d)
             (P25Y d) (P50Y d) (P75Y d) (P90Y d) (P99Y d)
       | None => build_nodata (item_code item) (item_name item)
       end) <$> general in
  let applied_part :=
    (λ item, build_applied (app_code item) (app_name item)
               (app_C item) (app_B item) (app_A item)) <$> applied_items in
  let vet_scaled :=
    if decide (vet_data = ∅) then default_vet_scaled else vet_data in
  let vet_part :=
    (λ '(nm, sub_id, level),
       build_vet nm sub_id (default (of_int 38) (vet_scaled !! level)))
      <$> VET_SUBJECTS in
  general_part ++ applied_part ++ vet_part.

(** The counts of the "PDF Loaded" message, lines 724-731:
    general with data, no data, applied, VET, total. *)
Definition upload_counts (subjects : list SubjectData)
    : nat * nat * nat * nat * nat :=
  (length (filter (λ s, subject_type s = general ∧ 0 < p25x s) subjects),
   length (filter (λ s, subject_type s = nodata) subjects),
   length (filter (λ s, subject_type s = applied) subjects),
   length (filter (λ s, subject_type s = vet) subjects),
   length subjects).

(** [QldCourseScalesApp._on_mouse_move]: what the handler does to the
    current subject.  [inaxes] is [event.inaxes == self.ax] and
    [xydata] is [(event.xdata, event.ydata)], or [None] when the
    pointer is outside the axes (matplotlib sets both or neither). *)
Definition on_mouse_move (drag_type : option drag) (inaxes : bool)
    (xydata : option (Qc * Qc)) (s : SubjectData) : SubjectData :=
  match drag_type, inaxes, xydata with
  | Some d, true, Some (xdata, ydata) =>
      let min_gap := min_gap_of (p25x s) (p50x s) (p75x s) (p90x s) (p99x s) in
      let s1 :=
        match d with
        | drag_min =>
            let new_x := pymax 0 (pymin (p25x s - of_int 2 * min_gap) xdata) in
            let mx := round2 new_x in
            {| name := name s; code := code s; subject_type := subject_type s;
               subject_id := subject_id s;
               min_x := mx; pzx := round2 ((mx + p25x s) / of_int 2);
               p25x := p25x s; p50x := p50x s; p75x := p75x s; p90x := p90x s;
               p99x := p99x s; max_x := max_x s;
               min_y := 0; pzy := pzy s; p25y := p25y s; p50y := p50y s;
               p75y := p75y s; p90y := p90y s; p99y := p99y s; max_y := max_y s;
               X4 := X4 s; X3 := X3 s; X2 := X2 s; X1 := X1 s; X0 := X0 s;
               Zc3 := Zc3 s; Zc2 := Zc2 s; Zc1 := Zc1 s; Zc0 := Zc0 s;
               max_fit_error := max_fit_error s; committed := committed s |}
        | drag_pz =>
            let new_y :=
              pymax (float_lit 1 10) (pymin (p25y s - float_lit 5 10) ydata) in
            {| name := name s; code := code s; subject_type := subject_type s;
               subject_id := subject_id s;
               min_x := min_x s; pzx := pzx s;
               p25x := p25x s; p50x := p50x s; p75x := p75x s; p90x := p90x s;
               p99x := p99x s; max_x := max_x s;
               min_y := min_y s; pzy := round2 new_y; p25y := p25y s;
               p50y := p50y s; p75y := p75y s; p90y := p90y s; p99y := p99y s;
               max_y := max_y s;
               X4 := X4 s; X3 := X3 s; X2 := X2 s; X1 := X1 s; X0 := X0 s;
               Zc3 := Zc3 s; Zc2 := Zc2 s; Zc1 := Zc1 s; Zc0 := Zc0 s;
               max_fit_error := max_fit_error s; committed := committed s |}
        end in
      compute_polynomials fit_poly_4 fit_poly_3 s1
  | _, _, _ => s
  end.

(** [QldCourseScalesApp._reset_current], on the current subject. *)
Definition reset_current (s : SubjectData) : SubjectData :=
  if decide (subject_type s = general ∧ 0 < p25x s) then
    let min_gap := min_gap_of (p25x s) (p50x s) (p75x s) (p90x s) (p99x s) in
    let mx := pymin (of_int 10) (p25x s - of_int 2 * min_gap) in
    let mx := pymax 0 mx in
    let px := (mx + p25x s) / of_int 2 in
    let quad_c := np_polyfit2 [mx; p25x s; p50x s] [0; p25y s; p50y s] in
    let py := np_polyval2 quad_c px in
    let py := pymax 0 (pymin (p25y s * float_lit 95 100) py) in
    let s1 :=
      compute_polynomials fit_poly_4 fit_poly_3
        {| name := name s; code := code s; subject_type := subject_type s;
           subject_id := subject_id s;
           min_x := mx; pzx := px;
           p25x := p25x s; p50x := p50x s; p75x := p75x s; p90x := p90x s;
           p99x := p99x s; max_x := max_x s;
           min_y := 0; pzy := py; p25y := p25y s; p50y := p50y s;
           p75y := p75y s; p90y := p90y s; p99y := p99y s; max_y := max_y s;
           X4 := X4 s; X3 := X3 s; X2 := X2 s; X1 := X1 s; X0 := X0 s;
           Zc3 := Zc3 s; Zc2 := Zc2 s; Zc1 := Zc1 s; Zc0 := Zc0 s;
           max_fit_error := max_fit_error s; committed := committed s |} in
    {| name := name s1; code := code s1; subject_type := subject_type s1;
       subject_id := subject_id s1;
       min_x := min_x s1; pzx := pzx s1;
       p25x := p25x s1; p50x := p50x s1; p75x := p75x s1; p90x := p90x s1;
       p99x := p99x s1; max_x := max_x s1;
       min_y := min_y s1; pzy := pzy s1; p25y := p25y s1; p50y := p50y s1;
       p75y := p75y s1; p90y := p90y s1; p99y := p99y s1; max_y := max_y s1;
       X4 := X4 s1; X3 := X3 s1; X2 := X2 s1; X1 := X1 s1; X0 := X0 s1;
       Zc3 := Zc3 s1; Zc2 := Zc2 s1; Zc1 := Zc1 s1; Zc0 := Zc0 s1;
       max_fit_error := max_fit_error s1; committed := false |}
  else s.

(** [QldCourseScalesApp._auto_fit_current], on the current subject:
    the message boxes apart, the record as [auto_optimize_subject]
    leaves it. *)
Definition auto_fit_current (s : SubjectData) : SubjectData :=
  if decide (subject_type s ≠ general ∨ p25x s = 0) then s
  else (auto_optimize_subject fit_poly_4 fit_poly_3 s).2.

(** [QldCourseScalesApp._commit_current], on the current subject. *)
Definition commit_current (s : SubjectData) : SubjectData :=
  {| name := name s; code := code s; subject_type := subject_type s;
     subject_id := subject_id s;
     min_x := min_x s; pzx := pzx s;
     p25x := p25x s; p50x := p50x s; p75x := p75x s; p90x := p90x s;
     p99x := p99x s; max_x := max_x s;
     min_y := min_y s; pzy := pzy s; p25y := p25y s; p50y := p50y s;
     p75y := p75y s; p90y := p90y s; p99y := p99y s; max_y := max_y s;
     X4 := X4 s; X3 := X3 s; X2 := X2 s; X1 := X1 s; X0 := X0 s;
     Zc3 := Zc3 s; Zc2 := Zc2 s; Zc1 := Zc1 s; Zc0 := Zc0 s;
     max_fit_error := max_fit_error s; committed := true |}.

(** [QldCourseScalesApp._auto_fit_all]: the subjects as the loop
    leaves them, the counter [succeeded] and the list [failed_names].
    A subject that is not eligible is not touched. *)
Definition auto_fit_all (subjects : list SubjectData)
    : list SubjectData * nat * list string :=
  foldl (λ '(done, succeeded, failed_names) s,
           if decide (subject_type s = general ∧ 0 < p25x s) then
             let '(ok, s') := auto_optimize_subject fit_poly_4 fit_poly_3 s in
             if ok then (done ++ [s'], S succeeded, failed_names)
             else (done ++ [s'], succeeded, failed_names ++ [name s])
           else (done ++ [s], succeeded, failed_names))
        ([], 0%nat, []) subjects.

(* ================================================================= *)
(** ** build_course_scales_2025.py: the other rows and the summary *)

(** [process_no_data_subject] *)
Definition process_no_data_subject (nm cd : string) : scale_row :=
  {| Subject_Name := nm; Subject_ID := lookup_id nm cd;
     Min_X := of_int 10; PZX := 0; P25_X := 0; P50_X := 0; P75_X := 0;
     P90_X := 0; P99_X := 0; Max_X := 0;
     Min_Y := 0; PZY := 0; P25_Y := 0; P50_Y := 0; P75_Y := 0; P90_Y := 0;
     P99_Y := 0; Max_Y := 0;
     row_X := (0, 0, 0, 0, 0); row_Z := (0, 0, 0, 0) |}.

(** [process_applied_subject] *)
Definition process_applied_subject (nm cd : string)
    (c_scaled b_scaled a_scaled : Qc) : scale_row :=
  {| Subject_Name := nm; Subject_ID := lookup_id nm cd;
     Min_X := of_int 10; PZX := 0; P25_X := 0; P50_X := 0; P75_X := 0;
     P90_X := 0; P99_X := 0; Max_X := 0;
     Min_Y := 0; PZY := 0; P25_Y := 0;
     P50_Y := c_scaled; P75_Y := b_scaled; P90_Y := a_scaled;
     P99_Y := 0; Max_Y := 0;
     row_X := (0, 0, 0, 0, 0); row_Z := (0, 0, 0, 0) |}.

(** The rows of a table of general or external subjects: an entry
    whose percentiles are [None] is a subject without data. *)
Definition process_general_table
    (table : list (string * string * option percentile_data))
    : list scale_row :=
  (λ '(cd, nm, entry),
     match entry with
     | None => process_no_data_subject nm cd
     | Some d =>
         process_general_subject fit_poly_4 fit_poly_3 np_polyfit2 lookup_id
           nm cd (P25X d) (P50X d) (P75X d) (P90X d) (P99X d)
           (P25Y d) (P50Y d) (P75Y d) (P90Y d) (P99Y d)
     end) <$> table.
End course_scales_app.

(** [process_vet_subject] *)
Definition process_vet_subject (nm : string) (sub_id : Z) (scaled_val : Qc)
    : scale_row :=
  {| Subject_Name := nm; Subject_ID := sub_id;
     Min_X := 0; PZX := scaled_val; P25_X := scaled_val; P50_X := scaled_val;
     P75_X := scaled_val; P90_X := scaled_val; P99_X := scaled_val;
     Max_X := scaled_val;
     Min_Y := 0; PZY := scaled_val; P25_Y := scaled_val; P50_Y := scaled_val;
     P75_Y := scaled_val; P90_Y := scaled_val; P99_Y := scaled_val;
     Max_Y := scaled_val;
     row_X := (0, 0, 0, 0, 0); row_Z := (0, 0, 0, 0) |}.

(** Lines 374-448: the list [results], from the four tables. *)
Definition batch_results
    (fit_poly_4 : list Qc → list Qc → Qc * Qc * Qc * Qc * Qc)
    (fit_poly_3 : list Qc → list Qc → Qc * Qc * Qc * Qc)
    (np_polyfit2 : list Qc → list Qc → Qc * Qc * Qc)
    (lookup_id : string → string → Z)
    (table6_general table7_external
       : list (string * string * option percentile_data))
    (table8_applied : list (string * string * Qc * Qc * Qc))
    (vet_subjects : list (string * Z * Qc)) : list scale_row :=
  process_general_table fit_poly_4 fit_poly_3 np_polyfit2 lookup_id
    table6_general
  ++ process_general_table fit_poly_4 fit_poly_3 np_polyfit2 lookup_id
       table7_external
  ++ ((λ '(cd, nm, c_val, b_val, a_val),
         process_applied_subject lookup_id nm cd c_val b_val a_val)
        <$> table8_applied)
  ++ ((λ '(nm, sub_id, scaled_val), process_vet_subject nm sub_id scaled_val)
        <$> vet_subjects).

(** The counts of the summary, lines 512-516: total, rows with
    polynomials, no data, applied, VET. *)
Definition summary_counts (results : list scale_row)
    : nat * nat * nat * nat * nat :=
  (length results,
   length (filter (λ r, (row_X r).1.1.1.1 ≠ 0 ∨ (row_X r).1.1.1.2 ≠ 0) results),
   length (filter (λ r, P25_X r = 0 ∧ Min_X r = of_int 10 ∧ P50_Y r = 0)
                  results),
   length (filter (λ r, P50_Y r ≠ 0 ∧ P25_X r = 0 ∧ Min_X r = of_int 10)
                  results),
   length (filter (λ r, Min_X r = 0) results)).
(* ================================================================= *)
(** ** Notions for the cleaned reference data *)

(** The mean of all aggregates that the data records at one ATAR. *)
Definition group_mean (data : list (Qc * Qc)) (a : Qc) : Qc :=
  np_mean (filter (λ p, p.2 = a) data).*1.

(** Reference data that is a scale already: ATARs and aggregates both
    strictly increase along the list. *)
Definition clean_scale (data : list (Qc * Qc)) : Prop :=
  StronglySorted (λ p q, p.2 < q.2 ∧ p.1 < q.1) data.

(** Five points of the previous year's reference data: two students
    share the ATAR 69.03, and the aggregate recorded at 72.66 is above
    the one at 72.67. *)
Definition example_reference : list (Qc * Qc) :=
  [(float_lit 33213 100, float_lit 7299 100);
   (float_lit 33048 100, float_lit 7267 100);
   (float_lit 33157 100, float_lit 7266 100);
   (float_lit 31320 100, float_lit 6903 100);
   (float_lit 31212 100, float_lit 6903 100)].

(** Three points that form a scale. *)
Definition example_scale : list (Qc * Qc) :=
  [(float_lit 31266 100, float_lit 6903 100);
   (float_lit 33048 100, float_lit 7267 100);
   (float_lit 33213 100, float_lit 7299 100)].

(* ================================================================= *)
(** ** Notions for the blend and the smooth extension *)

(** The step taken [n] bands below the transition, for a gradient
    [avg] per band: [avg * max(1 - 0.0003 * n, 0.85)]. *)
Definition decel_grad (avg : Qc) (n : nat) : Qc :=
  avg * pymax (1 - float_lit 3 10000 * of_int (Z.of_nat n)) (float_lit 85 100).

(** Stand-ins for the two interpolators in the examples: straight
    lines over the ATAR. *)
Definition line_prev (a : Qc) : Qc := of_int 5 * a.
Definition line_2023 (a : Qc) : Qc := of_int 5 * a - of_int 10.

(** A blended curve on the grid that rises by [0.25] per band. *)
Definition example_blended : list Qc :=
  (λ i : nat, of_int 100 + float_lit 25 100 * of_int (Z.of_nat i))
    <$> seq 0 1399.

(** The weight of a source at [a]: [w] inside the source's range
    [[lo, hi]], faded by [fade] of the distance from [lo] where that
    distance is below [zone], and [0] outside the range. *)
Definition faded_weight (w zone : Qc) (fade : Qc → Qc) (lo hi a : Qc) : Qc :=
  if decide (lo ≤ a ∧ a ≤ hi) then
    if decide (a - lo < zone) then w * fade ((a - lo) / zone) else w
  else 0.
Definition weight_prev : Qc → Qc → Qc → Qc :=
  faded_weight W_PREV FADE_ZONE_PREV (λ t, t * t * t).
Definition weight_2023 : Qc → Qc → Qc → Qc :=
  faded_weight W_2023 FADE_ZONE_2023 (λ t, t).

(** Reference ranges for the examples: the previous year covers
    [[40, 99.95]], 2023 covers [[30, 99.95]]. *)
Definition example_prev_atars : list Qc := [of_int 40; float_lit 9995 100].
Definition example_y23_atars : list Qc := [of_int 30; float_lit 9995 100].
Definition example_y23_aggs : list Qc := [of_int 140; float_lit 48975 100].
Definition example_blend : Qc → option Qc :=
  blend_point line_prev line_2023 (of_int 5)
    example_prev_atars example_y23_atars example_y23_aggs.

(* ================================================================= *)
(** ** Notions for the course scaling files *)

(** Horner's rule, as [np.polyval] evaluates a polynomial. *)
Definition horner (coeffs : list Qc) (x : Qc) : Qc :=
  foldl (λ acc c, acc * x + c) 0 coeffs.

(** A value with at most two decimals. *)
Definition two_decimals (v : Qc) : Prop := ∃ k, v = float_lit k 100.



(** Small tables for the batch script: two general subjects (one
    without data), one external subject, one applied subject and one
    VET subject. *)
Definition english_data : percentile_data :=
  {| P25X := of_int 61; P50X := of_int 72; P75X := of_int 83;
     P90X := of_int 91; P99X := of_int 99;
     P25Y := float_lit 5267 100; P50Y := float_lit 7012 100;
     P75Y := float_lit 8318 100; P90Y := float_lit 8948 100;
     P99Y := float_lit 9360 100 |}.
Definition chinese_external_data : percentile_data :=
  {| P25X := of_int 71; P50X := of_int 83; P75X := of_int 89;
     P90X := of_int 93; P99X := of_int 98;
     P25Y := float_lit 7437 100; P50Y := float_lit 8391 100;
     P75Y := float_lit 8749 100; P90Y := float_lit 8948 100;
     P99Y := float_lit 9157 100 |}.
Definition example_table6 : list (string * string * option percentile_data) :=
  [("0001", "English", Some english_data);
   ("0056", "Chinese Extension", None)].
Definition example_table7 : list (string * string * option percentile_data) :=
  [("4011", "Chinese", Some chinese_external_data);
   ("4100", "Arabic", None)].
Definition example_table8 : list (string * string * Qc * Qc * Qc) :=
  [("6400", "Agricultural Practices", float_lit 694 100, float_lit 1812 100,
    float_lit 3966 100)].
Definition example_vet : list (string * Z * Qc) :=
  [("Diploma in Business", 91%Z, float_lit 5872 100)].

(** The id table of both scripts, cut down to the subjects of the
    examples, and the batch script's lookup on it; the codes of the
    examples are not needed, their names are all listed. *)
Definition example_ids : gmap string Z :=
  <["English" := 31%Z]> (<["Chinese" := 17%Z]>
    (<["Chinese Extension" := 16%Z]> (<["Arabic" := 97%Z]>
      (<["Agricultural Practices" := 5%Z]> ∅)))).
Definition example_lookup_id (nm cd : string) : Z :=
  default 0%Z (example_ids !! nm).

(** What [_deduplicate_general] does with one entry, given the names
    of Table 6: drop it, rename it or keep it. *)
Definition dedup_entry (table6_names : gset string) (s : general_item)
    : option general_item :=
  if decide (startswith "4" (item_code s) ∧ item_name s ∈ table6_names) then
    if negb (has_data s) then None
    else Some {| item_code := item_code s;
                 item_name := item_name s +:+ " (External Exam)";
                 item_data := item_data s |}
  else Some s.

(** Parsed entries: English and Chinese of Table 6, and three external
    subjects of Table 7, of which English has no data and Chinese has. *)
Definition example_general : list general_item :=
  [{| item_code := "0001"; item_name := "English";
      item_data := Some english_data |};
   {| item_code := "0011"; item_name := "Chinese";
      item_data := Some english_data |};
   {| item_code := "4100"; item_name := "Arabic"; item_data := None |};
   {| item_code := "4011"; item_name := "Chinese";
      item_data := Some chinese_external_data |};
   {| item_code := "4001"; item_name := "English"; item_data := None |}].

(** A parsed general entry that has data with a positive [P25X]. *)
Definition data_with_marks (item : general_item) : Prop :=
  match item_data item with Some d => 0 < P25X d | None => False end.

Global Instance data_with_marks_dec item : Decision (data_with_marks item).
Proof. unfold data_with_marks. destruct (item_data item); apply _. Defined.

(** What the report says about a subject: everything in the record
    but the Min and LowerBoundary anchors, the fitted coefficients,
    the fit error and the commit mark. *)
Definition report_data (s : SubjectData) :=
  (name s, code s, subject_type s, subject_id s,
   (p25x s, p50x s, p75x s, p90x s, p99x s, max_x s),
   (p25y s, p50y s, p75y s, p90y s, p99y s, max_y s)).

(** What the user can do to the current subject in the editor: move
    the mouse while a drag is or is not going on, press Auto-Fit,
    Commit or Reset. *)
Inductive action :=
  | act_mouse_move (drag_type : option drag) (inaxes : bool)
                   (xydata : option (Qc * Qc))
  | act_auto_fit
  | act_commit
  | act_reset.

Section actions.
Variable fit_poly_4 : list Qc → list Qc → Qc * Qc * Qc * Qc * Qc.
Variable fit_poly_3 : list Qc → list Qc → Qc * Qc * Qc * Qc.
Variable np_polyfit2 : list Qc → list Qc → Qc * Qc * Qc.

Definition apply_action (s : SubjectData) (a : action) : SubjectData :=
  match a with
  | act_mouse_move drag_type inaxes xydata =>
      on_mouse_move fit_poly_4 fit_poly_3 drag_type inaxes xydata s
  | act_auto_fit => auto_fit_current fit_poly_4 fit_poly_3 s
  | act_commit => commit_current s
  | act_reset => reset_current fit_poly_4 fit_poly_3 np_polyfit2 s
  end.

(** The current subject after a sequence of actions. *)
Definition run_actions (s : SubjectData) (l : list action) : SubjectData :=
  foldl apply_action s l.
End actions.

(* ================================================================= *)
(** ** Notions for the blended curve of the reference data *)

(** What is used of a [PchipInterpolator] built from data with
    strictly increasing [xs] and [ys]: it passes through the data
    points, and between the first and the last [x] it does not
    decrease (PCHIP keeps the monotonicity of the data). *)
Definition shape_preserving (xs ys : list Qc) (f : Qc → Qc) : Prop :=
  (∀ k x y, xs !! k = Some x → ys !! k = Some y → f x = y) ∧
  (∀ x0 xl a a',
     xs !! 0%nat = Some x0 → last xs = Some xl →
     x0 ≤ a → a ≤ a' → a' ≤ xl → f a ≤ f a').

(** An interpolant of that kind for the examples: the staircase that
    takes at [a] the largest [y] of the data points with [x <= a]. *)
Definition stair_interp (xs ys : list Qc) (a : Qc) : Qc :=
  foldl (λ m p, if decide (p.1 ≤ a) then pymax m p.2 else m) 0 (zip xs ys).

(** The data points are increasing: a point with a smaller or equal
    [x] has a smaller or equal [y], and no [y] is negative. *)
Definition increasing_points (l : list (Qc * Qc)) : Prop :=
  Forall (λ p, 0 ≤ p.2 ∧ Forall (λ q, q.1 ≤ p.1 → q.2 ≤ p.2) l) l.

(** The data points [l], whose [x] range over [[x0, xl]], bracket the
    value at [a] between [lo] and [hi]: there is a point at or left
    of [a] with [y >= lo], and a point at or right of [a] with
    [y <= hi]. *)
Definition bracketed (l : list (Qc * Qc)) (x0 xl : Qc) (b : Qc * Qc * Qc)
    : Prop :=
  Exists (λ p, x0 ≤ p.1 ∧ p.1 ≤ b.1.1 ∧ b.1.2 ≤ p.2) l ∧
  Exists (λ p, b.1.1 ≤ p.1 ∧ p.1 ≤ xl ∧ p.2 ≤ b.2) l.

Global Instance bracketed_dec l x0 xl b : Decision (bracketed l x0 xl b).
Proof. unfold bracketed. apply _. Defined.

(* ================================================================= *)
(** * Properties *)

(** ** Arithmetic on [Qc] through [Q] *)

Lemma Qc_eq_Qeq (x y : Qc) : x = y ↔ (this x == this y)%Q.
Proof. split; [intros ->; reflexivity | apply Qc_is_canon]. Qed.

Ltac qc_norm :=
  repeat match goal with
  | H : @eq Qc _ _ |- _ => apply Qc_eq_Qeq in H
  | H : ~ @eq Qc _ _ |- _ => rewrite Qc_eq_Qeq in H
  | |- @eq Qc _ _ => apply Qc_eq_Qeq
  | |- ~ @eq Qc _ _ => rewrite Qc_eq_Qeq
  end;
  unfold float_lit, of_int, Qcdiv, Qcminus in *;
  unfold Qcinv, Qcle, Qclt, Qcplus, Qcopp, Qcmult in *; unfold Q2Qc in *;
  cbn [this] in *; rewrite ?Qred_correct in *; unfold Qdiv in *;
  cbn [Qinv Qnum Qden inject_Z] in *.

Ltac qc_lra := qc_norm; lra.

(** Closed decidable facts, by evaluation of their decision procedure. *)
Ltac by_compute :=
  match goal with
  | |- ?P => apply (bool_decide_eq_true_1 P); vm_compute; reflexivity
  end.

Lemma round_half_even_bounds q :
  (q - (1 # 2) <= inject_Z (round_half_even q) <= q + (1 # 2))%Q.
Proof.
  unfold round_half_even.
  pose proof (Qfloor_le q) as Hlo. pose proof (Qlt_floor q) as Hhi.
  rewrite inject_Z_plus in Hhi. change (inject_Z 1) with (1 # 1)%Q in Hhi.
  destruct (Qcompare_spec (q - inject_Z (Qfloor q)) (1 # 2)) as [E|E|E];
    [destruct (Z.even _)|..]; rewrite ?inject_Z_plus;
    change (inject_Z 1) with (1 # 1)%Q; lra.
Qed.

Lemma round_half_even_Z k : round_half_even (inject_Z k) = k.
Proof.
  unfold round_half_even. rewrite Qfloor_Z.
  destruct (Qcompare_spec (inject_Z k - inject_Z k) (1 # 2)) as [E|E|E];
    try lra; done.
Qed.

Lemma round_half_even_comp q q' :
  (q == q')%Q → round_half_even q = round_half_even q'.
Proof.
  intros E. unfold round_half_even. rewrite (Qfloor_comp _ _ E).
  assert ((q - inject_Z (Qfloor q') ?= 1 # 2)
          = (q' - inject_Z (Qfloor q') ?= 1 # 2))%Q as ->; [|done].
  apply Qcompare_comp; [by rewrite E | reflexivity].
Qed.

(** [round(x, 2)] moves [x] by at most [0.005]. *)
Lemma round2_bounds x :
  x - float_lit 5 1000 ≤ round2 x ∧ round2 x ≤ x + float_lit 5 1000.
Proof.
  unfold round2. pose proof (round_half_even_bounds (this x * 100)).
  split; qc_lra.
Qed.

(** Values with two decimals are fixed points of [round(_, 2)]. *)
Lemma round2_grid k : round2 (float_lit k 100) = float_lit k 100.
Proof.
  unfold round2, float_lit.
  rewrite (round_half_even_comp _ (inject_Z k)).
  2:{ cbn [this Q2Qc]. rewrite Qred_correct. unfold Qeq, inject_Z. simpl. lia. }
  rewrite round_half_even_Z. apply Qc_is_canon. cbn [this Q2Qc].
  rewrite !Qred_correct. unfold Qeq, inject_Z, Qdiv, Qmult, Qinv. simpl. lia.
Qed.

Lemma round2_on_grid x : ∃ k, round2 x = float_lit k 100.
Proof.
  exists (round_half_even (this x * 100)). unfold round2, float_lit.
  apply Qc_is_canon. cbn [this Q2Qc].
  rewrite !Qred_correct. unfold Qeq, inject_Z, Qdiv, Qmult, Qinv. simpl. lia.
Qed.

Lemma grid_minus_cent k :
  float_lit k 100 - float_lit 1 100 = float_lit (k - 1) 100.
Proof.
  apply Qc_is_canon. unfold float_lit, Qcminus, Qcplus, Qcopp, Q2Qc.
  cbn [this]. rewrite !Qred_correct. unfold Qeq. simpl. lia.
Qed.

(** ** The in-place pass over adjacent entries *)

Section adjacent_pass_facts.
Context {A : Type} (upd : A → A → A).

Lemma idx_pass_chain_gen pre p l :
  foldl (idx_step upd) (pre ++ p :: l) (seq (S (length pre)) (length l))
  = pre ++ p :: chain upd p l.
Proof.
  revert pre p. induction l as [|c t IH]; intros pre p; [done|].
  cbn [length seq foldl chain].
  assert (idx_step upd (pre ++ p :: c :: t) (S (length pre))
          = (pre ++ [p]) ++ upd p c :: t) as ->.
  { unfold idx_step.
    replace (S (length pre) - 1)%nat with (length pre + 0)%nat by lia.
    replace (S (length pre)) with (length pre + 1)%nat by lia.
    rewrite !lookup_app_r by lia.
    replace (length pre + 1 - length pre)%nat with 1%nat by lia.
    replace (length pre + 0 - length pre)%nat with 0%nat by lia.
    cbn [lookup list_lookup].
    rewrite insert_app_r_alt by lia.
    replace (length pre + 1 - length pre)%nat with 1%nat by lia.
    by rewrite <-app_assoc. }
  specialize (IH (pre ++ [p]) (upd p c)).
  rewrite length_app in IH. cbn [length] in IH.
  replace (length pre + 1)%nat with (S (length pre)) in IH by lia.
  rewrite IH, <-app_assoc. done.
Qed.

Lemma idx_pass_chain p l :
  foldl (idx_step upd) (p :: l) (seq 1 (length (p :: l) - 1))
  = p :: chain upd p l.
Proof.
  cbn [length]. replace (S (length l) - 1)%nat with (length l) by lia.
  apply (idx_pass_chain_gen [] p l).
Qed.

Lemma chain_length p l : length (chain upd p l) = length l.
Proof. revert p; induction l; intros; cbn; auto. Qed.

(** Entry [i+1] of the result is the update of the original entry
    [i+1] against the result's own entry [i]. *)
Lemma chain_lookup p l i c' p' :
  (p :: chain upd p l) !! i = Some p' →
  (p :: chain upd p l) !! S i = Some c' →
  ∃ c, l !! i = Some c ∧ c' = upd p' c.
Proof.
  revert p i. induction l as [|c t IH]; intros p i Hp Hc.
  - destruct i; discriminate.
  - destruct i as [|i]; cbn in *.
    + simplify_eq. eauto.
    + eapply IH; eauto.
Qed.

(** A relation that every update establishes holds between all
    adjacent entries of the result. *)
Lemma chain_Sorted (R : relation A) p l :
  (∀ p c, R p (upd p c)) → Sorted R (p :: chain upd p l).
Proof.
  intros HR. revert p. induction l as [|c t IH]; intros p; cbn.
  - repeat constructor.
  - constructor; [apply IH | constructor; apply HR].
Qed.

Lemma chain_Forall (P : A → Prop) p l :
  (∀ p c, P p → P c → P (upd p c)) → P p → Forall P l →
  Forall P (chain upd p l).
Proof.
  intros HP. revert p. induction l as [|c t IH]; intros p Hp Hl; cbn.
  - constructor.
  - inv Hl. constructor; [auto | apply IH; auto].
Qed.
End adjacent_pass_facts.

Lemma foldl_ext_all {A B} (f g : A → B → A) a l :
  (∀ a b, f a b = g a b) → foldl f a l = foldl g a l.
Proof. intros E. revert a. induction l; intros; cbn; [done|]. by rewrite E. Qed.

(** ** The forward pass on [blended] and the clamp *)

Lemma enforce_monotone_chain p l :
  enforce_monotone (p :: l) = p :: chain bump_up p l.
Proof.
  unfold enforce_monotone. rewrite <-idx_pass_chain.
  apply foldl_ext_all. intros b i. unfold enforce_monotone_step, idx_step.
  destruct (b !! i) as [bi|] eqn:Ei; [|done].
  destruct (b !! (i - 1)%nat) as [bp|]; [|done].
  unfold bump_up. destruct (decide (bi ≤ bp)); [done|].
  by rewrite list_insert_id.
Qed.

Lemma bump_up_lt p c : p < bump_up p c.
Proof. unfold bump_up. destruct (decide (c ≤ p)); qc_lra. Qed.

(** Right after the forward pass the array is strictly increasing. *)
Lemma enforce_monotone_strict b : Sorted Qclt (enforce_monotone b).
Proof.
  destruct b as [|p l]; [constructor|].
  rewrite enforce_monotone_chain. apply chain_Sorted. apply bump_up_lt.
Qed.

(** The clamp changes nothing on values that are in range already. *)
Lemma clamp_blended_in_range b :
  Forall (λ v, 0 ≤ v ∧ v ≤ of_int 500) b → clamp_blended b = b.
Proof.
  intros Hb. unfold clamp_blended. rewrite <-list_fmap_compose.
  rewrite <-(list_fmap_id b) at 2. apply Forall_fmap_ext_1.
  eapply Forall_impl; [exact Hb|]. intros v [H0 H500]. cbn.
  unfold np_maximum, np_minimum.
  repeat destruct (decide _); try done; qc_lra.
Qed.

(** ** Sorting *)

Lemma StronglySorted_lookup {A} (R : relation A) l i j x y :
  StronglySorted R l → (i < j)%nat → l !! i = Some x → l !! j = Some y → R x y.
Proof.
  intros Hl. revert i j. induction Hl as [|a l Hl IH Ha]; intros i j Hij Hi Hj.
  - discriminate.
  - destruct j as [|j]; [lia|]. destruct i as [|i]; cbn in *.
    + simplify_eq. rewrite Forall_forall in Ha.
      apply Ha. by eapply list_elem_of_lookup_2.
    + eapply (IH i j); eauto; lia.
Qed.

Section py_sorted_facts.
Context {A : Type} (key : A → Qc).

Let asc : relation A := λ a b, key a ≤ key b.
Let desc : relation A := λ a b, key b ≤ key a.

Lemma insert_asc_Permutation x l : insert_asc key x l ≡ₚ x :: l.
Proof.
  induction l as [|y t IH]; cbn; [done|].
  destruct (decide _); [done|]. rewrite IH. apply Permutation_swap.
Qed.

Lemma insert_desc_Permutation x l : insert_desc key x l ≡ₚ x :: l.
Proof.
  induction l as [|y t IH]; cbn; [done|].
  destruct (decide _); [done|]. rewrite IH. apply Permutation_swap.
Qed.

Lemma py_sorted_Permutation rev l : py_sorted key rev l ≡ₚ l.
Proof.
  unfold py_sorted. induction l as [|x t IH]; cbn; [done|].
  destruct rev; [rewrite insert_desc_Permutation|rewrite insert_asc_Permutation];
    by rewrite IH.
Qed.

Lemma insert_asc_sorted x l :
  StronglySorted asc l → StronglySorted asc (insert_asc key x l).
Proof.
  induction 1 as [|y t Ht IH Hy]; cbn; [repeat constructor|].
  destruct (decide (key x ≤ key y)) as [Hxy|Hxy].
  - constructor; [by constructor|]. constructor; [done|].
    eapply Forall_impl; [exact Hy|]. intros z Hz. unfold asc in *.
    by etrans.
  - constructor; [done|]. rewrite insert_asc_Permutation.
    constructor; [|done]. unfold asc. apply Qclt_le_weak. by apply Qclt_nge.
Qed.

Lemma insert_desc_sorted x l :
  StronglySorted desc l → StronglySorted desc (insert_desc key x l).
Proof.
  induction 1 as [|y t Ht IH Hy]; cbn; [repeat constructor|].
  destruct (decide (key y ≤ key x)) as [Hxy|Hxy].
  - constructor; [by constructor|]. constructor; [done|].
    eapply Forall_impl; [exact Hy|]. intros z Hz. unfold desc in *.
    by etrans.
  - constructor; [done|]. rewrite insert_desc_Permutation.
    constructor; [|done]. unfold desc. apply Qclt_le_weak. by apply Qclt_nge.
Qed.

Lemma py_sorted_asc_sorted l : StronglySorted asc (py_sorted key false l).
Proof.
  unfold py_sorted. induction l; cbn; [constructor|by apply insert_asc_sorted].
Qed.

Lemma py_sorted_desc_sorted l : StronglySorted desc (py_sorted key true l).
Proof.
  unfold py_sorted. induction l; cbn; [constructor|by apply insert_desc_sorted].
Qed.

(** In a list with strictly decreasing keys an element is determined
    by its key. *)
Lemma strict_desc_key_inj l x y :
  StronglySorted (λ a b, key b < key a) l →
  x ∈ l → y ∈ l → key x = key y → x = y.
Proof.
  induction 1 as [|a t Ht IH Ha]; intros Hx Hy E; [by inv Hx|].
  rewrite Forall_forall in Ha.
  inv Hx; inv Hy; auto.
  - match goal with H : y ∈ t |- _ => apply Ha in H as Hlt end.
    rewrite E in Hlt. by apply Qclt_not_eq in Hlt.
  - match goal with H : x ∈ t |- _ => apply Ha in H as Hlt end.
    rewrite E in Hlt. by apply Qclt_not_eq in Hlt.
Qed.

Lemma strict_desc_reverse_asc l :
  StronglySorted (λ a b, key b < key a) l → StronglySorted asc (reverse l).
Proof.
  induction 1 as [|a t Ht IH Ha]; [constructor|].
  rewrite reverse_cons. apply StronglySorted_app_2; [|done|repeat constructor].
  intros x1 x2 Hx1 Hx2. apply list_elem_of_singleton in Hx2 as ->.
  rewrite elem_of_reverse in Hx1. rewrite Forall_forall in Ha.
  apply Qclt_le_weak. by apply Ha.
Qed.

(** Sorting a table with strictly decreasing keys in ascending order
    reverses it. *)
Lemma py_sorted_asc_of_strict_desc l :
  StronglySorted (λ a b, key b < key a) l →
  py_sorted key false l = reverse l.
Proof.
  intros Hl. apply (StronglySorted_unique_strong asc).
  - intros x1 x2 Hx1 Hx2 H12 H21.
    rewrite py_sorted_Permutation in Hx1. rewrite elem_of_reverse in Hx2.
    eapply strict_desc_key_inj; eauto. by apply (anti_symm Qcle).
  - apply py_sorted_asc_sorted.
  - by apply strict_desc_reverse_asc.
  - by rewrite py_sorted_Permutation, reverse_Permutation.
Qed.

(** With pairwise distinct keys the descending sort is strict. *)
Lemma py_sorted_desc_strict l :
  NoDup (key <$> l) →
  StronglySorted (λ a b, key b < key a) (py_sorted key true l).
Proof.
  intros Hnd.
  assert (NoDup (key <$> py_sorted key true l)) as Hnd'.
  { by rewrite py_sorted_Permutation. }
  pose proof (py_sorted_desc_sorted l) as Hs.
  induction Hs as [|a t Ht IH Ha]; [constructor|].
  rewrite fmap_cons in Hnd'. apply NoDup_cons in Hnd' as [Hnin Hnd'].
  constructor; [by apply IH|].
  rewrite Forall_forall in Ha |- *. intros b Hb.
  destruct (decide (key b = key a)) as [E|E].
  - exfalso. apply Hnin. rewrite <-E. by apply list_elem_of_fmap_2.
  - specialize (Ha b Hb). unfold desc in Ha. qc_lra.
Qed.
End py_sorted_facts.

(** ** The final results table (C1) *)

Lemma fix_rounding_ties_chain p l :
  fix_rounding_ties (p :: l) = p :: chain fix_row p l.
Proof.
  unfold fix_rounding_ties. rewrite <-idx_pass_chain.
  apply foldl_ext_all. intros rs i. unfold fix_ties_step, idx_step.
  destruct (rs !! i) as [ri|] eqn:Ei; [|done].
  destruct (rs !! (i - 1)%nat) as [rp|]; [|done].
  unfold fix_row. destruct (decide (agg rp ≤ agg ri)); [done|].
  by rewrite list_insert_id.
Qed.

Lemma fix_rounding_ties_length rs : length (fix_rounding_ties rs) = length rs.
Proof.
  destruct rs as [|p l]; [done|].
  rewrite fix_rounding_ties_chain. cbn. by rewrite chain_length.
Qed.

(** A repaired or untouched row lies strictly below its predecessor. *)
Lemma fix_row_lt rp ri : agg (fix_row rp ri) < agg rp.
Proof.
  unfold fix_row. destruct (decide (agg rp ≤ agg ri)); cbn.
  - pose proof (round2_bounds (agg rp - float_lit 1 100)) as [_ H].
    revert H. generalize (round2 (agg rp - float_lit 1 100)). intros r H.
    qc_lra.
  - by apply Qclt_nge.
Qed.

Lemma fix_row_atar rp ri : atar (fix_row rp ri) = atar ri.
Proof. unfold fix_row. by destruct (decide _). Qed.


Lemma fix_row_on_grid rp ri : on_grid rp → on_grid ri → on_grid (fix_row rp ri).
Proof.
  intros _ Hi. unfold fix_row. destruct (decide _); [|done].
  apply round2_on_grid.
Qed.

(** On two-decimal values the repair is exactly "predecessor minus 0.01". *)
Lemma fix_row_exact rp ri :
  on_grid rp →
  fix_row rp ri
  = if decide (agg rp ≤ agg ri) then with_agg ri (agg rp - float_lit 1 100)
    else ri.
Proof.
  intros [k Hk]. unfold fix_row, with_agg. destruct (decide _); [|done].
  by rewrite Hk, grid_minus_cent, round2_grid.
Qed.

Lemma chain_fix_row_atar p l : atar <$> chain fix_row p l = atar <$> l.
Proof.
  revert p. induction l as [|c t IH]; intros p; cbn; [done|].
  by rewrite fix_row_atar, IH.
Qed.

Lemma fix_rounding_ties_atar rs : atar <$> fix_rounding_ties rs = atar <$> rs.
Proof.
  destruct rs as [|p l]; [done|].
  rewrite fix_rounding_ties_chain. cbn. by rewrite chain_fix_row_atar.
Qed.

Lemma fix_rounding_ties_sorted rs :
  StronglySorted (λ a b, agg b < agg a) (fix_rounding_ties rs).
Proof.
  apply Sorted_StronglySorted.
  { intros a b c Hab Hbc. by etrans. }
  destruct rs as [|p l]; [constructor|].
  rewrite fix_rounding_ties_chain. apply chain_Sorted. apply fix_row_lt.
Qed.

Lemma fix_rounding_ties_on_grid rs :
  Forall on_grid rs → Forall on_grid (fix_rounding_ties rs).
Proof.
  destruct rs as [|p l]; [done|]. intros Hg. inv Hg.
  rewrite fix_rounding_ties_chain. constructor; [done|].
  apply chain_Forall; auto using fix_row_on_grid.
Qed.

Lemma fix_rounding_ties_lookup rs i rp r0 r :
  Forall on_grid rs →
  fix_rounding_ties rs !! i = Some rp →
  rs !! S i = Some r0 →
  fix_rounding_ties rs !! S i = Some r →
  r = if decide (agg rp ≤ agg r0) then with_agg r0 (agg rp - float_lit 1 100)
      else r0.
Proof.
  intros Hg Hp H0 Hr.
  assert (on_grid rp) as Hgp.
  { apply fix_rounding_ties_on_grid in Hg. rewrite Forall_forall in Hg.
    apply Hg. by eapply list_elem_of_lookup_2. }
  destruct rs as [|p l]; [done|].
  rewrite fix_rounding_ties_chain in Hp, Hr.
  destruct (chain_lookup _ _ _ _ _ _ Hp Hr) as (c & Hc & ->).
  change ((p :: l) !! S i) with (l !! i) in H0.
  rewrite H0 in Hc. injection Hc as <-. by apply fix_row_exact.
Qed.

Lemma final_violations_sorted rs :
  StronglySorted (λ a b, agg b < agg a) rs → final_violations rs = 0%nat.
Proof.
  intros Hs. unfold final_violations.
  assert (∀ i, i ∈ seq 1 (length rs - 1) → (1 ≤ i)%nat) as Hidx.
  { intros i Hi. apply elem_of_seq in Hi. lia. }
  revert Hidx. generalize (seq 1 (length rs - 1)). intros idxs.
  induction idxs as [|i idxs IH]; intros Hidx; [done|]. cbn.
  destruct (rs !! i) as [ri|] eqn:Ei; [|apply IH; intros; apply Hidx; by right].
  destruct (rs !! (i - 1)%nat) as [rp|] eqn:Ep;
    [|apply IH; intros; apply Hidx; by right].
  destruct (decide (agg rp ≤ agg ri)) as [Hle|];
    [|apply IH; intros; apply Hidx; by right].
  exfalso. assert (1 ≤ i)%nat by (apply Hidx; by left).
  assert (agg ri < agg rp) as Hlt.
  { eapply (StronglySorted_lookup (λ a b, agg b < agg a) rs (i - 1) i);
      eauto. lia. }
  by apply Qclt_nge in Hlt.
Qed.

Lemma sorted_bands_strict (band_students : gmap Qc Z) :
  StronglySorted (λ a b, b < a) (sorted_bands band_students).
Proof.
  unfold sorted_bands. apply (py_sorted_desc_strict id).
  rewrite list_fmap_id. apply NoDup_elements.
Qed.

Lemma build_results_atar agg_lookup band_students TOTAL :
  atar <$> build_results agg_lookup band_students TOTAL
  = sorted_bands band_students.
Proof.
  unfold build_results. rewrite <-list_fmap_compose.
  rewrite <-(list_fmap_id (sorted_bands band_students)) at 2.
  by apply list_fmap_ext.
Qed.

Lemma build_results_on_grid agg_lookup band_students TOTAL :
  Forall on_grid (build_results agg_lookup band_students TOTAL).
Proof.
  unfold build_results. apply Forall_fmap, Forall_true.
  intros band. apply round2_on_grid.
Qed.

Lemma final_results_atar agg_lookup band_students TOTAL :
  atar <$> final_results agg_lookup band_students TOTAL
  = sorted_bands band_students.
Proof.
  unfold final_results. by rewrite fix_rounding_ties_atar, build_results_atar.
Qed.

(** The rows of the final table are strictly decreasing both in
    rank-score and in aggregate. *)
Lemma final_results_strict agg_lookup band_students TOTAL i j ri rj :
  (i < j)%nat →
  final_results agg_lookup band_students TOTAL !! i = Some ri →
  final_results agg_lookup band_students TOTAL !! j = Some rj →
  atar rj < atar ri ∧ agg rj < agg ri.
Proof.
  intros Hij Hi Hj. split.
  - pose proof (sorted_bands_strict band_students) as Hs.
    rewrite <-(final_results_atar agg_lookup band_students TOTAL) in Hs.
    apply (StronglySorted_lookup (λ a b : Qc, b < a) _ i j (atar ri) (atar rj) Hs Hij);
      rewrite list_lookup_fmap; [by rewrite Hi|by rewrite Hj].
  - eapply (StronglySorted_lookup (λ a b, agg b < agg a) _ i j); eauto.
    apply fix_rounding_ties_sorted.
Qed.

(** C1: in the final table, for rows [i < j] (a higher band before a
    lower one) both the rank-score and the aggregate of row [j] are
    strictly below those of row [i]; the script's final check counts no
    violation; and each row after the first is either the row as built,
    when its rounded aggregate is already below the (repaired)
    predecessor, or that row with its aggregate replaced by exactly the
    predecessor's aggregate minus [0.01]. *)
Theorem final_table_strictly_decreasing
    (agg_lookup : gmap Qc Qc) (band_students : gmap Qc Z) (TOTAL : Z) :
  let built := build_results agg_lookup band_students TOTAL in
  let rs := final_results agg_lookup band_students TOTAL in
  (∀ i j ri rj, (i < j)%nat → rs !! i = Some ri → rs !! j = Some rj →
     atar rj < atar ri ∧ agg rj < agg ri) ∧
  final_violations rs = 0%nat ∧
  length rs = length built ∧
  rs !! 0%nat = built !! 0%nat ∧
  (∀ i rp r0 r, rs !! i = Some rp → built !! S i = Some r0 →
     rs !! S i = Some r →
     r = if decide (agg rp ≤ agg r0)
         then with_agg r0 (agg rp - float_lit 1 100) else r0).
Proof.
  intros built rs. split; [|split; [|split; [|split]]].
  - intros i j ri rj. apply final_results_strict.
  - apply final_violations_sorted, fix_rounding_ties_sorted.
  - apply fix_rounding_ties_length.
  - unfold rs, final_results. fold built. destruct built as [|p l]; [done|].
    by rewrite fix_rounding_ties_chain.
  - intros i rp r0 r. apply fix_rounding_ties_lookup, build_results_on_grid.
Qed.

(** ** The inverse lookup (C7, C10) *)

Lemma Qdiv_bounds (n d : Q) :
  (0 < d → 0 <= n → n <= d → 0 <= n * / d ∧ n * / d <= 1)%Q.
Proof.
  intros. split.
  - apply (Qle_shift_div_l 0 n d); lra.
  - apply (Qle_shift_div_r n d 1); lra.
Qed.

Lemma Qdiv_mono (n m d : Q) : (0 < d → n <= m → n * / d <= m * / d)%Q.
Proof.
  intros Hd Hnm. apply Qmult_le_compat_r; [done|].
  apply Qlt_le_weak, Qinv_lt_0_compat, Hd.
Qed.

Lemma interp_bounds alo ahi tlo thi v :
  alo < v → v ≤ ahi → tlo ≤ thi →
  tlo ≤ interp alo ahi tlo thi v ∧ interp alo ahi tlo thi v ≤ thi.
Proof.
  intros H1 H2 H3. unfold interp. qc_norm.
  destruct (Qdiv_bounds (this v + - this alo) (this ahi + - this alo))
    as [Hf0 Hf1]; [lra..|].
  revert Hf0 Hf1. generalize ((this v + - this alo) * / (this ahi + - this alo))%Q.
  intros f Hf0 Hf1. split; nra.
Qed.

Lemma interp_mono alo ahi tlo thi v w :
  alo < ahi → tlo ≤ thi → v ≤ w →
  interp alo ahi tlo thi v ≤ interp alo ahi tlo thi w.
Proof.
  intros H1 H2 H3. unfold interp. qc_norm.
  pose proof (Qdiv_mono (this v + - this alo) (this w + - this alo)
                (this ahi + - this alo)) as Hf.
  revert Hf.
  generalize ((this v + - this alo) * / (this ahi + - this alo))%Q.
  generalize ((this w + - this alo) * / (this ahi + - this alo))%Q.
  intros g f Hf. assert (f <= g)%Q by (apply Hf; lra). nra.
Qed.

Lemma interp_hit alo ahi tlo thi : alo < ahi → interp alo ahi tlo thi ahi = thi.
Proof.
  intros H. unfold interp. qc_norm.
  assert ((this ahi + - this alo) * / (this ahi + - this alo) == 1)%Q as ->.
  { apply Qmult_inv_r. lra. }
  lra.
Qed.

Lemma searchsorted_lt a v i :
  (i < searchsorted a v)%nat → ∃ x, a !! i = Some x ∧ x < v.
Proof.
  revert i. induction a as [|x t IH]; intros i Hi; cbn in *; [lia|].
  destruct (decide (x < v)); [|lia].
  destruct i as [|i]; [eauto|]. apply IH. lia.
Qed.

Lemma searchsorted_ge a v x : a !! searchsorted a v = Some x → v ≤ x.
Proof.
  induction a as [|y t IH]; cbn; [done|].
  destruct (decide (y < v)); cbn; [done|].
  intros [= ->]. by apply Qcle_ngt.
Qed.

Lemma searchsorted_le_length a v : (searchsorted a v ≤ length a)%nat.
Proof. induction a; cbn; [lia|]. destruct (decide _); cbn; lia. Qed.

(** On a strictly ascending array an exact hit is found at its index. *)
Lemma searchsorted_hit a k v :
  StronglySorted Qclt a → a !! k = Some v → searchsorted a v = k.
Proof.
  intros Hs. revert k. induction Hs as [|x t Ht IH Hx]; intros k Hk; [done|].
  cbn. destruct k as [|k]; cbn in Hk.
  - injection Hk as ->. destruct (decide (v < v)) as [H|]; [|done].
    by apply Qclt_not_eq in H.
  - rewrite Forall_forall in Hx.
    destruct (decide (x < v)) as [|Hn]; [f_equal; by apply IH|].
    exfalso. apply Hn, Hx. by eapply list_elem_of_lookup_2.
Qed.

Lemma strict_sorted_index a i j x y :
  StronglySorted Qclt a → a !! i = Some x → a !! j = Some y → x < y →
  (i < j)%nat.
Proof.
  intros Hs Hi Hj Hxy. destruct (decide (i < j)%nat) as [|Hn]; [done|].
  exfalso. destruct (decide (i = j)) as [->|].
  - rewrite Hi in Hj. injection Hj as ->. by apply Qclt_not_eq in Hxy.
  - assert (y < x) by (eapply (StronglySorted_lookup Qclt a j i); eauto; lia).
    apply (Qclt_not_eq x x); [by etrans|done].
Qed.

Lemma sorted_le_index a i j x y :
  StronglySorted Qcle a → (i ≤ j)%nat → a !! i = Some x → a !! j = Some y →
  x ≤ y.
Proof.
  intros Hs Hij Hi Hj. destruct (decide (i = j)) as [->|].
  - rewrite Hi in Hj. by injection Hj as ->.
  - eapply (StronglySorted_lookup Qcle a i j); eauto. lia.
Qed.


Lemma agg_to_atar_case aggs atars v :
  StronglySorted Qclt aggs → length aggs = length atars → aggs ≠ [] →
  ∃ t, agg_to_atar_2025 aggs atars v = Some t ∧ lookup_case aggs atars v t.
Proof.
  intros Hs Hlen Hne. unfold agg_to_atar_2025.
  destruct aggs as [|a0 aggs']; [done|]. destruct atars as [|t0 atars']; [done|].
  cbn [lookup list_lookup mbind option_bind].
  destruct (decide (v ≤ a0)) as [Hlow|Hlow].
  { exists t0. split; [done|]. by eapply case_low. }
  apply Qclt_nge in Hlow.
  destruct (last (a0 :: aggs')) as [al|] eqn:El.
  2:{ by apply last_None in El. }
  cbn [mbind option_bind].
  destruct (last (t0 :: atars')) as [tl|] eqn:Et.
  2:{ by apply last_None in Et. }
  destruct (decide (al ≤ v)) as [Hhigh|Hhigh].
  { exists tl. split; [done|]. by eapply case_high. }
  apply Qclt_nge in Hhigh.
  set (a := a0 :: aggs') in *. set (ts := t0 :: atars') in *.
  set (idx := searchsorted a v).
  assert (1 ≤ idx)%nat as Hidx1.
  { unfold idx, a. cbn. destruct (decide (a0 < v)); [lia|done]. }
  assert (idx < length a)%nat as Hidx2.
  { pose proof (searchsorted_le_length a v).
    destruct (decide (idx = length a)) as [E|]; [|unfold idx; lia].
    exfalso. rewrite last_lookup in El.
    destruct (searchsorted_lt a v (pred (length a))) as (x & Hx & Hxv).
    { fold idx. lia. }
    rewrite Hx in El. injection El as ->.
    apply (Qclt_not_eq al al); [by etrans|done]. }
  destruct (lookup_lt_is_Some_2 a (idx - 1)) as [alo Hlo]; [lia|].
  destruct (lookup_lt_is_Some_2 a idx) as [ahi Hhi]; [lia|].
  destruct (lookup_lt_is_Some_2 ts (idx - 1)) as [tlo Htlo]; [lia|].
  destruct (lookup_lt_is_Some_2 ts idx) as [thi Hthi]; [lia|].
  rewrite Hlo, Hhi, Htlo, Hthi. cbn [mbind option_bind].
  eexists. split; [done|].
  destruct (searchsorted_lt a v (idx - 1)) as (x & Hx & Hxv); [fold idx; lia|].
  rewrite Hlo in Hx. injection Hx as <-.
  pose proof (searchsorted_ge a v ahi Hhi) as Hge.
  replace idx with (S (idx - 1)) in Hhi, Hthi by lia.
  by eapply (case_mid _ _ _ _ (idx - 1)).
Qed.

Lemma strict_sorted_same_index aggs i j x :
  StronglySorted Qclt aggs → aggs !! i = Some x → aggs !! j = Some x → i = j.
Proof.
  intros Haggs Hi Hj. destruct (decide (i = j)) as [|Hne]; [done|]. exfalso.
  assert (x < x); [|by eapply Qclt_not_eq].
  destruct (decide (i < j)%nat).
  - eapply (StronglySorted_lookup Qclt aggs i j); eauto.
  - eapply (StronglySorted_lookup Qclt aggs j i); eauto. lia.
Qed.

Lemma aggs_le_index aggs i j x y :
  StronglySorted Qclt aggs →
  (i ≤ j)%nat → aggs !! i = Some x → aggs !! j = Some y → x ≤ y.
Proof.
  intros Haggs Hij Hi Hj. destruct (decide (i = j)) as [->|].
  - rewrite Hi in Hj. by injection Hj as ->.
  - apply Qclt_le_weak.
    eapply (StronglySorted_lookup Qclt aggs i j); eauto. lia.
Qed.

Section ascending_table.
Context (aggs atars : list Qc).
Hypothesis Haggs : StronglySorted Qclt aggs.
Hypothesis Hatars : StronglySorted Qcle atars.
Hypothesis Hlen : length aggs = length atars.

Lemma lookup_case_bounds v t t0 tl :
  atars !! 0%nat = Some t0 → last atars = Some tl →
  lookup_case aggs atars v t → t0 ≤ t ∧ t ≤ tl.
Proof.
  intros H0 Hl Hc. rewrite last_lookup in Hl.
  assert (t0 ≤ tl)
    by (apply (sorted_le_index atars 0 (pred (length atars))); auto; lia).
  destruct Hc as [a0 Ha0 Hv Ht|al Hal Hv Ht|i alo ahi tlo thi Hlo Hhi Htlo Hthi Hv1 Hv2 ->].
  - rewrite H0 in Ht. injection Ht as ->. done.
  - rewrite last_lookup, Hl in Ht. injection Ht as ->. done.
  - assert (tlo ≤ thi) by (eapply (sorted_le_index atars i (S i)); eauto).
    destruct (interp_bounds alo ahi tlo thi v) as [Hb1 Hb2]; [done..|].
    assert (t0 ≤ tlo) by (eapply (sorted_le_index atars 0 i); eauto; lia).
    assert (thi ≤ tl).
    { apply (sorted_le_index atars (S i) (pred (length atars))); auto.
      apply lookup_lt_Some in Hthi. lia. }
    split; qc_lra.
Qed.

Lemma lookup_case_mono v w t u :
  v ≤ w → lookup_case aggs atars v t → lookup_case aggs atars w u → t ≤ u.
Proof.
  intros Hvw Hv Hw.
  assert (∃ t0, atars !! 0%nat = Some t0) as [t0 H0].
  { destruct atars; [|by eexists].
    destruct Hv as [? _ _ Ht|? _ _ Ht| ? ? ? ? ? _ _ Ht]; discriminate. }
  assert (∃ tl, last atars = Some tl) as [tl Hl].
  { destruct (last atars) eqn:E; [by eexists|].
    apply last_None in E. by rewrite E in H0. }
  destruct (lookup_case_bounds v t t0 tl H0 Hl Hv) as [Ht1 Ht2].
  destruct (lookup_case_bounds w u t0 tl H0 Hl Hw) as [Hu1 Hu2].
  destruct Hv as [a0 Ha0 Hva Ht|al Hal Hva Ht|i alo ahi tlo thi Hlo Hhi Htlo Hthi Hv1 Hv2 ->].
  { rewrite H0 in Ht. by injection Ht as ->. }
  - (* [v] is clamped to the last band: so is [w], in value *)
    rewrite Hl in Ht. injection Ht as ->.
    rewrite last_lookup in Hal, Hl.
    destruct Hw as [a0 Ha0 Hwa Hu|al' Hal' Hwa Hu|j blo bhi ulo uhi Hlo Hhi Hulo Huhi Hw1 Hw2 ->].
    + assert (a0 ≤ al)
        by (apply (aggs_le_index aggs 0 (pred (length aggs))); auto; lia).
      assert (a0 = al) as -> by qc_lra.
      assert (0%nat = pred (length aggs)) as E by (by eapply (strict_sorted_same_index aggs)).
      rewrite <-Hlen, <-E, Hu in Hl. by injection Hl as ->.
    + rewrite last_lookup, Hl in Hu. by injection Hu as ->.
    + assert (bhi ≤ al).
      { apply (aggs_le_index aggs (S j) (pred (length aggs))); auto.
        apply lookup_lt_Some in Hhi. lia. }
      assert (w = bhi) as -> by qc_lra.
      assert (bhi = al) as -> by qc_lra.
      assert (S j = pred (length aggs)) as E by (by eapply (strict_sorted_same_index aggs)).
      rewrite interp_hit.
      * rewrite <-Hlen, <-E, Huhi in Hl. by injection Hl as ->.
      * eapply (StronglySorted_lookup Qclt aggs j (S j)); eauto.
  - (* [v] is interpolated *)
    assert (tlo ≤ thi) by (eapply (sorted_le_index atars i (S i)); eauto).
    assert (alo < ahi) by (eapply (StronglySorted_lookup Qclt aggs i (S i)); eauto).
    destruct Hw as [a0 Ha0 Hwa Hu|al' Hal' Hwa Hu|j blo bhi ulo uhi Hlo' Hhi' Hulo Huhi Hw1 Hw2 ->].
    + exfalso. assert (a0 ≤ alo) by (apply (aggs_le_index aggs 0 i); auto; lia).
      apply (Qclt_not_eq alo alo); [|done].
      qc_lra.
    + rewrite Hl in Hu. by injection Hu as ->.
    + assert (i < S j)%nat.
      { eapply (strict_sorted_index aggs i (S j) alo bhi); eauto.
        qc_lra. }
      destruct (decide (i = j)) as [->|].
      * rewrite Hlo in Hlo'. injection Hlo' as <-.
        rewrite Hhi in Hhi'. injection Hhi' as <-.
        rewrite Htlo in Hulo. injection Hulo as <-.
        rewrite Hthi in Huhi. injection Huhi as <-.
        by apply interp_mono.
      * assert (ulo ≤ uhi) by (eapply (sorted_le_index atars j (S j)); eauto).
        destruct (interp_bounds alo ahi tlo thi v) as [_ Hb]; [done..|].
        destruct (interp_bounds blo bhi ulo uhi w) as [Hb' _]; [done..|].
        assert (thi ≤ ulo) by (eapply (sorted_le_index atars (S i) j); eauto; lia).
        qc_lra.
Qed.
End ascending_table.

(** An exact hit on a strictly ascending table returns the band's own
    rank-score. *)
Lemma agg_to_atar_hit aggs atars k a t :
  StronglySorted Qclt aggs → length aggs = length atars →
  aggs !! k = Some a → atars !! k = Some t →
  agg_to_atar_2025 aggs atars a = Some t.
Proof.
  intros Hs Hlen Ha Ht.
  destruct (agg_to_atar_case aggs atars a Hs Hlen) as (t' & -> & Hc).
  { intros ->. discriminate. }
  f_equal.
  destruct Hc as [a0 Ha0 Hv Ht'|al Hal Hv Ht'|i alo ahi tlo thi Hlo Hhi Htlo Hthi Hv1 Hv2 ->].
  - pose proof (aggs_le_index aggs 0 k a0 a Hs) as Hle.
    assert (a0 = a) as -> by (specialize (Hle ltac:(lia) Ha0 Ha); qc_lra).
    assert (0%nat = k) as <- by (by eapply (strict_sorted_same_index aggs)).
    rewrite Ht in Ht'. by injection Ht'.
  - rewrite last_lookup in Hal, Ht'.
    pose proof (aggs_le_index aggs k (pred (length aggs)) a al Hs) as Hle.
    apply lookup_lt_Some in Ha as Hk.
    assert (a = al) as -> by (specialize (Hle ltac:(lia) Ha Hal); qc_lra).
    assert (k = pred (length aggs)) as -> by (by eapply (strict_sorted_same_index aggs)).
    rewrite <-Hlen, Ht in Ht'. by injection Ht'.
  - assert (i < k)%nat by (by eapply (strict_sorted_index aggs i k alo a)).
    assert (k = S i) as ->.
    { destruct (decide (k = S i)) as [|Hne]; [done|]. exfalso.
      assert (ahi < a)
        by (eapply (StronglySorted_lookup Qclt aggs (S i) k); eauto; lia).
      qc_lra. }
    rewrite Hhi in Ha. injection Ha as ->.
    rewrite Hthi in Ht. injection Ht as ->.
    apply interp_hit. eapply (StronglySorted_lookup Qclt aggs i (S i)); eauto.
Qed.

Lemma StronglySorted_weaken {A} (R1 R2 : relation A) l :
  (∀ x y, R1 x y → R2 x y) → StronglySorted R1 l → StronglySorted R2 l.
Proof.
  intros HR. induction 1 as [|a t Ht IH Ha]; constructor; [done|].
  eapply Forall_impl; [exact Ha|]. auto.
Qed.

Lemma StronglySorted_reverse {A} (R : relation A) `{!Transitive R} l :
  StronglySorted (flip R) l → StronglySorted R (reverse l).
Proof.
  intros Hs. apply Sorted_StronglySorted; [done|].
  apply StronglySorted_Sorted, Sorted_reverse in Hs. exact Hs.
Qed.

(** The arrays [rev_aggs] and [rev_atars] of a table whose aggregates
    strictly decrease from row to row are the table's columns in
    reverse order. *)
Lemma results_by_agg_reverse rs :
  StronglySorted (λ a b, agg b < agg a) rs → results_by_agg rs = reverse rs.
Proof. apply py_sorted_asc_of_strict_desc. Qed.

Section pipeline_table.
Context (agg_lookup : gmap Qc Qc) (band_students : gmap Qc Z) (TOTAL : Z).
Let rs := final_results agg_lookup band_students TOTAL.

Lemma final_results_by_agg : results_by_agg rs = reverse rs.
Proof. apply results_by_agg_reverse, fix_rounding_ties_sorted. Qed.

Lemma final_rev_aggs_sorted : StronglySorted Qclt (rev_aggs rs).
Proof.
  unfold rev_aggs. rewrite final_results_by_agg, fmap_reverse.
  apply StronglySorted_reverse; [apply _|].
  eapply StronglySorted_fmap; [|apply fix_rounding_ties_sorted]. done.
Qed.

Lemma final_rev_atars_sorted : StronglySorted Qclt (rev_atars rs).
Proof.
  unfold rev_atars. rewrite final_results_by_agg, fmap_reverse.
  apply StronglySorted_reverse; [apply _|].
  unfold rs. rewrite final_results_atar. apply sorted_bands_strict.
Qed.

Lemma final_rev_length : length (rev_aggs rs) = length (rev_atars rs).
Proof. unfold rev_aggs, rev_atars. by rewrite !length_fmap. Qed.
End pipeline_table.

(** C7: on the table a run produces, the inverse lookup at a row's own
    aggregate returns that row's rank-score, so the back-test shift
    [atar_2025 - atar_actual] of the table against itself is [0] for
    every band. *)
Theorem backtest_idempotent
    (agg_lookup : gmap Qc Qc) (band_students : gmap Qc Z) (TOTAL : Z)
    (r : result_row) :
  let rs := final_results agg_lookup band_students TOTAL in
  r ∈ rs →
  agg_to_atar_of rs (agg r) = Some (atar r) ∧
  (λ atar_2025, atar_2025 - atar r) <$> agg_to_atar_of rs (agg r) = Some 0.
Proof.
  intros rs Hr.
  assert (agg_to_atar_of rs (agg r) = Some (atar r)) as E.
  { assert (r ∈ results_by_agg rs) as Hr'.
    { unfold results_by_agg. by rewrite py_sorted_Permutation. }
    apply list_elem_of_lookup in Hr' as [k Hk].
    unfold agg_to_atar_of.
    apply (agg_to_atar_hit _ _ k).
    - apply final_rev_aggs_sorted.
    - apply final_rev_length.
    - unfold rev_aggs. by rewrite list_lookup_fmap, Hk.
    - unfold rev_atars. by rewrite list_lookup_fmap, Hk. }
  split; [done|]. rewrite E. cbn. f_equal. qc_lra.
Qed.

(** The lookup on any non-empty table with strictly ascending
    aggregates and ascending rank-scores: total, within the table's
    rank-score range, monotone, and clamped at both ends. *)
Lemma agg_to_atar_monotone_gen aggs atars a0 al t0 tl :
  StronglySorted Qclt aggs → StronglySorted Qcle atars →
  length aggs = length atars →
  aggs !! 0%nat = Some a0 → last aggs = Some al →
  atars !! 0%nat = Some t0 → last atars = Some tl →
  (∀ v, ∃ t, agg_to_atar_2025 aggs atars v = Some t ∧ t0 ≤ t ∧ t ≤ tl) ∧
  (∀ v w t u, v ≤ w → agg_to_atar_2025 aggs atars v = Some t →
     agg_to_atar_2025 aggs atars w = Some u → t ≤ u) ∧
  (∀ v, v ≤ a0 → agg_to_atar_2025 aggs atars v = Some t0) ∧
  (∀ v, al ≤ v → agg_to_atar_2025 aggs atars v = Some tl).
Proof.
  intros Hs Ht Hlen Ha0 Hal Ht0 Htl.
  assert (aggs ≠ []) as Hne by (intros ->; discriminate).
  assert (∀ v, ∃ t, agg_to_atar_2025 aggs atars v = Some t ∧ t0 ≤ t ∧ t ≤ tl)
    as Hbounds.
  { intros v. destruct (agg_to_atar_case aggs atars v Hs Hlen Hne) as (t & E & Hc).
    exists t. split; [done|]. by eapply lookup_case_bounds. }
  assert (∀ v w t u, v ≤ w → agg_to_atar_2025 aggs atars v = Some t →
            agg_to_atar_2025 aggs atars w = Some u → t ≤ u) as Hmono.
  { intros v w t u Hvw Ev Ew.
    destruct (agg_to_atar_case aggs atars v Hs Hlen Hne) as (t' & Ev' & Hcv).
    destruct (agg_to_atar_case aggs atars w Hs Hlen Hne) as (u' & Ew' & Hcw).
    rewrite Ev in Ev'. injection Ev' as <-.
    rewrite Ew in Ew'. injection Ew' as <-.
    by eapply (lookup_case_mono aggs atars). }
  split; [done|]. split; [done|]. split.
  - intros v Hv. destruct (Hbounds v) as (t & E & Hlo & _).
    rewrite E. f_equal. apply (anti_symm Qcle); [|done].
    eapply (Hmono v a0); [done..|].
    by eapply (agg_to_atar_hit aggs atars 0).
  - intros v Hv. destruct (Hbounds v) as (t & E & _ & Hhi).
    rewrite E. f_equal. apply (anti_symm Qcle); [done|].
    eapply (Hmono al v); [done| |done].
    rewrite last_lookup in Hal, Htl.
    apply (agg_to_atar_hit aggs atars (pred (length aggs))); [done..|].
    by rewrite Hlen.
Qed.

(** C10: on the table a run produces (non-empty: at least one band has
    a population), the inverse lookup answers every aggregate, its
    answer lies between the lowest and the highest band's rank-score,
    it is monotone non-decreasing in the aggregate, and it is clamped:
    at or below the lowest band's aggregate it answers the lowest
    rank-score, at or above the highest band's aggregate the highest. *)
Theorem inverse_lookup_monotone
    (agg_lookup : gmap Qc Qc) (band_students : gmap Qc Z) (TOTAL : Z) :
  let rs := final_results agg_lookup band_students TOTAL in
  band_students ≠ ∅ →
  ∃ highest lowest,
    rs !! 0%nat = Some highest ∧ last rs = Some lowest ∧
    (∀ v, ∃ t, agg_to_atar_of rs v = Some t ∧
               atar lowest ≤ t ∧ t ≤ atar highest) ∧
    (∀ v w t u, v ≤ w → agg_to_atar_of rs v = Some t →
       agg_to_atar_of rs w = Some u → t ≤ u) ∧
    (∀ v, v ≤ agg lowest → agg_to_atar_of rs v = Some (atar lowest)) ∧
    (∀ v, agg highest ≤ v → agg_to_atar_of rs v = Some (atar highest)).
Proof.
  intros rs Hne.
  assert (rs ≠ []) as Hrs.
  { intros E. apply (f_equal (fmap atar)) in E.
    unfold rs in E. rewrite final_results_atar in E. cbn in E.
    apply Hne, dom_empty_inv_L, leibniz_equiv, elements_empty_inv.
    apply Permutation_nil_r. rewrite <-E. unfold sorted_bands.
    by rewrite py_sorted_Permutation. }
  destruct (rs !! 0%nat) as [highest|] eqn:Eh.
  2:{ destruct rs; [done|discriminate]. }
  destruct (last rs) as [lowest|] eqn:El.
  2:{ by apply last_None in El. }
  exists highest, lowest. split; [done|]. split; [done|].
  pose proof (final_results_by_agg agg_lookup band_students TOTAL) as Hrev.
  fold rs in Hrev.
  unfold agg_to_atar_of.
  apply (agg_to_atar_monotone_gen (rev_aggs rs) (rev_atars rs)).
  - apply final_rev_aggs_sorted.
  - eapply StronglySorted_weaken; [|apply final_rev_atars_sorted].
    intros ??. apply Qclt_le_weak.
  - apply final_rev_length.
  - unfold rev_aggs.
    by rewrite Hrev, <-head_lookup, fmap_reverse, head_reverse, fmap_last, El.
  - unfold rev_aggs.
    by rewrite Hrev, fmap_reverse, last_reverse, head_lookup, list_lookup_fmap, Eh.
  - unfold rev_atars.
    by rewrite Hrev, <-head_lookup, fmap_reverse, head_reverse, fmap_last, El.
  - unfold rev_atars.
    by rewrite Hrev, fmap_reverse, last_reverse, head_lookup, list_lookup_fmap, Eh.
Qed.

(** The repaired second row of the example table is looked up again. *)
Lemma backtest_idempotent_witness :
  with_agg {| atar := float_lit 9990 100; agg := 0; students := 37; cum := 74;
              cum_pct := float_lit 4933 100 |} (float_lit 48861 100)
    ∈ example_results ∧
  agg_to_atar_of example_results (float_lit 48861 100)
  = Some (float_lit 9990 100).
Proof.
  split; [by_compute|].
  apply (backtest_idempotent example_agg_lookup example_band_students 150
           (with_agg {| atar := float_lit 9990 100; agg := 0; students := 37;
                        cum := 74; cum_pct := float_lit 4933 100 |}
                     (float_lit 48861 100))).
  by_compute.
Defined.

Lemma inverse_lookup_monotone_witness :
  example_band_students ≠ ∅ ∧
  ∃ highest lowest,
    example_results !! 0%nat = Some highest ∧
    last example_results = Some lowest ∧
    (∀ v, ∃ t, agg_to_atar_of example_results v = Some t ∧
               atar lowest ≤ t ∧ t ≤ atar highest) ∧
    (∀ v w t u, v ≤ w → agg_to_atar_of example_results v = Some t →
       agg_to_atar_of example_results w = Some u → t ≤ u) ∧
    (∀ v, v ≤ agg lowest →
          agg_to_atar_of example_results v = Some (atar lowest)) ∧
    (∀ v, agg highest ≤ v →
          agg_to_atar_of example_results v = Some (atar highest)).
Proof.
  assert (example_band_students ≠ ∅) as Hne.
  { intros E. apply (f_equal (λ m : gmap Qc Z, m !! float_lit 9995 100)) in E.
    revert E. vm_compute. discriminate. }
  split; [exact Hne|].
  exact (inverse_lookup_monotone example_agg_lookup example_band_students 150 Hne).
Defined.

(** ** The simulated aggregate (C8) *)

Lemma foldl_Qcplus a l : foldl Qcplus a l = a + sum_float l.
Proof.
  unfold sum_float. revert a. induction l as [|x t IH]; intros a; cbn.
  - by rewrite Qcplus_0_r.
  - rewrite IH, (IH (0 + x)). rewrite Qcplus_0_l. symmetry. apply Qcplus_assoc.
Qed.

Lemma sum_float_cons x l : sum_float (x :: l) = x + sum_float l.
Proof. unfold sum_float at 1. cbn. by rewrite foldl_Qcplus, Qcplus_0_l. Qed.

Lemma sum_float_app l k : sum_float (l ++ k) = sum_float l + sum_float k.
Proof.
  induction l as [|x t IH]; simpl app.
  - change (sum_float []) with (Q2Qc 0). by rewrite Qcplus_0_l.
  - by rewrite !sum_float_cons, IH, Qcplus_assoc.
Qed.

Lemma sum_float_zeros l : Forall (λ x, x = 0) l → sum_float l = 0.
Proof.
  induction 1 as [|x t -> _ IH]; [done|].
  by rewrite sum_float_cons, IH, Qcplus_0_l.
Qed.

Lemma desc_unique (l1 l2 : list Qc) :
  StronglySorted (λ a b, b ≤ a) l1 → StronglySorted (λ a b, b ≤ a) l2 →
  l1 ≡ₚ l2 → l1 = l2.
Proof.
  apply StronglySorted_unique_strong. intros x y _ _ H1 H2.
  by apply (anti_symm Qcle).
Qed.

Lemma list_max_spec y t :
  list_max y t ∈ y :: t ∧ Forall (λ x, x ≤ list_max y t) (y :: t).
Proof.
  revert y. induction t as [|z t IH]; intros y; cbn.
  - split; [by left|]. by repeat constructor.
  - destruct (decide (y < z)) as [Hyz|Hyz].
    + destruct (IH z) as [Hin Hall]. split; [by right|].
      inv Hall. constructor; [|by constructor].
      etrans; [apply Qclt_le_weak, Hyz|done].
    + destruct (IH y) as [Hin Hall]. apply Qcle_ngt in Hyz. split.
      * apply elem_of_cons in Hin as [Heq|Hin].
        -- rewrite Heq. by left.
        -- right. by right.
      * inv Hall. constructor; [done|]. constructor; [by etrans|done].
Qed.

Lemma remove_one_Permutation x l : x ∈ l → l ≡ₚ x :: remove_one x l.
Proof.
  induction l as [|y t IH]; intros Hx; [by inv Hx|]. cbn.
  destruct (decide (x = y)) as [->|Hne]; [done|].
  apply elem_of_cons in Hx as [->|Hx]; [done|].
  rewrite Permutation_swap. by rewrite <-IH.
Qed.

(** The descending sort starts with the maximum and goes on with the
    sort of the rest. *)
Lemma py_sorted_desc_max y t :
  let m := list_max y t in
  py_sorted id true (y :: t) = m :: py_sorted id true (remove_one m (y :: t)).
Proof.
  intros m. destruct (list_max_spec y t) as [Hin Hall]. fold m in Hin, Hall.
  pose proof (remove_one_Permutation m (y :: t) Hin) as Hp.
  apply desc_unique.
  - apply (py_sorted_desc_sorted id).
  - constructor; [apply (py_sorted_desc_sorted id)|].
    rewrite py_sorted_Permutation. rewrite Hp in Hall. by inv Hall.
  - by rewrite !py_sorted_Permutation.
Qed.

(** The code's "sort descending, take the first [k], sum" is the sum
    of the [k] largest entries. *)
Lemma sum_take_sorted_largest k l :
  sum_float (take k (py_sorted id true l)) = sum_largest k l.
Proof.
  revert l. induction k as [|k IH]; intros l.
  { by destruct l. }
  destruct l as [|y t]; [done|].
  rewrite py_sorted_desc_max. cbn [take sum_largest].
  by rewrite sum_float_cons, IH.
Qed.

Lemma sum_take_zeros k (l : list Qc) n :
  sum_float (take k (l ++ replicate n 0)) = sum_float (take k l).
Proof.
  rewrite take_app, sum_float_app.
  rewrite (sum_float_zeros (take _ (replicate n 0))).
  - by rewrite Qcplus_0_r.
  - apply Forall_take, Forall_replicate. done.
Qed.

Lemma eval_scaling_poly_nonneg subj raw : 0 ≤ eval_scaling_poly subj raw.
Proof.
  unfold eval_scaling_poly, pymax. repeat destruct (decide _); try done.
  by apply Qclt_le_weak.
Qed.

(** Where the interval [[0, Max.y]] is not empty, [eval_scaling_poly]
    is the contribution the specification describes. *)
Lemma eval_scaling_poly_spec subj raw :
  0 ≤ sim_max_y subj → eval_scaling_poly subj raw = spec_contribution raw subj.
Proof.
  intros Hmax. unfold eval_scaling_poly, spec_contribution, clamp, quartic.
  destruct (decide (raw < sim_min_x subj)); [done|].
  generalize (sim_X4 subj * raw ^ 4 + sim_X3 subj * raw ^ 3
              + sim_X2 subj * raw ^ 2 + sim_X1 subj * raw + sim_X0 subj).
  intros v. unfold pymax, pymin.
  repeat destruct (decide _); try done; qc_lra.
Qed.

(** The scores the code collects are the contributions of all subjects
    with the zeros of the subjects below their [Min.x] left out. *)
Lemma scaled_scores_zeros subjects raw :
  ∃ n,
    (λ subj, eval_scaling_poly subj raw) <$> subjects
    ≡ₚ ((λ subj, eval_scaling_poly subj raw)
          <$> filter (λ subj, sim_min_x subj ≤ raw) subjects)
       ++ replicate n 0.
Proof.
  induction subjects as [|s t [n IH]]; [by exists 0%nat|].
  rewrite filter_cons. destruct (decide (sim_min_x s ≤ raw)) as [Hin|Hout].
  - exists n. cbn. by rewrite IH.
  - exists (S n). rewrite fmap_cons, IH.
    assert (eval_scaling_poly s raw = 0) as ->.
    { unfold eval_scaling_poly. apply Qclt_nge in Hout.
      by destruct (decide (raw < sim_min_x s)). }
    cbn. by rewrite <-Permutation_middle.
Qed.

Lemma simulate_point_all subjects i :
  simulate_point subjects i
  = let raw_pct := of_int (Z.of_nat i) * float_lit 5 10 in
    (raw_pct, sum_largest 5 ((λ subj, eval_scaling_poly subj raw_pct) <$> subjects)).
Proof.
  unfold simulate_point. cbn zeta. apply (f_equal (pair _)).
  set (raw := of_int (Z.of_nat i) * float_lit 5 10).
  destruct (scaled_scores_zeros subjects raw) as [n Hp].
  rewrite <-sum_take_sorted_largest.
  set (scores := (λ subj, eval_scaling_poly subj raw)
                   <$> filter (λ subj, sim_min_x subj ≤ raw) subjects) in *.
  rewrite <-(sum_take_zeros 5 (py_sorted id true scores) n).
  apply (f_equal (λ l, sum_float (take 5 l))).
  symmetry. apply desc_unique.
  - apply (py_sorted_desc_sorted id).
  - apply StronglySorted_app_2.
    + intros x1 x2 Hx1 Hx2. apply elem_of_replicate in Hx2 as [-> _].
      rewrite py_sorted_Permutation in Hx1. unfold scores in Hx1.
      apply list_elem_of_fmap in Hx1 as (s & -> & _).
      apply eval_scaling_poly_nonneg.
    + apply (py_sorted_desc_sorted id).
    + clear Hp. induction n as [|n IHn]; cbn; constructor; [done|].
      by apply Forall_replicate.
  - by rewrite !py_sorted_Permutation, Hp.
Qed.

(** C8: at each of the 201 raw-score grid points [0.0, 0.5, ..., 100.0]
    the simulated aggregate is the sum of the five largest
    contributions over all the subjects, a contribution being [0] below
    the subject's [Min.x] and the clamped quartic otherwise. *)
Theorem simulated_aggregate_top5 (subjects : list sim_subject) :
  Forall (λ subj, 0 ≤ sim_max_y subj) subjects →
  simulate_aggregate_curve subjects
  = (λ i : nat,
       let raw_pct := of_int (Z.of_nat i) * float_lit 5 10 in
       (raw_pct, spec_aggregate subjects raw_pct)) <$> seq 0 201.
Proof.
  intros Hmax. unfold simulate_aggregate_curve. apply list_fmap_ext.
  intros _ i _. rewrite simulate_point_all. cbn zeta.
  apply (f_equal (pair _)). unfold spec_aggregate.
  apply (f_equal (sum_largest 5)). apply Forall_fmap_ext_1.
  eapply Forall_impl; [exact Hmax|]. intros s Hs. by apply eval_scaling_poly_spec.
Qed.

Lemma simulated_aggregate_top5_witness :
  Forall (λ subj, 0 ≤ sim_max_y subj) example_subjects ∧
  simulate_aggregate_curve example_subjects
  = (λ i : nat,
       let raw_pct := of_int (Z.of_nat i) * float_lit 5 10 in
       (raw_pct, spec_aggregate example_subjects raw_pct)) <$> seq 0 201.
Proof.
  assert (Forall (λ subj, 0 ≤ sim_max_y subj) example_subjects) as H
    by by_compute.
  split; [exact H|]. exact (simulated_aggregate_top5 example_subjects H).
Defined.

(** At raw score 100 the five largest contributions of the six
    example subjects are 95, 90, 85, 80 and 60; at raw score 15 only
    two subjects have reached their [Min.x]. *)
Example simulate_example_100 :
  simulate_aggregate_curve example_subjects !! 200%nat
  = Some (of_int 100, of_int 410).
Proof. by_compute. Qed.

Example simulate_example_15 :
  simulate_aggregate_curve example_subjects !! 30%nat
  = Some (of_int 15, of_int 24).
Proof. by_compute. Qed.

(** ** The population split (C9) *)

(** The loop that lists the bands of a range stops by its guard: more
    fuel than [bands_fuel] changes nothing. *)
Lemma bands_loop_more fuel k b low :
  b - (low - float_lit 1 1000) < float_lit 5 100 * of_int (Z.of_nat fuel) →
  bands_loop (fuel + k) b low = bands_loop fuel b low.
Proof.
  revert b. induction fuel as [|fuel IH]; intros b Hb.
  - destruct k as [|k]; [done|]. cbn.
    destruct (decide (low - float_lit 1 1000 ≤ b)); [|done].
    exfalso. change (of_int (Z.of_nat 0)) with (Q2Qc 0) in Hb. qc_lra.
  - cbn. destruct (decide (low - float_lit 1 1000 ≤ b)); [|done].
    f_equal. apply IH.
    replace (of_int (Z.of_nat (S fuel))) with (of_int (Z.of_nat fuel) + 1) in Hb.
    + qc_lra.
    + unfold of_int. rewrite Nat2Z.inj_succ, <-Z.add_1_r.
      apply Qc_is_canon. cbn [this Qcplus Q2Qc]. rewrite !Qred_correct.
      by rewrite inject_Z_plus.
Qed.

Lemma bands_loop_fuel low high k :
  bands_loop (bands_fuel low high + k) high low = bands_in_range low high.
Proof.
  apply bands_loop_more. unfold bands_fuel.
  set (q := this ((high - low + float_lit 1 1000) / float_lit 5 100)).
  pose proof (Qlt_floor q) as Hq. rewrite inject_Z_plus in Hq.
  assert (this (of_int (Z.of_nat (Z.to_nat (Qfloor q + 2))))
          == inject_Z (Z.max 0 (Qfloor q + 2)))%Q as E.
  { unfold of_int. cbn [this Q2Qc]. rewrite Qred_correct.
    by rewrite ZifyInst.of_nat_to_nat_eq. }
  assert (q < inject_Z (Z.max 0 (Qfloor q + 2)) ∧
          0 <= inject_Z (Z.max 0 (Qfloor q + 2)))%Q as [H1 H2].
  { destruct (Z.max_spec 0 (Qfloor q + 2)) as [[Hlt ->]|[Hle ->]].
    - rewrite inject_Z_plus. change (inject_Z 2) with (2 # 1)%Q.
      change (inject_Z 1) with (1 # 1)%Q in Hq.
      assert (0 <= inject_Z (Qfloor q) + (2 # 1))%Q; [|lra].
      rewrite <-(inject_Z_plus _ 2). change 0%Q with (inject_Z 0).
      rewrite <-Zle_Qle. lia.
    - change (inject_Z 0) with 0%Q. split; [|lra].
      change (inject_Z 1) with (1 # 1)%Q in Hq.
      assert (inject_Z (Qfloor q) <= - (2 # 1))%Q; [|lra].
      change (- (2 # 1))%Q with (inject_Z (-2)). rewrite <-Zle_Qle. lia. }
  revert H1 H2. rewrite <-E.
  generalize (of_int (Z.of_nat (Z.to_nat (Qfloor q + 2)))). intros f H1 H2.
  subst q. qc_lra.
Qed.

(** The bands of a range are listed in strictly decreasing order. *)
Lemma bands_loop_upper fuel b low :
  Forall (λ x, x ≤ b + float_lit 5 1000) (bands_loop fuel b low).
Proof.
  revert b. induction fuel as [|fuel IH]; intros b; cbn; [constructor|].
  destruct (decide _); [|constructor]. constructor.
  - apply round2_bounds.
  - eapply Forall_impl; [apply IH|]. intros x Hx. cbn in Hx. qc_lra.
Qed.

Lemma bands_loop_strict fuel b low :
  StronglySorted (λ x y, y < x) (bands_loop fuel b low).
Proof.
  revert b. induction fuel as [|fuel IH]; intros b; cbn; [constructor|].
  destruct (decide _); [|constructor]. constructor; [apply IH|].
  eapply Forall_impl; [apply bands_loop_upper|]. intros x Hx. cbn in Hx.
  destruct (round2_bounds b) as [Hb _]. revert Hb.
  generalize (round2 b). intros rb Hb. qc_lra.
Qed.

Lemma strict_desc_NoDup (l : list Qc) :
  StronglySorted (λ x y, y < x) l → NoDup l.
Proof.
  induction 1 as [|a t Ht IH Ha]; constructor; [|done].
  intros Hin. rewrite Forall_forall in Ha. apply Ha in Hin.
  by apply Qclt_not_eq in Hin.
Qed.

Lemma range_bands_NoDup r : NoDup (range_bands r).
Proof. apply strict_desc_NoDup, bands_loop_strict. Qed.

Lemma foldl_Zadd a l : foldl Z.add a l = (a + sum_int l)%Z.
Proof.
  unfold sum_int. revert a. induction l as [|x t IH]; intros a; [cbn; lia|].
  change (foldl Z.add (a + x)%Z t = (a + foldl Z.add (0 + x)%Z t)%Z).
  rewrite (IH (a + x)%Z), (IH (0 + x)%Z). lia.
Qed.

Lemma sum_int_cons x l : sum_int (x :: l) = (x + sum_int l)%Z.
Proof. unfold sum_int at 1. cbn. by rewrite foldl_Zadd. Qed.

Lemma sum_int_app l k : sum_int (l ++ k) = (sum_int l + sum_int k)%Z.
Proof.
  induction l as [|x t IH]; simpl app; [done|].
  rewrite !sum_int_cons, IH. lia.
Qed.

Global Instance sum_int_Permutation : Proper ((≡ₚ) ==> (=)) sum_int.
Proof.
  induction 1 as [|x l k _ IH|x y l|l k m _ IH1 _ IH2];
    rewrite ?sum_int_cons; try congruence; lia.
Qed.

Global Instance range_sum_Permutation m : Proper ((≡ₚ) ==> (=)) (range_sum m).
Proof. intros l k Hlk. unfold range_sum. by rewrite Hlk. Qed.

Lemma range_sum_cons m b l :
  range_sum m (b :: l) = (default 0 (m !! b) + range_sum m l)%Z.
Proof. unfold range_sum. by rewrite fmap_cons, sum_int_cons. Qed.

Lemma range_sum_app m l k :
  range_sum m (l ++ k) = (range_sum m l + range_sum m k)%Z.
Proof. unfold range_sum. by rewrite fmap_app, sum_int_app. Qed.

Lemma range_sum_ext m m' l :
  (∀ b, b ∈ l → m' !! b = m !! b) → range_sum m' l = range_sum m l.
Proof.
  intros H. unfold range_sum. f_equal. apply Forall_fmap_ext_1.
  apply Forall_forall. intros b Hb. by rewrite H.
Qed.

Lemma range_sum_free m l :
  Forall (λ b, m !! b = None) l → range_sum m l = 0%Z.
Proof.
  induction 1 as [|b l Hb _ IH]; [done|].
  by rewrite range_sum_cons, Hb, IH.
Qed.

(** The bands of a range, split as the loop body splits them. *)
Lemma bands_split (m : gmap Qc Z) (bands : list Qc) :
  bands ≡ₚ filter (λ br, is_Some (m !! br)) bands
           ++ filter (λ br, m !! br = None) bands.
Proof.
  induction bands as [|b l IH]; [done|]. rewrite !filter_cons.
  destruct (m !! b) as [c|] eqn:E.
  - rewrite decide_True by eauto. rewrite decide_False by done.
    cbn. by rewrite <-IH.
  - rewrite decide_False by (by intros [??]). rewrite decide_True by done.
    rewrite <-Permutation_middle. by rewrite <-IH.
Qed.

(** [already_assigned] is the range's sum in the current state. *)
Lemma already_assigned_range_sum (m : gmap Qc Z) (bands : list Qc) :
  sum_int ((λ br, default 0%Z (m !! br))
             <$> filter (λ br, is_Some (m !! br)) bands)
  = range_sum m bands.
Proof.
  fold (range_sum m (filter (λ br, is_Some (m !! br)) bands)).
  trans (range_sum m (filter (λ br, is_Some (m !! br)) bands
                      ++ filter (λ br, m !! br = None) bands));
    [|by rewrite <-bands_split].
  rewrite range_sum_app.
  rewrite (range_sum_free m (filter (λ br, m !! br = None) bands)); [lia|].
  apply Forall_forall. intros b Hb. by apply list_elem_of_filter in Hb as [? _].
Qed.


Lemma assign_shares_notin g h m U b :
  b ∉ U → assign_shares g h m U !! b = m !! b.
Proof.
  unfold assign_shares. revert h m.
  induction U as [|u U IH]; intros h m Hb; [done|].
  rewrite imap_cons. cbn [foldl]. apply not_elem_of_cons in Hb as [Hne Hb].
  rewrite (IH (h ∘ S)) by done. by rewrite lookup_insert_ne.
Qed.

Lemma assign_shares_dom g h m U b :
  is_Some (assign_shares g h m U !! b) ↔ b ∈ U ∨ is_Some (m !! b).
Proof.
  unfold assign_shares. revert h m.
  induction U as [|u U IH]; intros h m.
  { cbn. split; [by right|]. intros [H|H]; [by inv H|done]. }
  rewrite imap_cons. cbn [foldl]. rewrite (IH (h ∘ S)).
  rewrite lookup_insert_is_Some', elem_of_cons.
  split; intros H; intuition (subst; auto).
Qed.

Lemma assign_shares_sum g h m U :
  NoDup U →
  range_sum (assign_shares g h m U) U
  = sum_int ((λ i, g (h i)) <$> seq 0 (length U)).
Proof.
  revert h m. induction U as [|u U IH]; intros h m Hnd; [done|].
  apply NoDup_cons in Hnd as [Hu Hnd].
  rewrite range_sum_cons. cbn [length seq]. rewrite fmap_cons, sum_int_cons.
  change (assign_shares g h m (u :: U))
    with (assign_shares g (h ∘ S) (<[u := g (h 0%nat)]> m) U).
  rewrite assign_shares_notin by done. rewrite lookup_insert_eq. cbn.
  rewrite IH by done. by rewrite <-fmap_S_seq, <-list_fmap_compose.
Qed.

Lemma shares_sum base extra n :
  (0 ≤ extra)%Z →
  sum_int (share base extra <$> seq 0 n)
  = (base * Z.of_nat n + Z.min extra (Z.of_nat n))%Z.
Proof.
  intros He. induction n as [|n IH]; [cbn; lia|].
  rewrite seq_S, fmap_app, sum_int_app, IH. cbn [fmap list_fmap].
  rewrite sum_int_cons. unfold share at 1, sum_int. cbn [foldl Nat.add].
  destruct (decide (Z.of_nat n < extra)%Z); lia.
Qed.

(** One range, split: the counts of its bands add up to its total. *)
Lemma process_range_sum m r :
  range_splittable m r →
  range_sum (process_range m r) (range_bands r) = range_total r.
Proof.
  destruct r as [[low high] total]. intros [Hrem Hfree].
  unfold range_remaining, range_total, range_bands in *. cbn [fst snd] in *.
  unfold process_range. rewrite already_assigned_range_sum.
  set (bands := bands_in_range low high) in *.
  set (U := filter (λ br, m !! br = None) bands).
  set (remaining := (total - range_sum m bands)%Z) in *.
  destruct (decide _) as [Hskip|Hgo].
  { destruct (decide (remaining = 0)%Z) as [E|Hpos]; [unfold remaining in E; lia|].
    exfalso. destruct Hskip as [?|Hlen]; [lia|].
    apply Exists_exists in Hfree as (b & Hb & Hnone); [|lia].
    assert (b ∈ U) as HbU by (by apply list_elem_of_filter).
    apply nil_length_inv in Hlen. rewrite Hlen in HbU. by inv HbU. }
  assert (0 < remaining)%Z as Hpos by lia.
  assert (0 < length U)%nat as Hn by lia.
  set (n := Z.of_nat (length U)).
  set (base := (remaining `div` n)%Z). set (extra := (remaining - base * n)%Z).
  assert (0 ≤ extra < n)%Z as Hextra.
  { unfold extra, base. pose proof (Z.mod_pos_bound remaining n ltac:(lia)).
    pose proof (Z.div_mod remaining n ltac:(lia)). lia. }
  fold (share base extra).
  change (foldl _ m (imap _ ?l)) with (assign_shares (share base extra) id m l).
  set (S' := py_sorted id true U).
  assert (S' ≡ₚ U) as HS by apply py_sorted_Permutation.
  assert (NoDup U) as HU by (apply NoDup_filter, range_bands_NoDup with (r := (low, high, total))).
  set (m' := assign_shares (share base extra) id m S').
  set (A := filter (λ br, is_Some (m !! br)) bands).
  assert (range_sum m' bands = (range_sum m' A + range_sum m' S')%Z) as ->.
  { rewrite <-range_sum_app. apply range_sum_Permutation.
    rewrite HS. apply bands_split. }
  assert (range_sum m' A = range_sum m bands) as ->.
  { rewrite <-(already_assigned_range_sum m bands). fold A.
    fold (range_sum m A).
    apply range_sum_ext. intros b Hb. apply assign_shares_notin. rewrite HS.
    apply list_elem_of_filter in Hb as [[c Hc] _]. intros HbU.
    apply list_elem_of_filter in HbU as [HbU _]. congruence. }
  unfold m'. rewrite assign_shares_sum by (by rewrite HS).
  change (λ i : nat, share base extra (id i)) with (share base extra).
  rewrite shares_sum by lia.
  replace (length S') with (length U) by (by rewrite HS).
  fold n. unfold extra in *. lia.
Qed.

(** The loop body, with its inner loop named. *)
Lemma process_range_unfold m low high total :
  process_range m (low, high, total)
  = let bands := bands_in_range low high in
    let U := filter (λ br, m !! br = None) bands in
    let remaining := (total - range_sum m bands)%Z in
    if decide ((remaining ≤ 0)%Z ∨ length U = 0%nat) then m
    else
      let n := Z.of_nat (length U) in
      let base := (remaining `div` n)%Z in
      assign_shares (share base (remaining - base * n)) id m
        (py_sorted id true U).
Proof. unfold process_range. by rewrite already_assigned_range_sum. Qed.

(** What one range leaves alone, and what it may add. *)
Lemma process_range_notin m r b :
  b ∉ range_bands r → process_range m r !! b = m !! b.
Proof.
  destruct r as [[low high] total]. unfold range_bands. cbn [fst snd].
  intros Hb. rewrite process_range_unfold. cbn zeta.
  destruct (decide _); [done|].
  apply assign_shares_notin. rewrite py_sorted_Permutation.
  intros Hin. by apply list_elem_of_filter in Hin as [_ ?].
Qed.

Lemma process_range_dom m r b :
  is_Some (process_range m r !! b) → b ∈ range_bands r ∨ is_Some (m !! b).
Proof.
  destruct (decide (b ∈ range_bands r)) as [|Hn]; [by left|].
  rewrite process_range_notin by done. by right.
Qed.

Lemma range_splittable_ext m m' r :
  (∀ b, b ∈ range_bands r → m' !! b = m !! b) →
  range_splittable m r → range_splittable m' r.
Proof.
  intros Hext [Hrem Hfree]. unfold range_splittable, range_remaining in *.
  rewrite (range_sum_ext m m') by done. split; [done|].
  intros Hpos. specialize (Hfree Hpos).
  apply Exists_exists in Hfree as (b & Hb & Hnone).
  apply Exists_exists. exists b. split; [done|]. by rewrite Hext.
Qed.

(** All the ranges, split one after the other. *)
Lemma build_ranges m table14 :
  NoDup (r ← table14; range_bands r) →
  Forall (range_splittable m) table14 →
  let mf := foldl process_range m table14 in
  Forall (λ r, range_sum mf (range_bands r) = range_total r) table14 ∧
  (∀ b, b ∉ (r ← table14; range_bands r) → mf !! b = m !! b) ∧
  (∀ b, is_Some (mf !! b) →
        b ∈ (r ← table14; range_bands r) ∨ is_Some (m !! b)).
Proof.
  revert m. induction table14 as [|r t IH]; intros m Hnd Hsp.
  { cbn. split; [constructor|]. split; [done|]. by right. }
  rewrite bind_cons in Hnd. apply NoDup_app in Hnd as (Hr & Hdisj & Ht).
  apply Forall_cons in Hsp as [Hspr Hspt]. cbn [foldl]. cbn zeta.
  destruct (IH (process_range m r) Ht) as (IH1 & IH2 & IH3).
  { rewrite Forall_forall in Hspt |- *. intros r' Hr'.
    eapply range_splittable_ext; [|by apply Hspt].
    intros b Hb. apply process_range_notin. intros Hbr.
    apply (Hdisj b Hbr). apply list_elem_of_bind. by exists r'. }
  split; [|split].
  - constructor; [|done].
    rewrite (range_sum_ext (process_range m r)).
    + by apply process_range_sum.
    + intros b Hb. apply IH2. by apply Hdisj.
  - intros b Hb. rewrite bind_cons in Hb.
    apply not_elem_of_app in Hb as [Hb1 Hb2].
    rewrite IH2 by done. by apply process_range_notin.
  - intros b Hb. rewrite bind_cons, elem_of_app.
    apply IH3 in Hb as [Hb|Hb]; [by left; right|].
    apply process_range_dom in Hb as [Hb|Hb]; [by left; left|by right].
Qed.

Lemma range_sum_bind m (table14 : range_table) :
  range_sum m (r ← table14; range_bands r)
  = sum_int ((λ r, range_sum m (range_bands r)) <$> table14).
Proof.
  induction table14 as [|r t IH]; [done|].
  by rewrite bind_cons, range_sum_app, fmap_cons, sum_int_cons, IH.
Qed.

Lemma assign_table13_dom table13 b :
  is_Some (assign_table13 table13 !! b) → ∃ e, e ∈ table13 ∧ b = round2 e.1.
Proof.
  unfold assign_table13.
  assert (∀ m : gmap Qc Z,
            is_Some (foldl (λ bs '(atar, count), <[round2 atar := count]> bs)
                           m table13 !! b) →
            is_Some (m !! b) ∨ ∃ e, e ∈ table13 ∧ b = round2 e.1) as H.
  { induction table13 as [|[a c] t IH]; intros m Hb; [by left|].
    cbn [foldl] in Hb. apply IH in Hb as [Hb|(e & He & ->)].
    - apply lookup_insert_is_Some' in Hb as [<-|Hb]; [|by left].
      right. exists (a, c). split; [by left|done].
    - right. exists e. split; [by right|done]. }
  intros Hb. apply H in Hb as [Hb|Hb]; [|done].
  rewrite lookup_empty in Hb. by destruct Hb.
Qed.

(** The sum over the keys of a map is the sum over any duplicate-free
    list of bands that contains the keys. *)
Lemma range_sum_keys (m : gmap Qc Z) (bands : list Qc) :
  NoDup bands → (∀ b, is_Some (m !! b) → b ∈ bands) →
  range_sum m (elements (dom m)) = range_sum m bands.
Proof.
  intros Hnd Hsub.
  assert (elements (dom m) ⊆+ bands) as Hsm.
  { apply NoDup_submseteq; [apply NoDup_elements|].
    intros b Hb. apply Hsub. by apply elem_of_dom, elem_of_elements. }
  apply submseteq_Permutation in Hsm as [rest Hrest].
  rewrite Hrest, range_sum_app. rewrite (range_sum_free m rest); [lia|].
  rewrite Hrest in Hnd. apply NoDup_app in Hnd as (_ & Hdisj & _).
  apply Forall_forall. intros b Hb.
  destruct (m !! b) as [c|] eqn:E; [|done]. exfalso.
  apply (Hdisj b); [|done]. apply elem_of_elements, elem_of_dom. by eexists.
Qed.

(** The loop that accumulates [running]. *)
Lemma build_cumulative_running (m : gmap Qc Z) :
  (build_cumulative m).1 = range_sum m (elements (dom m)).
Proof.
  unfold build_cumulative.
  rewrite <-(py_sorted_Permutation id true (elements (dom m))).
  fold (sorted_bands m).
  assert (∀ l run (c : gmap Qc Z),
            (foldl (λ '(running, cumulative) band,
                      let running := (running + getitem m band)%Z in
                      (running, <[band := running]> cumulative))
                   (run, c) l).1 = (run + range_sum m l)%Z) as H.
  { induction l as [|b l IH]; intros run c.
    - cbn. unfold range_sum, sum_int. cbn. lia.
    - cbn [foldl]. rewrite IH, range_sum_cons. unfold getitem. lia. }
  rewrite H. lia.
Qed.

(** The last band visited holds the final value of [running]. *)
Lemma build_cumulative_lowest (m : gmap Qc Z) lowest :
  last (sorted_bands m) = Some lowest →
  (build_cumulative m).2 !! lowest = Some (build_cumulative m).1.
Proof.
  intros Hl. apply last_Some in Hl as [l' Hl'].
  unfold build_cumulative. rewrite Hl', foldl_snoc.
  destruct (foldl _ _ l') as [run c]. cbn. by rewrite lookup_insert_eq.
Qed.

Lemma build_band_students_total table13 table14 :
  consistent_distribution table13 table14 →
  let bs := build_band_students table13 table14 in
  Forall (λ r, range_sum bs (range_bands r) = range_total r) table14 ∧
  (build_cumulative bs).1 = sum_int (range_total <$> table14).
Proof.
  intros (Hnd & Hcov & Hsp) bs.
  destruct (build_ranges (assign_table13 table13) table14 Hnd Hsp)
    as (H1 & H2 & H3).
  fold (build_band_students table13 table14) in H1, H2, H3. fold bs in H1, H2, H3.
  split; [done|].
  rewrite build_cumulative_running.
  rewrite (range_sum_keys bs (r ← table14; range_bands r)); [|done|].
  - rewrite range_sum_bind. f_equal. by apply Forall_fmap_ext_1.
  - intros b Hb. apply H3 in Hb as [Hb|Hb]; [done|].
    apply assign_table13_dom in Hb as (e & He & ->).
    rewrite Forall_forall in Hcov. by apply Hcov.
Qed.

(** C9, amended: a range whose remaining count is not negative and
    which, when students remain to be placed, still has a free band,
    ends up with band counts that add up to its total; and for a
    distribution whose parts fit together (no band in two ranges,
    every listed band inside a range, every range splittable) each
    range adds up to its total, and the running count after the lowest
    band, which is the cumulative count stored for that band, is the
    sum [T] of the range totals. *)
Theorem band_split_conserves_total :
  (∀ band_students r,
     range_splittable band_students r →
     range_sum (process_range band_students r) (range_bands r)
     = range_total r) ∧
  (∀ table13 table14,
     consistent_distribution table13 table14 →
     let bs := build_band_students table13 table14 in
     let T := sum_int (range_total <$> table14) in
     Forall (λ r, range_sum bs (range_bands r) = range_total r) table14 ∧
     (build_cumulative bs).1 = T ∧
     ∀ lowest, last (sorted_bands bs) = Some lowest →
               (build_cumulative bs).2 !! lowest = Some T).
Proof.
  split; [apply process_range_sum|].
  intros table13 table14 Hc bs T.
  destruct (build_band_students_total table13 table14 Hc) as [H1 H2].
  split; [done|]. split; [done|].
  intros lowest Hl. unfold T. rewrite <-H2. by apply build_cumulative_lowest.
Qed.

Lemma band_split_conserves_total_witness :
  consistent_distribution example_table13 example_table14 ∧
  range_sum example_band_students
            (bands_in_range (float_lit 9980 100) (float_lit 9995 100)) = 150%Z ∧
  (build_cumulative example_band_students).1 = 150%Z ∧
  (build_cumulative example_band_students).2 !! float_lit 9980 100 = Some 150%Z.
Proof.
  assert (consistent_distribution example_table13 example_table14) as Hc.
  { unfold consistent_distribution, range_splittable. by_compute. }
  split; [exact Hc|].
  destruct band_split_conserves_total as [_ H].
  destruct (H example_table13 example_table14 Hc) as (H1 & H2 & H3).
  split; [|split].
  - apply Forall_cons in H1 as [H1 _]. exact H1.
  - exact H2.
  - apply H3. by_compute.
Defined.

(** C9 as stated fails: a range whose only band is listed with 10
    students has a remaining count of 5, which is not negative, but
    no free band; the range is skipped and its total of 15 is not
    reached, nor is the cumulative count at the lowest band. *)
Lemma band_split_full_range_short :
  (0 ≤ range_remaining (assign_table13 full_table13)
         (float_lit 9995 100, float_lit 9995 100, 15%Z))%Z ∧
  range_sum (process_range (assign_table13 full_table13)
               (float_lit 9995 100, float_lit 9995 100, 15%Z))
            (bands_in_range (float_lit 9995 100) (float_lit 9995 100))
  ≠ 15%Z ∧
  (build_cumulative (build_band_students full_table13 full_table14)).1
  ≠ sum_int (range_total <$> full_table14) ∧
  (build_cumulative (build_band_students full_table13 full_table14)).2
    !! float_lit 9995 100 = Some 10%Z.
Proof. by_compute. Qed.

(** ** The boundary optimizer (C3, C4) *)

Lemma foldl_bind {A B C} (f : A → B → A) (g : C → list B) a (l : list C) :
  foldl f a (l ≫= g) = foldl (λ a x, foldl f a (g x)) a l.
Proof.
  revert a. induction l as [|x l IH]; intros a; [done|].
  by rewrite bind_cons, foldl_app, IH.
Qed.

Lemma foldl_fmap_l {A B C} (f : A → B → A) (h : C → B) a (l : list C) :
  foldl f a (h <$> l) = foldl (λ a x, f a (h x)) a l.
Proof. revert a. induction l as [|x l IH]; intros a; cbn; [done|apply IH]. Qed.

Lemma elem_of_grid_cells mi pyi :
  (mi, pyi) ∈ grid_cells ↔ (mi ≤ 40)%nat ∧ (pyi ≤ 30)%nat.
Proof.
  unfold grid_cells. rewrite list_elem_of_bind. split.
  - intros (m & Hp & Hm). apply list_elem_of_fmap in Hp as (p & [= -> ->] & Hp).
    apply elem_of_seq in Hm. apply elem_of_seq in Hp. lia.
  - intros [Hm Hp]. exists mi. split.
    + apply list_elem_of_fmap. exists pyi. split; [done|]. apply elem_of_seq. lia.
    + apply elem_of_seq. lia.
Qed.


Lemma grid_rows_sorted a n :
  StronglySorted scanned_before
    (mi ← seq a n; (λ pyi : nat, (mi, pyi)) <$> seq 0 31).
Proof.
  revert a. induction n as [|n IH]; intros a; [constructor|].
  cbn [seq]. rewrite bind_cons. apply StronglySorted_app_2.
  - intros c c' Hc Hc'.
    apply list_elem_of_fmap in Hc as (p & -> & _).
    apply list_elem_of_bind in Hc' as (m & Hc' & Hm).
    apply list_elem_of_fmap in Hc' as (p' & -> & _).
    apply elem_of_seq in Hm. left. cbn. lia.
  - apply (StronglySorted_fmap _ lt); [|by_compute].
    intros p p' Hp. right. cbn. lia.
  - apply IH.
Qed.

Lemma grid_cells_sorted : StronglySorted scanned_before grid_cells.
Proof. apply grid_rows_sorted. Qed.

Section argmin_scan_facts.
Context {C B : Type} (valid : C → bool) (err : C → Qc) (cand : C → B).

Lemma scanned_step pre st c :
  scanned valid err cand pre st →
  scanned valid err cand (pre ++ [c]) (scan_step valid err cand st c).
Proof.
  intros Hst. unfold scan_step.
  destruct (valid c) eqn:Ev; cbn [negb].
  2:{ destruct st as [[e|] [b|]]; cbn in *; try done.
      - destruct Hst as (pre1 & c0 & pre2 & -> & Hv & He & Hb & H1 & H2).
        exists pre1, c0, (pre2 ++ [c]). rewrite <-app_assoc.
        repeat split; try done.
        intros c' Hc' Hvc'. apply elem_of_app in Hc' as [Hc'|Hc']; [by apply H2|].
        apply list_elem_of_singleton in Hc' as ->. congruence.
      - intros c' Hc'. apply elem_of_app in Hc' as [Hc'|Hc']; [by apply Hst|].
        by apply list_elem_of_singleton in Hc' as ->. }
  destruct st as [[e|] [b|]]; cbn in *; try done.
  - destruct Hst as (pre1 & c0 & pre2 & -> & Hv & -> & -> & H1 & H2).
    destruct (bool_decide (err c < err c0)) eqn:Elt; cbn.
    + apply bool_decide_eq_true in Elt.
      exists (pre1 ++ c0 :: pre2), c, []. repeat split; try done.
      * intros c' Hc' Hvc'. apply elem_of_app in Hc' as [Hc'|Hc'].
        { etrans; [exact Elt|]. by apply H1. }
        apply elem_of_cons in Hc' as [->|Hc']; [done|].
        eapply Qclt_le_trans; [exact Elt|]. by apply H2.
      * intros c' Hc'. by apply elem_of_nil in Hc'.
    + apply bool_decide_eq_false in Elt. apply Qcle_ngt in Elt.
      exists pre1, c0, (pre2 ++ [c]). rewrite <-app_assoc.
      repeat split; try done.
      intros c' Hc' Hvc'. apply elem_of_app in Hc' as [Hc'|Hc']; [by apply H2|].
      by apply list_elem_of_singleton in Hc' as ->.
  - exists pre, c, []. repeat split; try done.
    + intros c' Hc' Hvc'. apply Hst in Hc'. congruence.
    + intros c' Hc'. by apply elem_of_nil in Hc'.
Qed.

Lemma scanned_foldl pre st l :
  scanned valid err cand pre st →
  scanned valid err cand (pre ++ l) (foldl (scan_step valid err cand) st l).
Proof.
  revert pre st. induction l as [|c l IH]; intros pre st Hst.
  - by rewrite app_nil_r.
  - cbn [foldl]. replace (pre ++ c :: l) with ((pre ++ [c]) ++ l)
      by (by rewrite <-app_assoc).
    apply IH. by apply scanned_step.
Qed.

Lemma scanned_all l :
  scanned valid err cand l (foldl (scan_step valid err cand) (None, None) l).
Proof.
  apply (scanned_foldl [] (None, None)). intros c Hc. by apply elem_of_nil in Hc.
Qed.
End argmin_scan_facts.

Section optimizer.
Context (fit_poly_4 : list Qc → list Qc → Qc * Qc * Qc * Qc * Qc).
Context (fit_poly_3 : list Qc → list Qc → Qc * Qc * Qc * Qc).
Context (s : SubjectData).

(** The two nested loops visit the cells of [grid_cells] in order. *)
Lemma grid_search_cells :
  grid_search fit_poly_4 s
  = foldl (scan_step (λ c, cell_monotonic fit_poly_4 s c.1 c.2)
                     (λ c, cell_err fit_poly_4 s c.1 c.2)
                     (λ c, (cell_mx s c.1, cell_pzx s c.1, cell_pzy s c.2)))
          (None, None) grid_cells.
Proof.
  unfold grid_search, grid_cells. rewrite foldl_bind.
  apply foldl_ext_all. intros st mi. by rewrite foldl_fmap_l.
Qed.

(** The sampled check is the validity of the cell. *)
Lemma cell_monotonic_valid mi pyi :
  cell_monotonic fit_poly_4 s mi pyi = true ↔ cell_valid fit_poly_4 s mi pyi.
Proof.
  unfold cell_monotonic, cell_valid. rewrite forallb_forall. split.
  - intros H t Ht. specialize (H t). cbn zeta in H.
    rewrite negb_true_iff, bool_decide_eq_false in H.
    apply Qcle_ngt, H. apply list_elem_of_In, elem_of_seq. lia.
  - intros H t Ht. cbn zeta. rewrite negb_true_iff, bool_decide_eq_false.
    apply Qcle_ngt, H. apply list_elem_of_In, elem_of_seq in Ht. lia.
Qed.

(** [compute_polynomials] leaves the anchors alone. *)
Lemma compute_polynomials_anchors r :
  let r' := compute_polynomials fit_poly_4 fit_poly_3 r in
  min_x r' = min_x r ∧ pzx r' = pzx r ∧ pzy r' = pzy r ∧ min_y r' = min_y r ∧
  p25x r' = p25x r ∧ p25y r' = p25y r.
Proof.
  unfold compute_polynomials. destruct (decide _); [done|].
  destruct (fit_poly_4 _ _) as [[[[c4 c3] c2] c1] c0].
  by destruct (fit_poly_3 _ _) as [[[z3 z2] z1] z0].
Qed.
End optimizer.

Section optimizer_claims.
Context (fit_poly_4 : list Qc → list Qc → Qc * Qc * Qc * Qc * Qc).
Context (fit_poly_3 : list Qc → list Qc → Qc * Qc * Qc * Qc).

(** The outcome of the grid search: either no cell of the grid is
    valid and nothing is recorded, or the recorded cell is valid, no
    valid cell has a smaller error, and every valid cell scanned before
    it has a strictly larger one. *)
Lemma grid_search_outcome s :
  (grid_search fit_poly_4 s = (None, None) ∧
   ∀ mi pyi, (mi ≤ 40)%nat → (pyi ≤ 30)%nat →
             cell_monotonic fit_poly_4 s mi pyi = false) ∨
  (∃ mi pyi,
     (mi ≤ 40)%nat ∧ (pyi ≤ 30)%nat ∧
     grid_search fit_poly_4 s
     = (Some (cell_err fit_poly_4 s mi pyi),
        Some (cell_mx s mi, cell_pzx s mi, cell_pzy s pyi)) ∧
     cell_monotonic fit_poly_4 s mi pyi = true ∧
     ∀ mi' pyi', (mi' ≤ 40)%nat → (pyi' ≤ 30)%nat →
       cell_monotonic fit_poly_4 s mi' pyi' = true →
       cell_err fit_poly_4 s mi pyi ≤ cell_err fit_poly_4 s mi' pyi' ∧
       (scanned_before (mi', pyi') (mi, pyi) →
        cell_err fit_poly_4 s mi pyi < cell_err fit_poly_4 s mi' pyi')).
Proof.
  pose proof (scanned_all (λ c, cell_monotonic fit_poly_4 s c.1 c.2)
                (λ c, cell_err fit_poly_4 s c.1 c.2)
                (λ c, (cell_mx s c.1, cell_pzx s c.1, cell_pzy s c.2))
                grid_cells) as Hsc.
  rewrite <-grid_search_cells in Hsc.
  destruct (grid_search fit_poly_4 s) as [[e|] [b|]]; unfold scanned in Hsc;
    try contradiction.
  - right. destruct Hsc as (pre1 & [mi pyi] & pre2 & Hcells & Hv & -> & -> & H1 & H2).
    cbn [fst snd] in *.
    assert ((mi, pyi) ∈ grid_cells) as Hin.
    { rewrite Hcells. apply elem_of_app. right. by left. }
    apply elem_of_grid_cells in Hin as [Hmi Hpyi].
    exists mi, pyi. split; [exact Hmi|]. split; [exact Hpyi|].
    split; [reflexivity|]. split; [exact Hv|].
    intros mi' pyi' Hmi' Hpyi' Hv'.
    assert ((mi', pyi') ∈ grid_cells) as Hin' by (by apply elem_of_grid_cells).
    pose proof grid_cells_sorted as Hs. rewrite Hcells in Hin', Hs.
    apply elem_of_app in Hin' as [Hin'|Hin'].
    + specialize (H1 _ Hin' Hv'). cbn [fst snd] in H1.
      split; [by apply Qclt_le_weak|done].
    + apply elem_of_cons in Hin' as [[= -> ->]|Hin'].
      * split; [apply Qcle_refl|]. unfold scanned_before. cbn. lia.
      * specialize (H2 _ Hin' Hv'). cbn [fst snd] in H2. split; [done|].
        intros Hbefore. exfalso.
        apply StronglySorted_app_1_r in Hs. apply StronglySorted_cons in Hs as [Hs _].
        rewrite Forall_forall in Hs. specialize (Hs _ Hin').
        unfold scanned_before in *. cbn in *. lia.
  - left. split; [reflexivity|]. intros mi pyi Hmi Hpyi.
    apply (Hsc (mi, pyi)). by apply elem_of_grid_cells.
Qed.

(** C3: for a general record, [auto_optimize_subject] answers [False]
    and returns the record unchanged when the search space is empty
    ([P25.x - 2g < 0], or [pzy_lo >= pzy_hi]), and when no cell of the
    grid passes the sampled derivative check; whenever it answers
    [False] the record is the one it was given, so a changed record
    comes with [True].  The function is total: none of these paths
    raises. *)
Theorem auto_optimize_failure_keeps_record (s : SubjectData) :
  let run := auto_optimize_subject fit_poly_4 fit_poly_3 s in
  (min_x_hi s < 0 → run = (false, s)) ∧
  (pzy_hi s ≤ pzy_lo → run = (false, s)) ∧
  ((∀ mi pyi, (mi ≤ 40)%nat → (pyi ≤ 30)%nat →
              ¬ cell_valid fit_poly_4 s mi pyi) → run = (false, s)) ∧
  (run.1 = false → run.2 = s) ∧
  (run.2 ≠ s → run.1 = true).
Proof.
  intros run.
  assert (run.1 = false → run.2 = s) as Hfalse.
  { unfold run, auto_optimize_subject. repeat destruct (decide _); try done.
    by destruct (grid_search fit_poly_4 s).2. }
  split; [|split; [|split; [|split]]].
  - intros H. unfold run, auto_optimize_subject.
    destruct (decide _); [done|]. by rewrite decide_True.
  - intros H. unfold run, auto_optimize_subject.
    repeat destruct (decide _); done.
  - intros H. unfold run, auto_optimize_subject.
    repeat destruct (decide _); try done.
    destruct (grid_search_outcome s) as [[-> _]|(mi & pyi & Hmi & Hpyi & _ & Hv & _)];
      [done|].
    exfalso. apply (H mi pyi Hmi Hpyi). by apply cell_monotonic_valid.
  - exact Hfalse.
  - intros Hne. destruct (decide (run.1 = true)) as [|Hn]; [done|].
    exfalso. apply Hne, Hfalse. by apply not_true_is_false.
Qed.

(** The quartic and the derivative that the source writes out are the
    value and the derivative of the polynomial. *)
Lemma quartic_poly_eval c4 c3 c2 c1 c0 x :
  quartic (c4, c3, c2, c1, c0) x = poly_eval [c0; c1; c2; c3; c4] x.
Proof. unfold quartic. cbn [poly_eval Qcpower]. ring. Qed.

Lemma quartic_deriv_poly_diff c4 c3 c2 c1 c0 x :
  quartic_deriv (c4, c3, c2, c1, c0) x
  = poly_eval (poly_diff [c0; c1; c2; c3; c4]) x.
Proof.
  unfold quartic_deriv, poly_diff. cbn [tail imap poly_eval compose Qcpower].
  change (Z.of_nat 1) with 1%Z. change (Z.of_nat 2) with 2%Z.
  change (Z.of_nat 3) with 3%Z. change (Z.of_nat 4) with 4%Z.
  assert (of_int 1 = 1) as -> by by_compute.
  ring.
Qed.

(** The error of a cell, computed by the loop [err = max(err, ...)]
    from 0, is the maximum absolute residual over its 8 anchors. *)
Lemma max_abs_residual_spec c4 c3 c2 c1 c0 (xs ys : list Qc) :
  zip xs ys ≠ [] →
  max_abs_residual_is [c0; c1; c2; c3; c4] (zip xs ys)
    (max_abs_residual (c4, c3, c2, c1, c0) xs ys).
Proof.
  unfold max_abs_residual, max_abs_residual_is.
  set (r := λ p : Qc * Qc, Qcabs (poly_eval [c0; c1; c2; c3; c4] p.1 - p.2)).
  assert (∀ l e0,
            foldl (λ err '(x, y),
                     pymax err (Qcabs (quartic (c4, c3, c2, c1, c0) x - y)))
                  e0 l
            = foldl (λ err p, pymax err (r p)) e0 l) as Hfold.
  { induction l as [|[x y] l IH]; intros e0; [done|].
    cbn [foldl]. rewrite IH. unfold r. cbn [fst snd].
    by rewrite quartic_poly_eval. }
  rewrite Hfold. clear Hfold.
  assert (∀ l e0,
            e0 ≤ foldl (λ err p, pymax err (r p)) e0 l ∧
            (∀ p, p ∈ l → r p ≤ foldl (λ err p, pymax err (r p)) e0 l) ∧
            (foldl (λ err p, pymax err (r p)) e0 l = e0 ∨
             ∃ p, p ∈ l ∧ foldl (λ err p, pymax err (r p)) e0 l = r p))
    as Hmax.
  { induction l as [|p l IH]; intros e0; cbn [foldl].
    - split; [apply Qcle_refl|]. split; [|by left].
      intros p Hp. by apply elem_of_nil in Hp.
    - destruct (IH (pymax e0 (r p))) as (H1 & H2 & H3).
      assert (e0 ≤ pymax e0 (r p) ∧ r p ≤ pymax e0 (r p) ∧
              (pymax e0 (r p) = e0 ∨ pymax e0 (r p) = r p)) as (G1 & G2 & G3).
      { clear. unfold pymax. destruct (decide (e0 < r p)) as [Hlt|Hn].
        - split; [by apply Qclt_le_weak|]. split; [apply Qcle_refl|by right].
        - split; [apply Qcle_refl|]. split; [by apply Qcnot_lt_le|by left]. }
      split; [by eapply Qcle_trans|]. split.
      + intros q Hq. apply elem_of_cons in Hq as [->|Hq]; [|by apply H2].
        by eapply Qcle_trans.
      + destruct H3 as [H3|(q & Hq & H3)].
        * rewrite H3. destruct G3 as [G3|G3]; [by left|].
          right. exists p. split; [by left|done].
        * right. exists q. split; [by right|done]. }
  intros Hne. destruct (Hmax (zip xs ys) 0) as (H0 & Hle & Hex). split.
  - destruct Hex as [Hex|([x y] & Hin & Hex)].
    + destruct (zip xs ys) as [|[x y] l] eqn:El; [done|].
      exists x, y. split; [by left|].
      specialize (Hle (x, y)). rewrite Hex in Hle |- *.
      apply Qcle_antisym; [apply Qcabs_nonneg|].
      apply Hle. by left.
    + exists x, y. split; [exact Hin|exact Hex].
  - intros x y Hin. exact (Hle (x, y) Hin).
Qed.

Lemma max_abs_residual_is_unique p anchors e e' :
  max_abs_residual_is p anchors e → max_abs_residual_is p anchors e' → e = e'.
Proof.
  intros [(x & y & Hin & ->) Hle] [(x' & y' & Hin' & ->) Hle'].
  apply Qcle_antisym; [by apply Hle'|by apply Hle].
Qed.

Lemma cell_err_spec s mi pyi :
  max_abs_residual_is (cell_poly fit_poly_4 s mi pyi) (cell_anchors s mi pyi)
    (cell_err fit_poly_4 s mi pyi).
Proof.
  unfold cell_err, cell_poly.
  destruct (cell_coeffs fit_poly_4 s mi pyi) as [[[[c4 c3] c2] c1] c0].
  by apply (max_abs_residual_spec c4 c3 c2 c1 c0 (cell_x_all s mi)
              (cell_y_all s pyi)).
Qed.

Lemma cell_valid_derivative_ok s mi pyi :
  cell_valid fit_poly_4 s mi pyi ↔ derivative_ok fit_poly_4 s mi pyi.
Proof.
  unfold cell_valid, derivative_ok, cell_poly, sample_point.
  destruct (cell_coeffs fit_poly_4 s mi pyi) as [[[[c4 c3] c2] c1] c0].
  split; intros H t Ht; specialize (H t Ht).
  - by rewrite <-quartic_deriv_poly_diff.
  - by rewrite quartic_deriv_poly_diff.
Qed.
(** C4: when the optimizer succeeds, the [Min.x] and [LowerBoundary.y]
    it installs (with [LowerBoundary.x] and [Min.y = 0]) are those of a
    cell of the 41 by 31 grid whose fitted quartic has a derivative of
    at least [-0.001] at all 51 sample points over [[Min.x, Max.x]];
    the maximum absolute residual [e] of that quartic over the 8
    anchors of the cell is minimal among the cells that pass the
    derivative check, and strictly smaller than that of every such
    cell scanned before it, so that among the cells of minimal error
    the first in scan order is chosen. *)
Theorem auto_optimize_installs_first_best (s s' : SubjectData) :
  auto_optimize_subject fit_poly_4 fit_poly_3 s = (true, s') →
  ∃ mi pyi e,
    (mi ≤ 40)%nat ∧ (pyi ≤ 30)%nat ∧
    min_x s' = cell_mx s mi ∧ pzx s' = cell_pzx s mi ∧
    pzy s' = cell_pzy s pyi ∧ min_y s' = 0 ∧
    derivative_ok fit_poly_4 s mi pyi ∧
    max_abs_residual_is (cell_poly fit_poly_4 s mi pyi)
      (cell_anchors s mi pyi) e ∧
    ∀ mi' pyi' e', (mi' ≤ 40)%nat → (pyi' ≤ 30)%nat →
      derivative_ok fit_poly_4 s mi' pyi' →
      max_abs_residual_is (cell_poly fit_poly_4 s mi' pyi')
        (cell_anchors s mi' pyi') e' →
      e ≤ e' ∧ (scanned_before (mi', pyi') (mi, pyi) → e < e').
Proof.
  unfold auto_optimize_subject. repeat destruct (decide _); try done.
  destruct (grid_search_outcome s)
    as [[-> _]|(mi & pyi & Hmi & Hpyi & -> & Hv & Hbest)]; [done|].
  cbn [snd]. intros [= <-].
  destruct (compute_polynomials_anchors fit_poly_4 fit_poly_3
              (install_best s (cell_mx s mi, cell_pzx s mi, cell_pzy s pyi)))
    as (E1 & E2 & E3 & E4 & _).
  exists mi, pyi, (cell_err fit_poly_4 s mi pyi).
  split; [exact Hmi|]. split; [exact Hpyi|].
  split; [exact E1|]. split; [exact E2|]. split; [exact E3|]. split; [exact E4|].
  split; [by apply cell_valid_derivative_ok, cell_monotonic_valid|].
  split; [apply cell_err_spec|].
  intros mi' pyi' e' Hmi' Hpyi' Hv' He'.
  rewrite (max_abs_residual_is_unique _ _ _ _ He' (cell_err_spec s mi' pyi')).
  apply Hbest; [done..|].
  by apply cell_monotonic_valid, cell_valid_derivative_ok.
Qed.
End optimizer_claims.

(** A record with [P25.x = 1] has an empty search space. *)
Lemma auto_optimize_failure_keeps_record_witness :
  min_x_hi cramped < 0 ∧
  auto_optimize_subject chord_fit chord_fit3 cramped = (false, cramped).
Proof.
  assert (min_x_hi cramped < 0) as H by by_compute.
  split; [exact H|].
  exact (proj1 (auto_optimize_failure_keeps_record chord_fit chord_fit3 cramped) H).
Defined.

(** The optimizer succeeds on English (with the stand-in fit). *)
Lemma auto_optimize_installs_first_best_witness :
  let s' := (auto_optimize_subject chord_fit chord_fit3 english).2 in
  auto_optimize_subject chord_fit chord_fit3 english = (true, s') ∧
  ∃ mi pyi e,
    (mi ≤ 40)%nat ∧ (pyi ≤ 30)%nat ∧
    min_x s' = cell_mx english mi ∧ pzx s' = cell_pzx english mi ∧
    pzy s' = cell_pzy english pyi ∧ min_y s' = 0 ∧
    derivative_ok chord_fit english mi pyi ∧
    max_abs_residual_is (cell_poly chord_fit english mi pyi)
      (cell_anchors english mi pyi) e ∧
    ∀ mi' pyi' e', (mi' ≤ 40)%nat → (pyi' ≤ 30)%nat →
      derivative_ok chord_fit english mi' pyi' →
      max_abs_residual_is (cell_poly chord_fit english mi' pyi')
        (cell_anchors english mi' pyi') e' →
      e ≤ e' ∧ (scanned_before (mi', pyi') (mi, pyi) → e < e').
Proof.
  intros s'.
  assert (auto_optimize_subject chord_fit chord_fit3 english = (true, s')) as H.
  { assert ((auto_optimize_subject chord_fit chord_fit3 english).1 = true) as E
      by (vm_compute; reflexivity).
    unfold s'. revert E.
    generalize (auto_optimize_subject chord_fit chord_fit3 english).
    intros [b r] E. cbn [fst snd] in *. by rewrite E. }
  split; [exact H|].
  exact (auto_optimize_installs_first_best chord_fit chord_fit3 english s' H).
Defined.

(** ** The lower boundary anchor (C5, C6) *)

Lemma of_int_nat_bounds (n k : nat) :
  (n ≤ k)%nat →
  0 ≤ of_int (Z.of_nat n) ∧ of_int (Z.of_nat n) ≤ of_int (Z.of_nat k).
Proof.
  intros H. unfold of_int, Qcle. cbn [this Q2Qc]. rewrite !Qred_correct.
  change 0%Q with (inject_Z 0). rewrite <-!Zle_Qle. lia.
Qed.

(** The exact parabola passes through its three points. *)
Lemma interp_parabola_exact x0 x1 x2 y0 y1 y2 :
  x0 ≠ x1 → x1 ≠ x2 → x0 ≠ x2 →
  let c := interp_parabola [x0; x1; x2] [y0; y1; y2] in
  np_polyval2 c x0 = y0 ∧ np_polyval2 c x1 = y1 ∧ np_polyval2 c x2 = y2.
Proof.
  intros H01 H12 H02. cbn.
  assert (x1 - x0 ≠ 0) by (intros E; apply H01; qc_lra).
  assert (x2 - x1 ≠ 0) by (intros E; apply H12; qc_lra).
  assert (x2 - x0 ≠ 0) by (intros E; apply H02; qc_lra).
  repeat split; field; done.
Qed.

Lemma clamp_boundary_y cap v :
  0 ≤ cap → 0 ≤ pymax 0 (pymin cap v) ∧ pymax 0 (pymin cap v) ≤ cap.
Proof.
  intros H. unfold pymax, pymin. repeat destruct (decide _); split; qc_lra.
Qed.

Section boundary_anchor.
Context (fit_poly_4 : list Qc → list Qc → Qc * Qc * Qc * Qc * Qc).
Context (fit_poly_3 : list Qc → list Qc → Qc * Qc * Qc * Qc).
Context (np_polyfit2 : list Qc → list Qc → Qc * Qc * Qc).
Context (SUBJECT_IDS : gmap string Z) (lookup_id : string → string → Z).

(** The anchors of a record that [build_general] returns. *)
Lemma build_general_anchors cd nm x25 x50 x75 x90 x99 y25 y50 y75 y90 y99 :
  let s := build_general fit_poly_4 fit_poly_3 np_polyfit2 SUBJECT_IDS cd nm
             x25 x50 x75 x90 x99 y25 y50 y75 y90 y99 in
  let mx := pymax 0 (pymin (of_int 10)
                       (x25 - of_int 2 * min_gap_of x25 x50 x75 x90 x99)) in
  min_x s = mx ∧ pzx s = (mx + x25) / of_int 2 ∧ p25x s = x25 ∧
  p25y s = y25 ∧ min_y s = 0 ∧
  pzy s = pymax 0 (pymin (y25 * float_lit 95 100)
                     (np_polyval2 (np_polyfit2 [mx; x25; x50] [0; y25; y50])
                                  ((mx + x25) / of_int 2))).
Proof.
  intros s mx. unfold s, build_general. cbn zeta.
  match goal with
  | |- context [compute_polynomials _ _ ?r] =>
      destruct (compute_polynomials_anchors fit_poly_4 fit_poly_3 r)
        as (E1 & E2 & E3 & E4 & E5 & E6)
  end.
  rewrite E1, E2, E3, E4, E5, E6. done.
Qed.

(** The anchors of a record on which the optimizer has succeeded. *)
Lemma auto_optimize_success_anchors s s' :
  auto_optimize_subject fit_poly_4 fit_poly_3 s = (true, s') →
  ∃ mi pyi,
    (mi ≤ 40)%nat ∧ (pyi ≤ 30)%nat ∧ pzy_lo < pzy_hi s ∧
    min_x s' = cell_mx s mi ∧ pzx s' = cell_pzx s mi ∧
    pzy s' = cell_pzy s pyi ∧ p25x s' = p25x s ∧ p25y s' = p25y s.
Proof.
  unfold auto_optimize_subject. repeat destruct (decide _); try done.
  destruct (grid_search_outcome fit_poly_4 s)
    as [[-> _]|(mi & pyi & Hmi & Hpyi & -> & _)]; [done|].
  cbn [snd]. intros [= <-].
  destruct (compute_polynomials_anchors fit_poly_4 fit_poly_3
              (install_best s (cell_mx s mi, cell_pzx s mi, cell_pzy s pyi)))
    as (E1 & E2 & E3 & _ & E5 & E6).
  exists mi, pyi. split; [exact Hmi|]. split; [exact Hpyi|].
  split; [by apply Qclt_nge|]. done.
Qed.

Lemma cell_pzy_bounds s pyi :
  (pyi ≤ 30)%nat → pzy_lo < pzy_hi s →
  pzy_lo ≤ cell_pzy s pyi ∧ cell_pzy s pyi ≤ pzy_hi s.
Proof.
  intros Hpyi Hlt. unfold cell_pzy.
  destruct (of_int_nat_bounds pyi 30 Hpyi) as [H0 H30].
  change (of_int (Z.of_nat 30)) with (of_int 30) in H30.
  revert H0 H30 Hlt. generalize (of_int (Z.of_nat pyi)) (pzy_hi s) pzy_lo.
  intros t hi lo H0 H30 Hlt. qc_norm.
  change (inject_Z 30) with (30 # 1)%Q in H30.
  assert (0 <= (this hi + - this lo) * this t)%Q by nra.
  assert ((this hi + - this lo) * this t
          <= (this hi + - this lo) * (30 # 1))%Q by nra.
  split; lra.
Qed.

(** C5, amended: the interactive builder [build_general], and a
    successful re-placement by the optimizer, put [LowerBoundary.x]
    exactly midway between [Min.x] and [P25.x]; the batch builder
    [process_general_subject] keeps [Min.x = 10] and puts
    [LowerBoundary.x] at [0.75 * P25.x], which its table stores rounded
    to two decimals. *)
Theorem boundary_x_placement :
  (∀ cd nm x25 x50 x75 x90 x99 y25 y50 y75 y90 y99,
     let s := build_general fit_poly_4 fit_poly_3 np_polyfit2 SUBJECT_IDS cd nm
                x25 x50 x75 x90 x99 y25 y50 y75 y90 y99 in
     pzx s = (min_x s + p25x s) / of_int 2) ∧
  (∀ s s',
     auto_optimize_subject fit_poly_4 fit_poly_3 s = (true, s') →
     pzx s' = (min_x s' + p25x s') / of_int 2) ∧
  (∀ nm cd x25 x50 x75 x90 x99 y25 y50 y75 y90 y99,
     let row := process_general_subject fit_poly_4 fit_poly_3 np_polyfit2
                  lookup_id nm cd x25 x50 x75 x90 x99 y25 y50 y75 y90 y99 in
     Min_X row = of_int 10 ∧ P25_X row = x25 ∧
     PZX row = round2 (float_lit 75 100 * x25)).
Proof.
  split; [|split].
  - intros cd nm x25 x50 x75 x90 x99 y25 y50 y75 y90 y99 s.
    destruct (build_general_anchors cd nm x25 x50 x75 x90 x99 y25 y50 y75 y90 y99)
      as (E1 & E2 & E3 & _).
    fold s in E1, E2, E3. by rewrite E1, E2, E3.
  - intros s s' Hrun.
    destruct (auto_optimize_success_anchors s s' Hrun)
      as (mi & pyi & _ & _ & _ & E1 & E2 & _ & E3 & _).
    by rewrite E1, E2, E3.
  - intros nm cd x25 x50 x75 x90 x99 y25 y50 y75 y90 y99 row.
    unfold row, process_general_subject.
    by destruct (estimate_max x90 x99 y90 y99).
Qed.

(** C6, amended: with [P25.y >= 0], the boundary value that
    [build_general] and the batch builder compute lies in the closed
    interval [[0, 0.95 * P25.y]] (the batch table stores it rounded to
    two decimals); after a successful re-placement by the optimizer it
    lies in the closed interval [[0.1, 0.95 * P25.y]]. *)
Theorem boundary_y_range :
  (∀ cd nm x25 x50 x75 x90 x99 y25 y50 y75 y90 y99,
     0 ≤ y25 →
     let s := build_general fit_poly_4 fit_poly_3 np_polyfit2 SUBJECT_IDS cd nm
                x25 x50 x75 x90 x99 y25 y50 y75 y90 y99 in
     0 ≤ pzy s ∧ pzy s ≤ float_lit 95 100 * p25y s) ∧
  (∀ nm cd x25 x50 x75 x90 x99 y25 y50 y75 y90 y99,
     0 ≤ y25 →
     let row := process_general_subject fit_poly_4 fit_poly_3 np_polyfit2
                  lookup_id nm cd x25 x50 x75 x90 x99 y25 y50 y75 y90 y99 in
     let py := batch_pzy np_polyfit2 x25 x50 y25 y50 in
     PZY row = round2 py ∧ P25_Y row = y25 ∧
     0 ≤ py ∧ py ≤ float_lit 95 100 * y25) ∧
  (∀ s s',
     auto_optimize_subject fit_poly_4 fit_poly_3 s = (true, s') →
     float_lit 1 10 ≤ pzy s' ∧ pzy s' ≤ float_lit 95 100 * p25y s').
Proof.
  split; [|split].
  - intros cd nm x25 x50 x75 x90 x99 y25 y50 y75 y90 y99 Hy s.
    destruct (build_general_anchors cd nm x25 x50 x75 x90 x99 y25 y50 y75 y90 y99)
      as (_ & _ & _ & E4 & _ & E6).
    fold s in E4, E6. rewrite E4, E6.
    rewrite (Qcmult_comm (float_lit 95 100)).
    apply clamp_boundary_y. qc_lra.
  - intros nm cd x25 x50 x75 x90 x99 y25 y50 y75 y90 y99 Hy row py.
    split; [|split].
    + unfold row, process_general_subject.
      by destruct (estimate_max x90 x99 y90 y99).
    + unfold row, process_general_subject.
      by destruct (estimate_max x90 x99 y90 y99).
    + unfold py, batch_pzy. rewrite (Qcmult_comm (float_lit 95 100)).
      apply clamp_boundary_y. qc_lra.
  - intros s s' Hrun.
    destruct (auto_optimize_success_anchors s s' Hrun)
      as (mi & pyi & _ & Hpyi & Hlt & _ & _ & E3 & _ & E6).
    rewrite E3, E6. rewrite (Qcmult_comm (float_lit 95 100)).
    exact (cell_pzy_bounds s pyi Hpyi Hlt).
Qed.
End boundary_anchor.

Lemma boundary_x_placement_witness :
  pzx english = (min_x english + p25x english) / of_int 2.
Proof.
  exact (proj1 (boundary_x_placement chord_fit chord_fit3 interp_parabola ∅
                  (λ _ _, 31%Z))
           "0001" "English"
           (of_int 61) (of_int 72) (of_int 83) (of_int 91) (of_int 99)
           (float_lit 5267 100) (float_lit 7012 100) (float_lit 8318 100)
           (float_lit 8948 100) (float_lit 9360 100)).
Defined.

(** C5 as stated fails on the batch builder: for English
    ([P25.x = 61]) it writes [Min X = 10] and [PZX = 45.75], and the
    midpoint of 10 and 61 is 35.5. *)
Lemma batch_boundary_x_not_midpoint :
  Min_X english_row = of_int 10 ∧ P25_X english_row = of_int 61 ∧
  PZX english_row = float_lit 4575 100 ∧
  (Min_X english_row + P25_X english_row) / of_int 2 = float_lit 355 10 ∧
  PZX english_row ≠ (Min_X english_row + P25_X english_row) / of_int 2.
Proof. by_compute. Qed.

Lemma boundary_y_range_witness :
  0 ≤ float_lit 5267 100 ∧
  0 ≤ pzy english ∧ pzy english ≤ float_lit 95 100 * p25y english.
Proof.
  assert (0 ≤ float_lit 5267 100) as H by by_compute.
  split; [exact H|].
  exact (proj1 (boundary_y_range chord_fit chord_fit3 interp_parabola ∅
                  (λ _ _, 31%Z))
           "0001" "English"
           (of_int 61) (of_int 72) (of_int 83) (of_int 91) (of_int 99)
           (float_lit 5267 100) (float_lit 7012 100) (float_lit 8318 100)
           (float_lit 8948 100) (float_lit 9360 100) H).
Defined.

(** C6 as stated fails: for a subject with anchors P25 = (73, 45) and
    P50 = (80, 65.37) the parabola through (10, 0), P25 and P50 is
    negative at the midpoint 41.5, the clamp returns [0], and the
    boundary value is not strictly positive. *)
Lemma boundary_y_at_zero :
  min_x steep = of_int 10 ∧ pzx steep = float_lit 415 10 ∧
  np_polyval2 (interp_parabola [min_x steep; p25x steep; p50x steep]
                               [0; p25y steep; p50y steep]) (pzx steep) < 0 ∧
  pzy steep = 0 ∧
  ¬ (0 < pzy steep ∧ pzy steep < float_lit 95 100 * p25y steep).
Proof. by_compute. Qed.
(* ================================================================= *)
(** ** Cleaning the reference data *)

Global Instance sum_float_Permutation : Proper ((≡ₚ) ==> (=)) sum_float.
Proof.
  induction 1 as [|x l l' _ IH|x y l|l1 l2 l3 _ IH1 _ IH2].
  - done.
  - by rewrite !sum_float_cons, IH.
  - rewrite !sum_float_cons. ring.
  - by rewrite IH1.
Qed.

Lemma np_mean_Permutation l l' : l ≡ₚ l' → np_mean l = np_mean l'.
Proof. intros H. unfold np_mean. by rewrite H. Qed.

Lemma group_mean_Permutation data data' a :
  data ≡ₚ data' → group_mean data a = group_mean data' a.
Proof. intros H. unfold group_mean. apply np_mean_Permutation. by rewrite H. Qed.

Lemma np_mean_singleton g : np_mean [g] = g.
Proof.
  unfold np_mean, sum_float. cbn [length foldl].
  change (of_int (Z.of_nat 1)) with 1. qc_lra.
Qed.

(** The run splits the data: its points carry the ATAR asked for, and
    the first point left over does not. *)
Lemma take_run_split a l :
  l = ((λ g, (g, a)) <$> (take_run a l).1) ++ (take_run a l).2 ∧
  (∀ p, head (take_run a l).2 = Some p → p.2 ≠ a).
Proof.
  induction l as [|[g a'] t [IH1 IH2]]; cbn; [done|].
  destruct (decide (a' = a)) as [->|Hne].
  - destruct (take_run a t) as [run rest]; cbn in *.
    split; [by f_equal|done].
  - cbn. split; [done|]. intros p [= <-]. done.
Qed.

Lemma take_run_head g a t :
  take_run a ((g, a) :: t) = (g :: (take_run a t).1, (take_run a t).2).
Proof. cbn. rewrite decide_True by done. by destruct (take_run a t). Qed.

Lemma take_run_rest_length a l : (length (take_run a l).2 ≤ length l)%nat.
Proof.
  induction l as [|[g a'] t IH]; cbn; [done|].
  destruct (decide (a' = a)); [|done].
  destruct (take_run a t); cbn in *. lia.
Qed.

(** Unrolling the outer loop as often as the data is long is enough. *)
Lemma average_runs_fuel fuel fuel' l :
  (length l ≤ fuel)%nat → (length l ≤ fuel')%nat →
  average_runs fuel l = average_runs fuel' l.
Proof.
  revert fuel' l. induction fuel as [|fuel IH]; intros fuel' l Hl Hl'.
  - destruct l; [by destruct fuel'|cbn in Hl; lia].
  - destruct l as [|[g a] t]; [by destruct fuel'|].
    destruct fuel' as [|fuel']; [cbn in Hl'; lia|].
    cbn [average_runs]. rewrite take_run_head.
    pose proof (take_run_rest_length a t) as Hlen. cbn in Hl, Hl'.
    f_equal. apply IH; lia.
Qed.

Lemma filter_none {A} (P : A → Prop) `{!∀ x, Decision (P x)} (l : list A) :
  Forall (λ x, ¬ P x) l → filter P l = [].
Proof.
  induction 1 as [|x l Hx _ IH]; [done|]. by rewrite filter_cons_False.
Qed.

(** On data sorted by ATAR the two loops list every ATAR of the data
    once, in strictly increasing order, each with the mean of the
    aggregates recorded at it. *)
Lemma average_runs_spec fuel l :
  (length l ≤ fuel)%nat →
  StronglySorted (λ p q : Qc * Qc, p.2 ≤ q.2) l →
  let u := average_runs fuel l in
  StronglySorted Qclt u.*1 ∧ (∀ a, a ∈ u.*1 ↔ a ∈ l.*2) ∧
  u = (λ a, (a, group_mean l a)) <$> u.*1.
Proof.
  revert l. induction fuel as [|fuel IH]; intros l Hl Hs.
  - destruct l; [|cbn in Hl; lia]. cbn. split; [constructor|done].
  - destruct l as [|[g a] t]; [cbn; split; [constructor|done]|].
    cbn [average_runs]. rewrite take_run_head.
    destruct (take_run_split a t) as [Hsplit Hhead].
    pose proof (take_run_rest_length a t) as Hlen.
    destruct (take_run a t) as [run rest] eqn:Erun. cbn [fst snd] in *.
    apply StronglySorted_inv in Hs as [Hst Hge]. cbn in Hl.
    assert (StronglySorted (λ p q : Qc * Qc, p.2 ≤ q.2) rest) as Hrs.
    { rewrite Hsplit in Hst. by apply StronglySorted_app_1_r in Hst. }
    assert (∀ q, q ∈ rest → a < q.2) as Hgt.
    { intros q Hq. destruct rest as [|r0 rest']; [by inv Hq|].
      assert (a < r0.2) as H0.
      { assert (a ≤ r0.2) as Hle.
        { rewrite Forall_forall in Hge. apply (Hge r0).
          rewrite Hsplit. apply elem_of_app. right. left. }
        specialize (Hhead r0 eq_refl). cbn in *. qc_lra. }
      apply elem_of_cons in Hq as [->|Hq]; [done|].
      apply StronglySorted_inv in Hrs as [_ Hr0]. rewrite Forall_forall in Hr0.
      specialize (Hr0 q Hq). cbn in *. qc_lra. }
    destruct (IH rest ltac:(lia) Hrs) as (IH1 & IH2 & IH3).
    cbn zeta. cbn [fmap list_fmap fst]. 
    change (list_fmap _ _ fst (average_runs fuel rest))
      with ((average_runs fuel rest).*1).
    split; [|split].
    + constructor; [done|]. apply Forall_forall. intros a' Ha'.
      apply IH2 in Ha'. apply list_elem_of_fmap in Ha' as (q & -> & Hq). auto.
    + intros a'. rewrite elem_of_cons, IH2. cbn [fmap list_fmap snd].
      rewrite elem_of_cons. rewrite Hsplit. rewrite fmap_app, elem_of_app.
      rewrite <-list_fmap_compose. split; [intuition|].
      intros [?|[Hr|?]]; [by left| |by right]. left.
      apply list_elem_of_fmap in Hr as (? & -> & _). done.
    + f_equal.
      * f_equal. unfold group_mean.
        rewrite filter_cons_True by done. f_equal. cbn [fmap list_fmap fst]. f_equal.
        rewrite Hsplit, filter_app, fmap_app.
        rewrite (filter_none _ rest), app_nil_r.
        2:{ apply Forall_forall. intros q Hq E. apply Hgt in Hq.
            rewrite E in Hq. by apply Qclt_not_eq in Hq. }
        clear. induction run as [|r run IHr]; [done|]. rewrite fmap_cons.
        rewrite filter_cons_True by done. rewrite fmap_cons. cbn [fst]. by f_equal.
      * rewrite IH3 at 1. apply Forall_fmap_ext_1, Forall_forall.
        intros a' Ha'. f_equal. unfold group_mean. f_equal. f_equal.
        apply IH2 in Ha'. apply list_elem_of_fmap in Ha' as (q & -> & Hq).
        apply Hgt in Hq.
        rewrite filter_cons_False by (cbn; intros E; rewrite E in Hq;
                                      by apply Qclt_not_eq in Hq).
        rewrite Hsplit at 1. rewrite filter_app.
        rewrite (filter_none _ (_ <$> run)); [done|].
        apply Forall_forall. intros p Hp E.
        apply list_elem_of_fmap in Hp as (? & -> & _). cbn in E.
        rewrite E in Hq. by apply Qclt_not_eq in Hq.
Qed.

(** The three facts about [clean_and_average] that the statements
    below share. *)
Lemma clean_and_average_unfold data :
  let atars := (clean_and_average data).1 in
  StronglySorted Qclt atars ∧ (∀ a, a ∈ atars ↔ a ∈ data.*2) ∧
  (clean_and_average data).2 = enforce_monotone (group_mean data <$> atars).
Proof.
  unfold clean_and_average. cbn [fst snd].
  set (sorted := py_sorted snd false data).
  destruct (average_runs_spec (length sorted) sorted ltac:(lia)
              (py_sorted_asc_sorted snd data)) as (H1 & H2 & H3).
  cbn zeta in *. split; [done|]. split.
  - intros a. rewrite H2. unfold sorted. by rewrite py_sorted_Permutation.
  - f_equal. rewrite H3 at 1. rewrite <-list_fmap_compose.
    apply Forall_fmap_ext_1, Forall_forall. intros a _. cbn.
    apply group_mean_Permutation. apply py_sorted_Permutation.
Qed.

(** *** The forward pass, once more *)

Lemma enforce_monotone_length b : length (enforce_monotone b) = length b.
Proof.
  destruct b as [|p l]; [done|].
  rewrite enforce_monotone_chain. cbn. by rewrite chain_length.
Qed.

Lemma chain_bump_up_id p l : Sorted Qclt (p :: l) → chain bump_up p l = l.
Proof.
  revert p. induction l as [|c t IH]; intros p Hs; [done|].
  apply Sorted_inv in Hs as [Hs Hp]. apply HdRel_inv in Hp.
  cbn. unfold bump_up at 1 3. rewrite decide_False by qc_lra.
  f_equal. by apply IH.
Qed.

Lemma enforce_monotone_id b : Sorted Qclt b → enforce_monotone b = b.
Proof.
  destruct b as [|p l]; [done|]. intros Hs.
  rewrite enforce_monotone_chain. f_equal. by apply chain_bump_up_id.
Qed.

Lemma bump_up_ge p c : c ≤ bump_up p c.
Proof. unfold bump_up. destruct (decide (c ≤ p)); qc_lra. Qed.

Lemma chain_bump_up_ge p l i x y :
  l !! i = Some x → chain bump_up p l !! i = Some y → x ≤ y.
Proof.
  revert p i. induction l as [|c t IH]; intros p i Hx Hy; [done|].
  destruct i as [|i]; cbn in *.
  - simplify_eq. apply bump_up_ge.
  - eapply IH; eauto.
Qed.

Lemma enforce_monotone_ge b i x y :
  b !! i = Some x → enforce_monotone b !! i = Some y → x ≤ y.
Proof.
  destruct b as [|p l]; [done|]. rewrite enforce_monotone_chain.
  destruct i as [|i]; cbn.
  - intros [= ->] [= ->]. apply Qcle_refl.
  - apply chain_bump_up_ge.
Qed.

Lemma Sorted_Qclt_strongly l : Sorted Qclt l → StronglySorted Qclt l.
Proof.
  apply Sorted_StronglySorted. intros x y z ? ?. by apply Qclt_trans with y.
Qed.

Lemma strict_asc_NoDup (l : list Qc) : StronglySorted Qclt l → NoDup l.
Proof.
  induction 1 as [|a t _ IH Ha]; constructor; [|done].
  intros Hin. rewrite Forall_forall in Ha. apply Ha in Hin.
  by apply Qclt_not_eq in Hin.
Qed.

(** X1 (clean_and_average): whatever the reference data, the two
    arrays returned have the same length, the ATARs are strictly
    increasing and are exactly the ATARs that occur in the data, and
    the aggregates are strictly increasing: rows [i < j] of the result
    have a smaller ATAR and a smaller aggregate at [i]. *)
Theorem clean_and_average_strictly_increasing (data : list (Qc * Qc)) :
  let r := clean_and_average data in
  length r.1 = length r.2 ∧
  StronglySorted Qclt r.1 ∧ StronglySorted Qclt r.2 ∧
  (∀ a, a ∈ r.1 ↔ a ∈ data.*2).
Proof.
  intros r. destruct (clean_and_average_unfold data) as (H1 & H2 & H3).
  fold r in H1, H2, H3. cbn zeta in *. split; [|split; [done|split; [|done]]].
  - unfold r, clean_and_average. cbn [fst snd].
    by rewrite enforce_monotone_length, !length_fmap.
  - rewrite H3. apply Sorted_Qclt_strongly, enforce_monotone_strict.
Qed.

(** X2 (clean_and_average): the aggregates returned are the forward
    pass applied to the means, taken per ATAR over all data points
    with that ATAR; so the aggregate of the lowest ATAR is the mean
    itself, and no aggregate is below the mean of its ATAR. *)
Theorem clean_and_average_group_means (data : list (Qc * Qc)) :
  let r := clean_and_average data in
  r.2 = enforce_monotone (group_mean data <$> r.1) ∧
  head r.2 = group_mean data <$> head r.1 ∧
  Forall2 (λ a g, group_mean data a ≤ g) r.1 r.2.
Proof.
  intros r. destruct (clean_and_average_unfold data) as (_ & _ & H3).
  fold r in H3. cbn zeta in *. split; [done|]. split.
  - rewrite H3. destruct r.1 as [|a l]; [done|].
    rewrite fmap_cons, enforce_monotone_chain. done.
  - apply Forall2_same_length_lookup. split.
    + rewrite H3, enforce_monotone_length, length_fmap. done.
    + intros i a g Ha Hg. rewrite H3 in Hg.
      eapply enforce_monotone_ge; [|exact Hg].
      by rewrite list_lookup_fmap, Ha.
Qed.

(** X3 (clean_and_average): the order in which the reference data
    lists its points does not matter. *)
Theorem clean_and_average_order_irrelevant (data data' : list (Qc * Qc)) :
  data ≡ₚ data' → clean_and_average data = clean_and_average data'.
Proof.
  intros Hp.
  destruct (clean_and_average_unfold data) as (H1 & H2 & H3).
  destruct (clean_and_average_unfold data') as (H1' & H2' & H3').
  cbn zeta in *.
  assert ((clean_and_average data).1 = (clean_and_average data').1) as E.
  { apply (StronglySorted_unique_strong Qclt); [|done|done|].
    - intros x y _ _ Hxy Hyx. exfalso. qc_lra.
    - apply NoDup_Permutation.
      + by apply strict_asc_NoDup.
      + by apply strict_asc_NoDup.
      + intros a. rewrite H2, H2'. by rewrite Hp. }
  destruct (clean_and_average data) as [a1 g1], (clean_and_average data') as [a2 g2].
  cbn [fst snd] in *. subst a2. f_equal. rewrite H3, H3'. f_equal.
  apply Forall_fmap_ext_1, Forall_forall. intros a _.
  by apply group_mean_Permutation.
Qed.

Lemma py_sorted_asc_id {A} (key : A → Qc) (l : list A) :
  StronglySorted (λ a b, key a < key b) l → py_sorted key false l = l.
Proof.
  unfold py_sorted. induction 1 as [|x t _ IH Hx]; [done|].
  cbn [foldr]. rewrite IH. destruct t as [|y t']; [done|].
  apply Forall_cons in Hx as [Hxy _]. cbn.
  rewrite decide_True; [done|]. by apply Qclt_le_weak.
Qed.

Lemma take_run_none a l :
  Forall (λ p : Qc * Qc, a < p.2) l → take_run a l = ([], l).
Proof.
  destruct 1 as [|[g a'] t Hp _]; [done|]. cbn in *.
  rewrite decide_False; [done|]. intros ->. by apply Qclt_not_eq in Hp.
Qed.

Lemma average_runs_distinct fuel l :
  (length l ≤ fuel)%nat → StronglySorted (λ p q : Qc * Qc, p.2 < q.2) l →
  average_runs fuel l = (λ p, (p.2, p.1)) <$> l.
Proof.
  revert l. induction fuel as [|fuel IH]; intros l Hl Hs.
  - destruct l; [done|cbn in Hl; lia].
  - destruct Hs as [|[g a] t Ht Ha]; [done|].
    cbn [average_runs]. rewrite take_run_head, take_run_none by done.
    cbn [fst snd]. rewrite np_mean_singleton, fmap_cons. cbn [fst snd].
    f_equal. apply IH; [cbn in Hl; lia|done].
Qed.

(** X4 (clean_and_average): reference data that is a scale already
    (ATARs and aggregates both strictly increasing along the list) is
    returned as it is, split into its two columns. *)
Theorem clean_and_average_keeps_scale (data : list (Qc * Qc)) :
  clean_scale data → clean_and_average data = (data.*2, data.*1).
Proof.
  intros Hs. unfold clean_and_average.
  assert (StronglySorted (λ p q : Qc * Qc, p.2 < q.2) data) as H2.
  { eapply StronglySorted_weaken; [|exact Hs]. by intros p q [? ?]. }
  rewrite (py_sorted_asc_id snd) by done.
  rewrite average_runs_distinct by done.
  rewrite <-!list_fmap_compose. f_equal.
  apply enforce_monotone_id, StronglySorted_Sorted.
  apply (StronglySorted_fmap _ (λ p q : Qc * Qc, p.1 < q.1)); [done|].
  eapply StronglySorted_weaken; [|exact Hs]. by intros p q [? ?].
Qed.

(** X5 (forward pass): the pass keeps the length and the first entry,
    never lowers an entry, and leaves a strictly increasing array as
    it is, so that a second pass changes nothing. *)
Theorem enforce_monotone_idempotent (b : list Qc) :
  length (enforce_monotone b) = length b ∧
  head (enforce_monotone b) = head b ∧
  Forall2 Qcle b (enforce_monotone b) ∧
  enforce_monotone (enforce_monotone b) = enforce_monotone b.
Proof.
  split; [apply enforce_monotone_length|]. split; [|split].
  - destruct b; [done|]. by rewrite enforce_monotone_chain.
  - apply Forall2_same_length_lookup. split.
    + by rewrite enforce_monotone_length.
    + intros i x y. apply enforce_monotone_ge.
  - apply enforce_monotone_id, enforce_monotone_strict.
Qed.

Lemma clean_and_average_order_irrelevant_witness :
  clean_and_average example_reference
  = clean_and_average (reverse example_reference).
Proof.
  apply (clean_and_average_order_irrelevant example_reference
           (reverse example_reference)).
  symmetry. apply reverse_Permutation.
Defined.

Lemma clean_and_average_keeps_scale_witness :
  clean_scale example_scale ∧
  clean_and_average example_scale = (example_scale.*2, example_scale.*1).
Proof.
  assert (clean_scale example_scale) as H.
  { unfold clean_scale. by_compute. }
  split; [exact H|]. exact (clean_and_average_keeps_scale example_scale H).
Defined.

(** The example data: the two students at 69.03 are averaged, and the
    aggregate at 72.67 is raised above the one at 72.66. *)
Example clean_and_average_example :
  clean_and_average example_reference
  = ([float_lit 6903 100; float_lit 7266 100; float_lit 7267 100;
      float_lit 7299 100],
     [float_lit 31266 100; float_lit 33157 100; float_lit 33158 100;
      float_lit 33213 100]).
Proof. by_compute. Qed.

(* ================================================================= *)
(** ** The blend of the two reference curves *)

(** [qc_lra] with integer literals unfolded. *)
Ltac qc_lraz := qc_norm; unfold inject_Z in *; lra.

Lemma Qcdiv_mult_cancel (n d : Qc) : 0 < d → n / d * d = n.
Proof.
  intros Hd. field. intros E. rewrite E in Hd. by apply Qclt_not_eq in Hd.
Qed.

(** A weighted mean with non-negative weights lies between bounds
    that enclose both values. *)
Lemma weighted_mean_bounds (wp w2 vp v2 lo hi : Qc) :
  0 ≤ wp → 0 ≤ w2 → 0 < wp + w2 →
  lo ≤ vp → lo ≤ v2 → vp ≤ hi → v2 ≤ hi →
  lo ≤ (wp * vp + w2 * v2) / (wp + w2) ∧ (wp * vp + w2 * v2) / (wp + w2) ≤ hi.
Proof.
  intros Hp H2 Ht Hl1 Hl2 Hh1 Hh2. split.
  - apply (Qcmult_lt_0_le_reg_r _ _ (wp + w2)); [done|].
    rewrite Qcdiv_mult_cancel by done.
    replace (lo * (wp + w2)) with (wp * lo + w2 * lo) by ring.
    apply Qcplus_le_compat; by apply Qcmult_le_mono_nonneg_l.
  - apply (Qcmult_lt_0_le_reg_r _ _ (wp + w2)); [done|].
    rewrite Qcdiv_mult_cancel by done.
    replace (hi * (wp + w2)) with (wp * hi + w2 * hi) by ring.
    apply Qcplus_le_compat; by apply Qcmult_le_mono_nonneg_l.
Qed.

Lemma pymin_le_l a b : pymin a b ≤ a.
Proof. unfold pymin. destruct (decide (b < a)); qc_lra. Qed.
Lemma pymin_le_r a b : pymin a b ≤ b.
Proof. unfold pymin. destruct (decide (b < a)); qc_lra. Qed.
Lemma pymax_ge_l a b : a ≤ pymax a b.
Proof. unfold pymax. destruct (decide (a < b)); qc_lra. Qed.
Lemma pymax_ge_r a b : b ≤ pymax a b.
Proof. unfold pymax. destruct (decide (a < b)); qc_lra. Qed.

Section blend_facts.
Variable interp_prev interp_2023 : Qc → Qc.
Variable slope_2023 : Qc.
Variable prev_atars y23_atars y23_aggs : list Qc.
Variable p0 pl y0 yl : Qc.
Hypothesis Hp0 : prev_atars !! 0%nat = Some p0.
Hypothesis Hpl : last prev_atars = Some pl.
Hypothesis Hy0 : y23_atars !! 0%nat = Some y0.
Hypothesis Hyl : last y23_atars = Some yl.

Lemma blend_point_unfold a :
  blend_point interp_prev interp_2023 slope_2023 prev_atars y23_atars y23_aggs a =
  let w_p := weight_prev p0 pl a in
  let w_2 := weight_2023 y0 yl a in
  if decide (0 < w_p + w_2) then
    Some ((w_p * (if decide (p0 ≤ a ∧ a ≤ pl) then interp_prev a else 0)
           + w_2 * (if decide (y0 ≤ a ∧ a ≤ yl) then interp_2023 a else 0))
          / (w_p + w_2))
  else g0 ← y23_aggs !! 0%nat; Some (g0 + slope_2023 * (a - y0)).
Proof.
  unfold blend_point, weight_prev, weight_2023, faded_weight.
  rewrite Hp0, Hpl, Hy0, Hyl. cbn [mbind option_bind].
  cbn zeta. repeat case_bool_decide; cbn [andb];
    repeat match goal with
    | H : ?P |- context [decide ?P] => rewrite (decide_True (P:=P)) by exact H
    | H : ¬ ?P |- context [decide ?P] => rewrite (decide_False (P:=P)) by exact H
    end; done.
Qed.

Lemma faded_weight_nonneg w zone fade lo hi a :
  0 ≤ w → 0 < zone → (∀ t, 0 ≤ t → 0 ≤ fade t) →
  0 ≤ faded_weight w zone fade lo hi a.
Proof.
  intros Hw Hz Hf. unfold faded_weight.
  destruct (decide (lo ≤ a ∧ a ≤ hi)) as [[Hlo _]|_]; [|apply Qcle_refl].
  destruct (decide (a - lo < zone)); [|done].
  apply Qcmult_nonneg_nonneg; [done|]. apply Hf.
  apply (Qcmult_lt_0_le_reg_r _ _ zone); [done|].
  rewrite Qcdiv_mult_cancel by done. qc_lra.
Qed.

Lemma faded_weight_pos w zone fade lo hi a :
  0 < w → 0 < zone → (∀ t, 0 < t → 0 < fade t) →
  lo < a → a ≤ hi → 0 < faded_weight w zone fade lo hi a.
Proof.
  intros Hw Hz Hf Hlo Hhi. unfold faded_weight.
  rewrite decide_True by (split; [by apply Qclt_le_weak|done]).
  destruct (decide (a - lo < zone)); [|done].
  apply Qcmult_pos_pos; [done|]. apply Hf.
  apply (Qcmult_lt_mono_pos_r _ _ zone); [done|].
  rewrite Qcdiv_mult_cancel by done. qc_lra.
Qed.

Lemma faded_weight_zero w zone fade lo hi a :
  0 < zone → fade 0 = 0 →
  ¬ (lo < a ∧ a ≤ hi) → faded_weight w zone fade lo hi a = 0.
Proof.
  intros Hz Hf Hn. unfold faded_weight.
  destruct (decide (lo ≤ a ∧ a ≤ hi)) as [[Hlo Hhi]|_]; [|done].
  assert (a = lo) as ->.
  { apply Qcle_antisym; [|done]. apply Qcnot_lt_le. intros ?. by apply Hn. }
  rewrite decide_True by qc_lra.
  replace ((lo - lo) / zone) with 0 by (unfold Qcdiv; ring).
  rewrite Hf. ring.
Qed.

Lemma faded_weight_full w zone fade lo hi a :
  lo + zone ≤ a → a ≤ hi → 0 ≤ zone → faded_weight w zone fade lo hi a = w.
Proof.
  intros Hlo Hhi Hz. unfold faded_weight.
  rewrite decide_True by (split; [qc_lra|done]).
  rewrite decide_False; [done|]. qc_lra.
Qed.

Lemma cube_nonneg (t : Qc) : 0 ≤ t → 0 ≤ t * t * t.
Proof. intros. repeat apply Qcmult_nonneg_nonneg; done. Qed.
Lemma cube_pos (t : Qc) : 0 < t → 0 < t * t * t.
Proof. intros. repeat apply Qcmult_pos_pos; done. Qed.

Lemma weight_prev_nonneg a : 0 ≤ weight_prev p0 pl a.
Proof. apply faded_weight_nonneg; [by_compute|by_compute|apply cube_nonneg]. Qed.
Lemma weight_2023_nonneg a : 0 ≤ weight_2023 y0 yl a.
Proof. apply faded_weight_nonneg; [by_compute|by_compute|done]. Qed.

(** X6 (blend): at a grid point that both reference years cover, and
    that is above the lower end of at least one of them, the blended
    value lies between the two interpolated values. *)
Theorem blend_point_between (a : Qc) :
  p0 ≤ a ∧ a ≤ pl → y0 ≤ a ∧ a ≤ yl → p0 < a ∨ y0 < a →
  ∃ v, blend_point interp_prev interp_2023 slope_2023
         prev_atars y23_atars y23_aggs a = Some v ∧
       pymin (interp_prev a) (interp_2023 a) ≤ v ∧
       v ≤ pymax (interp_prev a) (interp_2023 a).
Proof.
  intros Hp Hy Hlow. rewrite blend_point_unfold. cbn zeta.
  rewrite (decide_True (P := p0 ≤ a ∧ a ≤ pl)) by done.
  rewrite (decide_True (P := y0 ≤ a ∧ a ≤ yl)) by done.
  assert (0 < weight_prev p0 pl a + weight_2023 y0 yl a) as Hw.
  { destruct Hlow as [Hlow|Hlow].
    - apply Qclt_le_trans with (weight_prev p0 pl a + 0).
      + rewrite Qcplus_0_r.
        apply faded_weight_pos; [by_compute|by_compute|apply cube_pos|done|apply Hp].
      + apply Qcplus_le_compat; [apply Qcle_refl|apply weight_2023_nonneg].
    - apply Qclt_le_trans with (0 + weight_2023 y0 yl a).
      + rewrite Qcplus_0_l.
        apply faded_weight_pos; [by_compute|by_compute|done|done|apply Hy].
      + apply Qcplus_le_compat; [apply weight_prev_nonneg|apply Qcle_refl]. }
  rewrite decide_True by done. eexists. split; [done|].
  apply weighted_mean_bounds;
    auto using weight_prev_nonneg, weight_2023_nonneg,
               pymin_le_l, pymin_le_r, pymax_ge_l, pymax_ge_r.
Qed.

(** X7 (blend): which source decides the blended value.  Where only
    the previous year has a positive weight the value is that year's
    curve, where only 2023 has one it is the 2023 curve, and where both
    are clear of their fade zones it is the 60/40 mix.  A grid point
    that lies in neither half-open range [(lo, hi]], which includes the
    lower end of a range itself, is extrapolated from the lower end of
    2023. *)
Theorem blend_point_cases (a : Qc) :
  let blend :=
    blend_point interp_prev interp_2023 slope_2023
      prev_atars y23_atars y23_aggs in
  (p0 < a ∧ a ≤ pl → ¬ (y0 < a ∧ a ≤ yl) → blend a = Some (interp_prev a)) ∧
  (y0 < a ∧ a ≤ yl → ¬ (p0 < a ∧ a ≤ pl) → blend a = Some (interp_2023 a)) ∧
  (p0 + FADE_ZONE_PREV ≤ a ∧ a ≤ pl → y0 + FADE_ZONE_2023 ≤ a ∧ a ≤ yl →
   blend a = Some (W_PREV * interp_prev a + W_2023 * interp_2023 a)) ∧
  (¬ (p0 < a ∧ a ≤ pl) → ¬ (y0 < a ∧ a ≤ yl) →
   blend a = g0 ← y23_aggs !! 0%nat; Some (g0 + slope_2023 * (a - y0))).
Proof.
  intros blend. unfold blend. rewrite blend_point_unfold. cbn zeta.
  unfold weight_prev, weight_2023.
  split; [|split; [|split]].
  - intros [Hlo Hhi] Hn.
    rewrite (faded_weight_zero _ _ _ y0 yl a) by (done || by_compute).
    rewrite Qcplus_0_r, Qcmult_0_l, Qcplus_0_r.
    assert (0 < faded_weight W_PREV FADE_ZONE_PREV (λ t, t * t * t) p0 pl a) as Hw.
    { apply faded_weight_pos; [by_compute|by_compute|apply cube_pos|done|done]. }
    rewrite decide_True by done.
    rewrite (decide_True (P := p0 ≤ a ∧ a ≤ pl))
      by (split; [by apply Qclt_le_weak|done]).
    f_equal. field. intros E. rewrite E in Hw. by apply Qclt_not_eq in Hw.
  - intros [Hlo Hhi] Hn.
    rewrite (faded_weight_zero _ _ _ p0 pl a) by (done || by_compute).
    rewrite Qcplus_0_l, Qcmult_0_l, Qcplus_0_l.
    assert (0 < faded_weight W_2023 FADE_ZONE_2023 (λ t, t) y0 yl a) as Hw.
    { apply faded_weight_pos; [by_compute|by_compute|done|done|done]. }
    rewrite decide_True by done.
    rewrite (decide_True (P := y0 ≤ a ∧ a ≤ yl))
      by (split; [by apply Qclt_le_weak|done]).
    f_equal. field. intros E. rewrite E in Hw. by apply Qclt_not_eq in Hw.
  - intros [Hlo Hhi] [Hlo2 Hhi2].
    rewrite !faded_weight_full by (done || by_compute).
    rewrite decide_True by by_compute.
    assert (p0 ≤ a) by (unfold FADE_ZONE_PREV in Hlo; qc_lraz).
    assert (y0 ≤ a) by (unfold FADE_ZONE_2023 in Hlo2; qc_lraz).
    rewrite (decide_True (P := p0 ≤ a ∧ a ≤ pl)) by done.
    rewrite (decide_True (P := y0 ≤ a ∧ a ≤ yl)) by done.
    f_equal. assert (W_PREV + W_2023 = 1) as -> by by_compute.
    unfold Qcdiv. assert (/ 1 = 1) as -> by by_compute. ring.
  - intros Hn1 Hn2.
    rewrite (faded_weight_zero _ _ _ y0 yl a) by (done || by_compute).
    rewrite (faded_weight_zero _ _ _ p0 pl a) by (done || by_compute).
    rewrite decide_False; [done|]. by_compute.
Qed.
End blend_facts.

Lemma blend_point_between_witness :
  ∃ v, example_blend (of_int 45) = Some v ∧
       pymin (line_prev (of_int 45)) (line_2023 (of_int 45)) ≤ v ∧
       v ≤ pymax (line_prev (of_int 45)) (line_2023 (of_int 45)).
Proof.
  apply (blend_point_between line_prev line_2023 (of_int 5)
           example_prev_atars example_y23_atars example_y23_aggs
           (of_int 40) (float_lit 9995 100) (of_int 30) (float_lit 9995 100)
           eq_refl eq_refl eq_refl eq_refl (of_int 45)).
  - split; by_compute.
  - split; by_compute.
  - left. by_compute.
Defined.

Lemma blend_point_cases_witness :
  example_blend (of_int 35) = Some (line_2023 (of_int 35)) ∧
  example_blend (of_int 50)
  = Some (W_PREV * line_prev (of_int 50) + W_2023 * line_2023 (of_int 50)) ∧
  example_blend (of_int 30) = Some (of_int 140).
Proof.
  pose proof (blend_point_cases line_prev line_2023 (of_int 5)
                example_prev_atars example_y23_atars example_y23_aggs
                (of_int 40) (float_lit 9995 100) (of_int 30) (float_lit 9995 100)
                eq_refl eq_refl eq_refl eq_refl) as H.
  split; [|split].
  - destruct (H (of_int 35)) as (_ & H2 & _ & _). apply H2; by_compute.
  - destruct (H (of_int 50)) as (_ & _ & H3 & _). apply H3; by_compute.
  - destruct (H (of_int 30)) as (_ & _ & _ & H4).
    unfold example_blend. rewrite H4; by_compute.
Defined.

(* ================================================================= *)
(** ** The smooth extension below ATAR 48 *)

Lemma of_int_le a b : (a ≤ b)%Z → of_int a ≤ of_int b.
Proof.
  intros H. unfold of_int, Qcle. cbn [this Q2Qc]. rewrite !Qred_correct.
  by rewrite <-Zle_Qle.
Qed.

Lemma of_int_lt a b : (a < b)%Z → of_int a < of_int b.
Proof.
  intros H. unfold of_int, Qclt. cbn [this Q2Qc]. rewrite !Qred_correct.
  by rewrite <-Zlt_Qlt.
Qed.

Lemma of_int_plus a b : of_int (a + b) = of_int a + of_int b.
Proof.
  apply Qc_eq_Qeq. unfold of_int, Qcplus. cbn [this Q2Qc].
  rewrite !Qred_correct. by rewrite inject_Z_plus.
Qed.

Lemma searchsorted_mono a v w : v ≤ w → (searchsorted a v ≤ searchsorted a w)%nat.
Proof.
  intros Hvw. induction a as [|x t IH]; cbn; [done|].
  destruct (decide (x < v)) as [Hx|Hx]; [|lia].
  rewrite decide_True by (by apply Qclt_le_trans with v). lia.
Qed.

Lemma reverse_seq_S k : reverse (seq 0 (S k)) = k :: reverse (seq 0 k).
Proof. by rewrite seq_S, reverse_app. Qed.

Lemma smooth_step_eq s avg b j y :
  b !! S j = Some y →
  smooth_step s avg b j = <[j := y - decel_grad avg (s - j)]> b.
Proof.
  intros Hy. unfold smooth_step. rewrite Nat.add_1_r, Hy. done.
Qed.

(** The loop over [j = k-1, ..., 0]: entries from [k] on are kept, and
    every entry below [k] is its upper neighbour minus the step for
    its distance from the transition. *)
Lemma smooth_fold_spec s avg k b :
  (k < length b)%nat →
  let out := foldl (smooth_step s avg) b (reverse (seq 0 k)) in
  length out = length b ∧
  (∀ j, (k ≤ j)%nat → out !! j = b !! j) ∧
  (∀ j, (j < k)%nat →
     ∃ y, out !! S j = Some y ∧
          out !! j = Some (y - decel_grad avg (s - j))).
Proof.
  revert b. induction k as [|k IH]; intros b Hk; cbn zeta.
  { cbn. split; [done|]. split; [done|]. intros j Hj. lia. }
  rewrite reverse_seq_S. cbn [foldl].
  destruct (lookup_lt_is_Some_2 b (S k) Hk) as [y Hy].
  rewrite (smooth_step_eq s avg b k y Hy).
  set (b1 := <[k := y - decel_grad avg (s - k)]> b).
  assert (length b1 = length b) as Hlen by apply length_insert.
  destruct (IH b1 ltac:(lia)) as (H1 & H2 & H3). cbn zeta in *.
  split; [lia|]. split.
  - intros j Hj. rewrite H2 by lia. unfold b1.
    apply list_lookup_insert_ne. lia.
  - intros j Hj. destruct (decide (j = k)) as [->|Hne].
    + exists y. rewrite !H2 by lia. unfold b1. split.
      * rewrite list_lookup_insert_ne by lia. done.
      * apply list_lookup_insert_eq. lia.
    + apply H3. lia.
Qed.

Lemma decel_grad_bounds avg n :
  0 < avg →
  float_lit 85 100 * avg ≤ decel_grad avg n ∧ decel_grad avg n ≤ avg.
Proof.
  intros Havg. unfold decel_grad.
  assert (0 ≤ of_int (Z.of_nat n)) as Hn by (apply (of_int_le 0); lia).
  set (d := 1 - float_lit 3 10000 * of_int (Z.of_nat n)) in *.
  assert (d ≤ 1) as Hd by (unfold d; qc_lra).
  assert (float_lit 85 100 ≤ pymax d (float_lit 85 100) ∧
          pymax d (float_lit 85 100) ≤ 1) as [Hlo Hhi].
  { unfold pymax. destruct (decide (d < float_lit 85 100)); split; qc_lra. }
  set (m := pymax d (float_lit 85 100)) in *. split.
  - rewrite (Qcmult_comm (float_lit 85 100)).
    by apply Qcmult_le_mono_nonneg_l; [apply Qclt_le_weak|].
  - rewrite <-(Qcmult_1_r avg) at 2.
    by apply Qcmult_le_mono_nonneg_l; [apply Qclt_le_weak|].
Qed.

(** X8 (smooth extension): when the blended curve rises between the
    grid points of ATAR 48 and ATAR 52, the extension returns an array
    of the same length that agrees with the blend from ATAR 48 upward
    and is strictly increasing below it, each step being between 85%
    and 100% of the average step [g] between 48 and 52. *)
Theorem smooth_extension_increasing (grid blended : list Qc) (bs bu : Qc) :
  let s := searchsorted grid SMOOTH_BELOW in
  let u := searchsorted grid (of_int 52) in
  blended !! s = Some bs → blended !! u = Some bu → (s < u)%nat → bs < bu →
  let g := (bu - bs) / of_int (Z.of_nat u - Z.of_nat s) in
  ∃ out, smooth_extend grid blended = Some out ∧
    length out = length blended ∧
    (∀ j, (s ≤ j)%nat → out !! j = blended !! j) ∧
    (∀ j x y, (j < s)%nat → out !! j = Some x → out !! S j = Some y →
       x < y ∧ float_lit 85 100 * g ≤ y - x ∧ y - x ≤ g).
Proof.
  intros s u Hs Hu Hsu Hlt g.
  unfold smooth_extend. fold s u. rewrite Hs, Hu. cbn [mbind option_bind].
  fold g. eexists. split; [done|].
  assert (s < length blended)%nat as Hlen by (by eapply lookup_lt_Some).
  destruct (smooth_fold_spec s g s blended Hlen) as (H1 & H2 & H3).
  cbn zeta in *. split; [done|]. split; [done|].
  intros j x y Hj Hx Hy. destruct (H3 j Hj) as (y' & Hy' & Hx').
  rewrite Hy in Hy'. rewrite Hx in Hx'. simplify_eq.
  assert (0 < g) as Hg.
  { unfold g. apply (Qcmult_lt_mono_pos_r _ _ (of_int (Z.of_nat u - Z.of_nat s))).
    - apply (of_int_lt 0). lia.
    - rewrite Qcmult_0_l, Qcdiv_mult_cancel; [qc_lra|].
      apply (of_int_lt 0). lia. }
  destruct (decel_grad_bounds g (s - j) Hg) as [Hlo Hhi].
  set (d := decel_grad g (s - j)) in *.
  assert (0 < d).
  { apply Qclt_le_trans with (float_lit 85 100 * g); [|done].
    apply Qcmult_pos_pos; [by_compute|done]. }
  replace (y' - (y' - d)) with d by ring.
  split; [qc_lra|done].
Qed.

(** X9 (smooth extension): the blended values below ATAR 48 are
    thrown away: two curves of the same length that agree from the
    grid point of ATAR 48 upward have the same extension. *)
Theorem smooth_extension_ignores_low (grid b b' : list Qc) :
  let s := searchsorted grid SMOOTH_BELOW in
  length b = length b' → drop s b = drop s b' →
  smooth_extend grid b = smooth_extend grid b'.
Proof.
  intros s Hlen Hdrop.
  assert (∀ j, (s ≤ j)%nat → b !! j = b' !! j) as Hhigh.
  { intros j Hj. replace j with (s + (j - s))%nat by lia.
    by rewrite <-!lookup_drop, Hdrop. }
  unfold smooth_extend. fold s.
  pose proof (searchsorted_mono grid SMOOTH_BELOW (of_int 52)
                ltac:(by_compute)) as Hsu.
  rewrite <-(Hhigh (searchsorted grid (of_int 52))) by done.
  rewrite <-(Hhigh s) by done.
  destruct (b !! searchsorted grid (of_int 52)) as [bu|]; [|done].
  cbn [mbind option_bind].
  destruct (b !! s) as [bs|] eqn:Hs; [|done]. cbn [mbind option_bind].
  f_equal.
  set (avg := (bu - bs) / _).
  assert (s < length b)%nat as Hl by (by eapply lookup_lt_Some).
  destruct (smooth_fold_spec s avg s b Hl) as (H1 & H2 & H3).
  destruct (smooth_fold_spec s avg s b' ltac:(lia)) as (H1' & H2' & H3').
  cbn zeta in *.
  set (out := foldl _ b _) in *. set (out' := foldl _ b' _) in *.
  assert (∀ d j, (s - j ≤ d)%nat → out !! j = out' !! j) as Heq.
  { induction d as [|d IH]; intros j Hj.
    - rewrite H2, H2' by lia. apply Hhigh. lia.
    - destruct (decide (s ≤ j)%nat) as [Hge|Hlt].
      + rewrite H2, H2' by lia. by apply Hhigh.
      + destruct (H3 j ltac:(lia)) as (y & Hy & ->).
        destruct (H3' j ltac:(lia)) as (y' & Hy' & ->).
        rewrite (IH (S j)) in Hy by lia. rewrite Hy in Hy'. by simplify_eq. }
  apply list_eq. intros j. apply (Heq s). lia.
Qed.

Lemma smooth_extension_increasing_witness :
  let s := searchsorted atar_grid SMOOTH_BELOW in
  let u := searchsorted atar_grid (of_int 52) in
  let g := (float_lit 20975 100 - float_lit 18975 100)
           / of_int (Z.of_nat u - Z.of_nat s) in
  s = 359%nat ∧ u = 439%nat ∧ g = float_lit 25 100 ∧
  ∃ out, smooth_extend atar_grid example_blended = Some out ∧
    length out = length example_blended ∧
    (∀ j, (s ≤ j)%nat → out !! j = example_blended !! j) ∧
    (∀ j x y, (j < s)%nat → out !! j = Some x → out !! S j = Some y →
       x < y ∧ float_lit 85 100 * g ≤ y - x ∧ y - x ≤ g).
Proof.
  cbn zeta. split; [by_compute|]. split; [by_compute|]. split; [by_compute|].
  apply (smooth_extension_increasing atar_grid example_blended
           (float_lit 18975 100) (float_lit 20975 100)); by_compute.
Defined.

Lemma smooth_extension_ignores_low_witness :
  smooth_extend atar_grid example_blended
  = smooth_extend atar_grid (<[0%nat := 0]> example_blended).
Proof.
  apply (smooth_extension_ignores_low atar_grid example_blended
           (<[0%nat := 0]> example_blended)).
  - by rewrite length_insert.
  - by_compute.
Defined.

(* ================================================================= *)
(** ** The blended curve of the reference data (C2) *)

(** *** Facts about the grid and the cleaned reference data *)

Lemma atar_grid_length : length atar_grid = 1399%nat.
Proof. unfold atar_grid. by rewrite length_fmap, length_seq. Qed.

Lemma atar_grid_transition :
  searchsorted atar_grid SMOOTH_BELOW = 359%nat ∧
  searchsorted atar_grid (of_int 52) = 439%nat ∧
  atar_grid !! 359%nat = Some (of_int 48) ∧
  atar_grid !! 439%nat = Some (of_int 52).
Proof. repeat split; by_compute. Qed.

Lemma atar_grid_upper :
  Forall (λ a, of_int 48 ≤ a ∧ a ≤ float_lit 9995 100) (drop 359 atar_grid).
Proof. by_compute. Qed.

Lemma reference_ranges :
  prev_atars !! 0%nat = Some (float_lit 3746 100) ∧
  last prev_atars = Some (float_lit 9995 100) ∧
  y23_atars !! 0%nat = Some (float_lit 3142 100) ∧
  last y23_atars = Some (float_lit 9995 100) ∧
  y23_aggs !! 0%nat = Some (float_lit 14802 100).
Proof. repeat split; by_compute. Qed.

Lemma reference_points_increasing :
  increasing_points (zip prev_atars prev_aggs) ∧
  increasing_points (zip y23_atars y23_aggs).
Proof. split; by_compute. Qed.

(** The cleaned data of both years around ATAR 48 and ATAR 52, and at
    the top of the scale. *)
Lemma reference_brackets :
  Forall (bracketed (zip prev_atars prev_aggs)
            (float_lit 3746 100) (float_lit 9995 100))
    [(of_int 48, of_int 230, of_int 236);
     (of_int 52, of_int 245, of_int 251);
     (float_lit 9995 100, 0, of_int 489)] ∧
  Forall (bracketed (zip y23_atars y23_aggs)
            (float_lit 3142 100) (float_lit 9995 100))
    [(of_int 48, of_int 217, of_int 222);
     (of_int 52, of_int 235, of_int 237);
     (float_lit 9995 100, 0, of_int 489)].
Proof. split; by_compute. Qed.

(** *** The staircase interpolant keeps the shape of increasing data *)

Lemma stair_fold_mono (l : list (Qc * Qc)) a a' m m' :
  a ≤ a' → m ≤ m' →
  foldl (λ m p, if decide (p.1 ≤ a) then pymax m p.2 else m) m l
  ≤ foldl (λ m p, if decide (p.1 ≤ a') then pymax m p.2 else m) m' l.
Proof.
  intros Ha. revert m m'. induction l as [|p l IH]; intros m m' Hm; [done|].
  cbn [foldl]. apply IH.
  destruct (decide (p.1 ≤ a)) as [H|H].
  - rewrite decide_True by (by apply Qcle_trans with a).
    unfold pymax. repeat destruct (decide _); qc_lra.
  - destruct (decide (p.1 ≤ a')); [|done].
    apply Qcle_trans with m'; [done|apply pymax_ge_l].
Qed.

Lemma stair_fold_spec (l : list (Qc * Qc)) a m :
  let r := foldl (λ m p, if decide (p.1 ≤ a) then pymax m p.2 else m) m l in
  m ≤ r ∧
  (∀ p, p ∈ l → p.1 ≤ a → p.2 ≤ r) ∧
  (r = m ∨ ∃ p, p ∈ l ∧ p.1 ≤ a ∧ r = p.2).
Proof.
  revert m. induction l as [|p l IH]; intros m; cbn zeta; cbn [foldl].
  { split; [apply Qcle_refl|]. split; [|by left].
    intros p Hp. by apply elem_of_nil in Hp. }
  destruct (IH (if decide (p.1 ≤ a) then pymax m p.2 else m))
    as (H1 & H2 & H3). cbn zeta in *.
  destruct (decide (p.1 ≤ a)) as [Hp|Hp].
  - assert (m ≤ pymax m p.2 ∧ p.2 ≤ pymax m p.2 ∧
            (pymax m p.2 = m ∨ pymax m p.2 = p.2)) as (G1 & G2 & G3).
    { clear. unfold pymax. destruct (decide (m < p.2)) as [Hlt|Hn].
      - split; [by apply Qclt_le_weak|]. split; [apply Qcle_refl|by right].
      - split; [apply Qcle_refl|]. split; [by apply Qcnot_lt_le|by left]. }
    split; [by eapply Qcle_trans|]. split.
    + intros q Hq Hqa. apply elem_of_cons in Hq as [->|Hq]; [|by apply H2].
      by eapply Qcle_trans.
    + destruct H3 as [H3|(q & Hq & Hqa & H3)].
      * rewrite H3. destruct G3 as [G3|G3]; [by left|].
        right. exists p. split; [by left|done].
      * right. exists q. split; [by right|done].
  - split; [done|]. split.
    + intros q Hq Hqa. apply elem_of_cons in Hq as [->|Hq]; [done|by apply H2].
    + destruct H3 as [H3|(q & Hq & Hqa & H3)]; [by left|].
      right. exists q. split; [by right|done].
Qed.

Lemma stair_interp_shape xs ys :
  increasing_points (zip xs ys) → shape_preserving xs ys (stair_interp xs ys).
Proof.
  intros Hinc. split.
  - intros k x y Hx Hy. unfold stair_interp.
    assert ((x, y) ∈ zip xs ys) as Hin.
    { apply list_elem_of_lookup. exists k.
      by apply lookup_zip_with_Some; eauto. }
    destruct (stair_fold_spec (zip xs ys) x 0) as (H0 & Hle & Hex).
    cbn zeta in *. unfold increasing_points in Hinc.
    rewrite Forall_forall in Hinc. destruct (Hinc _ Hin) as [Hy0 Hall].
    rewrite Forall_forall in Hall. cbn [fst snd] in *.
    apply Qcle_antisym.
    + destruct Hex as [->|(q & Hq & Hqa & ->)]; [done|]. by apply Hall.
    + apply (Hle (x, y) Hin). apply Qcle_refl.
  - intros x0 xl a a' _ _ _ Ha _. unfold stair_interp.
    apply stair_fold_mono; [done|apply Qcle_refl].
Qed.

(** *** From the shape of an interpolant to bounds on its values *)

Lemma shape_lower xs ys f x0 xl a lo :
  shape_preserving xs ys f →
  xs !! 0%nat = Some x0 → last xs = Some xl → a ≤ xl →
  Exists (λ p, x0 ≤ p.1 ∧ p.1 ≤ a ∧ lo ≤ p.2) (zip xs ys) → lo ≤ f a.
Proof.
  intros [Hpts Hmono] H0 Hl Ha Hex.
  apply Exists_exists in Hex as ([x y] & Hin & Hx0 & Hxa & Hlo).
  cbn [fst snd] in *.
  apply list_elem_of_lookup in Hin as [k Hk].
  apply lookup_zip_with_Some in Hk as (x' & y' & [= <- <-] & Hx & Hy).
  rewrite <-(Hpts k x y Hx Hy) in Hlo.
  apply Qcle_trans with (f x); [done|]. by apply (Hmono x0 xl).
Qed.

Lemma shape_upper xs ys f x0 xl a hi :
  shape_preserving xs ys f →
  xs !! 0%nat = Some x0 → last xs = Some xl → x0 ≤ a →
  Exists (λ p, a ≤ p.1 ∧ p.1 ≤ xl ∧ p.2 ≤ hi) (zip xs ys) → f a ≤ hi.
Proof.
  intros [Hpts Hmono] H0 Hl Ha Hex.
  apply Exists_exists in Hex as ([x y] & Hin & Hxa & Hxl & Hhi).
  cbn [fst snd] in *.
  apply list_elem_of_lookup in Hin as [k Hk].
  apply lookup_zip_with_Some in Hk as (x' & y' & [= <- <-] & Hx & Hy).
  rewrite <-(Hpts k x y Hx Hy) in Hhi.
  apply Qcle_trans with (f x); [|done]. by apply (Hmono x0 xl).
Qed.

(** *** The forward pass below a rising bound *)

Lemma chain_bump_up_upper (c : Qc) p l (k : nat) :
  p ≤ c + float_lit 1 100 * of_int (Z.of_nat k) →
  (∀ i v, l !! i = Some v →
     v ≤ c + float_lit 1 100 * of_int (Z.of_nat (S (k + i)))) →
  ∀ i v, chain bump_up p l !! i = Some v →
    v ≤ c + float_lit 1 100 * of_int (Z.of_nat (S (k + i))).
Proof.
  revert p k. induction l as [|x t IH]; intros p k Hp Hl i v Hv; [done|].
  assert (bump_up p x ≤ c + float_lit 1 100 * of_int (Z.of_nat (S k))) as Hb.
  { specialize (Hl 0%nat x eq_refl). rewrite Nat.add_0_r in Hl.
    replace (Z.of_nat (S k)) with (Z.of_nat k + 1)%Z in * by lia.
    rewrite of_int_plus in *. revert Hp Hl.
    generalize (of_int (Z.of_nat k)). clear. intros n Hp Hl.
    unfold bump_up. destruct (decide (x ≤ p)); [|done]. qc_lraz. }
  destruct i as [|i]; cbn in Hv.
  - injection Hv as <-. by rewrite Nat.add_0_r.
  - replace (S (k + S i)) with (S (S k + i)) by lia.
    apply (IH (bump_up p x) (S k)); [done| |done].
    intros j w Hw. replace (S (S k + j)) with (S (k + S j)) by lia.
    by apply Hl.
Qed.

Lemma enforce_monotone_upper (c : Qc) b :
  (∀ i v, b !! i = Some v → v ≤ c + float_lit 1 100 * of_int (Z.of_nat i)) →
  ∀ i v, enforce_monotone b !! i = Some v →
    v ≤ c + float_lit 1 100 * of_int (Z.of_nat i).
Proof.
  destruct b as [|p l]; [done|]. intros Hb.
  rewrite enforce_monotone_chain. intros [|i] v Hv; cbn in Hv.
  - injection Hv as <-. by apply (Hb 0%nat).
  - apply (chain_bump_up_upper c p l 0); [by apply (Hb 0%nat)| |done].
    intros j w Hw. by apply (Hb (S j)).
Qed.

Lemma enforce_monotone_head b : head (enforce_monotone b) = head b.
Proof. destruct b as [|p l]; [done|]. by rewrite enforce_monotone_chain. Qed.

(** A strictly increasing array that starts at 0 or above and whose
    entry [i] is at most [500 - 0.01 * (n - 1 - i)] is not changed by
    the clamp. *)
Lemma clamp_sorted_in_range b (v0 : Qc) :
  Sorted Qclt b → head b = Some v0 → 0 ≤ v0 →
  (∀ i v, b !! i = Some v → v ≤ of_int 500) →
  clamp_blended b = b.
Proof.
  intros Hs H0 Hv0 Hup. apply clamp_blended_in_range.
  apply Forall_forall. intros v Hv.
  apply list_elem_of_lookup in Hv as [i Hi].
  split; [|by apply (Hup i)].
  destruct b as [|p l]; [done|]. injection H0 as ->.
  destruct i as [|i]; cbn in Hi; [by injection Hi as <-|].
  apply Sorted_Qclt_strongly in Hs.
  apply StronglySorted_cons in Hs as [Hall _].
  rewrite Forall_forall in Hall.
  apply Qclt_le_weak, Qcle_lt_trans with v0; [done|].
  apply Hall. apply list_elem_of_lookup. by exists i.
Qed.

Lemma n_violations_sorted b : Sorted Qclt b → n_violations b = 0%nat.
Proof.
  intros Hs. unfold n_violations, np_diff.
  induction Hs as [|x l Hl IH Hx]; [done|].
  destruct l as [|y t]; [done|].
  cbn [tail zip_with] in *. apply HdRel_inv in Hx.
  rewrite filter_cons_False by (intros H; revert H Hx; clear; qc_lra).
  exact IH.
Qed.

(** *** The smooth extension, step by step *)

Lemma smooth_extend_steps (grid blended : list Qc) (s u : nat) (bs bu : Qc) :
  searchsorted grid SMOOTH_BELOW = s → searchsorted grid (of_int 52) = u →
  blended !! s = Some bs → blended !! u = Some bu → (s < u)%nat → bs < bu →
  let g := (bu - bs) / of_int (Z.of_nat u - Z.of_nat s) in
  ∃ out, smooth_extend grid blended = Some out ∧
    length out = length blended ∧
    (∀ j, (s ≤ j)%nat → out !! j = blended !! j) ∧
    (∀ j x y, (j < s)%nat → out !! j = Some x → out !! S j = Some y →
       x < y ∧ y - x ≤ g).
Proof.
  intros Es Eu Hs Hu Hsu Hlt g.
  unfold smooth_extend. rewrite Es, Eu, Hs, Hu. cbn [mbind option_bind].
  fold g. eexists. split; [done|].
  assert (s < length blended)%nat as Hlen by (by eapply lookup_lt_Some).
  destruct (smooth_fold_spec s g s blended Hlen) as (H1 & H2 & H3).
  cbn zeta in *. split; [done|]. split; [done|].
  intros j x y Hj Hx Hy. destruct (H3 j Hj) as (y' & Hy' & Hx').
  rewrite Hy in Hy'. injection Hy' as <-.
  rewrite Hx in Hx'. injection Hx' as ->.
  assert (0 < g) as Hg.
  { unfold g. apply (Qcmult_lt_mono_pos_r _ _ (of_int (Z.of_nat u - Z.of_nat s))).
    - apply (of_int_lt 0). lia.
    - rewrite Qcmult_0_l, Qcdiv_mult_cancel; [qc_lra|].
      apply (of_int_lt 0). lia. }
  destruct (decel_grad_bounds g (s - j) Hg) as [Hlo Hhi].
  set (d := decel_grad g (s - j)) in *.
  assert (0 < d).
  { apply Qclt_le_trans with (float_lit 85 100 * g); [|done].
    apply Qcmult_pos_pos; [by_compute|done]. }
  replace (y - (y - d)) with d by ring.
  split; [qc_lra|done].
Qed.

(** Below the transition the extension stays within [(s - j) * g] of
    the value at the transition. *)
Lemma smooth_extension_span (out : list Qc) (s : nat) (bs g : Qc) :
  out !! s = Some bs →
  (∀ j x y, (j < s)%nat → out !! j = Some x → out !! S j = Some y →
     x < y ∧ y - x ≤ g) →
  ∀ d j x, (j + d = s)%nat → out !! j = Some x →
    bs - of_int (Z.of_nat d) * g ≤ x ∧ x ≤ bs.
Proof.
  intros Hs Hstep. induction d as [|d IH]; intros j x Hj Hx.
  - rewrite Nat.add_0_r in Hj. subst j. rewrite Hs in Hx. injection Hx as <-.
    change (of_int (Z.of_nat 0)) with 0. split; [|apply Qcle_refl].
    clear. qc_lra.
  - assert (is_Some (out !! S j)) as [y Hy].
    { apply lookup_lt_is_Some. apply lookup_lt_Some in Hs. lia. }
    destruct (Hstep j x y ltac:(lia) Hx Hy) as [Hlt Hle].
    destruct (IH (S j) y ltac:(lia) Hy) as [Hlo Hhi].
    replace (Z.of_nat (S d)) with (Z.of_nat d + 1)%Z by lia.
    rewrite of_int_plus. revert Hlt Hle Hlo Hhi.
    generalize (of_int (Z.of_nat d)). clear. intros n Hlt Hle Hlo Hhi.
    assert (of_int 1 = 1) as -> by by_compute.
    split; [|qc_lra].
    apply Qcle_trans with (y - g); [|qc_lra].
    replace (bs - (n + 1) * g) with (bs - n * g - g) by ring. qc_lra.
Qed.

(** *** The pipeline on a grid whose transition indices are known *)

Section blended_in_range.
Variable interp_prev interp_2023 : Qc → Qc.
Variable slope_2023 : Qc.
Variable prev_atars y23_atars y23_aggs grid : list Qc.
Variable p0 pl y0 yl g0 : Qc.
Hypothesis Hp0 : prev_atars !! 0%nat = Some p0.
Hypothesis Hpl : last prev_atars = Some pl.
Hypothesis Hy0 : y23_atars !! 0%nat = Some y0.
Hypothesis Hyl : last y23_atars = Some yl.
Hypothesis Hg0 : y23_aggs !! 0%nat = Some g0.
Hypothesis Hprev : p0 + FADE_ZONE_PREV ≤ of_int 48 ∧ float_lit 9995 100 ≤ pl.
Hypothesis H2023 : y0 + FADE_ZONE_2023 ≤ of_int 48 ∧ float_lit 9995 100 ≤ yl.
Hypothesis Hlen : length grid = 1399%nat.
Hypothesis Hs : searchsorted grid SMOOTH_BELOW = 359%nat.
Hypothesis Hu : searchsorted grid (of_int 52) = 439%nat.
Hypothesis Hgs : grid !! 359%nat = Some (of_int 48).
Hypothesis Hgu : grid !! 439%nat = Some (of_int 52).
Hypothesis Hhigh :
  Forall (λ a, of_int 48 ≤ a ∧ a ≤ float_lit 9995 100) (drop 359 grid).
Hypothesis Htop :
  ∀ a, of_int 48 ≤ a → a ≤ float_lit 9995 100 →
       interp_prev a ≤ of_int 489 ∧ interp_2023 a ≤ of_int 489.
Hypothesis H48 :
  of_int 230 ≤ interp_prev (of_int 48) ∧ interp_prev (of_int 48) ≤ of_int 236 ∧
  of_int 217 ≤ interp_2023 (of_int 48) ∧ interp_2023 (of_int 48) ≤ of_int 222.
Hypothesis H52 :
  of_int 245 ≤ interp_prev (of_int 52) ∧ of_int 235 ≤ interp_2023 (of_int 52) ∧
  interp_prev (of_int 52) ≤ of_int 251 ∧ interp_2023 (of_int 52) ≤ of_int 237.

Let blend := blend_point interp_prev interp_2023 slope_2023
               prev_atars y23_atars y23_aggs.

(** From ATAR 48 upward both years have their full weight. *)
Lemma blend_point_upper a :
  of_int 48 ≤ a → a ≤ float_lit 9995 100 →
  blend a = Some (W_PREV * interp_prev a + W_2023 * interp_2023 a).
Proof.
  intros Hlo Hhi. unfold blend.
  rewrite (blend_point_unfold _ _ _ _ _ _ p0 pl y0 yl Hp0 Hpl Hy0 Hyl).
  destruct Hprev as [Hp1 Hp2]. destruct H2023 as [Hy1 Hy2].
  assert (0 ≤ FADE_ZONE_PREV ∧ 0 ≤ FADE_ZONE_2023) as [Hz1 Hz2]
    by (split; by_compute).
  cbn zeta. unfold weight_prev, weight_2023.
  rewrite !faded_weight_full;
    [|(by apply Qcle_trans with (of_int 48))
      || (by apply Qcle_trans with (float_lit 9995 100)) || done ..].
  assert (W_PREV + W_2023 = 1) as -> by by_compute.
  rewrite decide_True by by_compute.
  rewrite decide_True.
  2:{ split; [|by apply Qcle_trans with (float_lit 9995 100)].
      apply Qcle_trans with (of_int 48); [|done].
      revert Hp1 Hz1. generalize FADE_ZONE_PREV. clear. intros z. qc_lra. }
  rewrite decide_True.
  2:{ split; [|by apply Qcle_trans with (float_lit 9995 100)].
      apply Qcle_trans with (of_int 48); [|done].
      revert Hy1 Hz2. generalize FADE_ZONE_2023. clear. intros z. qc_lra. }
  f_equal. unfold Qcdiv. assert (/ 1 = (1 : Qc)) as -> by by_compute. ring.
Qed.

Lemma blend_point_total a : is_Some (blend a).
Proof.
  unfold blend.
  rewrite (blend_point_unfold _ _ _ _ _ _ p0 pl y0 yl Hp0 Hpl Hy0 Hyl).
  cbn zeta. destruct (decide _); [done|]. by rewrite Hg0.
Qed.

(** The array after the blend loop and the smooth extension: it
    starts at 0 or above, and its entry [i] is at most
    [486.02 + 0.01 * i], which is 500 at the last index. *)
Lemma smooth_blend_bounds :
  ∃ b out v0,
    blend_curve interp_prev interp_2023 slope_2023
      prev_atars y23_atars y23_aggs grid = Some b ∧
    smooth_extend grid b = Some out ∧
    length out = 1399%nat ∧ head out = Some v0 ∧ 0 ≤ v0 ∧
    ∀ i v, out !! i = Some v →
      v ≤ float_lit 48602 100 + float_lit 1 100 * of_int (Z.of_nat i).
Proof.
  assert (is_Some (blend_curve interp_prev interp_2023 slope_2023
                     prev_atars y23_atars y23_aggs grid)) as [b Hb].
  { unfold blend_curve. apply mapM_is_Some, Forall_forall.
    intros a _. apply blend_point_total. }
  pose proof Hb as Hb2. unfold blend_curve in Hb2.
  apply mapM_Some in Hb2. fold blend in Hb2.
  assert (length b = 1399%nat) as Hlb
    by (by rewrite <-(Forall2_length _ _ _ Hb2)).
  assert (∀ i a v, (359 ≤ i)%nat → grid !! i = Some a → b !! i = Some v →
            of_int 48 ≤ a ∧ a ≤ float_lit 9995 100 ∧
            v = W_PREV * interp_prev a + W_2023 * interp_2023 a) as Hval.
  { intros i a v Hi Ha Hv.
    assert (of_int 48 ≤ a ∧ a ≤ float_lit 9995 100) as [Hlo Hhi].
    { rewrite Forall_forall in Hhigh. apply Hhigh.
      apply list_elem_of_lookup. exists (i - 359)%nat.
      rewrite lookup_drop. by replace (359 + (i - 359))%nat with i by lia. }
    split; [done|]. split; [done|].
    pose proof (Forall2_lookup_lr _ _ _ _ _ _ Hb2 Ha Hv) as E.
    change (blend a = Some v) in E.
    rewrite (blend_point_upper a Hlo Hhi) in E. by injection E. }
  assert (is_Some (b !! 359%nat)) as [bs Hbs]
    by (apply lookup_lt_is_Some; lia).
  assert (is_Some (b !! 439%nat)) as [bu Hbu]
    by (apply lookup_lt_is_Some; lia).
  destruct (Hval 359%nat _ bs ltac:(lia) Hgs Hbs) as (_ & _ & Ebs).
  destruct (Hval 439%nat _ bu ltac:(lia) Hgu Hbu) as (_ & _ & Ebu).
  assert (bs < bu ∧ bs ≤ of_int 231 ∧
          0 ≤ bs - of_int 359 * ((bu - bs) / of_int 80)) as (Hlt & Hbs231 & Hlow).
  { rewrite Ebs, Ebu. revert H48 H52.
    generalize (interp_prev (of_int 48)) (interp_2023 (of_int 48))
               (interp_prev (of_int 52)) (interp_2023 (of_int 52)).
    clear. intros a b c d (A1 & A2 & B1 & B2) (C1 & D1 & C2 & D2).
    unfold W_PREV, W_2023. repeat split; qc_lraz. }
  destruct (smooth_extend_steps grid b 359 439 bs bu Hs Hu Hbs Hbu
              ltac:(lia) Hlt) as (out & Hout & Hlo & Hsame & Hstep).
  cbn zeta in Hstep.
  change (of_int (Z.of_nat 439 - Z.of_nat 359)) with (of_int 80) in Hstep.
  assert (out !! 359%nat = Some bs) as Hos by (by rewrite Hsame).
  pose proof (smooth_extension_span out 359 bs _ Hos Hstep) as Hspan.
  assert (is_Some (out !! 0%nat)) as [v0 Hv0]
    by (apply lookup_lt_is_Some; lia).
  exists b, out, v0. split; [exact Hb|]. split; [exact Hout|].
  split; [lia|]. split; [by rewrite head_lookup|]. split.
  - destruct (Hspan 359%nat 0%nat v0 ltac:(lia) Hv0) as [H1 _].
    change (of_int (Z.of_nat 359)) with (of_int 359) in H1.
    by apply Qcle_trans with (bs - of_int 359 * ((bu - bs) / of_int 80)).
  - intros i v Hv.
    assert (0 ≤ of_int (Z.of_nat i)) as Hi0 by (apply (of_int_le 0); lia).
    destruct (decide (i < 359)%nat) as [Hi|Hi].
    + destruct (Hspan (359 - i)%nat i v ltac:(lia) Hv) as [_ H2].
      revert H2 Hbs231 Hi0. generalize (of_int (Z.of_nat i)). clear.
      intros n H2 H231 Hn. qc_lraz.
    + assert (is_Some (grid !! i)) as [a Ha].
      { apply lookup_lt_is_Some. apply lookup_lt_Some in Hv. lia. }
      rewrite Hsame in Hv by lia.
      destruct (Hval i a v ltac:(lia) Ha Hv) as (Hlo48 & Hhi & ->).
      destruct (Htop a Hlo48 Hhi) as [T1 T2].
      assert (of_int 359 ≤ of_int (Z.of_nat i)) as Hi359
        by (apply of_int_le; lia).
      revert T1 T2 Hi359. generalize (of_int (Z.of_nat i))
        (interp_prev a) (interp_2023 a). clear.
      intros n x y T1 T2 Hn. unfold W_PREV, W_2023. qc_lraz.
Qed.

(** After the forward pass and the clamp the array is strictly
    increasing, and the clamp has changed nothing. *)
Lemma blended_in_range_strict :
  ∃ b out,
    blend_curve interp_prev interp_2023 slope_2023
      prev_atars y23_atars y23_aggs grid = Some b ∧
    smooth_extend grid b = Some out ∧
    length (monotone_blended out) = 1399%nat ∧
    monotone_blended out = enforce_monotone out ∧
    Sorted Qclt (monotone_blended out) ∧
    Forall (λ v, 0 ≤ v ∧ v ≤ of_int 500) (monotone_blended out).
Proof.
  destruct smooth_blend_bounds as (b & out & v0 & Hb & Hout & Hlo & Hh & Hv0 & Hup).
  exists b, out. split; [exact Hb|]. split; [exact Hout|].
  pose proof (enforce_monotone_strict out) as Hsorted.
  pose proof (enforce_monotone_upper _ out Hup) as Hup'.
  assert (∀ i v, enforce_monotone out !! i = Some v → v ≤ of_int 500) as H500.
  { intros i v Hv. specialize (Hup' i v Hv).
    assert (i < 1399)%nat as Hi.
    { apply lookup_lt_Some in Hv. rewrite enforce_monotone_length in Hv. lia. }
    assert (of_int (Z.of_nat i) ≤ of_int 1398) as Hi' by (apply of_int_le; lia).
    revert Hup' Hi'. generalize (of_int (Z.of_nat i)). clear.
    intros n H1 H2. qc_lraz. }
  assert (clamp_blended (enforce_monotone out) = enforce_monotone out) as E.
  { apply (clamp_sorted_in_range _ v0); [done| |done|done].
    by rewrite enforce_monotone_head. }
  unfold monotone_blended. rewrite E.
  split; [by rewrite enforce_monotone_length|]. split; [done|].
  split; [done|].
  apply Forall_forall. intros v Hv.
  apply list_elem_of_lookup in Hv as [i Hi]. split; [|by apply (H500 i)].
  rewrite <-E in Hi. unfold clamp_blended in Hi.
  rewrite !list_lookup_fmap in Hi.
  destruct (enforce_monotone out !! i) as [w|]; [|done].
  cbn in Hi. injection Hi as <-. unfold np_maximum.
  destruct (decide _) as [H|H]; [by apply Qclt_le_weak|apply Qcle_refl].
Qed.
End blended_in_range.

(** *** The blended curve of the script's reference data *)

Lemma bracketed_bounds xs ys f x0 xl a lo hi :
  shape_preserving xs ys f →
  xs !! 0%nat = Some x0 → last xs = Some xl → x0 ≤ a → a ≤ xl →
  bracketed (zip xs ys) x0 xl (a, lo, hi) → lo ≤ f a ∧ f a ≤ hi.
Proof.
  intros Hf H0 Hl Ha0 Hal [Hlo Hhi]. cbn [fst snd] in *. split.
  - by apply (shape_lower xs ys f x0 xl).
  - by apply (shape_upper xs ys f x0 xl).
Qed.

Lemma bracketed_top xs ys f x0 xl lo hi (m : Qc) :
  shape_preserving xs ys f →
  xs !! 0%nat = Some x0 → last xs = Some xl → x0 ≤ m →
  bracketed (zip xs ys) x0 xl (xl, lo, hi) →
  ∀ a, m ≤ a → a ≤ xl → f a ≤ hi.
Proof.
  intros Hf H0 Hl Hm [_ Hhi] a Ha Hal. cbn [fst snd] in Hhi.
  apply (shape_upper xs ys f x0 xl a hi Hf H0 Hl).
  - by apply Qcle_trans with m.
  - eapply Exists_impl; [exact Hhi|]. intros p (Q1 & Q2 & Q3).
    split; [by apply Qcle_trans with xl|done].
Qed.

(** C2: for the reference data of the script, and for interpolants
    that pass through the cleaned data points and do not decrease on
    the range of the data (as PCHIP does on increasing data), the
    array [blended] after the forward pass and the clamp into
    [[0, 500]] has one value per grid point and is strictly
    increasing at every adjacent pair of grid points; the script's
    own check counts no violation.  The clamp, which comes after the
    repair, changes nothing here, since every value lies in
    [[0, 500]] already. *)
Theorem blended_strictly_increasing (interp_prev interp_2023 : Qc → Qc)
    (slope_2023 : Qc) :
  shape_preserving prev_atars prev_aggs interp_prev →
  shape_preserving y23_atars y23_aggs interp_2023 →
  ∃ blended,
    blended_final interp_prev interp_2023 slope_2023 = Some blended ∧
    length blended = length atar_grid ∧
    (∀ i x y, blended !! i = Some x → blended !! S i = Some y → x < y) ∧
    Forall (λ v, 0 ≤ v ∧ v ≤ of_int 500) blended ∧
    n_violations blended = 0%nat.
Proof.
  intros Hprev H2023.
  destruct reference_ranges as (Hp0 & Hpl & Hy0 & Hyl & Hg0).
  destruct atar_grid_transition as (Hs & Hu & Hgs & Hgu).
  destruct reference_brackets as [Bp By].
  apply Forall_cons in Bp as [Bp48 Bp]. apply Forall_cons in Bp as [Bp52 Bp].
  apply Forall_cons in Bp as [Bptop _].
  apply Forall_cons in By as [By48 By]. apply Forall_cons in By as [By52 By].
  apply Forall_cons in By as [Bytop _].
  assert (float_lit 3746 100 ≤ of_int 48 ∧ of_int 48 ≤ float_lit 9995 100 ∧
          float_lit 3746 100 ≤ of_int 52 ∧ of_int 52 ≤ float_lit 9995 100 ∧
          float_lit 3142 100 ≤ of_int 48 ∧ float_lit 3142 100 ≤ of_int 52)
    as (R1 & R2 & R3 & R4 & R5 & R6) by (clear; repeat split; by_compute).
  destruct (bracketed_bounds _ _ _ _ _ _ _ _ Hprev Hp0 Hpl R1 R2 Bp48)
    as [P48l P48u].
  destruct (bracketed_bounds _ _ _ _ _ _ _ _ Hprev Hp0 Hpl R3 R4 Bp52)
    as [P52l P52u].
  destruct (bracketed_bounds _ _ _ _ _ _ _ _ H2023 Hy0 Hyl R5 R2 By48)
    as [Y48l Y48u].
  destruct (bracketed_bounds _ _ _ _ _ _ _ _ H2023 Hy0 Hyl R6 R4 By52)
    as [Y52l Y52u].
  pose proof (bracketed_top _ _ _ _ _ _ _ (of_int 48) Hprev Hp0 Hpl R1 Bptop)
    as Tp.
  pose proof (bracketed_top _ _ _ _ _ _ _ (of_int 48) H2023 Hy0 Hyl R5 Bytop)
    as Ty.
  destruct (blended_in_range_strict interp_prev interp_2023 slope_2023
              prev_atars y23_atars y23_aggs atar_grid
              (float_lit 3746 100) (float_lit 9995 100)
              (float_lit 3142 100) (float_lit 9995 100) (float_lit 14802 100)
              Hp0 Hpl Hy0 Hyl Hg0
              ltac:(clear; split; by_compute) ltac:(clear; split; by_compute)
              atar_grid_length Hs Hu Hgs Hgu atar_grid_upper
              (λ a Hlo Hhi, conj (Tp a Hlo Hhi) (Ty a Hlo Hhi))
              (conj P48l (conj P48u (conj Y48l Y48u)))
              (conj P52l (conj Y52l (conj P52u Y52u))))
    as (b & out & Hb & Hout & Hlen & _ & Hsorted & Hrange).
  exists (monotone_blended out). split.
  { unfold blended_final. rewrite Hb. cbn [mbind option_bind].
    rewrite Hout. reflexivity. }
  split; [rewrite Hlen; symmetry; exact atar_grid_length|].
  split; [|split; [exact Hrange|exact (n_violations_sorted _ Hsorted)]].
  clear -Hsorted. intros i x y Hx Hy.
  apply Sorted_Qclt_strongly in Hsorted.
  apply (StronglySorted_lookup _ _ i (S i) x y Hsorted); [lia|exact Hx|exact Hy].
Qed.

Lemma blended_strictly_increasing_witness :
  let interp_prev := stair_interp prev_atars prev_aggs in
  let interp_2023 := stair_interp y23_atars y23_aggs in
  (shape_preserving prev_atars prev_aggs interp_prev ∧
   shape_preserving y23_atars y23_aggs interp_2023) ∧
  ∃ blended,
    blended_final interp_prev interp_2023 (of_int 5) = Some blended ∧
    length blended = length atar_grid ∧
    (∀ i x y, blended !! i = Some x → blended !! S i = Some y → x < y) ∧
    Forall (λ v, 0 ≤ v ∧ v ≤ of_int 500) blended ∧
    n_violations blended = 0%nat.
Proof.
  intros interp_prev interp_2023.
  destruct reference_points_increasing as [Hp Hy].
  pose proof (stair_interp_shape prev_atars prev_aggs Hp) as H1.
  pose proof (stair_interp_shape y23_atars y23_aggs Hy) as H2.
  split; [exact (conj H1 H2)|].
  exact (blended_strictly_increasing interp_prev interp_2023 (of_int 5) H1 H2).
Defined.

(* ================================================================= *)
(** ** The population split, once more *)

Lemma assign_shares_lookup g h m U i b :
  NoDup U → U !! i = Some b → assign_shares g h m U !! b = Some (g (h i)).
Proof.
  revert h m i. induction U as [|u U IH]; intros h m i Hnd Hi; [done|].
  apply NoDup_cons in Hnd as [Hu Hnd].
  change (assign_shares g h m (u :: U))
    with (assign_shares g (h ∘ S) (<[u := g (h 0%nat)]> m) U).
  destruct i as [|i]; cbn in Hi.
  - simplify_eq. rewrite assign_shares_notin by done.
    by rewrite lookup_insert_eq.
  - by rewrite (IH (h ∘ S) _ i).
Qed.

Lemma assign_shares_value g h m U b v :
  assign_shares g h m U !! b = Some v →
  m !! b = Some v ∨ ∃ i, v = g (h i).
Proof.
  revert h m. induction U as [|u U IH]; intros h m Hv; [by left|].
  change (assign_shares g h m (u :: U))
    with (assign_shares g (h ∘ S) (<[u := g (h 0%nat)]> m) U) in Hv.
  apply IH in Hv as [Hv|[i ->]]; [|right; by exists (S i)].
  destruct (decide (u = b)) as [->|Hne].
  - rewrite lookup_insert_eq in Hv. simplify_eq. right. by exists 0%nat.
  - rewrite lookup_insert_ne in Hv by done. by left.
Qed.

(** A range leaves every band alone that has a count already. *)
Lemma process_range_keeps m r b n :
  m !! b = Some n → process_range m r !! b = Some n.
Proof.
  intros Hb. destruct r as [[low high] total].
  rewrite process_range_unfold. cbn zeta.
  destruct (decide _); [done|].
  rewrite assign_shares_notin; [done|].
  rewrite py_sorted_Permutation. intros Hin.
  apply list_elem_of_filter in Hin as [Hnone _]. congruence.
Qed.

Lemma process_range_nonneg m r :
  map_Forall (λ _ n, 0 ≤ n)%Z m →
  map_Forall (λ _ n, 0 ≤ n)%Z (process_range m r).
Proof.
  intros Hm. destruct r as [[low high] total].
  rewrite process_range_unfold. cbn zeta.
  destruct (decide _) as [|Hgo]; [done|].
  intros b v Hv. apply assign_shares_value in Hv as [Hv|[i ->]].
  - by apply (Hm b).
  - unfold share.
    set (rem := (total - _)%Z) in *.
    set (n := Z.of_nat _) in *.
    assert (0 < rem)%Z by lia.
    assert (0 < n)%Z by (unfold n; lia).
    assert (0 ≤ rem `div` n)%Z by (apply Z.div_pos; lia).
    destruct (decide _); lia.
Qed.

Lemma assign_table13_nonneg table13 :
  Forall (λ e : Qc * Z, 0 ≤ e.2)%Z table13 →
  map_Forall (λ _ n, 0 ≤ n)%Z (assign_table13 table13).
Proof.
  unfold assign_table13. intros H.
  assert (∀ m : gmap Qc Z, map_Forall (λ _ n, 0 ≤ n)%Z m →
            map_Forall (λ _ n, 0 ≤ n)%Z
              (foldl (λ bs '(atar, count), <[round2 atar := count]> bs)
                     m table13)) as Hgen.
  { induction H as [|[a c] t Hc _ IH]; intros m Hm; [done|].
    cbn [foldl]. apply IH. by apply map_Forall_insert_2. }
  apply Hgen, map_Forall_empty.
Qed.

(** X10 (band split): a band whose count is listed individually keeps
    that count, whatever the ranges say. *)
Theorem listed_band_keeps_count (table13 : band_table)
    (table14 : range_table) (b : Qc) (n : Z) :
  assign_table13 table13 !! b = Some n →
  build_band_students table13 table14 !! b = Some n.
Proof.
  unfold build_band_students. generalize (assign_table13 table13) as m.
  induction table14 as [|r t IH]; intros m Hb; [done|].
  cbn [foldl]. by apply IH, process_range_keeps.
Qed.

(** X11 (band split): when no individually listed count is negative,
    no band ends up with a negative count. *)
Theorem band_counts_nonnegative (table13 : band_table)
    (table14 : range_table) :
  Forall (λ e, 0 ≤ e.2)%Z table13 →
  map_Forall (λ _ n, 0 ≤ n)%Z (build_band_students table13 table14).
Proof.
  intros H13. unfold build_band_students.
  apply assign_table13_nonneg in H13. revert H13.
  generalize (assign_table13 table13) as m.
  induction table14 as [|r t IH]; intros m Hm; [done|].
  cbn [foldl]. by apply IH, process_range_nonneg.
Qed.

(** X12 (band split): the bands that a range fills get shares that
    differ by at most one student, and a higher band never gets less
    than a lower one: the students left over by the integer division
    go to the highest free bands. *)
Theorem range_shares_balanced (m : gmap Qc Z) (r : Qc * Qc * Z)
    (b b' : Qc) (n n' : Z) :
  m !! b = None → m !! b' = None →
  process_range m r !! b = Some n → process_range m r !! b' = Some n' →
  b' < b → (n' ≤ n ∧ n ≤ n' + 1)%Z.
Proof.
  intros Hb Hb' Hn Hn' Hlt. destruct r as [[low high] total].
  rewrite process_range_unfold in Hn, Hn'. cbn zeta in Hn, Hn'.
  destruct (decide _) as [|Hgo]; [congruence|].
  set (U := filter (λ br, m !! br = None) (bands_in_range low high)) in *.
  set (sU := py_sorted id true U) in *.
  assert (StronglySorted (λ x y : Qc, y < x) sU) as Hs.
  { apply (py_sorted_desc_strict id). rewrite list_fmap_id.
    apply NoDup_filter, (range_bands_NoDup (low, high, total)). }
  assert (NoDup sU) as Hnd by (by apply strict_desc_NoDup).
  assert (b ∈ sU) as Hin.
  { apply mk_is_Some, assign_shares_dom in Hn as [?|[? ?]]; [done|congruence]. }
  assert (b' ∈ sU) as Hin'.
  { apply mk_is_Some, assign_shares_dom in Hn' as [?|[? ?]]; [done|congruence]. }
  apply list_elem_of_lookup in Hin as [i Hi].
  apply list_elem_of_lookup in Hin' as [j Hj].
  rewrite (assign_shares_lookup _ _ _ _ i b Hnd Hi) in Hn.
  rewrite (assign_shares_lookup _ _ _ _ j b' Hnd Hj) in Hn'.
  assert (i < j)%nat as Hij.
  { destruct (decide (i < j)%nat) as [|Hge]; [done|]. exfalso.
    destruct (decide (i = j)) as [->|Hne].
    - rewrite Hi in Hj. simplify_eq. by apply Qclt_not_eq in Hlt.
    - pose proof (StronglySorted_lookup _ sU j i b' b Hs ltac:(lia) Hj Hi) as H.
      cbn in H. qc_lra. }
  simplify_eq. unfold share, id.
  repeat destruct (decide _); lia.
Qed.

Lemma listed_band_keeps_count_witness :
  assign_table13 example_table13 !! float_lit 9995 100 = Some 37%Z ∧
  build_band_students example_table13 example_table14 !! float_lit 9995 100
  = Some 37%Z.
Proof.
  assert (assign_table13 example_table13 !! float_lit 9995 100 = Some 37%Z)
    as H by by_compute.
  split; [exact H|].
  exact (listed_band_keeps_count example_table13 example_table14 _ _ H).
Defined.

Lemma band_counts_nonnegative_witness :
  map_Forall (λ _ n, 0 ≤ n)%Z
    (build_band_students example_table13 example_table14).
Proof.
  apply (band_counts_nonnegative example_table13 example_table14).
  repeat constructor; cbn; lia.
Defined.

(** A range of 151 students over four bands of which the upper two
    hold 37 each: 77 remain for two bands, 39 for the upper one. *)
Lemma range_shares_balanced_witness :
  process_range (assign_table13 example_table13)
    (float_lit 9980 100, float_lit 9995 100, 151%Z) !! float_lit 9985 100
  = Some 39%Z ∧
  process_range (assign_table13 example_table13)
    (float_lit 9980 100, float_lit 9995 100, 151%Z) !! float_lit 9980 100
  = Some 38%Z ∧
  (38 ≤ 39 ∧ 39 ≤ 38 + 1)%Z.
Proof.
  assert (process_range (assign_table13 example_table13)
            (float_lit 9980 100, float_lit 9995 100, 151%Z) !! float_lit 9985 100
          = Some 39%Z) as H1 by by_compute.
  assert (process_range (assign_table13 example_table13)
            (float_lit 9980 100, float_lit 9995 100, 151%Z) !! float_lit 9980 100
          = Some 38%Z) as H2 by by_compute.
  split; [exact H1|]. split; [exact H2|].
  apply (range_shares_balanced (assign_table13 example_table13)
           (float_lit 9980 100, float_lit 9995 100, 151%Z)
           (float_lit 9985 100) (float_lit 9980 100) 39 38);
    [by_compute|by_compute|exact H1|exact H2|by_compute].
Defined.

(* ================================================================= *)
(** ** The percentile of a band *)

Lemma range_sum_nonneg (m : gmap Qc Z) l :
  map_Forall (λ _ n, 0 ≤ n)%Z m → (0 ≤ range_sum m l)%Z.
Proof.
  intros Hm. induction l as [|b l IH].
  - unfold range_sum, sum_int. cbn. lia.
  - rewrite range_sum_cons. destruct (m !! b) as [n|] eqn:E; cbn; [|lia].
    specialize (Hm b n E). cbn in Hm. lia.
Qed.

Lemma range_sum_ge_elem (m : gmap Qc Z) l b :
  map_Forall (λ _ n, 0 ≤ n)%Z m → b ∈ l →
  (getitem m b ≤ range_sum m l)%Z.
Proof.
  intros Hm Hin. apply list_elem_of_split in Hin as (l1 & l2 & ->).
  rewrite range_sum_app, range_sum_cons.
  pose proof (range_sum_nonneg m l1 Hm). pose proof (range_sum_nonneg m l2 Hm).
  unfold getitem. lia.
Qed.

(** The cumulative count stored for the band at position [i]: the
    counts of the bands down to it. *)
Lemma build_cumulative_lookup (m : gmap Qc Z) i b :
  sorted_bands m !! i = Some b →
  (build_cumulative m).2 !! b
  = Some (range_sum m (take (S i) (sorted_bands m))).
Proof.
  unfold build_cumulative.
  assert (NoDup (sorted_bands m)) as Hnd
    by apply strict_desc_NoDup, sorted_bands_strict.
  revert Hnd. generalize (sorted_bands m) as l. intros l Hnd Hi.
  assert (∀ l run (c : gmap Qc Z) i b, NoDup l → l !! i = Some b →
            (foldl (λ '(running, cumulative) band,
                      let running := (running + getitem m band)%Z in
                      (running, <[band := running]> cumulative))
                   (run, c) l).2 !! b
            = Some (run + range_sum m (take (S i) l))%Z) as Hgen.
  { clear. induction l as [|x l IH]; intros run c i b Hnd Hi; [done|].
    apply NoDup_cons in Hnd as [Hx Hnd]. cbn [foldl].
    destruct i as [|i]; cbn in Hi.
    - simplify_eq. cbn [take].
      assert (∀ l run (c : gmap Qc Z), b ∉ l →
                (foldl (λ '(running, cumulative) band,
                          let running := (running + getitem m band)%Z in
                          (running, <[band := running]> cumulative))
                       (run, c) l).2 !! b = c !! b) as Hnot.
      { clear. induction l as [|y l IH]; intros run c Hb; [done|].
        apply not_elem_of_cons in Hb as [Hne Hb]. cbn [foldl].
        rewrite IH by done. by rewrite lookup_insert_ne. }
      rewrite Hnot by done. rewrite lookup_insert_eq.
      by f_equal.
    - rewrite (IH _ _ i b Hnd Hi). cbn [take]. rewrite range_sum_cons.
      unfold getitem. f_equal. lia. }
  by rewrite (Hgen l 0%Z ∅ i b Hnd Hi).
Qed.

Lemma clamp_percent_mono (x y : Qc) :
  x ≤ y → pymax 0 (pymin (of_int 100) x) ≤ pymax 0 (pymin (of_int 100) y).
Proof.
  intros H. unfold pymax, pymin.
  repeat (destruct (decide _)); qc_lraz.
Qed.

Lemma percent_mono (x y t : Qc) :
  0 < t → x ≤ y → x / t * of_int 100 ≤ y / t * of_int 100.
Proof.
  intros Ht H. apply Qcmult_le_mono_nonneg_r; [by_compute|].
  apply (Qcmult_lt_0_le_reg_r _ _ t); [done|].
  by rewrite !Qcdiv_mult_cancel.
Qed.

(** X13 (percentile of a band): when no band has a negative count and
    the total is positive, the clamped population percentile that is
    looked up on the simulated curve does not increase from a band to
    a lower band. *)
Theorem band_percentile_monotone (band_students : gmap Qc Z)
    (TOTAL_STUDENTS : Z) (b b' : Qc) :
  map_Forall (λ _ n, 0 ≤ n)%Z band_students → (0 < TOTAL_STUDENTS)%Z →
  is_Some (band_students !! b) → is_Some (band_students !! b') → b' < b →
  let cumulative := (build_cumulative band_students).2 in
  band_percentile band_students cumulative TOTAL_STUDENTS b'
  ≤ band_percentile band_students cumulative TOTAL_STUDENTS b.
Proof.
  intros Hm HT Hb Hb' Hlt cumulative.
  set (l := sorted_bands band_students).
  assert (∀ x, is_Some (band_students !! x) → x ∈ l) as Hmem.
  { intros x Hx. unfold l, sorted_bands. rewrite py_sorted_Permutation.
    by apply elem_of_elements, elem_of_dom. }
  destruct (proj1 (list_elem_of_lookup _ _) (Hmem b Hb)) as [i Hi].
  destruct (proj1 (list_elem_of_lookup _ _) (Hmem b' Hb')) as [j Hj].
  assert (i < j)%nat as Hij.
  { destruct (decide (i < j)%nat) as [|Hge]; [done|]. exfalso.
    destruct (decide (i = j)) as [->|Hne].
    - rewrite Hi in Hj. simplify_eq. by apply Qclt_not_eq in Hlt.
    - pose proof (StronglySorted_lookup _ l j i b' b
                    (sorted_bands_strict band_students) ltac:(lia) Hj Hi) as H.
      cbn in H. qc_lra. }
  unfold band_percentile, cumulative, getitem at 1 3.
  rewrite (build_cumulative_lookup _ i b Hi), (build_cumulative_lookup _ j b' Hj).
  cbn [default from_option id]. unfold id. fold l.
  set (ci := range_sum band_students (take (S i) l)).
  set (cj := range_sum band_students (take (S j) l)).
  assert (ci + getitem band_students b' ≤ cj)%Z as Hc.
  { unfold ci, cj.
    rewrite <-(take_drop (S i) (take (S j) l)), range_sum_app.
    rewrite take_take. replace (S i `min` S j)%nat with (S i) by lia.
    apply Z.add_le_mono_l. apply range_sum_ge_elem; [done|].
    apply list_elem_of_lookup. exists (j - S i)%nat.
    rewrite lookup_drop, lookup_take_lt by lia.
    by replace (S i + (j - S i))%nat with j by lia. }
  assert (0 ≤ getitem band_students b)%Z as Hn.
  { destruct Hb as [n E]. unfold getitem. rewrite E. by apply (Hm b n). }
  assert (0 ≤ getitem band_students b')%Z as Hn'.
  { destruct Hb' as [n E]. unfold getitem. rewrite E. by apply (Hm b' n). }
  apply clamp_percent_mono, percent_mono; [by apply (of_int_lt 0)|].
  apply of_int_le in Hc, Hn, Hn'. rewrite of_int_plus in Hc.
  clearbody ci cj. revert Hc Hn Hn'.
  generalize (of_int ci) (of_int cj) (of_int (getitem band_students b))
             (of_int (getitem band_students b')) (of_int TOTAL_STUDENTS).
  intros qi qj n n' t Hc Hn Hn'.
  change (of_int 0) with 0 in *. qc_lraz.
Qed.

Lemma band_percentile_monotone_witness :
  let cumulative := (build_cumulative example_band_students).2 in
  band_percentile example_band_students cumulative 150 (float_lit 9980 100)
  ≤ band_percentile example_band_students cumulative 150 (float_lit 9995 100).
Proof.
  apply (band_percentile_monotone example_band_students 150
           (float_lit 9995 100) (float_lit 9980 100)).
  - by_compute.
  - lia.
  - by_compute.
  - by_compute.
  - by_compute.
Defined.

(* ================================================================= *)
(** ** The files written from the final table *)

Lemma py_sorted_desc_id {A} (key : A → Qc) (l : list A) :
  StronglySorted (λ a b, key b < key a) l → py_sorted key true l = l.
Proof.
  unfold py_sorted. induction 1 as [|x t _ IH Hx]; [done|].
  cbn [foldr]. rewrite IH. destruct t as [|y t']; [done|].
  apply Forall_cons in Hx as [Hxy _]. cbn.
  rewrite decide_True; [done|]. by apply Qclt_le_weak.
Qed.

Lemma StronglySorted_of_fmap {A B} (R : relation B) (f : A → B) l :
  StronglySorted R (f <$> l) → StronglySorted (λ a b, R (f a) (f b)) l.
Proof.
  induction l as [|x l IH]; [constructor|].
  rewrite fmap_cons. intros [Hs Hx]%StronglySorted_inv.
  constructor; [by apply IH|]. by rewrite Forall_fmap in Hx.
Qed.

Lemma StronglySorted_and {A} (R1 R2 : relation A) l :
  StronglySorted R1 l → StronglySorted R2 l →
  StronglySorted (λ a b, R1 a b ∧ R2 a b) l.
Proof.
  induction 1 as [|x l _ IH Hx]; [constructor|].
  intros [Hs Hx2]%StronglySorted_inv. constructor; [by apply IH|].
  rewrite Forall_forall in Hx, Hx2 |- *. auto.
Qed.

Lemma final_results_desc agg_lookup band_students TOTAL :
  StronglySorted (λ a b, atar b < atar a ∧ agg b < agg a)
    (final_results agg_lookup band_students TOTAL).
Proof.
  apply StronglySorted_and.
  - apply (StronglySorted_of_fmap (λ x y : Qc, y < x) atar).
    rewrite final_results_atar. apply sorted_bands_strict.
  - apply fix_rounding_ties_sorted.
Qed.

(** X14 (files written from the final table): the scale archive of
    [save_current_scale] lists the final table in reverse order, which
    is strictly increasing both in ATAR and in aggregate, so the sort
    that [load_historical_scales] applies to the pairs of a file
    changes nothing; and the second CSV file lists the bands in the
    order of the table itself. *)
Theorem scale_files_order (agg_lookup : gmap Qc Qc)
    (band_students : gmap Qc Z) (TOTAL : Z) :
  let rs := final_results agg_lookup band_students TOTAL in
  saved_rows rs = reverse ((λ row, (atar row, agg row)) <$> rs) ∧
  StronglySorted (λ p q : Qc * Qc, p.1 < q.1 ∧ p.2 < q.2) (saved_rows rs) ∧
  loaded_pairs (saved_rows rs) = saved_rows rs ∧
  lookup_rows rs = (λ row, (agg row, atar row)) <$> rs.
Proof.
  intros rs. pose proof (final_results_desc agg_lookup band_students TOTAL) as Hd.
  fold rs in Hd.
  assert (saved_rows rs = reverse ((λ row, (atar row, agg row)) <$> rs)) as E.
  { unfold saved_rows. rewrite (py_sorted_asc_of_strict_desc atar).
    - by rewrite fmap_reverse.
    - eapply StronglySorted_weaken; [|exact Hd]. by intros a b [? ?]. }
  assert (StronglySorted (λ p q : Qc * Qc, p.1 < q.1 ∧ p.2 < q.2)
            (saved_rows rs)) as Hs.
  { rewrite E. apply Sorted_StronglySorted.
    { intros x y z [? ?] [? ?]. split; by etrans. }
    apply (Sorted_reverse (λ p q : Qc * Qc, q.1 < p.1 ∧ q.2 < p.2)).
    apply StronglySorted_Sorted.
    eapply StronglySorted_fmap; [|exact Hd]. by intros a b [? ?]. }
  split; [done|]. split; [done|]. split.
  - unfold loaded_pairs. apply py_sorted_asc_id.
    eapply StronglySorted_weaken; [|exact Hs]. by intros p q [? ?].
  - unfold lookup_rows. rewrite (py_sorted_desc_id agg); [done|].
    eapply StronglySorted_weaken; [|exact Hd]. by intros a b [? ?].
Qed.

(* ================================================================= *)
(** ** The batch builder's estimate of the Max anchor *)

Lemma pymin_mono_r a x y : x ≤ y → pymin a x ≤ pymin a y.
Proof. intros H. unfold pymin. repeat destruct (decide _); qc_lra. Qed.

(** X15 (estimate_max): the estimated Max anchor never leaves the
    scale: [Max X <= 100] and [Max Y <= 100]; it lies at least one
    raw mark right of P99 and half a scaled mark above it, unless the
    cap at 100 prevents that. *)
Theorem estimate_max_bounds (x90 x99 y90 y99 : Qc) :
  let r := estimate_max x90 x99 y90 y99 in
  r.1 ≤ of_int 100 ∧ pymin (of_int 100) (x99 + 1) ≤ r.1 ∧
  r.2 ≤ of_int 100 ∧ pymin (of_int 100) (y99 + float_lit 5 10) ≤ r.2.
Proof.
  unfold estimate_max. cbn [fst snd]. split; [apply pymin_le_l|].
  split; [|split; [apply pymin_le_l|]].
  - apply pymin_mono_r. pose proof (pymax_ge_l 1 (x99 - x90)) as H.
    revert H. generalize (pymax 1 (x99 - x90)). intros m H. qc_lra.
  - apply pymin_mono_r, pymax_ge_r.
Qed.

(** X16 (estimate_max): for a subject whose 99th percentile is the
    raw mark 100 the estimated Max anchor has the same raw mark as
    P99, so that the fit gets two anchors at [x = 100]: P99 at
    [P99 Y] and Max at [min(100, P99 Y + 0.5)]. *)
Theorem estimate_max_at_full_marks (x90 y90 y99 : Qc) :
  estimate_max x90 (of_int 100) y90 y99
  = (of_int 100, pymin (of_int 100) (y99 + float_lit 5 10)).
Proof.
  unfold estimate_max.
  assert (pymin (of_int 100) (of_int 100 + pymax 1 (of_int 100 - x90))
          = of_int 100) as ->.
  { unfold pymin. rewrite decide_False; [done|].
    pose proof (pymax_ge_l 1 (of_int 100 - x90)) as H.
    revert H. generalize (pymax 1 (of_int 100 - x90)). intros m H. qc_lraz. }
  f_equal. f_equal.
  assert (∀ k : Qc, y99 + k * (of_int 100 - of_int 100) = y99) as E
    by (intros; ring).
  destruct (decide (x90 < of_int 100)); rewrite ?E;
    unfold pymax; rewrite decide_True; (done || qc_lra).
Qed.

(* ================================================================= *)
(** ** Polynomial evaluation in the application *)

Lemma eval_poly_shift (x : Qc) (n k : nat) (a : Qc) (l : list Qc) :
  foldl (λ result '(i, c), result + c * x ^ (n - 1 - i)) a
        (imap (λ i c, (k + i, c)%nat) l)
  = a + foldl (λ result '(i, c), result + c * x ^ (n - k - 1 - i)) 0
              (imap (λ i c, (i, c)) l).
Proof.
  revert n k a. induction l as [|c l IH]; intros n k a; [cbn; ring|].
  rewrite !imap_cons. cbn [foldl].
  rewrite (imap_ext _ (λ i c, (S k + i, c)%nat) l)
    by (intros; unfold compose; f_equal; lia).
  rewrite (IH n (S k)).
  rewrite (imap_ext ((λ i c, (i, c)) ∘ S) (λ i c, (1 + i, c)%nat) l) by done.
  rewrite (IH (n - k)%nat 1%nat (0 + c * x ^ (n - k - 1 - 0))).
  replace (n - 1 - (k + 0))%nat with (n - k - 1 - 0)%nat by lia.
  replace (n - S k - 1)%nat with (n - k - 1 - 1)%nat by lia.
  ring.
Qed.

Lemma eval_poly_cons c cs x :
  eval_poly (c :: cs) x = c * x ^ length cs + eval_poly cs x.
Proof.
  unfold eval_poly. rewrite imap_cons. cbn [foldl length].
  rewrite (imap_ext ((λ i c, (i, c)) ∘ S) (λ i c, (1 + i, c)%nat) cs) by done.
  rewrite eval_poly_shift.
  replace (S (length cs) - 1 - 0)%nat with (length cs) by lia.
  replace (S (length cs) - 1 - 1)%nat with (length cs - 1)%nat by lia.
  ring.
Qed.

Lemma horner_from (x a : Qc) cs :
  foldl (λ acc c, acc * x + c) a cs = a * x ^ length cs + eval_poly cs x.
Proof.
  revert a. induction cs as [|c cs IH]; intros a.
  - cbn. unfold eval_poly. cbn. ring.
  - cbn [foldl length]. rewrite IH, eval_poly_cons.
    change (x ^ S (length cs)) with (x * x ^ length cs). ring.
Qed.

(** X17 (eval_poly): the loop over the coefficients computes the same
    value as Horner's rule, for any number of coefficients; on the
    five stored coefficients it is the quartic that
    [compute_polynomials], the optimizer and the batch script's
    [eval_poly_4] write out. *)
Theorem eval_poly_horner (coeffs : list Qc) (x c4 c3 c2 c1 c0 : Qc) :
  eval_poly coeffs x = horner coeffs x ∧
  eval_poly [c4; c3; c2; c1; c0] x = quartic (c4, c3, c2, c1, c0) x.
Proof.
  split.
  - unfold horner. rewrite horner_from. ring.
  - rewrite !eval_poly_cons. unfold eval_poly, quartic. cbn. ring.
Qed.

(* ================================================================= *)
(** ** Rounding against values with two decimals *)

Lemma float_lit_le k j : float_lit k 100 ≤ float_lit j 100 ↔ (k ≤ j)%Z.
Proof.
  unfold float_lit, Qcle. cbn [this Q2Qc]. rewrite !Qred_correct.
  unfold Qle. cbn. lia.
Qed.

Lemma round2_le_grid v j : v ≤ float_lit j 100 → round2 v ≤ float_lit j 100.
Proof.
  intros Hv. destruct (round2_on_grid v) as [k Hk].
  pose proof (round2_bounds v) as [_ Hb]. rewrite Hk in Hb |- *.
  apply float_lit_le.
  assert ((k # 100) <= (j # 100) + (5 # 1000))%Q as H.
  { revert Hb Hv. unfold float_lit, Qcle, Qcplus. cbn [this Q2Qc].
    rewrite !Qred_correct. lra. }
  revert H. unfold Qle, Qplus. cbn. lia.
Qed.

Lemma round2_ge_grid v j : float_lit j 100 ≤ v → float_lit j 100 ≤ round2 v.
Proof.
  intros Hv. destruct (round2_on_grid v) as [k Hk].
  pose proof (round2_bounds v) as [Hb _]. rewrite Hk in Hb |- *.
  apply float_lit_le.
  assert ((j # 100) - (5 # 1000) <= (k # 100))%Q as H.
  { revert Hb Hv. unfold float_lit, Qcle, Qcminus, Qcplus, Qcopp.
    cbn [this Q2Qc]. rewrite !Qred_correct. lra. }
  revert H. unfold Qle, Qminus, Qplus, Qopp. cbn. lia.
Qed.

(* ================================================================= *)
(** ** The gaps around the lower boundary *)

Section boundary_gaps.
Context (fit_poly_4 : list Qc → list Qc → Qc * Qc * Qc * Qc * Qc).
Context (fit_poly_3 : list Qc → list Qc → Qc * Qc * Qc * Qc).
Context (np_polyfit2 : list Qc → list Qc → Qc * Qc * Qc).
Context (SUBJECT_IDS : gmap string Z).

Lemma compute_polynomials_data r :
  let r' := compute_polynomials fit_poly_4 fit_poly_3 r in
  name r' = name r ∧ code r' = code r ∧ subject_type r' = subject_type r ∧
  subject_id r' = subject_id r ∧ p50x r' = p50x r ∧ p75x r' = p75x r ∧
  p90x r' = p90x r ∧ p99x r' = p99x r ∧ max_x r' = max_x r ∧
  p50y r' = p50y r ∧ p75y r' = p75y r ∧ p90y r' = p90y r ∧
  p99y r' = p99y r ∧ max_y r' = max_y r ∧ committed r' = committed r.
Proof.
  unfold compute_polynomials. destruct (decide _); [done|].
  destruct (fit_poly_4 _ _) as [[[[c4 c3] c2] c1] c0].
  by destruct (fit_poly_3 _ _) as [[[z3 z2] z1] z0].
Qed.





(** What a successful run rests on, and what it leaves alone. *)
Lemma auto_optimize_success_frame s s' :
  auto_optimize_subject fit_poly_4 fit_poly_3 s = (true, s') →
  0 ≤ min_x_hi s ∧ min_y s' = 0 ∧
  name s' = name s ∧ subject_type s' = subject_type s ∧
  p50x s' = p50x s ∧ p75x s' = p75x s ∧ p90x s' = p90x s ∧
  p99x s' = p99x s ∧ max_x s' = max_x s ∧
  p50y s' = p50y s ∧ p75y s' = p75y s ∧ p90y s' = p90y s ∧
  p99y s' = p99y s ∧ max_y s' = max_y s ∧ committed s' = committed s.
Proof.
  unfold auto_optimize_subject.
  destruct (decide _); [done|].
  destruct (decide (min_x_hi s < min_x_lo)) as [|Hhi]; [done|].
  destruct (decide _); [done|].
  destruct (grid_search fit_poly_4 s).2 as [[[mx px] py]|]; [|done].
  intros E. apply (f_equal snd) in E. cbn [snd] in E. subst s'.
  destruct (compute_polynomials_anchors fit_poly_4 fit_poly_3
              (install_best s (mx, px, py))) as (_ & _ & _ & E4 & _).
  destruct (compute_polynomials_data (install_best s (mx, px, py)))
    as (D1 & _ & D3 & _ & D5 & D6 & D7 & D8 & D9 & D10 & D11 & D12 & D13
        & D14 & D15).
  split; [by apply Qcnot_lt_le|].
  rewrite E4, D1, D3, D5, D6, D7, D8, D9, D10, D11, D12, D13, D14, D15.
  done.
Qed.


End boundary_gaps.




(* ================================================================= *)
(** ** The rows of the batch script and its summary *)

Lemma filter_all {A} (P : A → Prop) `{!∀ x, Decision (P x)} (l : list A) :
  Forall P l → filter P l = l.
Proof.
  induction 1 as [|x l Hx _ IH]; [done|].
  by rewrite filter_cons_True, IH.
Qed.

Lemma length_filter_fmap {A B} (P : B → Prop) `{!∀ x, Decision (P x)}
    (f : A → B) (l : list A) :
  length (filter P (f <$> l)) = length (filter (λ a, P (f a)) l).
Proof.
  induction l as [|a l IH]; [done|]. rewrite fmap_cons.
  destruct (decide (P (f a))) as [Hp|Hp].
  - rewrite !filter_cons_True by done. cbn. by rewrite IH.
  - by rewrite !filter_cons_False.
Qed.

Lemma length_filter_ext {A} (P Q : A → Prop) `{!∀ x, Decision (P x)}
    `{!∀ x, Decision (Q x)} (l : list A) :
  Forall (λ a, P a ↔ Q a) l → length (filter P l) = length (filter Q l).
Proof.
  induction 1 as [|a l Ha _ IH]; [done|].
  destruct (decide (P a)) as [Hp|Hp].
  - rewrite !filter_cons_True by tauto. cbn. by rewrite IH.
  - rewrite !filter_cons_False by tauto. done.
Qed.

Section batch_rows.
Context (fit_poly_4 : list Qc → list Qc → Qc * Qc * Qc * Qc * Qc).
Context (fit_poly_3 : list Qc → list Qc → Qc * Qc * Qc * Qc).
Context (np_polyfit2 : list Qc → list Qc → Qc * Qc * Qc).
Context (SUBJECT_IDS : gmap string Z) (lookup_id : string → string → Z).

Lemma process_general_subject_fields nm cd x25 x50 x75 x90 x99
    y25 y50 y75 y90 y99 :
  let row := process_general_subject fit_poly_4 fit_poly_3 np_polyfit2
               lookup_id nm cd x25 x50 x75 x90 x99 y25 y50 y75 y90 y99 in
  Min_X row = of_int 10 ∧ P25_X row = x25 ∧ P50_Y row = y50.
Proof.
  intros row. unfold row, process_general_subject.
  by destruct (estimate_max x90 x99 y90 y99).
Qed.

Lemma ten_not_zero : of_int 10 ≠ 0.
Proof. by_compute. Qed.

(** How the rows of a table of general subjects are counted. *)
Lemma general_table_counts
    (table : list (string * string * option percentile_data)) :
  Forall (λ e, ∀ d, e.2 = Some d → P25X d ≠ 0) table →
  let rows := process_general_table fit_poly_4 fit_poly_3 np_polyfit2
                lookup_id table in
  length (filter (λ r, P25_X r = 0 ∧ Min_X r = of_int 10 ∧ P50_Y r = 0) rows)
  = length (filter (λ e, e.2 = None) table) ∧
  length (filter (λ r, P50_Y r ≠ 0 ∧ P25_X r = 0 ∧ Min_X r = of_int 10) rows)
  = 0%nat ∧
  length (filter (λ r, Min_X r = 0) rows) = 0%nat.
Proof.
  intros Hdata. cbn zeta. unfold process_general_table.
  induction Hdata as [|[[cd nm] [d|]] t Hd _ (IH1 & IH2 & IH3)]; [done| |];
    rewrite fmap_cons.
  - specialize (Hd d eq_refl).
    destruct (process_general_subject_fields nm cd (P25X d) (P50X d) (P75X d)
                (P90X d) (P99X d) (P25Y d) (P50Y d) (P75Y d) (P90Y d) (P99Y d))
      as (E1 & E2 & E3). cbn zeta in E1, E2, E3.
    rewrite (filter_cons_False (λ r, P25_X r = 0 ∧ _))
      by (rewrite E2; intros [? _]; done).
    rewrite (filter_cons_False (λ r, P50_Y r ≠ 0 ∧ _))
      by (rewrite E2; intros (_ & ? & _); done).
    rewrite (filter_cons_False (λ r, Min_X r = 0))
      by (rewrite E1; apply ten_not_zero).
    rewrite (filter_cons_False (λ e, e.2 = None)) by done.
    done.
  - rewrite (filter_cons_True (λ r, P25_X r = 0 ∧ _)) by done.
    rewrite (filter_cons_False (λ r, P50_Y r ≠ 0 ∧ _))
      by (intros [? _]; done).
    rewrite (filter_cons_False (λ r, Min_X r = 0)) by apply ten_not_zero.
    rewrite (filter_cons_True (λ e, e.2 = None)) by done.
    cbn [length]. by rewrite IH1.
Qed.

Lemma applied_table_counts (table : list (string * string * Qc * Qc * Qc)) :
  Forall (λ e, e.1.1.2 ≠ 0) table →
  let rows := (λ '(cd, nm, c_val, b_val, a_val),
                 process_applied_subject lookup_id nm cd c_val b_val a_val)
                <$> table in
  length (filter (λ r, P25_X r = 0 ∧ Min_X r = of_int 10 ∧ P50_Y r = 0) rows)
  = 0%nat ∧
  length (filter (λ r, P50_Y r ≠ 0 ∧ P25_X r = 0 ∧ Min_X r = of_int 10) rows)
  = length table ∧
  length (filter (λ r, Min_X r = 0) rows) = 0%nat.
Proof.
  intros Hc. cbn zeta.
  induction Hc as [|[[[[cd nm] c] b] a] t Hc _ (IH1 & IH2 & IH3)]; [done|].
  rewrite fmap_cons. cbn in Hc.
  rewrite (filter_cons_False (λ r, P25_X r = 0 ∧ _))
    by (intros (_ & _ & ?); done).
  rewrite (filter_cons_True (λ r, P50_Y r ≠ 0 ∧ _)) by done.
  rewrite (filter_cons_False (λ r, Min_X r = 0)) by apply ten_not_zero.
  cbn [length]. by rewrite IH2.
Qed.

Lemma vet_table_counts (table : list (string * Z * Qc)) :
  let rows := (λ '(nm, sub_id, scaled_val),
                 process_vet_subject nm sub_id scaled_val) <$> table in
  length (filter (λ r, P25_X r = 0 ∧ Min_X r = of_int 10 ∧ P50_Y r = 0) rows)
  = 0%nat ∧
  length (filter (λ r, P50_Y r ≠ 0 ∧ P25_X r = 0 ∧ Min_X r = of_int 10) rows)
  = 0%nat ∧
  length (filter (λ r, Min_X r = 0) rows) = length table.
Proof.
  cbn zeta. induction table as [|[[nm sub_id] v] t (IH1 & IH2 & IH3)]; [done|].
  rewrite fmap_cons.
  rewrite (filter_cons_False (λ r, P25_X r = 0 ∧ _))
    by (intros (_ & E & _); symmetry in E; by apply ten_not_zero in E).
  rewrite (filter_cons_False (λ r, P50_Y r ≠ 0 ∧ _))
    by (intros (_ & _ & E); symmetry in E; by apply ten_not_zero in E).
  rewrite (filter_cons_True (λ r, Min_X r = 0)) by done.
  cbn [length]. by rewrite IH3.
Qed.

(** X20 (summary of the batch script): when every general or external
    subject with data has a non-zero [P25X] and every applied subject
    a non-zero scaled value for the grade C, the summary counts the
    subjects without data, the applied subjects and the VET subjects
    exactly, and the total is the number of entries of the four
    tables.  (An applied subject whose C value is 0 would be counted
    as a subject without data.) *)
Theorem batch_summary_counts
    (table6 table7 : list (string * string * option percentile_data))
    (table8 : list (string * string * Qc * Qc * Qc))
    (vet_subjects : list (string * Z * Qc)) :
  Forall (λ e, ∀ d, e.2 = Some d → P25X d ≠ 0) (table6 ++ table7) →
  Forall (λ e, e.1.1.2 ≠ 0) table8 →
  let '(total, _, n_nodata, n_applied, n_vet) :=
    summary_counts (batch_results fit_poly_4 fit_poly_3 np_polyfit2 lookup_id
                      table6 table7 table8 vet_subjects) in
  total = (length table6 + length table7 + length table8
           + length vet_subjects)%nat ∧
  n_nodata = length (filter (λ e, e.2 = None) (table6 ++ table7)) ∧
  n_applied = length table8 ∧
  n_vet = length vet_subjects.
Proof.
  intros Hgen Happ. apply Forall_app in Hgen as [H6 H7].
  unfold summary_counts, batch_results.
  destruct (general_table_counts table6 H6) as (A1 & A2 & A3).
  destruct (general_table_counts table7 H7) as (B1 & B2 & B3).
  destruct (applied_table_counts table8 Happ) as (C1 & C2 & C3).
  destruct (vet_table_counts vet_subjects) as (D1 & D2 & D3).
  cbn zeta in *.
  rewrite !filter_app, !length_app, !length_fmap.
  unfold process_general_table at 1 2. rewrite !length_fmap.
  rewrite A1, A2, A3, B1, B2, B3, C1, C2, C3, D1, D2, D3.
  repeat split; lia.
Qed.
End batch_rows.

Lemma batch_summary_counts_witness :
  let '(total, _, n_nodata, n_applied, n_vet) :=
    summary_counts (batch_results chord_fit chord_fit3 interp_parabola
                      example_lookup_id example_table6 example_table7
                      example_table8 example_vet) in
  total = 6%nat ∧ n_nodata = 2%nat ∧ n_applied = 1%nat ∧ n_vet = 1%nat.
Proof.
  apply (batch_summary_counts chord_fit chord_fit3 interp_parabola
           example_lookup_id example_table6 example_table7 example_table8
           example_vet).
  - repeat constructor; cbn; intros d [= <-]; by_compute.
  - repeat constructor; cbn; by_compute.
Defined.

(* ================================================================= *)
(** ** The application's export against the batch script's rows *)

Lemma round2_fixed v : two_decimals v → round2 v = v.
Proof. intros [k ->]. apply round2_grid. Qed.

Lemma round2_0 : round2 0 = 0.
Proof. by_compute. Qed.
Lemma round2_10 : round2 (of_int 10) = of_int 10.
Proof. by_compute. Qed.

(** X21 (export): for a subject without data, for an applied subject
    and for a VET subject whose scaled value has at most two decimals,
    the row that the application exports is the row that the batch
    script writes, provided the two id tables give the subject the
    same id. *)
Theorem export_matches_batch_rows
    (SUBJECT_IDS : gmap string Z) (lookup_id : string → string → Z)
    (cd nm : string) (sub_id : Z) (c_val b_val a_val scaled_val : Qc) :
  lookup_id nm cd = default 0%Z (SUBJECT_IDS !! nm) →
  two_decimals scaled_val →
  to_dict (build_nodata SUBJECT_IDS cd nm)
  = process_no_data_subject lookup_id nm cd ∧
  to_dict (build_applied SUBJECT_IDS cd nm c_val b_val a_val)
  = process_applied_subject lookup_id nm cd c_val b_val a_val ∧
  to_dict (build_vet SUBJECT_IDS nm sub_id scaled_val)
  = process_vet_subject nm sub_id scaled_val.
Proof.
  intros Hid Hv. apply round2_fixed in Hv.
  unfold to_dict, build_nodata, build_applied, build_vet,
    process_no_data_subject, process_applied_subject, process_vet_subject,
    SubjectData_init.
  cbn. rewrite Hid, !round2_0, !round2_10, !Hv. done.
Qed.

Lemma export_matches_batch_rows_witness :
  to_dict (build_nodata example_ids "0056" "Chinese Extension")
  = process_no_data_subject example_lookup_id "Chinese Extension" "0056" ∧
  to_dict (build_applied example_ids "6400" "Agricultural Practices"
             (float_lit 694 100) (float_lit 1812 100) (float_lit 3966 100))
  = process_applied_subject example_lookup_id "Agricultural Practices" "6400"
      (float_lit 694 100) (float_lit 1812 100) (float_lit 3966 100) ∧
  to_dict (build_vet example_ids "Diploma in Business" 91 (float_lit 5872 100))
  = process_vet_subject "Diploma in Business" 91 (float_lit 5872 100).
Proof.
  pose proof (export_matches_batch_rows example_ids example_lookup_id
                "0056" "Chinese Extension" 91
                (float_lit 694 100) (float_lit 1812 100) (float_lit 3966 100)
                (float_lit 5872 100) eq_refl
                (ex_intro _ 5872%Z eq_refl)) as (H1 & _ & H3).
  pose proof (export_matches_batch_rows example_ids example_lookup_id
                "6400" "Agricultural Practices" 91
                (float_lit 694 100) (float_lit 1812 100) (float_lit 3966 100)
                (float_lit 5872 100) eq_refl
                (ex_intro _ 5872%Z eq_refl)) as (_ & H2 & _).
  split; [exact H1|]. split; [exact H2|].
  exact (proj2 (proj2 (export_matches_batch_rows example_ids example_lookup_id
                "" "Diploma in Business" 91 0 0 0
                (float_lit 5872 100) eq_refl
                (ex_intro _ 5872%Z eq_refl)))).
Defined.

(* ================================================================= *)
(** ** Duplicates between Table 6 and Table 7 *)

Lemma dedup_fold (T : gset string) (l acc : list general_item) :
  foldl (λ deduped s,
           if decide (startswith "4" (item_code s) ∧ item_name s ∈ T) then
             if negb (has_data s) then deduped
             else deduped ++
                  [{| item_code := item_code s;
                      item_name := item_name s +:+ " (External Exam)";
                      item_data := item_data s |}]
           else deduped ++ [s])
        acc l
  = acc ++ omap (dedup_entry T) l.
Proof.
  revert acc. induction l as [|s l IH]; intros acc; [by rewrite app_nil_r|].
  cbn [foldl omap list_omap]. rewrite IH. unfold dedup_entry at 2.
  destruct (decide _); [destruct (negb (has_data s))|];
    by rewrite <-?app_assoc.
Qed.

Lemma deduplicate_general_omap l :
  deduplicate_general l
  = omap (dedup_entry
            (list_to_set (item_name <$> filter (λ s, startswith "0" (item_code s)) l)))
         l.
Proof. unfold deduplicate_general. by rewrite dedup_fold. Qed.

(** X22 (_deduplicate_general): every entry that is not an external
    one (code not starting with 4), so every Table 6 entry, is kept
    unchanged and in order; no external entry without data survives
    whose name is a Table 6 name; and the entries with data keep
    their codes and their data, in order, whatever is renamed. *)
Theorem deduplicate_general_spec (general_subjects : list general_item) :
  let out := deduplicate_general general_subjects in
  filter (λ s, ¬ startswith "4" (item_code s)) out
  = filter (λ s, ¬ startswith "4" (item_code s)) general_subjects ∧
  Forall (λ s, startswith "4" (item_code s) → has_data s = false →
               Forall (λ s6, startswith "0" (item_code s6) →
                             item_name s6 ≠ item_name s) general_subjects)
         out ∧
  (λ s, (item_code s, item_data s)) <$> filter (λ s, has_data s = true) out
  = (λ s, (item_code s, item_data s))
      <$> filter (λ s, has_data s = true) general_subjects ∧
  (length out ≤ length general_subjects)%nat.
Proof.
  intros out. unfold out. rewrite deduplicate_general_omap.
  set (T := list_to_set _ : gset string).
  assert (∀ s6, s6 ∈ general_subjects → startswith "0" (item_code s6) →
                item_name s6 ∈ T) as HT.
  { intros s6 Hin H0. unfold T. apply elem_of_list_to_set.
    apply list_elem_of_fmap. exists s6. split; [done|].
    by apply list_elem_of_filter. }
  clearbody T. split; [|split; [|split]].
  - clear HT. induction general_subjects as [|s l IH]; [done|].
    cbn [omap list_omap]. unfold dedup_entry at 1.
    destruct (decide _) as [[H4 _]|Hn].
    + rewrite (filter_cons_False _ s) by tauto.
      destruct (negb (has_data s)); [done|].
      rewrite filter_cons_False by (cbn; tauto). done.
    + destruct (decide (startswith "4" (item_code s))) as [H4|H4].
      * rewrite !filter_cons_False by tauto. done.
      * rewrite !filter_cons_True by done. by rewrite IH.
  - apply Forall_forall. intros s Hs H4 Hd.
    apply list_elem_of_omap in Hs as (s0 & Hin & Hs).
    unfold dedup_entry in Hs. destruct (decide _) as [[_ HinT]|Hn].
    + destruct (has_data s0) eqn:E; cbn in Hs; [|done].
      simplify_eq. cbn in Hd. unfold has_data in *. cbn in *. congruence.
    + simplify_eq. apply Forall_forall. intros s6 Hin6 H0 Heq.
      apply Hn. split; [done|]. rewrite <-Heq. by apply HT.
  - clear HT. induction general_subjects as [|s l IH]; [done|].
    cbn [omap list_omap]. unfold dedup_entry at 1.
    destruct (decide _) as [[H4 _]|Hn].
    + destruct (has_data s) eqn:E; cbn [negb].
      * rewrite !filter_cons_True by (done || (unfold has_data in *; done)).
        rewrite !fmap_cons. cbn. by rewrite IH.
      * rewrite filter_cons_False by congruence. done.
    + destruct (has_data s) eqn:E.
      * rewrite !filter_cons_True by done. rewrite !fmap_cons. by rewrite IH.
      * rewrite !filter_cons_False by congruence. done.
  - rewrite <-(length_fmap Some general_subjects).
    clear. induction general_subjects as [|s l IH]; [done|].
    cbn [omap list_omap]. destruct (dedup_entry T s); cbn; lia.
Qed.

(** The example: the external English entry is dropped and the
    external Chinese entry is renamed. *)
Example deduplicate_general_example :
  item_name <$> deduplicate_general example_general
  = ["English"; "Chinese"; "Arabic"; "Chinese (External Exam)"].
Proof. vm_compute. reflexivity. Qed.

(* ================================================================= *)
(** ** The grades of an applied subject *)

Lemma foldl_pymax_spec x t :
  foldl pymax x t ∈ x :: t ∧ x ≤ foldl pymax x t ∧
  Forall (λ y, y ≤ foldl pymax x t) t.
Proof.
  revert x. induction t as [|y t IH]; intros x.
  - cbn. split; [left|]. split; [apply Qcle_refl|constructor].
  - cbn [foldl]. destruct (IH (pymax x y)) as (Hin & Hle & Hall).
    pose proof (pymax_ge_l x y). pose proof (pymax_ge_r x y).
    split; [|split].
    + apply elem_of_cons in Hin as [->|Hin].
      * unfold pymax. destruct (decide (x < y)); [right; left|left].
      * right. by right.
    + by apply Qcle_trans with (pymax x y).
    + constructor; [by apply Qcle_trans with (pymax x y)|done].
Qed.

Lemma py_max_list_spec l m :
  py_max_list l = Some m → m ∈ l ∧ Forall (λ y, y ≤ m) l.
Proof.
  destruct l as [|x t]; [done|]. intros [= <-].
  destruct (foldl_pymax_spec x t) as (Hin & Hle & Hall).
  split; [done|]. by constructor.
Qed.

Lemma sorted_last_max (l : list Qc) a :
  StronglySorted Qcle l → last l = Some a → Forall (λ y, y ≤ a) l.
Proof.
  intros Hs Ha. apply last_Some in Ha as [l' ->].
  apply Forall_app. split; [|by repeat constructor].
  apply Forall_forall. intros y Hy.
  eapply (StronglySorted_app_1_elem_of Qcle); eauto. by left.
Qed.

Lemma sorted_head_min (l : list Qc) c :
  StronglySorted Qcle l → l !! 0%nat = Some c → Forall (λ y, c ≤ y) l.
Proof.
  intros Hs Hc. destruct l as [|x t]; [done|]. cbn in Hc. simplify_eq.
  apply StronglySorted_inv in Hs as [_ Hx]. by constructor.
Qed.

Lemma Sorted_Qcle_strongly l : Sorted Qcle l → StronglySorted Qcle l.
Proof.
  apply Sorted_StronglySorted. intros x y z ? ?. by apply Qcle_trans with y.
Qed.

(** X23 (grades of an applied subject): no grades are chosen unless
    there are exactly five scaled values; the values chosen for C, B
    and A are among the five and A is the largest of them; and when
    the five values do not decrease, as percentile values do, C is the
    first of them and [C <= B <= A]. *)
Theorem applied_grades_spec (scaled_vals : list Qc) :
  (applied_grades scaled_vals = None ↔ length scaled_vals ≠ 5%nat) ∧
  ∀ c b a, applied_grades scaled_vals = Some (c, b, a) →
    c ∈ scaled_vals ∧ b ∈ scaled_vals ∧ a ∈ scaled_vals ∧
    Forall (λ y, y ≤ a) scaled_vals ∧
    (Sorted Qcle scaled_vals →
     scaled_vals !! 0%nat = Some c ∧ c ≤ b ∧ b ≤ a).
Proof.
  unfold applied_grades.
  destruct (decide (length scaled_vals = 5%nat)) as [Hlen|Hlen];
    [|split; [done|intros; done]].
  set (u := py_sorted id false (remove_dups scaled_vals)).
  assert (∀ y, y ∈ u ↔ y ∈ scaled_vals) as Hu.
  { intros y. unfold u. rewrite py_sorted_Permutation.
    apply elem_of_remove_dups. }
  assert (StronglySorted Qcle u) as Hsu by apply (py_sorted_asc_sorted id).
  assert (u ≠ []) as Hne.
  { destruct scaled_vals as [|v vs]; [done|]. intros E.
    assert (v ∈ u) as Hv by (apply Hu; left). rewrite E in Hv. by inv Hv. }
  assert (∀ c, u !! 0%nat = Some c → Sorted Qcle scaled_vals →
               scaled_vals !! 0%nat = Some c) as Hhead.
  { intros c Hc Hs. apply Sorted_Qcle_strongly in Hs.
    destruct scaled_vals as [|v vs]; [done|]. cbn. f_equal.
    apply Qcle_antisym.
    - pose proof (sorted_head_min _ _ Hs eq_refl) as Hmin.
      rewrite Forall_forall in Hmin. apply Hmin, Hu.
      by eapply list_elem_of_lookup_2.
    - pose proof (sorted_head_min _ _ Hsu Hc) as Hmin.
      rewrite Forall_forall in Hmin. apply Hmin, Hu. left. }
  destruct (decide (3 ≤ length u)%nat) as [H3|H3].
  { destruct (lookup_lt_is_Some_2 u 0 ltac:(lia)) as [c0 Hc0].
    destruct (lookup_lt_is_Some_2 u 1 ltac:(lia)) as [b0 Hb0].
    destruct (last u) as [a0|] eqn:Ha0;
      [|apply last_None in Ha0; congruence].
    rewrite Hc0, Hb0. cbn [mbind option_bind].
    split; [done|]. intros c b a [= <- <- <-].
    pose proof (sorted_last_max u a0 Hsu Ha0) as Hmax.
    rewrite Forall_forall in Hmax.
    assert (c0 ∈ u) by (by eapply list_elem_of_lookup_2).
    assert (b0 ∈ u) by (by eapply list_elem_of_lookup_2).
    assert (a0 ∈ u).
    { apply last_Some in Ha0 as [l' ->]. apply elem_of_app. right. left. }
    split; [by apply Hu|]. split; [by apply Hu|]. split; [by apply Hu|].
    split; [apply Forall_forall; intros y Hy; by apply Hmax, Hu|].
    intros Hs. split; [by apply Hhead|]. split; [|by apply Hmax].
    apply (StronglySorted_lookup Qcle u 0 1 c0 b0 Hsu); [lia|done|done]. }
  destruct (decide (length u = 2%nat)) as [H2|H2].
  { destruct (lookup_lt_is_Some_2 scaled_vals 0 ltac:(lia)) as [c0 Hc0].
    destruct (lookup_lt_is_Some_2 scaled_vals 1 ltac:(lia)) as [b0 Hb0].
    destruct (py_max_list scaled_vals) as [a0|] eqn:Ha0;
      [|destruct scaled_vals; [cbn in Hlen; lia|done]].
    rewrite Hc0, Hb0. cbn [mbind option_bind].
    split; [done|]. intros c b a [= <- <- <-].
    destruct (py_max_list_spec _ _ Ha0) as [Hin Hmax].
    split; [by eapply list_elem_of_lookup_2|].
    split; [by eapply list_elem_of_lookup_2|]. split; [done|].
    split; [done|]. intros Hs. split; [done|]. split.
    - apply Sorted_Qcle_strongly in Hs.
      apply (StronglySorted_lookup Qcle scaled_vals 0 1 c0 b0 Hs);
        [lia|done|done].
    - rewrite Forall_forall in Hmax. apply Hmax.
      by eapply list_elem_of_lookup_2. }
  destruct u as [|x [|x' u']] eqn:Eu; [done| |cbn in H3, H2; lia].
  cbn [lookup list_lookup mbind option_bind].
  split; [done|]. intros c b a [= <- <- <-].
  assert (∀ y, y ∈ scaled_vals → y = x) as Hall.
  { intros y Hy. apply Hu in Hy. by apply list_elem_of_singleton in Hy. }
  assert (x ∈ scaled_vals) as Hx by (apply Hu; left).
  split; [done|]. split; [done|]. split; [done|]. split.
  - apply Forall_forall. intros y Hy. rewrite (Hall y Hy). apply Qcle_refl.
  - intros Hs. split; [|split; apply Qcle_refl].
    destruct scaled_vals as [|v vs]; [done|]. cbn. f_equal. apply Hall. left.
Qed.

(** The two patterns of the report: three grades (C, B, B, A, A) and
    two grades (B, B, A, A, A). *)
Example applied_grades_examples :
  applied_grades [float_lit 694 100; float_lit 1812 100; float_lit 1812 100;
                  float_lit 3966 100; float_lit 3966 100]
  = Some (float_lit 694 100, float_lit 1812 100, float_lit 3966 100) ∧
  applied_grades [float_lit 4401 100; float_lit 4401 100; float_lit 7249 100;
                  float_lit 7249 100; float_lit 7249 100]
  = Some (float_lit 4401 100, float_lit 4401 100, float_lit 7249 100).
Proof. split; by_compute. Qed.

(* ================================================================= *)
(** ** The subjects built from an uploaded report *)

Section upload.
Context (fit_poly_4 : list Qc → list Qc → Qc * Qc * Qc * Qc * Qc).
Context (fit_poly_3 : list Qc → list Qc → Qc * Qc * Qc * Qc).
Context (np_polyfit2 : list Qc → list Qc → Qc * Qc * Qc).
Context (SUBJECT_IDS : gmap string Z).

Lemma build_general_type cd nm x25 x50 x75 x90 x99 y25 y50 y75 y90 y99 :
  subject_type (build_general fit_poly_4 fit_poly_3 np_polyfit2 SUBJECT_IDS
                  cd nm x25 x50 x75 x90 x99 y25 y50 y75 y90 y99) = general ∧
  p25x (build_general fit_poly_4 fit_poly_3 np_polyfit2 SUBJECT_IDS
          cd nm x25 x50 x75 x90 x99 y25 y50 y75 y90 y99) = x25.
Proof.
  split.
  - unfold build_general. cbn zeta.
    match goal with
    | |- context [compute_polynomials _ _ ?r] =>
        destruct (compute_polynomials_data fit_poly_4 fit_poly_3 r)
          as (_ & _ & D3 & _)
    end.
    by rewrite D3.
  - by destruct (build_general_anchors fit_poly_4 fit_poly_3 np_polyfit2
                   SUBJECT_IDS cd nm x25 x50 x75 x90 x99 y25 y50 y75 y90 y99)
      as (_ & _ & E3 & _).
Qed.

(** The subject built for one parsed general entry. *)
Lemma upload_general_entry item :
  let s := match item_data item with
           | Some d =>
               build_general fit_poly_4 fit_poly_3 np_polyfit2 SUBJECT_IDS
                 (item_code item) (item_name item)
                 (P25X d) (P50X d) (P75X d) (P90X d) (P99X d)
                 (P25Y d) (P50Y d) (P75Y d) (P90Y d) (P99Y d)
           | None => build_nodata SUBJECT_IDS (item_code item) (item_name item)
           end in
  (subject_type s = general ∧ 0 < p25x s ↔ data_with_marks item) ∧
  (subject_type s = nodata ↔ item_data item = None) ∧
  subject_type s ≠ applied ∧ subject_type s ≠ vet.
Proof.
  unfold data_with_marks. destruct (item_data item) as [d|]; cbn zeta.
  - destruct (build_general_type (item_code item) (item_name item)
                (P25X d) (P50X d) (P75X d) (P90X d) (P99X d)
                (P25Y d) (P50Y d) (P75Y d) (P90Y d) (P99Y d)) as [-> ->].
    repeat split; try done. by intros [_ ?].
  - cbn. repeat split; try done. by intros [? _].
Qed.

Lemma upload_general_counts (general_items : list general_item) :
  let part :=
    (λ item,
       match item_data item with
       | Some d =>
           build_general fit_poly_4 fit_poly_3 np_polyfit2 SUBJECT_IDS
             (item_code item) (item_name item)
             (P25X d) (P50X d) (P75X d) (P90X d) (P99X d)
             (P25Y d) (P50Y d) (P75Y d) (P90Y d) (P99Y d)
       | None => build_nodata SUBJECT_IDS (item_code item) (item_name item)
       end) <$> general_items in
  length (filter (λ s, subject_type s = general ∧ 0 < p25x s) part)
  = length (filter data_with_marks general_items) ∧
  length (filter (λ s, subject_type s = nodata) part)
  = length (filter (λ item, item_data item = None) general_items) ∧
  length (filter (λ s, subject_type s = applied) part) = 0%nat ∧
  length (filter (λ s, subject_type s = vet) part) = 0%nat.
Proof.
  cbn zeta. induction general_items as [|item l (IH1 & IH2 & IH3 & IH4)];
    [done|].
  rewrite fmap_cons.
  destruct (upload_general_entry item) as (H1 & H2 & H3 & H4).
  cbn zeta in H1, H2, H3, H4.
  rewrite (filter_cons_False (λ s, subject_type s = applied)) by done.
  rewrite (filter_cons_False (λ s, subject_type s = vet)) by done.
  split; [|split; [|done]].
  - destruct (decide (data_with_marks item)) as [Hd|Hd].
    + rewrite (filter_cons_True (λ s, subject_type s = general ∧ _))
        by (by apply H1).
      rewrite (filter_cons_True data_with_marks) by done.
      cbn [length]. by rewrite IH1.
    + rewrite (filter_cons_False (λ s, subject_type s = general ∧ _))
        by (by rewrite H1).
      by rewrite (filter_cons_False data_with_marks).
  - destruct (decide (item_data item = None)) as [Hd|Hd].
    + rewrite (filter_cons_True (λ s, subject_type s = nodata))
        by (by apply H2).
      rewrite (filter_cons_True (λ item, item_data item = None)) by done.
      cbn [length]. by rewrite IH2.
    + rewrite (filter_cons_False (λ s, subject_type s = nodata))
        by (by rewrite H2).
      by rewrite (filter_cons_False (λ item, item_data item = None)).
Qed.

Lemma upload_other_counts {A} (build : A → SubjectData) (ty : stype)
    (l : list A) :
  ty ≠ general → (∀ a, subject_type (build a) = ty) →
  length (filter (λ s, subject_type s = general ∧ 0 < p25x s) (build <$> l))
  = 0%nat ∧
  ∀ ty', length (filter (λ s, subject_type s = ty') (build <$> l))
         = if decide (ty = ty') then length l else 0%nat.
Proof.
  intros Hty Hb. split.
  - rewrite filter_none; [done|]. apply Forall_fmap, Forall_forall.
    intros a _ [E _]. rewrite Hb in E. done.
  - intros ty'. destruct (decide (ty = ty')) as [<-|Hne].
    + rewrite filter_all, length_fmap; [done|].
      apply Forall_fmap, Forall_forall. intros a _. apply Hb.
    + rewrite filter_none; [done|]. apply Forall_fmap, Forall_forall.
      intros a _. cbn. rewrite Hb. done.
Qed.

(** X24 (_upload_pdf): the counts of the "PDF Loaded" message.  The
    subjects without data are the parsed entries without data, every
    applied entry gives an applied subject, there are always the 17
    VET subjects, and "general with data" counts the entries with data
    whose [P25X] is positive; the total is the number of parsed
    entries plus 17. *)
Theorem upload_counts_spec (general_items : list general_item)
    (applied_items : list applied_item) (vet_data : gmap string Qc) :
  upload_counts
    (upload_subjects fit_poly_4 fit_poly_3 np_polyfit2 SUBJECT_IDS
       general_items applied_items vet_data)
  = (length (filter data_with_marks general_items),
     length (filter (λ item, item_data item = None) general_items),
     length applied_items, 17%nat,
     (length general_items + length applied_items + 17)%nat).
Proof.
  unfold upload_counts, upload_subjects. cbn zeta.
  set (vet_scaled := if decide (vet_data = ∅) then _ else _).
  clearbody vet_scaled.
  destruct (upload_general_counts general_items) as (G1 & G2 & G3 & G4).
  cbn zeta in G1, G2, G3, G4.
  set (build_a := λ item : applied_item,
         build_applied SUBJECT_IDS (app_code item) (app_name item)
           (app_C item) (app_B item) (app_A item)).
  set (build_v := λ '(nm, sub_id, level),
         build_vet SUBJECT_IDS nm sub_id
           (default (of_int 38) (vet_scaled !! level))).
  destruct (upload_other_counts build_a applied applied_items
              ltac:(done) ltac:(done)) as [A1 A2].
  destruct (upload_other_counts build_v vet VET_SUBJECTS ltac:(done)
              ltac:(by intros [[nm sub_id] level])) as [V1 V2].
  rewrite !filter_app, !length_app.
  rewrite G1, G2, G3, G4, A1, V1, !A2, !V2, !length_fmap.
  rewrite !(decide_True (P := applied = applied)) by done.
  rewrite !(decide_True (P := vet = vet)) by done.
  rewrite !decide_False by done.
  change (length VET_SUBJECTS) with 17%nat.
  by rewrite ?Nat.add_0_r, ?Nat.add_0_l, ?Nat.add_assoc.
Qed.
End upload.

(* ================================================================= *)
(** ** Dragging, fitting, committing and resetting the current subject *)

Section editor.
Context (fit_poly_4 : list Qc → list Qc → Qc * Qc * Qc * Qc * Qc).
Context (fit_poly_3 : list Qc → list Qc → Qc * Qc * Qc * Qc).
Context (np_polyfit2 : list Qc → list Qc → Qc * Qc * Qc).
Context (SUBJECT_IDS : gmap string Z).

(** [compute_polynomials] on a general record with data, with the
    fitted coefficients read off by projections. *)
Lemma compute_polynomials_active r :
  subject_type r = general → p25x r ≠ 0 →
  compute_polynomials fit_poly_4 fit_poly_3 r
  = let c := fit_poly_4 (x_all_of r) (y_all_of r) in
    let z := fit_poly_3 [min_x r; pzx r; p25x r; p50x r]
                        [min_y r; pzy r; p25y r; p50y r] in
    {| name := name r; code := code r; subject_type := subject_type r;
       subject_id := subject_id r;
       min_x := min_x r; pzx := pzx r; p25x := p25x r; p50x := p50x r;
       p75x := p75x r; p90x := p90x r; p99x := p99x r; max_x := max_x r;
       min_y := min_y r; pzy := pzy r; p25y := p25y r; p50y := p50y r;
       p75y := p75y r; p90y := p90y r; p99y := p99y r; max_y := max_y r;
       X4 := c.1.1.1.1; X3 := c.1.1.1.2; X2 := c.1.1.2; X1 := c.1.2;
       X0 := c.2;
       Zc3 := z.1.1.1; Zc2 := z.1.1.2; Zc1 := z.1.2; Zc0 := z.2;
       max_fit_error := max_abs_residual c (x_all_of r) (y_all_of r);
       committed := committed r |}.
Proof.
  intros Hty Hp. unfold compute_polynomials.
  rewrite decide_False by (intros [?|?]; done).
  cbn zeta.
  destruct (fit_poly_4 _ _) as [[[[c4 c3] c2] c1] c0].
  by destruct (fit_poly_3 _ _) as [[[z3 z2] z1] z0].
Qed.

(** The reset of a general record with data, as a function of what
    the report says about the subject. *)
Lemma reset_current_active s :
  subject_type s = general → 0 < p25x s →
  reset_current fit_poly_4 fit_poly_3 np_polyfit2 s
  = let min_gap := min_gap_of (p25x s) (p50x s) (p75x s) (p90x s) (p99x s) in
    let mx := pymax 0 (pymin (of_int 10) (p25x s - of_int 2 * min_gap)) in
    let px := (mx + p25x s) / of_int 2 in
    let py := pymax 0 (pymin (p25y s * float_lit 95 100)
                (np_polyval2 (np_polyfit2 [mx; p25x s; p50x s]
                                          [0; p25y s; p50y s]) px)) in
    let xs := [mx; px; p25x s; p50x s; p75x s; p90x s; p99x s; max_x s] in
    let ys := [0; py; p25y s; p50y s; p75y s; p90y s; p99y s; max_y s] in
    let c := fit_poly_4 xs ys in
    let z := fit_poly_3 [mx; px; p25x s; p50x s] [0; py; p25y s; p50y s] in
    {| name := name s; code := code s; subject_type := subject_type s;
       subject_id := subject_id s;
       min_x := mx; pzx := px; p25x := p25x s; p50x := p50x s;
       p75x := p75x s; p90x := p90x s; p99x := p99x s; max_x := max_x s;
       min_y := 0; pzy := py; p25y := p25y s; p50y := p50y s;
       p75y := p75y s; p90y := p90y s; p99y := p99y s; max_y := max_y s;
       X4 := c.1.1.1.1; X3 := c.1.1.1.2; X2 := c.1.1.2; X1 := c.1.2;
       X0 := c.2;
       Zc3 := z.1.1.1; Zc2 := z.1.1.2; Zc1 := z.1.2; Zc0 := z.2;
       max_fit_error := max_abs_residual c xs ys;
       committed := false |}.
Proof.
  intros Hty Hp. unfold reset_current.
  rewrite decide_True by done. cbn zeta.
  rewrite compute_polynomials_active; [done|done|].
  cbn [p25x]. intros E. rewrite E in Hp. by apply Qclt_not_eq in Hp.
Qed.

(** Two general records with data about which the report says the
    same are reset to the same record. *)
Lemma reset_current_ext s s' :
  subject_type s = general → 0 < p25x s →
  report_data s' = report_data s →
  reset_current fit_poly_4 fit_poly_3 np_polyfit2 s'
  = reset_current fit_poly_4 fit_poly_3 np_polyfit2 s.
Proof.
  intros Hty Hp E.
  assert (subject_type s' = general ∧ 0 < p25x s') as [Hty' Hp'].
  { pose proof (f_equal (λ d, (d.1.1.1.2, d.1.2.1.1.1.1.1)) E) as E'.
    cbn in E'. injection E' as -> ->. done. }
  rewrite !reset_current_active by done.
  clear Hty Hp Hty' Hp'.
  destruct s, s'. cbn in E.
  injection E as -> -> -> -> -> -> -> -> -> -> -> -> -> -> -> ->.
  reflexivity.
Qed.

Lemma compute_polynomials_report r :
  report_data (compute_polynomials fit_poly_4 fit_poly_3 r) = report_data r.
Proof.
  destruct (compute_polynomials_anchors fit_poly_4 fit_poly_3 r)
    as (_ & _ & _ & _ & A5 & A6).
  destruct (compute_polynomials_data fit_poly_4 fit_poly_3 r)
    as (D1 & D2 & D3 & D4 & D5 & D6 & D7 & D8 & D9 & D10 & D11 & D12 & D13
        & D14 & _).
  unfold report_data.
  by rewrite A5, A6, D1, D2, D3, D4, D5, D6, D7, D8, D9, D10, D11, D12, D13,
    D14.
Qed.

(** A failed run of the optimizer leaves the record as it is. *)
Lemma auto_optimize_failure s s' :
  auto_optimize_subject fit_poly_4 fit_poly_3 s = (false, s') → s' = s.
Proof.
  unfold auto_optimize_subject.
  repeat (destruct (decide _); [by intros [= <-]|]).
  destruct (grid_search fit_poly_4 s).2 as [best|]; [done|by intros [= <-]].
Qed.

Lemma auto_optimize_report s :
  report_data (auto_optimize_subject fit_poly_4 fit_poly_3 s).2
  = report_data s.
Proof.
  unfold auto_optimize_subject.
  repeat (destruct (decide _); [done|]).
  destruct (grid_search fit_poly_4 s).2 as [[[mx px] py]|]; [|done].
  cbn [snd]. by rewrite compute_polynomials_report.
Qed.

Lemma on_mouse_move_report d inaxes xy s :
  report_data (on_mouse_move fit_poly_4 fit_poly_3 d inaxes xy s)
  = report_data s.
Proof.
  unfold on_mouse_move.
  destruct d as [[|]|], inaxes, xy as [[xdata ydata]|]; try done;
    by rewrite compute_polynomials_report.
Qed.

Lemma reset_current_report s :
  report_data (reset_current fit_poly_4 fit_poly_3 np_polyfit2 s)
  = report_data s.
Proof.
  destruct (decide (subject_type s = general ∧ 0 < p25x s)) as [[Hty Hp]|Hn].
  - by rewrite reset_current_active.
  - unfold reset_current. by rewrite decide_False.
Qed.

Lemma apply_action_report s a :
  report_data (apply_action fit_poly_4 fit_poly_3 np_polyfit2 s a)
  = report_data s.
Proof.
  destruct a as [d inaxes xy| | |]; cbn [apply_action].
  - apply on_mouse_move_report.
  - unfold auto_fit_current. destruct (decide _); [done|].
    apply auto_optimize_report.
  - done.
  - apply reset_current_report.
Qed.

Lemma run_actions_report l s :
  report_data (run_actions fit_poly_4 fit_poly_3 np_polyfit2 s l)
  = report_data s.
Proof.
  unfold run_actions. revert s. induction l as [|a l IH]; intros s; [done|].
  cbn [foldl]. rewrite IH. apply apply_action_report.
Qed.

(** The record [build_general] makes is the one a reset makes. *)
Lemma reset_current_build cd nm x25 x50 x75 x90 x99 y25 y50 y75 y90 y99 :
  0 < x25 →
  let s0 := build_general fit_poly_4 fit_poly_3 np_polyfit2 SUBJECT_IDS cd nm
              x25 x50 x75 x90 x99 y25 y50 y75 y90 y99 in
  subject_type s0 = general ∧ p25x s0 = x25 ∧
  reset_current fit_poly_4 fit_poly_3 np_polyfit2 s0 = s0.
Proof.
  intros Hp.
  assert (x25 ≠ 0) as Hne by (intros ->; by apply Qclt_not_eq in Hp).
  cbn zeta. unfold build_general. cbn zeta.
  rewrite compute_polynomials_active by done.
  cbn zeta. unfold x_all_of, y_all_of, SubjectData_init. cbn [name code subject_type subject_id min_x pzx p25x p50x p75x p90x p99x max_x min_y pzy p25y p50y p75y p90y p99y max_y X4 X3 X2 X1 X0 Zc3 Zc2 Zc1 Zc0 max_fit_error committed].
  split; [done|]. split; [done|].
  rewrite reset_current_active by done.
  cbn zeta. cbn [name code subject_type subject_id min_x pzx p25x p50x p75x p90x p99x max_x min_y pzy p25y p50y p75y p90y p99y max_y X4 X3 X2 X1 X0 Zc3 Zc2 Zc1 Zc0 max_fit_error committed].
  reflexivity.
Qed.

(** X25 (build_general, _on_mouse_move, _auto_fit_current,
    _commit_current, _reset_current): for a general subject whose
    P25 mark is positive, Reset gives back exactly the record that
    [build_general] made on upload, whatever drags, auto-fits, commits
    and resets were applied to it before. *)
Theorem reset_restores_build cd nm x25 x50 x75 x90 x99 y25 y50 y75 y90 y99
    (l : list action) :
  0 < x25 →
  let s0 := build_general fit_poly_4 fit_poly_3 np_polyfit2 SUBJECT_IDS cd nm
              x25 x50 x75 x90 x99 y25 y50 y75 y90 y99 in
  reset_current fit_poly_4 fit_poly_3 np_polyfit2
    (run_actions fit_poly_4 fit_poly_3 np_polyfit2 s0 l) = s0.
Proof.
  intros Hp.
  destruct (reset_current_build cd nm x25 x50 x75 x90 x99 y25 y50 y75 y90 y99
              Hp) as (Hty & H25 & Hr).
  cbn zeta in *. revert Hty H25 Hr.
  generalize (build_general fit_poly_4 fit_poly_3 np_polyfit2 SUBJECT_IDS
                cd nm x25 x50 x75 x90 x99 y25 y50 y75 y90 y99).
  intros s0 Hty H25 Hr.
  rewrite (reset_current_ext s0).
  - exact Hr.
  - exact Hty.
  - by rewrite H25.
  - apply run_actions_report.
Qed.

(* ----------------------------------------------------------------- *)
(** *** Dragging the two boundary points *)

Lemma float_lit_lt k j : float_lit k 100 < float_lit j 100 ↔ (k < j)%Z.
Proof.
  unfold float_lit, Qclt. cbn [this Q2Qc]. rewrite !Qred_correct.
  unfold Qlt. cbn. lia.
Qed.


Lemma float_lit_minus u v :
  float_lit u 100 - float_lit v 100 = float_lit (u - v) 100.
Proof.
  apply Qc_is_canon. unfold float_lit, Qcminus, Qcplus, Qcopp.
  cbn [this Q2Qc]. rewrite !Qred_correct.
  unfold Qeq, Qminus, Qplus, Qopp. cbn. lia.
Qed.




(** X27 (_on_mouse_move, drag 'pz'): every drag of the LowerBoundary
    point leaves Min.x, Min.y and LowerBoundary.x as they are and
    LowerBoundary.y at 0.1 or more.  When P25.y has two decimals and
    is at least 0.6 it leaves LowerBoundary.y at most P25.y - 0.5, and
    exactly there when the pointer is at or above that height; for
    P25.y above 10 that height is above 0.95 * P25.y, the cap that
    [build_general] and Reset put on LowerBoundary.y. *)
Theorem drag_pz_bounds (s : SubjectData) (xdata ydata : Qc) :
  let s' := on_mouse_move fit_poly_4 fit_poly_3 (Some drag_pz) true
              (Some (xdata, ydata)) s in
  min_x s' = min_x s ∧ min_y s' = min_y s ∧ pzx s' = pzx s ∧
  float_lit 1 10 ≤ pzy s' ∧
  (two_decimals (p25y s) → float_lit 6 10 ≤ p25y s →
   pzy s' ≤ p25y s - float_lit 5 10 ∧
   (p25y s - float_lit 5 10 ≤ ydata → pzy s' = p25y s - float_lit 5 10) ∧
   (of_int 10 < p25y s → p25y s - float_lit 5 10 ≤ ydata →
    p25y s * float_lit 95 100 < pzy s')).
Proof.
  intros s'.
  set (new_y := pymax (float_lit 1 10)
                  (pymin (p25y s - float_lit 5 10) ydata)).
  assert (min_x s' = min_x s ∧ pzx s' = pzx s ∧ pzy s' = round2 new_y ∧
          min_y s' = min_y s) as (E1 & E2 & E3 & E4).
  { unfold s', on_mouse_move. cbn zeta.
    match goal with
    | |- context [compute_polynomials _ _ ?r] =>
        destruct (compute_polynomials_anchors fit_poly_4 fit_poly_3 r)
          as (A1 & A2 & A3 & A4 & _)
    end.
    rewrite A1, A2, A3, A4. done. }
  clearbody s'. rewrite E1, E2, E3, E4. clear E1 E2 E3 E4 s'.
  do 3 (split; [done|]).
  assert (float_lit 5 10 = float_lit 50 100) as E5 by by_compute.
  assert (float_lit 6 10 = float_lit 60 100) as E6 by by_compute.
  assert (float_lit 1 10 = float_lit 10 100) as E1 by by_compute.
  split.
  { rewrite E1. apply round2_ge_grid. rewrite <-E1. apply pymax_ge_l. }
  intros [b Hb] Hmin.
  assert (new_y ≤ float_lit (b - 50) 100 ∧
          (p25y s - float_lit 5 10 ≤ ydata → new_y = float_lit (b - 50) 100))
    as (Hhi & Htop).
  { rewrite <- float_lit_minus, <- E5, <- Hb. unfold new_y.
    revert Hmin. generalize (p25y s). clear. intros p Hmin.
    unfold pymax, pymin. split.
    - repeat destruct (decide _); qc_lraz.
    - intros Hy. repeat destruct (decide _); qc_lraz. }
  clearbody new_y. rewrite Hb, E5, E6, float_lit_minus in *.
  clear Hmin.
  split; [by apply round2_le_grid|].
  split.
  - intros Hy. rewrite (Htop Hy). apply round2_grid.
  - intros Hten Hy. rewrite (Htop Hy), round2_grid.
    assert (of_int 10 = float_lit 1000 100) as E10 by by_compute.
    rewrite E10 in Hten. apply (proj1 (float_lit_lt 1000 b)) in Hten.
    clear -Hten.
    assert (((b # 100) * (95 # 100) < (b - 50 # 100))%Q) as H.
    { unfold Qlt, Qmult. cbn. lia. }
    revert H. clear. qc_lraz.
Qed.

(* ----------------------------------------------------------------- *)
(** *** Auto-Fit All *)

(** The loop of [_auto_fit_all] from any state of its three
    variables. *)
Lemma auto_fit_all_fold subjects done n failed :
  foldl (λ '(done, succeeded, failed_names) s,
           if decide (subject_type s = general ∧ 0 < p25x s) then
             let '(ok, s') := auto_optimize_subject fit_poly_4 fit_poly_3 s in
             if ok then (done ++ [s'], S succeeded, failed_names)
             else (done ++ [s'], succeeded, failed_names ++ [name s])
           else (done ++ [s], succeeded, failed_names))
        (done, n, failed) subjects
  = (done ++
       ((λ s, if decide (subject_type s = general ∧ 0 < p25x s)
              then (auto_optimize_subject fit_poly_4 fit_poly_3 s).2
              else s) <$> subjects),
     Nat.add n
       (length (filter (λ s, (subject_type s = general ∧ 0 < p25x s) ∧
                  (auto_optimize_subject fit_poly_4 fit_poly_3 s).1 = true)
                  subjects)),
     failed ++
       (name <$> filter (λ s, (subject_type s = general ∧ 0 < p25x s) ∧
                    (auto_optimize_subject fit_poly_4 fit_poly_3 s).1 = false)
                    subjects)).
Proof.
  revert done n failed.
  induction subjects as [|s subjects IH]; intros done n failed.
  { cbn. by rewrite !app_nil_r, Nat.add_0_r. }
  cbn [foldl fmap list_fmap].
  destruct (decide (subject_type s = general ∧ 0 < p25x s)) as [He|He].
  - destruct (auto_optimize_subject fit_poly_4 fit_poly_3 s) as [[|] s1]
      eqn:E; rewrite IH; clear IH.
    + rewrite (filter_cons_True (λ s, _ ∧ (auto_optimize_subject _ _ s).1 = true))
        by (by rewrite E).
      rewrite (filter_cons_False (λ s, _ ∧ (auto_optimize_subject _ _ s).1 = false))
        by (rewrite E; by intros [_ ?]).
      cbn [length snd]. rewrite <- !app_assoc. cbn [app].
      by rewrite Nat.add_succ_r.
    + rewrite (filter_cons_False (λ s, _ ∧ (auto_optimize_subject _ _ s).1 = true))
        by (rewrite E; by intros [_ ?]).
      rewrite (filter_cons_True (λ s, _ ∧ (auto_optimize_subject _ _ s).1 = false))
        by (by rewrite E).
      cbn [fmap list_fmap snd]. by rewrite <- !app_assoc.
  - rewrite IH; clear IH.
    rewrite (filter_cons_False (λ s, _ ∧ (auto_optimize_subject _ _ s).1 = true))
      by (by intros [? _]).
    rewrite (filter_cons_False (λ s, _ ∧ (auto_optimize_subject _ _ s).1 = false))
      by (by intros [? _]).
    by rewrite <- !app_assoc.
Qed.
Lemma auto_fit_counts subjects :
  Nat.add
    (length (filter (λ s, (subject_type s = general ∧ 0 < p25x s) ∧
               (auto_optimize_subject fit_poly_4 fit_poly_3 s).1 = true)
               subjects))
    (length (filter (λ s, (subject_type s = general ∧ 0 < p25x s) ∧
               (auto_optimize_subject fit_poly_4 fit_poly_3 s).1 = false)
               subjects))
  = length (filter (λ s, subject_type s = general ∧ 0 < p25x s) subjects).
Proof.
  induction subjects as [|s subjects IH]; [done|].
  destruct (decide (subject_type s = general ∧ 0 < p25x s)) as [He|He].
  - rewrite (filter_cons_True (λ s, subject_type s = general ∧ 0 < p25x s))
      by done.
    destruct (auto_optimize_subject fit_poly_4 fit_poly_3 s).1 eqn:E.
    + rewrite (filter_cons_True (λ s, _ ∧ (auto_optimize_subject _ _ s).1 = true))
        by done.
      rewrite (filter_cons_False (λ s, _ ∧ (auto_optimize_subject _ _ s).1 = false))
        by (rewrite E; by intros [_ ?]).
      cbn [length]. by rewrite <- IH.
    + rewrite (filter_cons_False (λ s, _ ∧ (auto_optimize_subject _ _ s).1 = true))
        by (rewrite E; by intros [_ ?]).
      rewrite (filter_cons_True (λ s, _ ∧ (auto_optimize_subject _ _ s).1 = false))
        by done.
      cbn [length]. by rewrite Nat.add_succ_r, <- IH.
  - rewrite (filter_cons_False (λ s, subject_type s = general ∧ 0 < p25x s))
      by done.
    rewrite (filter_cons_False (λ s, _ ∧ (auto_optimize_subject _ _ s).1 = true))
      by (by intros [? _]).
    by rewrite (filter_cons_False (λ s, _ ∧ (auto_optimize_subject _ _ s).1 = false))
      by (by intros [? _]).
Qed.

(** X28 (_auto_fit_all): Auto-Fit All keeps the number and the order
    of the subjects; the count of optimised subjects plus the number
    of failed names is the number of general subjects with a positive
    P25 mark; every subject keeps what the report says about it and
    its commit mark, and is either left exactly as it was or is a
    general subject with a positive P25 mark on which the optimizer
    succeeded; the failed names are, in order, the names of the
    subjects on which it did not. *)
Theorem auto_fit_all_spec (subjects : list SubjectData) :
  let r := auto_fit_all fit_poly_4 fit_poly_3 subjects in
  length r.1.1 = length subjects ∧
  (r.1.2 + length r.2)%nat
  = length (filter (λ s, subject_type s = general ∧ 0 < p25x s) subjects) ∧
  Forall2 (λ s s', report_data s' = report_data s ∧
                   committed s' = committed s ∧
                   (s' = s ∨
                    (subject_type s = general ∧ 0 < p25x s) ∧
                    auto_optimize_subject fit_poly_4 fit_poly_3 s = (true, s')))
          subjects r.1.1 ∧
  r.2 = name <$> filter (λ s, (subject_type s = general ∧ 0 < p25x s) ∧
                   (auto_optimize_subject fit_poly_4 fit_poly_3 s).1 = false)
                   subjects.
Proof.
  intros r. unfold r, auto_fit_all. rewrite auto_fit_all_fold.
  cbn [fst snd app]. clear r.
  split; [by rewrite length_fmap|].
  split; [rewrite length_fmap; apply auto_fit_counts|].
  split; [|done].
  apply Forall2_fmap_r, Forall_Forall2_diag, Forall_forall.
  intros s _. unfold compose. cbn beta.
  destruct (decide (subject_type s = general ∧ 0 < p25x s)) as [He|He];
    [|split; [done|]; split; [done|]; by left].
  pose proof (auto_optimize_report s) as Hr.
  destruct (auto_optimize_subject fit_poly_4 fit_poly_3 s) as [[|] s1] eqn:E;
    cbn [snd] in *.
  - split; [exact Hr|]. split; [|by right].
    by destruct (auto_optimize_success_frame fit_poly_4 fit_poly_3 s s1 E)
      as (_ & _ & _ & _ & _ & _ & _ & _ & _ & _ & _ & _ & _ & _ & ?).
  - apply auto_optimize_failure in E. subst s1.
    split; [done|]. split; [done|]. by left.
Qed.

End editor.


Lemma drag_pz_bounds_witness :
  let s' := on_mouse_move chord_fit chord_fit3 (Some drag_pz) true
              (Some (of_int 30, of_int 60)) english in
  (two_decimals (p25y english) ∧ float_lit 6 10 ≤ p25y english ∧
   p25y english - float_lit 5 10 ≤ of_int 60 ∧ of_int 10 < p25y english) ∧
  min_x s' = min_x english ∧ min_y s' = min_y english ∧
  pzx s' = pzx english ∧ float_lit 1 10 ≤ pzy s' ∧
  pzy s' = p25y english - float_lit 5 10 ∧
  p25y english * float_lit 95 100 < pzy s'.
Proof.
  intros s'.
  assert (two_decimals (p25y english)) as H1 by (exists 5267%Z; by_compute).
  assert (float_lit 6 10 ≤ p25y english) as H2 by by_compute.
  assert (p25y english - float_lit 5 10 ≤ of_int 60) as H3 by by_compute.
  assert (of_int 10 < p25y english) as H4 by by_compute.
  split; [done|].
  destruct (drag_pz_bounds chord_fit chord_fit3 english (of_int 30)
              (of_int 60)) as (G1 & G2 & G3 & G4 & G5).
  destruct (G5 H1 H2) as (_ & G6 & G7).
  do 4 (split; [assumption|]).
  split; [exact (G6 H3)|exact (G7 H4 H3)].
Defined.

Lemma reset_restores_build_witness :
  0 < of_int 61 ∧
  reset_current chord_fit chord_fit3 interp_parabola
    (run_actions chord_fit chord_fit3 interp_parabola english
       [act_mouse_move (Some drag_min) true (Some (of_int 3, of_int 20));
        act_mouse_move (Some drag_pz) true (Some (of_int 30, of_int 60));
        act_commit; act_auto_fit; act_commit]) = english.
Proof.
  assert (0 < of_int 61) as H by by_compute.
  split; [exact H|].
  exact (reset_restores_build chord_fit chord_fit3 interp_parabola ∅
           "0001" "English"
           (of_int 61) (of_int 72) (of_int 83) (of_int 91) (of_int 99)
           (float_lit 5267 100) (float_lit 7012 100) (float_lit 8318 100)
           (float_lit 8948 100) (float_lit 9360 100) _ H).
Defined.
